(** * plasmotrack-sockets: a shallow embedding of the gateway and of the
    genotyping model, with the properties of its specification.

    The definitions follow the two source files:
    - [Gateway] embeds [app/microspat/events_v2/base.py]
      ([extract_ids], [subset], [base_get]);
    - [Staleness], [Breakpoints], [Genotyping], [Channels] and [Projects]
      embed [app/plasmomapper/models.py] ([params_changed],
      [stale_parameters]; [add_breakpoint], [clear_breakpoints];
      [get_best_run], [analyze_samples], [probabilistic_peak_annotation];
      [find_max_data_point]; [recalculate_locus]).
    The properties come after the definitions, one module of facts for each
    module of definitions, followed by modules of further properties of the
    same code: its error cases, what it leaves untouched, how its loops end
    and how its steps compose.

    Python values are modelled as the code has them: dictionaries as finite
    maps or association lists, lists as lists, exceptions as an explicit
    error result, [while] loops with fuel, rows that a query selects as the
    rows of a table that satisfy the filter.

    Floats are modelled by the rationals they denote; infinities and NaN
    are not represented. Comparisons are exact. The arithmetic of
    [probabilistic_peak_annotation] (sums, differences, products,
    quotients and powers) goes through the operations of the class
    [float_arithmetic]: a power out of range raises [OverflowError], a
    division by 0, which an underflow can produce, raises
    [ZeroDivisionError], and rounding is whatever the instance makes it.
    The properties of that function hold for every instance;
    [exact_arithmetic], which rounds nothing, runs the examples. The
    products and differences in the flag conditions of [analyze_samples]
    are those of the rationals.

    [int()] is that of CPython 3.11 on a UTF-8 string: blanks stripped,
    a sign, digits with single underscores between them, Unicode decimal
    digits and blanks accepted, at most 4300 digits.

    A project is taken with the one parameter row it holds for each
    locus: [get_locus_parameters] is a field of the project record, and
    the failure of [Query.one()] on a project without that row is left
    out, as are the [assert isinstance] statements. *)

From Stdlib Require Import ZArith QArith Qabs Qpower List String Ascii Lia Bool.
From stdpp Require Import gmap strings list fin_maps pretty sorting.

Set Warnings "-register-all".
Local Open Scope string_scope.

(** ** Python values and exceptions *)

(** A float is a NaN, an infinity or a finite value. *)
Inductive pyfloat : Type :=
| FNan
| FInf (negative : bool)
| FFinite (q : Q).

(** The values a decoded JSON payload is made of. *)
Inductive pyval : Type :=
| PyNone
| PyBool (b : bool)
| PyInt (n : Z)
| PyFloat (f : pyfloat)
| PyStr (s : string)
| PyList (l : list pyval)
| PyDict (d : list (string * pyval)).

(** The exceptions the embedded code can raise. [GetException] carries its
    two arguments, the message and the offending payload; [IndexError] is
    tagged with the name of the list that was indexed out of range. *)
Inductive pyexc : Type :=
| KeyError (key : string)
| IndexError (sequence : string)
| TypeError
| ValueError
| OverflowError
| ZeroDivisionError
| GetException (message : string) (payload : pyval).

(** A computation either returns or raises. *)
Inductive result (A : Type) : Type :=
| Ok (a : A)
| Raise (e : pyexc).
Arguments Ok {A} a.
Arguments Raise {A} e.

Definition rbind {A B : Type} (r : result A) (k : A -> result B) : result B :=
match r with
| Ok a => k a
| Raise e => Raise e
end.

#[global] Instance result_ret : MRet result := fun A a => Ok a.
#[global] Instance result_bind : MBind result := fun A B k r => rbind r k.

(** ** Python's [int()] *)

(** [int()] as CPython 3.11 has it. A [str] is a sequence of code points;
    a string of the model is its UTF-8 encoding. *)

Module PyInt.

(** [Py_ISSPACE]: the whitespace [int()] skips around a number. *)
Definition is_space (c : ascii) : bool :=
  let n := nat_of_ascii c in
  ((9 <=? n)%nat && (n <=? 13)%nat) || (n =? 32)%nat.

Definition is_digit (c : ascii) : bool :=
  let n := nat_of_ascii c in (48 <=? n)%nat && (n <=? 57)%nat.

Definition digit_value (c : ascii) : Z := Z.of_nat (nat_of_ascii c - 48).

(** The code points of a UTF-8 string, [None] when the bytes are no UTF-8
    text. [pending] continuation bytes are still to come for the code point
    whose leading bits are [acc]; it must not be below [least]. *)
Fixpoint utf8_decode_from (s : string) (pending : nat) (acc least : N)
  : option (list N) :=
  match s with
  | EmptyString =>
      match pending with
      | O => Some []
      | S _ => None
      end
  | String c r =>
      let b := N_of_ascii c in
      match pending with
      | O =>
          if (b <? 128)%N then option_map (cons b) (utf8_decode_from r 0 0 0)
          else if (192 <=? b)%N && (b <=? 223)%N
               then utf8_decode_from r 1 (b - 192) 128
          else if (224 <=? b)%N && (b <=? 239)%N
               then utf8_decode_from r 2 (b - 224) 2048
          else if (240 <=? b)%N && (b <=? 247)%N
               then utf8_decode_from r 3 (b - 240) 65536
          else None
      | S p =>
          if (128 <=? b)%N && (b <=? 191)%N
          then let acc' := (acc * 64 + (b - 128))%N in
               match p with
               | O =>
                   if (least <=? acc')%N && (acc' <=? 1114111)%N
                      && negb ((55296 <=? acc')%N && (acc' <=? 57343)%N)
                   then option_map (cons acc') (utf8_decode_from r 0 0 0)
                   else None
               | S _ => utf8_decode_from r p acc' least
               end
          else None
      end
  end.

Definition utf8_decode (s : string) : option (list N) := utf8_decode_from s 0 0 0.

(** [Py_UNICODE_ISSPACE] above the ASCII range. *)
Definition unicode_spaces : list N :=
  [ 133; 160; 5760; 8192; 8193; 8194; 8195; 8196; 8197; 8198; 8199; 8200;
    8201; 8202; 8232; 8233; 8239; 8287; 12288 ]%N.

(** The code points of the digits zero of Unicode 14.0; the nine code
    points after each are its digits one to nine. *)
Definition decimal_zeros : list N :=
  [ 48; 1632; 1776; 1984; 2406; 2534; 2662; 2790; 2918; 3046; 3174; 3302;
    3430; 3558; 3664; 3792; 3872; 4160; 4240; 6112; 6160; 6470; 6608; 6784;
    6800; 6992; 7088; 7232; 7248; 42528; 43216; 43264; 43472; 43504; 43600;
    44016; 65296; 66720; 68912; 69734; 69872; 69942; 70096; 70384; 70736;
    70864; 71248; 71360; 71472; 71904; 72016; 72784; 73040; 73120; 92768;
    92864; 93008; 120782; 120792; 120802; 120812; 120822; 123200; 123632;
    125264; 130032 ]%N.

(** [Py_UNICODE_TODECIMAL] *)
Definition decimal_digit (cp : N) : option N :=
  option_map (fun zero => (cp - zero)%N)
             (List.find (fun zero => (zero <=? cp)%N && (cp <? zero + 10)%N)
                        decimal_zeros).

(** [_PyUnicode_TransformDecimalAndSpaceToASCII], for one code point: a
    space for a Unicode space, the ASCII digit for a Unicode decimal digit
    and a question mark, which no number holds, for any other code point
    outside the ASCII range. *)
Definition to_ascii (cp : N) : ascii :=
  if (cp <? 127)%N then ascii_of_N cp
  else if existsb (N.eqb cp) unicode_spaces then " "%char
  else match decimal_digit cp with
       | Some d => ascii_of_N (48 + d)
       | None => "?"%char
       end.

Fixpoint lstrip (s : string) : string :=
  match s with
  | String c r => if is_space c then lstrip r else s
  | EmptyString => EmptyString
  end.

Fixpoint rstrip (s : string) : string :=
  match s with
  | String c r =>
      match rstrip r with
      | EmptyString => if is_space c then EmptyString else String c EmptyString
      | r' => String c r'
      end
  | EmptyString => EmptyString
  end.

(** [sys.int_info.default_max_str_digits] *)
Definition max_str_digits : N := 4300.

(** Decimal digits, single underscores allowed between two digits;
    [count] digits were read so far, and a number of more than
    [max_str_digits] digits is refused. *)
Fixpoint digits (s : string) (acc : Z) (after_digit : bool) (count : N) : option Z :=
  match s with
  | EmptyString =>
      if after_digit && (count <=? max_str_digits)%N then Some acc else None
  | String c r =>
      if is_digit c then digits r (10 * acc + digit_value c)%Z true (N.succ count)
      else if Ascii.eqb c "_"%char
           then (if after_digit then digits r acc false count else None)
           else None
  end.

(** [PyLong_FromString] in base 10: surrounding whitespace, an optional
    sign, decimal digits. [None] stands for [ValueError]. *)
Definition from_ascii (s : string) : option Z :=
  match rstrip (lstrip s) with
  | String "-"%char r => option_map Z.opp (digits r 0%Z false 0%N)
  | String "+"%char r => digits r 0%Z false 0%N
  | r => digits r 0%Z false 0%N
  end.

(** [int(s)] for a string. [None] stands for [ValueError]. *)
Definition of_string (s : string) : option Z :=
  match utf8_decode s with
  | Some code_points =>
      from_ascii (string_of_list_ascii (List.map to_ascii code_points))
  | None => None
  end.

(** Truncation toward zero, as [int(float)] does. *)
Definition truncate (q : Q) : Z := Z.quot (Qnum q) (Zpos (Qden q)).

(** [int(x)]. *)
Definition int (x : pyval) : result Z :=
  match x with
  | PyBool b => Ok (if b then 1%Z else 0%Z)
  | PyInt n => Ok n
  | PyStr s =>
      match of_string s with
      | Some n => Ok n
      | None => Raise ValueError
      end
  | PyFloat FNan => Raise ValueError
  | PyFloat (FInf _) => Raise OverflowError
  | PyFloat (FFinite q) => Ok (truncate q)
  | PyNone | PyList _ | PyDict _ => Raise TypeError
  end.

End PyInt.

(** ** The gateway: [app/microspat/events_v2/base.py] *)

(** The payload of a request is a decoded JSON value; [isinstance(ids, int)]
    holds of integers and booleans, [isinstance(ids, str)] of strings. *)

Module Gateway.

(** [json[key]]: a dictionary lookup; any other receiver that is not
    subscriptable by a string raises [TypeError]. *)
Fixpoint dict_get (d : list (string * pyval)) (key : string) : result pyval :=
  match d with
  | [] => Raise (KeyError key)
  | (k, v) :: r => if String.eqb k key then Ok v else dict_get r key
  end.

Definition getitem (json : pyval) (key : string) : result pyval :=
  match json with
  | PyDict d => dict_get d key
  | _ => Raise TypeError
  end.

(** [list(map(int, ids))]: the first exception ends the conversion. *)
Fixpoint map_int (l : list pyval) : result (list Z) :=
  match l with
  | [] => Ok []
  | x :: r => n ← PyInt.int x; ns ← map_int r; Ok (n :: ns)
  end.

Definition field_id_not_valid (json : pyval) : pyexc :=
  GetException "Field id not valid" json.

(** The body of the [try] block of [extract_ids]. *)
Definition extract_ids_try (json ids : pyval) : result (list Z) :=
  match ids with
  | PyList l => map_int l
  | PyInt _ | PyBool _ | PyStr _ => n ← PyInt.int ids; Ok [n]
  | _ => Raise (field_id_not_valid json)
  end.

(** [extract_ids]: the lookup is outside the [try]; only [ValueError] is
    caught. *)
Definition extract_ids (json : pyval) : result (list Z) :=
  ids ← getitem json "id";
  match extract_ids_try json ids with
  | Raise ValueError => Raise (field_id_not_valid json)
  | r => r
  end.

(** [subset]: the generator's loop, run to its end. [i] is the loop
    index; [None] means the fuel ran out before the loop ended. *)
Fixpoint subset_loop {A : Type} (fuel : nat) (l : list A)
         (subset_size i : nat) : option (list (list A)) :=
  match fuel with
  | O => None
  | S fuel' =>
      if decide (i < length l)%nat
      then option_map (cons (take subset_size (drop i l)))
                      (subset_loop fuel' l subset_size (i + subset_size))
      else Some []
  end.

Definition subset {A : Type} (fuel : nat) (l : list A) (subset_size : nat)
  : option (list (list A)) :=
  subset_loop fuel l subset_size 0.

(** A table row: its primary key and its other columns, serialized. *)
Record row : Type := { row_id : Z; row_columns : string }.

(** [model.query.filter(model.id.in_(id_subset)).all()] *)
Definition query_in (table : list row) (id_subset : list Z) : list row :=
  List.filter (fun r => bool_decide (row_id r ∈ id_subset)) table.

(** One [socketio.emit] call. *)
Record emitted : Type := {
  em_event : string;
  em_key : string;
  em_rows : list row;
  em_namespace : string
}.

(** [base_get(model, schema, namespace, subset_size)(json)]: the events
    published, in order. [request_namespace] is [flask.request.namespace]. *)
Definition base_get (table : list row) (namespace request_namespace : string)
           (subset_size : nat) (fuel : nat) (json : pyval)
  : option (result (list emitted)) :=
  match extract_ids json with
  | Raise e => Some (Raise e)
  | Ok ids =>
      option_map
        (fun chunks =>
           Ok (List.map (fun id_subset =>
                      {| em_event := "get";
                         em_key := namespace;
                         em_rows := query_in table id_subset;
                         em_namespace := request_namespace |}) chunks))
        (subset fuel ids subset_size)
  end.

Definition default_subset_size : nat := 384.

(** The shapes of an [id] field that [extract_ids] rejects outright. *)
Definition bad_shape (ids : pyval) : Prop :=
  match ids with
  | PyNone | PyFloat _ | PyDict _ => True
  | _ => False
  end.

(** An integer (a boolean is one in Python) or a string. *)
Definition int_or_str (v : pyval) : Prop :=
  match v with
  | PyInt _ | PyBool _ | PyStr _ => True
  | _ => False
  end.

(** A string that [int()] rejects. *)
Definition unparsable (v : pyval) : Prop :=
  match v with
  | PyStr s => PyInt.of_string s = None
  | _ => False
  end.

(** A string of the ASCII range below DEL. *)
Fixpoint plain (s : string) : bool :=
  match s with
  | EmptyString => true
  | String c r => (N_of_ascii c <? 127)%N && plain r
  end.

(** An integer that prints with at most [max_str_digits] decimal digits. *)
Definition within_digit_limit (n : Z) : Prop :=
  (Z.abs n < 10 ^ Z.of_N PyInt.max_str_digits)%Z.

(** The values an [id] field holds: the elements of a list, or the single
    value. *)
Definition id_values (ids : pyval) : list pyval :=
  match ids with
  | PyList l => l
  | v => [v]
  end.

Definition holds_unparsable (ids : pyval) : Prop :=
  Exists unparsable (id_values ids).

(** A request and a table to run the handler on. *)
Definition example_request : pyval :=
  PyDict [("id", PyList [PyInt 7; PyStr " 1_000 "; PyStr "-12"])].

Definition example_table : list row :=
  [ {| row_id := 7; row_columns := "a" |};
    {| row_id := 9; row_columns := "b" |};
    {| row_id := -12; row_columns := "c" |} ].

End Gateway.

(** ** Rational comparisons, as Python's [<], [<=], [>] and [>=] *)

Definition Qltb (x y : Q) : bool :=
  match (x ?= y)%Q with
  | Lt => true
  | _ => false
  end.

Definition Qleb (x y : Q) : bool :=
  match (x ?= y)%Q with
  | Gt => false
  | _ => true
  end.

(** ** Float arithmetic *)

(** The probabilities of [probabilistic_peak_annotation] are Python floats.
    The finite floats are rationals; what the model takes from the
    interpreter is their arithmetic. An operation returns the float that
    the exact result is rounded to, and [**] calls [pow] of the C library,
    whose result is out of range ([None]) when it overflows. *)
Class float_arithmetic : Type := {
  float_add : Q -> Q -> Q;
  float_sub : Q -> Q -> Q;
  float_mul : Q -> Q -> Q;
  float_div : Q -> Q -> Q;
  libm_pow : Q -> nat -> option Q
}.

(** [x / y] on floats. *)
Definition true_div `{float_arithmetic} (x y : Q) : result Q :=
  if Qeq_bool y 0 then Raise ZeroDivisionError else Ok (float_div x y).

(** [x ** n] for a float [x] and an integer [n] that is not negative:
    [float_pow] of CPython. The power 0 gives 1 and the base 0 gives 0; the
    sign of a negative base is set aside; the base 1 gives 1; any other
    base goes to [pow], and a result out of range raises [OverflowError].
    An integer 0 raised to [n], which is what [sum([]) ** n] computes,
    has the same values. *)
Definition float_pow `{float_arithmetic} (x : Q) (n : nat) : result Q :=
  match n with
  | O => Ok 1%Q
  | S _ =>
      if Qeq_bool x 0 then Ok 0%Q
      else
        let negate_result := Qltb x 0 && Nat.odd n in
        let iv := Qabs x in
        ix ← (if Qeq_bool iv 1 then Ok 1%Q
              else match libm_pow iv n with
                   | Some ix => Ok ix
                   | None => Raise OverflowError
                   end);
        Ok (if negate_result then (- ix)%Q else ix)
  end.

(** Arithmetic without rounding, to run the definitions on: no result is
    out of range. *)
Definition exact_arithmetic : float_arithmetic :=
  {| float_add := Qplus; float_sub := Qminus; float_mul := Qmult;
     float_div := Qdiv;
     libm_pow := fun x n => Some (x ^ Z.of_nat n)%Q |}.

(** What rounding to the nearest float keeps, on operands that are not
    negative: sums, products and quotients are not negative, a sum is not
    below its first term, a difference [x - y] with [y <= x] lies between
    0 and [x], a quotient [x / y] with [x <= y] is at most 1; and [pow] is
    monotone in its base and keeps the side of 1 its base is on. *)
Class monotone_rounding (fa : float_arithmetic) : Prop := {
  float_add_nonneg : forall x y, (0 <= x)%Q -> (0 <= y)%Q -> (0 <= float_add x y)%Q;
  float_add_increasing : forall x y, (0 <= x)%Q -> (0 <= y)%Q -> (x <= float_add x y)%Q;
  float_mul_nonneg : forall x y, (0 <= x)%Q -> (0 <= y)%Q -> (0 <= float_mul x y)%Q;
  float_div_nonneg : forall x y, (0 <= x)%Q -> (0 <= y)%Q -> (0 <= float_div x y)%Q;
  float_sub_range :
    forall x y, (0 <= y)%Q -> (y <= x)%Q ->
                (0 <= float_sub x y)%Q /\ (float_sub x y <= x)%Q;
  float_div_unit :
    forall x y, (0 <= x)%Q -> (x <= y)%Q -> (0 < y)%Q -> (float_div x y <= 1)%Q;
  libm_pow_nonneg : forall x n a, (0 < x)%Q -> libm_pow x n = Some a -> (0 <= a)%Q;
  libm_pow_monotone :
    forall x y n a b, (0 < x)%Q -> (x <= y)%Q ->
                      libm_pow x n = Some a -> libm_pow y n = Some b -> (a <= b)%Q;
  libm_pow_below_one :
    forall x n a, (0 < x)%Q -> (x <= 1)%Q -> libm_pow x n = Some a -> (a <= 1)%Q;
  libm_pow_above_one :
    forall x n a, (1 <= x)%Q -> libm_pow x n = Some a -> (1 <= a)%Q
}.

(** ** The domain model: [app/plasmomapper/models.py] *)

(** *** Staleness of the locus parameters *)

Module Staleness.

(** An instrumented attribute of a mapped class, as [params_changed] sees
    it: its key, whether its implementation has [get_history] and
    [get_collection], and the history [(added, unchanged, deleted)] that
    [get_history] returns for the instance. *)
Record attribute : Type := {
  key : string;
  has_get_history : bool;
  has_get_collection : bool;
  get_history : list pyval * list pyval * list pyval
}.

(** [object_state(target)]: the [modified] flag and the attributes of the
    class manager. *)
Record instance_state : Type := {
  modified : bool;
  attributes : list attribute
}.

(** Truth value of a list. *)
Definition truthy {A : Type} (l : list A) : bool :=
  match l with
  | [] => false
  | _ :: _ => true
  end.

(** The [for ... else] loop of [params_changed]. *)
Fixpoint params_changed_loop (attrs : list attribute) (params : list string) : bool :=
  match attrs with
  | [] => false
  | attr :: rest =>
      if negb (has_get_history attr) || has_get_collection attr
         || negb (bool_decide (key attr ∈ params))
      then params_changed_loop rest params
      else
        let '(added, unchanged, deleted) := get_history attr in
        if truthy added || truthy deleted then true
        else params_changed_loop rest params
  end.

Definition params_changed (state : instance_state) (params : list string) : bool :=
  if negb (modified state) then false
  else params_changed_loop (attributes state) params.

(** The mapped classes that register [stale_parameters] in
    [__declare_last__]. *)
Inductive locus_params_class : Type :=
| ProjectLocusParams
| ArtifactEstimatorLocusParams
| GenotypingLocusParams
| BinEstimatorLocusParams.

(** A row of [ProjectLocusParams]: its class, its instance state and its
    two staleness flags. *)
Record locus_params_row : Type := {
  row_class : locus_params_class;
  row_state : instance_state;
  scanning_parameters_stale : bool;
  filter_parameters_stale : bool
}.

(** The keys of [PeakScanner.scanning_parameters]. *)
Definition scanning_parameters_keys : list string :=
  [ "scanning_method"; "maxima_window"; "argrelmax_window";
    "trace_smoothing_window"; "trace_smoothing_order"; "tophat_factor";
    "cwt_min_width"; "cwt_max_width"; "min_snr"; "noise_perc" ].

(** The keys of [ProjectLocusParams.filter_parameters]. *)
Definition filter_parameters_keys : list string :=
  [ "min_peak_height"; "max_peak_height"; "min_peak_height_ratio";
    "max_bleedthrough"; "max_crosstalk"; "min_peak_distance" ].

(** Python's [==] between a stored value and a boolean. *)
Definition equals_bool (v : pyval) (b : bool) : bool :=
  match v with
  | PyBool b' => Bool.eqb b' b
  | PyInt n => Z.eqb n (if b then 1 else 0)
  | PyFloat (FFinite q) => Qeq_bool q (if b then 1 else 0)
  | _ => false
  end.

(** The history of a scalar attribute once the boolean [b] is assigned to
    it. The value the attribute was loaded with is the one [deleted]
    holds, or else the unchanged one; there is none when only [added] is
    filled or when the history is empty (a value never set, or expired).
    The new value is unchanged when it equals the loaded one, and added
    otherwise. *)
Definition history_after_set (history : list pyval * list pyval * list pyval)
           (b : bool) : list pyval * list pyval * list pyval :=
  let '(added, unchanged, deleted) := history in
  let original :=
    match deleted, added with
    | o :: _, _ => Some o
    | [], [] => head unchanged
    | [], _ :: _ => None
    end in
  match original with
  | Some o => if equals_bool o b then ([], [PyBool b], []) else ([PyBool b], [], [o])
  | None => ([PyBool b], [], [])
  end.

Definition assign_attribute (k : string) (b : bool) (a : attribute) : attribute :=
  if String.eqb (key a) k
  then {| key := key a; has_get_history := has_get_history a;
          has_get_collection := has_get_collection a;
          get_history := history_after_set (get_history a) b |}
  else a.

(** [target.<k> = b], as the instance state sees it: the instrumented set
    marks the instance modified and enters the history of the attribute. *)
Definition assign_flag (k : string) (b : bool) (state : instance_state) : instance_state :=
  {| modified := true;
     attributes := List.map (assign_attribute k b) (attributes state) |}.

Definition set_filter_parameters_stale (target : locus_params_row) : locus_params_row :=
  {| row_class := row_class target;
     row_state := assign_flag "filter_parameters_stale" true (row_state target);
     scanning_parameters_stale := scanning_parameters_stale target;
     filter_parameters_stale := true |}.

Definition set_scanning_parameters_stale (target : locus_params_row) : locus_params_row :=
  {| row_class := row_class target;
     row_state := assign_flag "scanning_parameters_stale" true (row_state target);
     scanning_parameters_stale := true;
     filter_parameters_stale := filter_parameters_stale target |}.

(** [ProjectLocusParams.stale_parameters(mapper, connection, target)] *)
Definition stale_parameters (target : locus_params_row) : locus_params_row :=
  let target1 :=
    if params_changed (row_state target) filter_parameters_keys
    then set_filter_parameters_stale target
    else target in
  if params_changed (row_state target1) scanning_parameters_keys
  then set_scanning_parameters_stale target1
  else target1.

(** The [before_update] listeners of a class: each of the four classes
    registers [stale_parameters] on itself. *)
Definition before_update_listeners (cls : locus_params_class)
  : list (locus_params_row -> locus_params_row) :=
  match cls with
  | ProjectLocusParams => [stale_parameters]
  | ArtifactEstimatorLocusParams => [stale_parameters]
  | GenotypingLocusParams => [stale_parameters]
  | BinEstimatorLocusParams => [stale_parameters]
  end.

(** What a flush runs on a row before its UPDATE is emitted. *)
Definition before_update (target : locus_params_row) : locus_params_row :=
  fold_left (fun t listener => listener t)
            (before_update_listeners (row_class target)) target.

(** A column attribute whose value the pending update changes. *)
Definition changed_column (a : attribute) : Prop :=
  has_get_history a = true /\ has_get_collection a = false /\
  (fst (fst (get_history a)) <> [] \/ snd (get_history a) <> []).

(** An update that changes a field of the set [params]. *)
Definition update_changes (target : locus_params_row) (params : list string) : Prop :=
  modified (row_state target) = true /\
  exists a, a ∈ attributes (row_state target) /\ key a ∈ params /\ changed_column a.

Definition example_row : locus_params_row :=
  {| row_class := GenotypingLocusParams;
     row_state :=
       {| modified := true;
          attributes :=
            [ {| key := "locus_id"; has_get_history := true;
                 has_get_collection := false;
                 get_history := ([], [PyInt 3], []) |};
              {| key := "max_crosstalk"; has_get_history := true;
                 has_get_collection := false;
                 get_history := ([PyInt 5], [], [PyInt 4]) |};
              {| key := "min_snr"; has_get_history := true;
                 has_get_collection := false;
                 get_history := ([PyInt 2], [], [PyInt 3]) |};
              {| key := "scanning_parameters_stale"; has_get_history := true;
                 has_get_collection := false;
                 get_history := ([], [PyBool false], []) |};
              {| key := "filter_parameters_stale"; has_get_history := true;
                 has_get_collection := false;
                 get_history := ([], [PyBool false], []) |} ] |};
     scanning_parameters_stale := false;
     filter_parameters_stale := false |}.

(** The attributes of the two flags. *)
Definition flag_keys : list string :=
  [ "scanning_parameters_stale"; "filter_parameters_stale" ].

End Staleness.

(** *** Breakpoints of an artifact estimator *)

Module Breakpoints.

(** An [ArtifactEquation] row. *)
Record artifact_equation : Type := {
  sd : Q;
  r_squared : Q;
  slope : Q;
  intercept : Q;
  start_size : Q;
  end_size : Q
}.

(** A parameter set [{'start_size': .., 'end_size': .., 'method': ..}]. *)
Record parameter_set : Type := {
  ps_start_size : Q;
  ps_end_size : Q;
  ps_method : string
}.

(** The locus of the estimator ([self.locus_artifact_estimator.locus]). *)
Record locus : Type := {
  min_base_length : Z;
  max_base_length : Z
}.

Record artifact_estimator : Type := {
  artifact_distance : Q;
  artifact_distance_buffer : Q;
  peak_data : list pyval;
  artifact_equations : list artifact_equation;
  estimator_locus : locus
}.

Section Fit.

(** The regression of the artifact-estimator package: from the training
    peaks and a segment, the fitted [(sd, r_squared, slope, intercept)]. *)
Variable fit : list pyval -> parameter_set -> Q * Q * Q * Q.

(** Modelled from the spec: [AE.ArtifactEstimator.generate_estimating_equations]
    of the artifact-estimator package, which is not among the sources. For
    each segment of [parameter_sets] it fits one equation over the peaks
    whose primary size falls in the segment; the equation carries the
    bounds of its segment. *)
Definition AE_generate_estimating_equations (est : artifact_estimator)
           (parameter_sets : list parameter_set) : list artifact_equation :=
  List.map (fun ps =>
              let '(sd_, r2, slope_, intercept_) := fit (peak_data est) ps in
              {| sd := sd_; r_squared := r2; slope := slope_;
                 intercept := intercept_;
                 start_size := ps_start_size ps;
                 end_size := ps_end_size ps |})
           parameter_sets.

(** [ArtifactEstimator.generate_estimating_equations]: the old equations
    are deleted and one row is stored for each equation fitted. *)
Definition generate_estimating_equations (est : artifact_estimator)
           (parameter_sets : list parameter_set) : artifact_estimator :=
  let cleared :=
    {| artifact_distance := artifact_distance est;
       artifact_distance_buffer := artifact_distance_buffer est;
       peak_data := peak_data est;
       artifact_equations := [];
       estimator_locus := estimator_locus est |} in
  let fitted := AE_generate_estimating_equations cleared parameter_sets in
  {| artifact_distance := artifact_distance est;
     artifact_distance_buffer := artifact_distance_buffer est;
     peak_data := peak_data est;
     artifact_equations :=
       artifact_equations cleared ++
       List.map (fun ae =>
                   {| sd := sd ae; r_squared := r_squared ae; slope := slope ae;
                      intercept := intercept ae; start_size := start_size ae;
                      end_size := end_size ae |}) fitted;
     estimator_locus := estimator_locus est |}.

Definition old_param_sets (est : artifact_estimator) : list parameter_set :=
  List.map (fun eq => {| ps_start_size := start_size eq;
                         ps_end_size := end_size eq;
                         ps_method := "TSR" |})
           (artifact_equations est).

(** The loop of [add_breakpoint] that builds [param_sets]. *)
Fixpoint split_param_sets (old : list parameter_set) (breakpoint : Q)
  : list parameter_set :=
  match old with
  | [] => []
  | param_set :: rest =>
      (if Qltb (ps_start_size param_set) breakpoint
          && Qltb breakpoint (ps_end_size param_set)
       then [ {| ps_start_size := ps_start_size param_set;
                 ps_end_size := breakpoint;
                 ps_method := "TSR" |};
              {| ps_start_size := breakpoint;
                 ps_end_size := ps_end_size param_set;
                 ps_method := "TSR" |} ]
       else [param_set])
      ++ split_param_sets rest breakpoint
  end.

Definition add_breakpoint (est : artifact_estimator) (breakpoint : Q)
  : artifact_estimator :=
  generate_estimating_equations est (split_param_sets (old_param_sets est) breakpoint).

Definition clear_breakpoints (est : artifact_estimator) : artifact_estimator :=
  generate_estimating_equations est
    [ {| ps_start_size := inject_Z (min_base_length (estimator_locus est));
         ps_end_size := inject_Z (max_base_length (estimator_locus est));
         ps_method := "TSR" |} ].

(** The bounds of the equations of an estimator, in order. *)
Definition segments (est : artifact_estimator) : list (Q * Q) :=
  List.map (fun eq => (start_size eq, end_size eq)) (artifact_equations est).

(** [b] lies strictly inside the segment. *)
Definition strictly_inside (b : Q) (seg : Q * Q) : Prop :=
  (fst seg < b)%Q /\ (b < snd seg)%Q.

End Fit.

(** The bounds of a parameter set and of an equation. *)
Definition bounds (ps : parameter_set) : Q * Q := (ps_start_size ps, ps_end_size ps).

Definition equation_bounds (eq : artifact_equation) : Q * Q :=
  (start_size eq, end_size eq).

(** A least-squares stand-in to run the definitions on. *)
Definition example_fit (data : list pyval) (ps : parameter_set) : Q * Q * Q * Q :=
  (1, 1, ps_end_size ps - ps_start_size ps, ps_start_size ps)%Q.

Definition example_estimator : artifact_estimator :=
  {| artifact_distance := (-3)%Q;
     artifact_distance_buffer := (1 # 2)%Q;
     peak_data := [];
     artifact_equations :=
       [ {| sd := 1%Q; r_squared := 1%Q; slope := 0%Q; intercept := 0%Q;
            start_size := 100%Q; end_size := 300%Q |} ];
     estimator_locus := {| min_base_length := 100; max_base_length := 300 |} |}.

(** The segments follow one another: each ends where the next starts. *)
Fixpoint contiguous (l : list parameter_set) : Prop :=
  match l with
  | [] => True
  | ps :: rest =>
      match rest with
      | [] => True
      | next :: _ => ps_end_size ps = ps_start_size next
      end /\ contiguous rest
  end.

(** Every segment starts below its end. *)
Definition increasing (l : list parameter_set) : Prop :=
  Forall (fun ps => (ps_start_size ps < ps_end_size ps)%Q) l.

(** The start of the first segment and the end of the last. *)
Definition span (l : list parameter_set) : option (Q * Q) :=
  match l with
  | [] => None
  | ps :: _ => Some (ps_start_size ps, ps_end_size (List.last l ps))
  end.

(** The test of the loop of [add_breakpoint]. *)
Definition contains (breakpoint : Q) (ps : parameter_set) : bool :=
  Qltb (ps_start_size ps) breakpoint && Qltb breakpoint (ps_end_size ps).

Definition example_param_sets : list parameter_set :=
  [ {| ps_start_size := 100; ps_end_size := 180; ps_method := "TSR" |};
    {| ps_start_size := 180; ps_end_size := 300; ps_method := "TSR" |} ].

End Breakpoints.

(** *** Genotyping projects *)

Module Genotyping.

(** A peak record. The keys that the scanning and filtering pipeline always
    writes are fields; [in_bin] and [probability] are written by later
    stages and may be absent ([None]); [bin_id] may hold Python's [None]. *)
Record peak : Type := {
  peak_index : Z;
  peak_height : Q;
  relative_peak_height : Q;
  bleedthrough_ratio : Q;
  crosstalk_ratio : Q;
  artifact_contribution : Q;
  artifact_error : Q;
  in_bin : option bool;
  bin_id : option Z;
  flags : gmap string bool;
  probability : option Q
}.

Definition set_flags (x : peak) (f : gmap string bool) : peak :=
  {| peak_index := peak_index x; peak_height := peak_height x;
     relative_peak_height := relative_peak_height x;
     bleedthrough_ratio := bleedthrough_ratio x;
     crosstalk_ratio := crosstalk_ratio x;
     artifact_contribution := artifact_contribution x;
     artifact_error := artifact_error x;
     in_bin := in_bin x; bin_id := bin_id x;
     flags := f; probability := probability x |}.

Definition set_probability (x : peak) (q : Q) : peak :=
  {| peak_index := peak_index x; peak_height := peak_height x;
     relative_peak_height := relative_peak_height x;
     bleedthrough_ratio := bleedthrough_ratio x;
     crosstalk_ratio := crosstalk_ratio x;
     artifact_contribution := artifact_contribution x;
     artifact_error := artifact_error x;
     in_bin := in_bin x; bin_id := bin_id x;
     flags := flags x; probability := Some q |}.

(** [GenotypingLocusParams], the columns the analysis reads. *)
Record genotyping_locus_params : Type := {
  soft_artifact_sd_limit : Q;
  hard_artifact_sd_limit : Q;
  offscale_threshold : Q;
  bleedthrough_filter_limit : Q;
  crosstalk_filter_limit : Q;
  relative_peak_height_limit : Q;
  absolute_peak_height_limit : Q;
  failure_threshold : Q
}.

Record ladder : Type := { unusable_sq_limit : Q }.

(** [sizing_quality] is a nullable column. *)
Record well : Type := {
  sizing_quality : option Q;
  well_ladder : ladder
}.

Record channel : Type := {
  channel_sample_id : option Z;
  channel_locus_id : option Z;
  channel_well : well
}.

(** [ProjectChannelAnnotations]; a NULL [annotated_peaks] reads as the
    empty list, which is what [get_best_run] replaces it by. *)
Record project_channel_annotations : Type := {
  ca_id : Z;
  ca_project_id : Z;
  ca_channel : channel;
  ca_annotated_peaks : list peak
}.

(** [ProjectSampleAnnotations] *)
Record project_sample_annotations : Type := {
  sa_id : Z;
  sa_sample_id : Z;
  sa_project_id : Z;
  moi : option nat
}.

(** [SampleLocusAnnotation]; [reference_run] holds the id of the channel
    annotation chosen. *)
Record sample_locus_annotation : Type := {
  la_id : Z;
  sample_annotations_id : Z;
  la_locus_id : Z;
  la_annotated_peaks : list peak;
  reference_run : option Z;
  alleles : gmap string bool;
  la_flags : gmap string bool
}.

(** The three tables the analysis queries. *)
Record database : Type := {
  channel_annotations_table : list project_channel_annotations;
  sample_annotations_table : list project_sample_annotations;
  locus_annotations_table : list sample_locus_annotation
}.

(** A [GenotypingProject]: its id, its probability threshold and
    [get_locus_parameters], which finds the one parameter row the project
    holds for each locus. *)
Record genotyping_project : Type := {
  project_id : Z;
  probability_threshold : Q;
  get_locus_parameters : Z -> genotyping_locus_params
}.

(** Python 2 orders [None] below every number. *)
Definition none_or_lt (a : option Q) (b : Q) : bool :=
  match a with
  | None => true
  | Some q => Qltb q b
  end.

(** [any(peak['flags'].values())] *)
Definition any_flag (f : gmap string bool) : bool :=
  bool_decide (map_Exists (fun _ v => v = true) f).

(** [str(peak['bin_id'])] *)
Definition str_bin_id (b : option Z) : string :=
  match b with
  | None => "None"
  | Some z => pretty z
  end.

(** **** [get_best_run] *)

(** The lambda of the two [filter] calls:
    [y['peak_height'] < offscale_threshold and y['in_bin']]. *)
Definition below_offscale_in_bin (locus_params : genotyping_locus_params) (y : peak)
  : result bool :=
  if Qltb (peak_height y) (offscale_threshold locus_params)
  then match in_bin y with
       | Some b => Ok b
       | None => Raise (KeyError "in_bin")
       end
  else Ok false.

Fixpoint filter_peaks (locus_params : genotyping_locus_params) (peaks : list peak)
  : result (list peak) :=
  match peaks with
  | [] => Ok []
  | y :: rest =>
      b ← below_offscale_in_bin locus_params y;
      kept ← filter_peaks locus_params rest;
      Ok (if (b : bool) then y :: kept else kept)
  end.

(** [max(peaks, key=lambda x: x['peak_height'])]: the first peak of the
    largest height. *)
Fixpoint max_by_height (best : peak) (rest : list peak) : peak :=
  match rest with
  | [] => best
  | x :: rest' =>
      max_by_height (if Qltb (peak_height best) (peak_height x) then x else best) rest'
  end.

(** The height of [max_best_peak] or [max_curr_peak]. *)
Definition best_height (locus_params : genotyping_locus_params) (peaks : list peak)
  : result Q :=
  kept ← filter_peaks locus_params peaks;
  Ok (match kept with
      | [] => 0%Q
      | x :: rest => peak_height (max_by_height x rest)
      end).

(** The loop over the usable channel annotations. *)
Fixpoint get_best_run_loop (locus_params : genotyping_locus_params)
         (best_annotation : option project_channel_annotations)
         (channel_annotations : list project_channel_annotations)
  : result (option project_channel_annotations) :=
  match channel_annotations with
  | [] => Ok best_annotation
  | annotation :: rest =>
      match best_annotation with
      | None => get_best_run_loop locus_params (Some annotation) rest
      | Some best =>
          max_best ← best_height locus_params (ca_annotated_peaks best);
          max_curr ← best_height locus_params (ca_annotated_peaks annotation);
          get_best_run_loop locus_params
            (Some (if Qltb max_best max_curr then annotation else best)) rest
      end
  end.

(** The query of [get_best_run]: the channel annotations of the project
    whose channel has the sample and the locus. *)
Definition for_sample_locus (project : genotyping_project) (sample_id locus_id : Z)
           (x : project_channel_annotations) : bool :=
  bool_decide (ca_project_id x = project_id project)
  && bool_decide (channel_sample_id (ca_channel x) = Some sample_id)
  && bool_decide (channel_locus_id (ca_channel x) = Some locus_id).

(** [x.channel.well.sizing_quality < x.channel.well.ladder.unusable_sq_limit] *)
Definition usable (x : project_channel_annotations) : bool :=
  none_or_lt (sizing_quality (channel_well (ca_channel x)))
             (unusable_sq_limit (well_ladder (channel_well (ca_channel x)))).

Definition get_best_run (project : genotyping_project) (db : database)
           (sample_id locus_id : Z) : result (option project_channel_annotations) :=
  let locus_params := get_locus_parameters project locus_id in
  let channel_annotations :=
    List.filter (for_sample_locus project sample_id locus_id)
                (channel_annotations_table db) in
  let channel_annotations := List.filter usable channel_annotations in
  get_best_run_loop locus_params None channel_annotations.

(** **** [analyze_samples] *)

Definition fresh_flags : gmap string bool :=
  {[ "below_relative_threshold" := false; "bleedthrough" := false;
     "crosstalk" := false; "artifact" := false ]}.

(** The flags [analyze_samples] gives a peak; the flags the peak had are
    not read. *)
Definition stamped_flags (locus_params : genotyping_locus_params) (peak : peak)
  : gmap string bool :=
  let f := fresh_flags in
  let f := if Qltb (relative_peak_height peak) (relative_peak_height_limit locus_params)
           then <["below_relative_threshold" := true]> f else f in
  let adjusted_peak_height :=
    (peak_height peak - artifact_contribution peak
     - artifact_error peak * hard_artifact_sd_limit locus_params)%Q in
  let f := if Qltb adjusted_peak_height (absolute_peak_height_limit locus_params)
           then <["artifact" := true]> f else f in
  let f := if Qltb (bleedthrough_filter_limit locus_params) (bleedthrough_ratio peak)
              || Qltb (offscale_threshold locus_params)
                      (peak_height peak * bleedthrough_ratio peak)%Q
           then <["bleedthrough" := true]> f else f in
  let f := if Qltb (crosstalk_filter_limit locus_params) (crosstalk_ratio peak)
              || Qltb (offscale_threshold locus_params)
                      (peak_height peak * crosstalk_ratio peak)%Q
           then <["crosstalk" := true]> f else f in
  f.

Definition stamp_flags (locus_params : genotyping_locus_params) (x : peak) : peak :=
  set_flags x (stamped_flags locus_params x).

(** [any(x['peak_height'] > failure_threshold for x in peaks)] *)
Definition exceeds_failure_threshold (locus_params : genotyping_locus_params)
           (peaks : list peak) : bool :=
  existsb (fun x => Qltb (failure_threshold locus_params) (peak_height x)) peaks.

Definition is_offscale (locus_params : genotyping_locus_params) (peaks : list peak) : bool :=
  existsb (fun x =>
             Qltb (offscale_threshold locus_params) (peak_height x)
             || Qltb (offscale_threshold locus_params)
                     (peak_height x * bleedthrough_ratio x)%Q
             || Qltb (offscale_threshold locus_params)
                     (peak_height x * crosstalk_ratio x)%Q) peaks.

(** [peak.get('in_bin', False) and not any(peak['flags'].values())] *)
Definition in_bin_unflagged (peak : peak) : bool :=
  default false (in_bin peak) && negb (any_flag (flags peak)).

(** The loop that sets [alleles[str(peak['bin_id'])] = True]. *)
Definition call_alleles (alleles : gmap string bool) (peaks : list peak)
  : gmap string bool :=
  fold_left (fun al peak =>
               if in_bin_unflagged peak
               then <[str_bin_id (bin_id peak) := true]> al
               else al) peaks alleles.

(** [dict.fromkeys(alleles, False)] *)
Definition all_false (alleles : gmap string bool) : gmap string bool :=
  (fun _ => false) <$> alleles.

(** The join of a locus annotation with its sample annotation. *)
Definition sample_annotation_of (db : database) (la : sample_locus_annotation)
  : option project_sample_annotations :=
  List.find (fun sa => bool_decide (sa_id sa = sample_annotations_id la))
            (sample_annotations_table db).

Definition in_project (project : genotyping_project) (db : database)
           (la : sample_locus_annotation) : bool :=
  match sample_annotation_of db la with
  | Some sa => bool_decide (sa_project_id sa = project_id project)
  | None => false
  end.

(** The body of the loop of [analyze_samples], for one locus annotation of
    the sample [sample_id]. The flags are written on the dictionaries of
    the peaks, which the channel annotation shares; [get_best_run] never
    reads them. *)
Definition analyze_sample (project : genotyping_project) (db : database)
           (locus_params : genotyping_locus_params) (sample_id : Z)
           (locus_annotation : sample_locus_annotation)
  : result sample_locus_annotation :=
  channel_annotation ←
    get_best_run project db sample_id (la_locus_id locus_annotation);
  match channel_annotation with
  | Some ca =>
      let peaks := List.map (stamp_flags locus_params) (ca_annotated_peaks ca) in
      let failure := negb (exceeds_failure_threshold locus_params peaks) in
      let offscale := is_offscale locus_params peaks in
      let new_flags :=
        <["manual_curation" := false]>
          (<["offscale" := offscale]>
             (<["failure" := failure]> (la_flags locus_annotation))) in
      let cleared := all_false (alleles locus_annotation) in
      Ok {| la_id := la_id locus_annotation;
            sample_annotations_id := sample_annotations_id locus_annotation;
            la_locus_id := la_locus_id locus_annotation;
            la_annotated_peaks := peaks;
            reference_run := Some (ca_id ca);
            alleles := if negb failure then call_alleles cleared peaks else cleared;
            la_flags := new_flags |}
  | None =>
      Ok {| la_id := la_id locus_annotation;
            sample_annotations_id := sample_annotations_id locus_annotation;
            la_locus_id := la_locus_id locus_annotation;
            la_annotated_peaks := [];
            reference_run := None;
            alleles := alleles locus_annotation;
            la_flags := la_flags locus_annotation |}
  end.

(** A loop over the rows of a table that a query selects; the other rows
    stay as they are. The first exception ends the loop. *)
Fixpoint for_rows {A S : Type} (selected : A -> bool)
         (body : S -> A -> result (S * A)) (s : S) (table : list A)
  : result (S * list A) :=
  match table with
  | [] => Ok (s, [])
  | x :: rest =>
      '(s1, x') ← (if selected x then body s x else Ok (s, x));
      '(s2, rest') ← for_rows selected body s1 rest;
      Ok (s2, x' :: rest')
  end.

Definition analyze_samples (project : genotyping_project) (db : database)
           (locus_id : Z) : result database :=
  let locus_params := get_locus_parameters project locus_id in
  '(_, locus_annotations) ←
    for_rows
      (fun la => in_project project db la && bool_decide (la_locus_id la = locus_id))
      (fun (_ : unit) la =>
         match sample_annotation_of db la with
         | Some sa =>
             la' ← analyze_sample project db locus_params (sa_sample_id sa) la;
             Ok (tt, la')
         | None => Ok (tt, la)
         end)
      tt (locus_annotations_table db);
  Ok {| channel_annotations_table := channel_annotations_table db;
        sample_annotations_table := sample_annotations_table db;
        locus_annotations_table := locus_annotations |}.

(** **** [probabilistic_peak_annotation] *)

Definition set_annotated_peaks (la : sample_locus_annotation) (peaks : list peak)
  : sample_locus_annotation :=
  {| la_id := la_id la; sample_annotations_id := sample_annotations_id la;
     la_locus_id := la_locus_id la; la_annotated_peaks := peaks;
     reference_run := reference_run la; alleles := alleles la;
     la_flags := la_flags la |}.

Definition set_alleles (la : sample_locus_annotation) (al : gmap string bool)
  : sample_locus_annotation :=
  {| la_id := la_id la; sample_annotations_id := sample_annotations_id la;
     la_locus_id := la_locus_id la; la_annotated_peaks := la_annotated_peaks la;
     reference_run := reference_run la; alleles := al;
     la_flags := la_flags la |}.

Definition set_moi (sa : project_sample_annotations) (m : nat)
  : project_sample_annotations :=
  {| sa_id := sa_id sa; sa_sample_id := sa_sample_id sa;
     sa_project_id := sa_project_id sa; moi := Some m |}.

(** [locus_annotation.annotated_peaks and not locus_annotation.flags['failure']] *)
Definition active (la : sample_locus_annotation) : result bool :=
  match la_annotated_peaks la with
  | [] => Ok false
  | _ :: _ =>
      match la_flags la !! "failure" with
      | Some b => Ok (negb b)
      | None => Raise (KeyError "failure")
      end
  end.

(** [peak['probability']] *)
Definition get_probability (x : peak) : result Q :=
  match probability x with
  | Some q => Ok q
  | None => Raise (KeyError "probability")
  end.

(** The first loop: probability 1 for an unflagged peak in a bin, else 0. *)
Definition initial_probability (x : peak) : Q :=
  if in_bin_unflagged x then 1%Q else 0%Q.

Definition initialize_probabilities (la : sample_locus_annotation)
  : result sample_locus_annotation :=
  a ← active la;
  Ok (if (a : bool)
      then set_annotated_peaks la
             (List.map (fun x => set_probability x (initial_probability x))
                       (la_annotated_peaks la))
      else la).

(** [allele_counts] and [locus_totals]. *)
Record tally : Type := {
  allele_counts : gmap Z (gmap (option Z) nat);
  locus_totals : gmap Z nat
}.

Definition add_total (t : tally) (locus : Z) : tally :=
  {| allele_counts := allele_counts t;
     locus_totals := <[locus := S (default O (locus_totals t !! locus))]> (locus_totals t) |}.

Definition add_count (t : tally) (locus : Z) (bin : option Z) : tally :=
  let of_locus := default ∅ (allele_counts t !! locus) in
  {| allele_counts :=
       <[locus := <[bin := S (default O (of_locus !! bin))]> of_locus]> (allele_counts t);
     locus_totals := locus_totals t |}.

(** The condition under which a peak is counted:
    [peak['in_bin'] and not any(peak['flags'].values()) and
     peak['probability'] >= self.probability_threshold]. *)
Definition counted (threshold : Q) (x : peak) : result bool :=
  match in_bin x with
  | None => Raise (KeyError "in_bin")
  | Some false => Ok false
  | Some true =>
      if any_flag (flags x) then Ok false
      else q ← get_probability x; Ok (Qleb threshold q)
  end.

Fixpoint count_peaks (threshold : Q) (locus : Z) (t : tally) (peaks : list peak)
  : result tally :=
  match peaks with
  | [] => Ok t
  | x :: rest =>
      c ← counted threshold x;
      count_peaks threshold locus (if (c : bool) then add_count t locus (bin_id x) else t) rest
  end.

(** The loop over [all_locus_annotations] that fills the two tallies. *)
Fixpoint count_alleles (threshold : Q) (selected : sample_locus_annotation -> bool)
         (t : tally) (table : list sample_locus_annotation) : result tally :=
  match table with
  | [] => Ok t
  | la :: rest =>
      t' ← (if selected la
            then a ← active la;
                 if (a : bool)
                 then count_peaks threshold (la_locus_id la)
                                  (add_total t (la_locus_id la)) (la_annotated_peaks la)
                 else Ok t
            else Ok t);
      count_alleles threshold selected t' rest
  end.

Section Arithmetic.

Context {fa : float_arithmetic}.

(** [allele_frequencies]: each count over the total of its locus,
    [count / float(total)]. A locus has counts only once its total was
    incremented, so the total is never zero here. *)
Definition allele_frequencies (t : tally) : gmap Z (gmap (option Z) Q) :=
  map_imap (fun (locus : Z) (of_locus : gmap (option Z) nat) =>
              Some ((fun c : nat =>
                       float_div (inject_Z (Z.of_nat c))
                                 (inject_Z (Z.of_nat (default O (locus_totals t !! locus)))))
                      <$> of_locus))
           (allele_counts t).

(** [len([x for x in peaks if x['probability'] >= threshold])] *)
Fixpoint count_called (threshold : Q) (peaks : list peak) : result nat :=
  match peaks with
  | [] => Ok O
  | x :: rest =>
      q ← get_probability x;
      n ← count_called threshold rest;
      Ok (if Qleb threshold q then S n else n)
  end.

(** The loop that computes [sample_annotation.moi]. *)
Fixpoint sample_moi (threshold : Q) (selected : sample_locus_annotation -> bool)
         (m : nat) (table : list sample_locus_annotation) : result nat :=
  match table with
  | [] => Ok m
  | la :: rest =>
      m' ← (if selected la
            then a ← active la;
                 if (a : bool)
                 then n ← count_called threshold (la_annotated_peaks la);
                      Ok (Nat.max m n)
                 else Ok m
            else Ok m);
      sample_moi threshold selected m' rest
  end.

(** [all_peaks]: the called peaks, each with its position in [peaks_copy],
    which identifies the dictionary that the later assignment changes. *)
Fixpoint all_peaks_from (threshold : Q) (i : nat) (peaks : list peak)
  : result (list (nat * peak)) :=
  match peaks with
  | [] => Ok []
  | x :: rest =>
      q ← get_probability x;
      called ← all_peaks_from threshold (S i) rest;
      Ok (if Qltb threshold q then (i, x) :: called else called)
  end.

(** The condition of [possible_artifact_peaks]. *)
Definition possible_artifact (locus_params : genotyping_locus_params) (x : peak) : bool :=
  Qleb (float_sub (float_sub (peak_height x) (artifact_contribution x))
                  (float_mul (artifact_error x) (soft_artifact_sd_limit locus_params)))
       (absolute_peak_height_limit locus_params).

(** [allele_frequencies[locus_id][x['bin_id']] * x['probability']] *)
Definition weighted_frequency (frequencies : gmap Z (gmap (option Z) Q))
           (locus : Z) (x : peak) : result Q :=
  match default ∅ (frequencies !! locus) !! bin_id x with
  | None => Raise (KeyError (str_bin_id (bin_id x)))
  | Some f => q ← get_probability x; Ok (float_mul f q)
  end.

Fixpoint weighted_frequencies (frequencies : gmap Z (gmap (option Z) Q))
         (locus : Z) (peaks : list (nat * peak)) : result (list Q) :=
  match peaks with
  | [] => Ok []
  | (_, x) :: rest =>
      f ← weighted_frequency frequencies locus x;
      fs ← weighted_frequencies frequencies locus rest;
      Ok (f :: fs)
  end.

(** [sum(l)]: the elements are added one after the other, from 0. *)
Definition py_sum (l : list Q) : Q := fold_left float_add l 0%Q.

(** [other_peaks] *)
Definition other_peaks (all_peaks : list (nat * peak)) (x : peak) : list (nat * peak) :=
  List.filter (fun y => negb (Z.eqb (peak_index (snd y)) (peak_index x))) all_peaks.

(** The two assignments that compute a new probability, for the sum
    [others] of [other_peak_freqs]: [OverflowError] when a power is out
    of range, [ZeroDivisionError] when the total is 0. *)
Definition probability_formula (this_peak_freq others : Q) (m : nat) : result Q :=
  total_probability ← float_pow (float_add others this_peak_freq) m;
  others_power ← float_pow others m;
  true_div (float_sub total_probability others_power) total_probability.

(** The body of the first loop over [possible_artifact_peaks]. *)
Definition new_probability (frequencies : gmap Z (gmap (option Z) Q)) (locus : Z)
           (m : nat) (all_peaks : list (nat * peak)) (x : peak) : result Q :=
  this_peak_freq ← weighted_frequency frequencies locus x;
  other_peak_freqs ← weighted_frequencies frequencies locus (other_peaks all_peaks x);
  probability_formula this_peak_freq (py_sum other_peak_freqs) m.

Fixpoint compute_new_probs (frequencies : gmap Z (gmap (option Z) Q)) (locus : Z)
         (m : nat) (all_peaks possible : list (nat * peak)) (new_probs : gmap Z Q)
  : result (gmap Z Q) :=
  match possible with
  | [] => Ok new_probs
  | (_, x) :: rest =>
      q ← new_probability frequencies locus m all_peaks x;
      compute_new_probs frequencies locus m all_peaks rest
                        (<[peak_index x := q]> new_probs)
  end.

(** The second loop over [possible_artifact_peaks]: the peak at position
    [i] gets its new probability. *)
Fixpoint assign_new_probs (threshold : Q) (new_probs : gmap Z Q)
         (possible : list (nat * peak)) (peaks_copy : list peak)
         (alleles_changed : bool) : result (bool * list peak) :=
  match possible with
  | [] => Ok (alleles_changed, peaks_copy)
  | (i, x) :: rest =>
      match new_probs !! peak_index x with
      | None => Raise (KeyError (pretty (peak_index x)))
      | Some q =>
          assign_new_probs threshold new_probs rest
                           (<[i := set_probability x q]> peaks_copy)
                           (if Qltb q threshold then true else alleles_changed)
      end
  end.

(** The body of the second loop over the locus annotations of a sample. *)
Definition annotate_locus (project : genotyping_project)
           (frequencies : gmap Z (gmap (option Z) Q)) (m : nat)
           (alleles_changed : bool) (la : sample_locus_annotation)
  : result (bool * sample_locus_annotation) :=
  let locus_params := get_locus_parameters project (la_locus_id la) in
  let peaks_copy := la_annotated_peaks la in
  all_peaks ← all_peaks_from (probability_threshold project) 0 peaks_copy;
  let possible_artifact_peaks :=
    List.filter (fun y => possible_artifact locus_params (snd y)) all_peaks in
  new_probs ← compute_new_probs frequencies (la_locus_id la) m all_peaks
                                possible_artifact_peaks ∅;
  '(changed, peaks) ← assign_new_probs (probability_threshold project) new_probs
                                       possible_artifact_peaks peaks_copy
                                       alleles_changed;
  Ok (changed, set_annotated_peaks la peaks).

(** The locus annotations of a sample annotation of the project:
    [locus_annotation_dict[sample_annotation.id]]. *)
Definition of_sample (project : genotyping_project) (db : database)
           (sa : project_sample_annotations) (la : sample_locus_annotation) : bool :=
  in_project project db la && bool_decide (sample_annotations_id la = sa_id sa).

(** The body of the loop over [sample_annotations]: the state is
    [alleles_changed] and the locus annotations; [db] is the database the
    call started from, which [locus_annotation_dict] was built from. *)
Definition annotate_sample (project : genotyping_project) (db : database)
           (frequencies : gmap Z (gmap (option Z) Q))
           (state : bool * list sample_locus_annotation)
           (sa : project_sample_annotations)
  : result (bool * list sample_locus_annotation * project_sample_annotations) :=
  let '(alleles_changed, table) := state in
  m ← sample_moi (probability_threshold project) (of_sample project db sa) 0 table;
  '(changed, table') ←
    for_rows (of_sample project db sa)
             (fun changed la =>
                a ← active la;
                if (a : bool)
                then annotate_locus project frequencies m changed la
                else Ok (changed, la))
             alleles_changed table;
  Ok (changed, table', set_moi sa m).

(** One pass of the [while] loop: the new tables and [alleles_changed].
    [all_locus_annotations], [locus_annotation_dict] and
    [sample_annotations] are queried once, before the loop: the rows they
    select are those of the database [initial] the call started from. *)
Definition cycle (project : genotyping_project) (initial db : database)
  : result (database * bool) :=
  t ← count_alleles (probability_threshold project) (in_project project initial)
                    {| allele_counts := ∅; locus_totals := ∅ |}
                    (locus_annotations_table db);
  let frequencies := allele_frequencies t in
  '(state, samples) ←
    for_rows (fun sa => bool_decide (sa_project_id sa = project_id project))
             (annotate_sample project initial frequencies)
             (false, locus_annotations_table db)
             (sample_annotations_table db);
  Ok ({| channel_annotations_table := channel_annotations_table db;
         sample_annotations_table := samples;
         locus_annotations_table := snd state |}, fst state).

(** The [while alleles_changed] loop; the second component counts the
    cycles. [None]: the fuel ran out before the loop ended. *)
Fixpoint cycles_loop (fuel : nat) (project : genotyping_project)
         (initial db : database) (cycles : nat) : option (result (database * nat)) :=
  match fuel with
  | O => None
  | S fuel' =>
      match cycle project initial db with
      | Raise e => Some (Raise e)
      | Ok (db', alleles_changed) =>
          if alleles_changed
          then cycles_loop fuel' project initial db' (S cycles)
          else Some (Ok (db', S cycles))
      end
  end.

(** The last loop: the alleles of the peaks at or above the threshold. *)
Fixpoint call_probable_alleles (threshold : Q) (al : gmap string bool)
         (peaks : list peak) : result (gmap string bool) :=
  match peaks with
  | [] => Ok al
  | x :: rest =>
      q ← get_probability x;
      call_probable_alleles threshold
        (if Qleb threshold q then <[str_bin_id (bin_id x) := true]> al else al) rest
  end.

Definition finalize_alleles (threshold : Q) (la : sample_locus_annotation)
  : result sample_locus_annotation :=
  let cleared := all_false (alleles la) in
  a ← active la;
  if (a : bool)
  then al ← call_probable_alleles threshold cleared (la_annotated_peaks la);
       Ok (set_alleles la al)
  else Ok (set_alleles la cleared).

Definition finalize (project : genotyping_project) (initial db : database)
  : result database :=
  '(table, _) ←
    for_rows (fun sa => bool_decide (sa_project_id sa = project_id project))
             (fun table sa =>
                '(_, table') ←
                  for_rows (of_sample project initial sa)
                           (fun (_ : unit) la =>
                              la' ← finalize_alleles (probability_threshold project) la;
                              Ok (tt, la'))
                           tt table;
                Ok (table', sa))
             (locus_annotations_table db) (sample_annotations_table db);
  Ok {| channel_annotations_table := channel_annotations_table db;
        sample_annotations_table := sample_annotations_table db;
        locus_annotations_table := table |}.

(** [probabilistic_peak_annotation]: the tables it leaves and the number
    of cycles it reports. *)
Definition probabilistic_peak_annotation (fuel : nat) (project : genotyping_project)
           (db : database) : option (result (database * nat)) :=
  match for_rows (in_project project db)
                 (fun (_ : unit) la => la' ← initialize_probabilities la; Ok (tt, la'))
                 tt (locus_annotations_table db) with
  | Raise e => Some (Raise e)
  | Ok (_, initialized) =>
      let db0 := {| channel_annotations_table := channel_annotations_table db;
                    sample_annotations_table := sample_annotations_table db;
                    locus_annotations_table := initialized |} in
      match cycles_loop fuel project db db0 0 with
      | None => None
      | Some (Raise e) => Some (Raise e)
      | Some (Ok (db1, cycles)) =>
          match finalize project db db1 with
          | Raise e => Some (Raise e)
          | Ok db2 => Some (Ok (db2, cycles))
          end
      end
  end.

End Arithmetic.

(** **** Vocabulary of the properties of [probabilistic_peak_annotation] *)

(** A called peak: its probability is above the threshold. *)
Definition called (threshold : Q) (x : peak) : bool :=
  match probability x with
  | Some q => Qltb threshold q
  | None => false
  end.

(** The allele frequency of the bin of a peak. *)
Definition frequency_of (frequencies : gmap Z (gmap (option Z) Q)) (locus : Z)
           (x : peak) : Q :=
  default 0%Q (default ∅ (frequencies !! locus) !! bin_id x).

Section Formula.

Context {fa : float_arithmetic}.

(** [this = allele_frequency(bin(x)) * probability(x)] *)
Definition weight (frequencies : gmap Z (gmap (option Z) Q)) (locus : Z) (x : peak) : Q :=
  float_mul (frequency_of frequencies locus x) (default 0%Q (probability x)).

(** [others]: the sum of the weights of the called peaks other than [p],
    which the code tells from [p] by their [peak_index]. *)
Definition others (frequencies : gmap Z (gmap (option Z) Q)) (locus : Z)
           (threshold : Q) (peaks : list peak) (p : peak) : Q :=
  py_sum (List.map (weight frequencies locus)
            (List.filter (fun q => negb (Z.eqb (peak_index q) (peak_index p)))
                         (List.filter (called threshold) peaks))).

(** [total = (others + this) ^ moi] *)
Definition total (frequencies : gmap Z (gmap (option Z) Q)) (locus : Z)
           (threshold : Q) (m : nat) (peaks : list peak) (p : peak) : result Q :=
  float_pow (float_add (others frequencies locus threshold peaks p)
                       (weight frequencies locus p)) m.

(** [(total - others ^ moi) / total], in the arithmetic of the floats. *)
Definition formula (frequencies : gmap Z (gmap (option Z) Q)) (locus : Z)
           (threshold : Q) (m : nat) (peaks : list peak) (p : peak) : result Q :=
  t ← total frequencies locus threshold m peaks p;
  others_power ← float_pow (others frequencies locus threshold peaks p) m;
  true_div (float_sub t others_power) t.

(** [la'] is [la] with the probability of each called possible-artifact
    peak replaced by the value of the formula, and nothing else changed. *)
Definition reannotated (project : genotyping_project)
           (frequencies : gmap Z (gmap (option Z) Q)) (m : nat)
           (la la' : sample_locus_annotation) : Prop :=
  exists peaks',
    la' = set_annotated_peaks la peaks' /\
    length peaks' = length (la_annotated_peaks la) /\
    forall j p,
      la_annotated_peaks la !! j = Some p ->
      if called (probability_threshold project) p
         && possible_artifact (get_locus_parameters project (la_locus_id la)) p
      then exists q,
          formula frequencies (la_locus_id la) (probability_threshold project) m
                  (la_annotated_peaks la) p = Ok q /\
          peaks' !! j = Some (set_probability p q)
      else peaks' !! j = Some p.

(** The row of a sample annotation after the pass over that sample: it
    has other peaks at most, and it is [reannotated] when it has peaks, has
    not failed and its peak indices are distinct. *)
Definition annotated_row (project : genotyping_project)
           (frequencies : gmap Z (gmap (option Z) Q)) (m : nat)
           (la la' : sample_locus_annotation) : Prop :=
  (exists peaks', la' = set_annotated_peaks la peaks') /\
  (active la = Ok true ->
   NoDup (List.map peak_index (la_annotated_peaks la)) ->
   reannotated project frequencies m la la').

End Formula.

(** The called peaks of [peaks] with their positions, counted from [i]. *)
Fixpoint indexed_called (threshold : Q) (i : nat) (peaks : list peak)
  : list (nat * peak) :=
  match peaks with
  | [] => []
  | x :: rest =>
      if called threshold x
      then (i, x) :: indexed_called threshold (S i) rest
      else indexed_called threshold (S i) rest
  end.

(** A sample with a strong peak and a weak one next to a stutter. *)
Definition example_called_peak (index : Z) (height contribution : Q) (bin : Z) : peak :=
  {| peak_index := index; peak_height := height; relative_peak_height := 1;
     bleedthrough_ratio := 0; crosstalk_ratio := 0;
     artifact_contribution := contribution; artifact_error := 10;
     in_bin := Some true; bin_id := Some bin;
     flags := fresh_flags; probability := Some 1%Q |}.

Definition example_called_annotation : sample_locus_annotation :=
  {| la_id := 31; sample_annotations_id := 20; la_locus_id := 5;
     la_annotated_peaks :=
       [ example_called_peak 100 4000 0 7; example_called_peak 110 200 180 8 ];
     reference_run := Some 2%Z;
     alleles := {[ "7" := true; "8" := true ]};
     la_flags := {[ "failure" := false ]} |}.

Definition example_sample : project_sample_annotations :=
  {| sa_id := 20; sa_sample_id := 10; sa_project_id := 1; moi := None |}.

Definition example_called_database : database :=
  {| channel_annotations_table := [];
     sample_annotations_table := [example_sample];
     locus_annotations_table := [example_called_annotation] |}.

Definition example_frequencies : gmap Z (gmap (option Z) Q) :=
  {[ 5%Z := {[ Some 7%Z := 1%Q; Some 8%Z := (1 # 2)%Q ]} ]}.

Section Settled.

Context {fa : float_arithmetic}.

(** A locus annotation on which a cycle has nothing to do: its peaks
    have a probability and the key [in_bin], and none of them is a possible
    artifact. *)
Definition settled (project : genotyping_project) (la : sample_locus_annotation) : Prop :=
  (exists b, active la = Ok b) /\
  (active la = Ok true ->
   forall x, In x (la_annotated_peaks la) ->
             probability x <> None /\ in_bin x <> None /\
             possible_artifact (get_locus_parameters project (la_locus_id la)) x = false).

(** [la'] is [la] with other alleles. *)
Definition same_but_alleles (la la' : sample_locus_annotation) : Prop :=
  exists al, la' = set_alleles la al.

(** What the first loop leaves in a row of the project. *)
Definition initialized_row (la : sample_locus_annotation) : sample_locus_annotation :=
  match active la with
  | Ok true =>
      set_annotated_peaks la
        (List.map (fun x => set_probability x (initial_probability x))
                  (la_annotated_peaks la))
  | _ => la
  end.

(** The premise of convergence in one cycle: in the locus annotations of
    the project, an annotation with peaks has a [failure] flag, and the
    peaks of one that has not failed carry [in_bin] and are not possible
    artifacts. *)
Definition no_possible_artifact (project : genotyping_project) (db : database) : Prop :=
  forall la,
    In la (locus_annotations_table db) -> in_project project db la = true ->
    (la_annotated_peaks la <> [] -> la_flags la !! "failure" <> None) /\
    (active la = Ok true ->
     forall x, In x (la_annotated_peaks la) ->
               in_bin x <> None /\
               possible_artifact (get_locus_parameters project (la_locus_id la)) x = false).

End Settled.

(** **** Vocabulary of the properties of [get_best_run] *)

(** A peak that counts for the choice of the best run: in a bin and under
    the offscale threshold. *)
Definition qualifying (locus_params : genotyping_locus_params) (y : peak) : Prop :=
  (peak_height y < offscale_threshold locus_params)%Q /\ in_bin y = Some true.

(** [h] is the height of the tallest qualifying peak of [peaks], or 0 when
    there is none. *)
Definition is_best_height (locus_params : genotyping_locus_params)
           (peaks : list peak) (h : Q) : Prop :=
  ((forall y, In y peaks -> ~ qualifying locus_params y) /\ h = 0%Q) \/
  (exists y, In y peaks /\ qualifying locus_params y /\ h = peak_height y /\
             forall z, In z peaks -> qualifying locus_params z ->
                       (peak_height z <= h)%Q).

(** The channel annotations that [get_best_run] chooses among. *)
Definition candidate (project : genotyping_project) (db : database)
           (sample_id locus_id : Z) (x : project_channel_annotations) : Prop :=
  In x (channel_annotations_table db) /\
  for_sample_locus project sample_id locus_id x = true /\
  usable x = true.

(** The sizing quality of the well is at or above the limit of its ladder. *)
Definition unusable (x : project_channel_annotations) : Prop :=
  exists q, sizing_quality (channel_well (ca_channel x)) = Some q /\
            (unusable_sq_limit (well_ladder (channel_well (ca_channel x))) <= q)%Q.

(** Every peak carries the key [in_bin]. *)
Definition has_in_bin (peaks : list peak) : Prop :=
  forall y, In y peaks -> in_bin y <> None.

(** The filter of [get_best_run], when no [KeyError] is possible. *)
Definition keeps (locus_params : genotyping_locus_params) (y : peak) : bool :=
  Qltb (peak_height y) (offscale_threshold locus_params)
  && bool_decide (in_bin y = Some true).

(** The value [best_height] computes. *)
Definition tallest (locus_params : genotyping_locus_params) (peaks : list peak) : Q :=
  match List.filter (keeps locus_params) peaks with
  | [] => 0%Q
  | x :: rest => peak_height (max_by_height x rest)
  end.

(** **** A small project to run the definitions on *)

Definition example_params : genotyping_locus_params :=
  {| soft_artifact_sd_limit := 3; hard_artifact_sd_limit := 1;
     offscale_threshold := 32000; bleedthrough_filter_limit := 2;
     crosstalk_filter_limit := 2; relative_peak_height_limit := 1 # 100;
     absolute_peak_height_limit := 50; failure_threshold := 500 |}.

Definition example_project : genotyping_project :=
  {| project_id := 1; probability_threshold := 1 # 2;
     get_locus_parameters := fun _ => example_params |}.

Definition example_peak (index : Z) (height : Q) (bin : option Z) : peak :=
  {| peak_index := index; peak_height := height; relative_peak_height := 1;
     bleedthrough_ratio := 0; crosstalk_ratio := 0;
     artifact_contribution := 0; artifact_error := 0;
     in_bin := Some (bool_decide (bin <> None)); bin_id := bin;
     flags := ∅; probability := None |}.

Definition example_channel (sq : Q) : channel :=
  {| channel_sample_id := Some 10%Z; channel_locus_id := Some 5%Z;
     channel_well := {| sizing_quality := Some sq;
                        well_ladder := {| unusable_sq_limit := 10 |} |} |}.

(** Two runs of sample 10 at locus 5: the first has the taller peak and a
    sizing quality at the limit of its ladder, the second is usable. *)
Definition example_database : database :=
  {| channel_annotations_table :=
       [ {| ca_id := 1; ca_project_id := 1; ca_channel := example_channel 10;
            ca_annotated_peaks := [example_peak 100 9000 (Some 7%Z)] |};
         {| ca_id := 2; ca_project_id := 1; ca_channel := example_channel 2;
            ca_annotated_peaks :=
              [example_peak 100 4000 (Some 7%Z); example_peak 140 300 None] |} ];
     sample_annotations_table :=
       [ {| sa_id := 20; sa_sample_id := 10; sa_project_id := 1; moi := None |} ];
     locus_annotations_table :=
       [ {| la_id := 30; sample_annotations_id := 20; la_locus_id := 5;
            la_annotated_peaks := []; reference_run := None;
            alleles := {[ "7" := true; "8" := true ]};
            la_flags := {[ "manual_curation" := true ]} |} ] |}.

(** **** [analyze_locus] *)


(** **** Vocabulary of the properties of [analyze_samples] *)



(** The result of the analysis of locus 5 of the example. *)
Definition example_analyzed : database :=
  match analyze_samples example_project example_database 5 with
  | Ok db' => db'
  | Raise _ => example_database
  end.

Definition example_annotation : sample_locus_annotation :=
  match locus_annotations_table example_analyzed with
  | la :: _ => la
  | [] => {| la_id := 0; sample_annotations_id := 0; la_locus_id := 0;
             la_annotated_peaks := []; reference_run := None;
             alleles := ∅; la_flags := ∅ |}
  end.

(** **** Vocabulary of further properties of the analysis *)

(** The list [get_best_run] loops over: the channel annotations of the
    sample and the locus below the limit of their ladder, in the order of
    the query. *)
Definition candidates (project : genotyping_project) (db : database)
           (sample_id locus_id : Z) : list project_channel_annotations :=
  List.filter usable
    (List.filter (for_sample_locus project sample_id locus_id)
                 (channel_annotations_table db)).

(** Some peak of [peaks] is in a bin, carries no true flag and has the bin
    id that prints as [k]. *)
Definition calls (peaks : list peak) (k : string) : bool :=
  existsb (fun x => in_bin_unflagged x && bool_decide (str_bin_id (bin_id x) = k))
          peaks.

(** Two usable runs of sample 10 at locus 5 whose tallest peaks are equally
    high. *)
Definition example_tie_database : database :=
  {| channel_annotations_table :=
       [ {| ca_id := 1; ca_project_id := 1; ca_channel := example_channel 2;
            ca_annotated_peaks := [example_peak 100 4000 (Some 7%Z)] |};
         {| ca_id := 2; ca_project_id := 1; ca_channel := example_channel 3;
            ca_annotated_peaks := [example_peak 101 4000 (Some 7%Z)] |} ];
     sample_annotations_table := sample_annotations_table example_database;
     locus_annotations_table := locus_annotations_table example_database |}.

(** Two usable runs; the peak of the second was never binned. *)
Definition example_unbinned_peak : peak :=
  {| peak_index := 101; peak_height := 4000;
     relative_peak_height := 1; bleedthrough_ratio := 0;
     crosstalk_ratio := 0; artifact_contribution := 0;
     artifact_error := 0; in_bin := None; bin_id := None;
     flags := ∅; probability := None |}.

Definition example_unbinned_run : project_channel_annotations :=
  {| ca_id := 2; ca_project_id := 1; ca_channel := example_channel 3;
     ca_annotated_peaks := [example_unbinned_peak] |}.

Definition example_unbinned_database : database :=
  {| channel_annotations_table :=
       [ {| ca_id := 1; ca_project_id := 1; ca_channel := example_channel 2;
            ca_annotated_peaks := [example_peak 100 4000 (Some 7%Z)] |};
         example_unbinned_run ];
     sample_annotations_table := sample_annotations_table example_database;
     locus_annotations_table := locus_annotations_table example_database |}.

(** **** Vocabulary of the termination of [probabilistic_peak_annotation] *)

(** [x'] is the peak [x], but for its probability. *)
Definition same_but_probability (x x' : peak) : Prop :=
  x' = x \/ exists q, x' = set_probability x q.

(** [sa'] is the sample annotation [sa], but for its [moi]. *)
Definition same_but_moi (sa sa' : project_sample_annotations) : Prop :=
  sa' = sa \/ exists m, sa' = set_moi sa m.

(** [la'] is the row [la] with other probabilities and other alleles, and
    it is [la] itself when [la] is not a row of the project. *)
Definition touched (project : genotyping_project) (db : database)
           (la la' : sample_locus_annotation) : Prop :=
  la_id la' = la_id la /\
  sample_annotations_id la' = sample_annotations_id la /\
  la_locus_id la' = la_locus_id la /\
  reference_run la' = reference_run la /\
  la_flags la' = la_flags la /\
  Forall2 same_but_probability (la_annotated_peaks la) (la_annotated_peaks la') /\
  (in_project project db la = false -> la' = la).

(** The number of called peaks of a locus annotation, and of a table. *)
Definition called_peaks (threshold : Q) (la : sample_locus_annotation) : nat :=
  length (List.filter (called threshold) (la_annotated_peaks la)).

Definition called_in_table (threshold : Q) (table : list sample_locus_annotation) : nat :=
  list_sum (List.map (called_peaks threshold) table).

(** The number of peaks of the locus annotations of a table. *)
Definition peaks_in_table (table : list sample_locus_annotation) : nat :=
  list_sum (List.map (fun la => length (la_annotated_peaks la)) table).

(** What one pass over the samples keeps: the rows are touched only, no
    called peak is added, and one is removed when [alleles_changed] is set. *)
Definition pass_keeps (project : genotyping_project) (db : database)
           (s s' : bool * list sample_locus_annotation) : Prop :=
  Forall2 (touched project db) (snd s) (snd s') /\
  (called_in_table (probability_threshold project) (snd s')
   <= called_in_table (probability_threshold project) (snd s))%nat /\
  (fst s = true -> fst s' = true) /\
  (fst s = false -> fst s' = true ->
   (called_in_table (probability_threshold project) (snd s')
    < called_in_table (probability_threshold project) (snd s))%nat).

(** Some peak of [peaks] has a probability at or above the threshold and
    the bin id that prints as [k]. *)
Definition probable (threshold : Q) (peaks : list peak) (k : string) : bool :=
  existsb (fun x => match probability x with
                    | Some q => Qleb threshold q
                    | None => false
                    end && bool_decide (str_bin_id (bin_id x) = k)) peaks.

(** The alleles of [la] that are true are those of its probable peaks, and
    none when the annotation has no peaks or has failed. *)
Definition finalized (threshold : Q) (la : sample_locus_annotation) : Prop :=
  forall k, alleles la !! k = Some true <->
            active la = Ok true /\ probable threshold (la_annotated_peaks la) k = true.

(** A cycle on the sample, in exact arithmetic. *)
Definition example_cycle : database * bool :=
  match cycle (fa := exact_arithmetic) example_project example_called_database
              example_called_database with
  | Ok r => r
  | Raise _ => (example_called_database, false)
  end.

(** The tables [probabilistic_peak_annotation] leaves for the example, and
    the number of cycles it reports. *)
Definition example_annotated : database * nat :=
  match probabilistic_peak_annotation (fa := exact_arithmetic) 3 example_project
                                      example_called_database with
  | Some (Ok r) => r
  | _ => (example_called_database, O)
  end.

(** The probability of the peak is a number between 0 and 1. *)
Definition unit_probability (x : peak) : Prop :=
  exists q, probability x = Some q /\ (0 <= q <= 1)%Q.

(** The peaks of a live row of the project (one with peaks, not failed)
    all carry a probability between 0 and 1. *)
Definition unit_probabilities (project : genotyping_project) (db : database)
           (la : sample_locus_annotation) : Prop :=
  in_project project db la = true -> active la = Ok true ->
  Forall unit_probability (la_annotated_peaks la).

(** **** Vocabulary of the totality of [probabilistic_peak_annotation] *)

(** The premise under which [probabilistic_peak_annotation] raises
    nothing: in the locus annotations of the project, an annotation with
    peaks has a [failure] flag, and the peaks of one that has not failed
    carry [in_bin]. [analyze_samples] leaves the annotations it processes
    in this state when their peaks were binned. *)
Definition analysed (project : genotyping_project) (db : database) : Prop :=
  forall la,
    In la (locus_annotations_table db) -> in_project project db la = true ->
    (la_annotated_peaks la <> [] -> la_flags la !! "failure" <> None) /\
    (active la = Ok true ->
     forall x, In x (la_annotated_peaks la) -> in_bin x <> None).

(** A peak the loop can work on: it has a probability, it carries
    [in_bin], and it is an unflagged peak in a bin when its probability is
    above 0. *)
Definition workable (x : peak) : Prop :=
  probability x <> None /\ in_bin x <> None /\
  (forall q, probability x = Some q -> (0 < q)%Q -> in_bin_unflagged x = true).

(** The count of a bin at a locus in the tally. *)
Definition counts (t : tally) (locus : Z) (bin : option Z) : option nat :=
  default ∅ (allele_counts t !! locus) !! bin.

(** The bin of every called peak of the row has a frequency. *)
Definition fed (frequencies : gmap Z (gmap (option Z) Q)) (threshold : Q)
           (la : sample_locus_annotation) : Prop :=
  forall x, In x (la_annotated_peaks la) -> called threshold x = true ->
            default ∅ (frequencies !! la_locus_id la) !! bin_id x <> None.

(** A row of the project that a cycle can go through: its [failure] flag
    can be read and, when it is live, its peaks are workable. *)
Definition ready (project : genotyping_project) (db : database)
           (la : sample_locus_annotation) : Prop :=
  in_project project db la = true ->
  (exists b, active la = Ok b) /\
  (active la = Ok true -> Forall workable (la_annotated_peaks la)).

(** [x'] is [x], or [x] with a new probability when [x] was called. *)
Definition lowered (threshold : Q) (x x' : peak) : Prop :=
  x' = x \/ exists q, x' = set_probability x q /\ called threshold x = true.

(** Two samples at locus 5. The first has a stutter peak in bin 8, which no
    other sample has: the first cycle pushes it under the threshold, the
    second finds nothing more to do. *)
Definition example_stutter_annotation : sample_locus_annotation :=
  {| la_id := 32; sample_annotations_id := 20; la_locus_id := 5;
     la_annotated_peaks :=
       [ example_called_peak 100 4000 0 7; example_called_peak 110 200 180 8;
         example_called_peak 120 3000 0 9 ];
     reference_run := Some 2%Z;
     alleles := {[ "7" := true; "8" := true; "9" := true ]};
     la_flags := {[ "failure" := false ]} |}.

Definition example_clean_annotation : sample_locus_annotation :=
  {| la_id := 33; sample_annotations_id := 21; la_locus_id := 5;
     la_annotated_peaks :=
       [ example_called_peak 100 4100 0 7; example_called_peak 120 2900 0 9 ];
     reference_run := Some 3%Z;
     alleles := {[ "7" := true; "8" := false; "9" := true ]};
     la_flags := {[ "failure" := false ]} |}.

Definition example_stutter_database : database :=
  {| channel_annotations_table := [];
     sample_annotations_table :=
       [ example_sample;
         {| sa_id := 21; sa_sample_id := 11; sa_project_id := 1; moi := None |} ];
     locus_annotations_table :=
       [ example_stutter_annotation; example_clean_annotation ] |}.

(** The two exceptions that float arithmetic raises. *)
Definition arithmetic_error (e : pyexc) : Prop :=
  e = OverflowError \/ e = ZeroDivisionError.

(** A computation that returns a value with [P], or raises one of the two
    exceptions of float arithmetic. *)
Definition arithmetic_only {A : Type} (P : A -> Prop) (r : result A) : Prop :=
  match r with
  | Ok a => P a
  | Raise e => arithmetic_error e
  end.

(** An arithmetic in which every power is out of range, and one in which
    every power underflows to 0. *)
Definition overflowing_arithmetic : float_arithmetic :=
  {| float_add := Qplus; float_sub := Qminus; float_mul := Qmult;
     float_div := Qdiv; libm_pow := fun _ _ => None |}.

Definition underflowing_arithmetic : float_arithmetic :=
  {| float_add := Qplus; float_sub := Qminus; float_mul := Qmult;
     float_div := Qdiv; libm_pow := fun _ _ => Some 0%Q |}.

(** A row a cycle can go through with the frequencies of the cycle. *)
Definition good (project : genotyping_project) (db : database)
           (frequencies : gmap Z (gmap (option Z) Q))
           (la : sample_locus_annotation) : Prop :=
  in_project project db la = true ->
  (exists b, active la = Ok b) /\
  (active la = Ok true ->
   Forall workable (la_annotated_peaks la) /\
   fed frequencies (probability_threshold project) la).

End Genotyping.

(** *** Channels *)

Module Channels.

Record locus : Type := {
  min_base_length : Z;
  max_base_length : Z
}.

(** The sizing of a well: the base size of each scan index and the scan
    indices of the ladder peaks. *)
Record well : Type := {
  base_sizes : list Q;
  ladder_peak_indices : list Z
}.

(** [max_data_point] is [None] until the column default is applied. *)
Record channel : Type := {
  channel_locus : option locus;
  channel_well : well;
  data : list Z;
  max_data_point : option Z
}.

(** [l[k]]: a negative index counts from the end. *)
Definition py_index {A : Type} (name : string) (l : list A) (k : Z) : result A :=
  let n := Z.of_nat (length l) in
  let position := if (k <? 0)%Z then (n + k)%Z else k in
  if (0 <=? position)%Z && (position <? n)%Z
  then match l !! Z.to_nat position with
       | Some x => Ok x
       | None => Raise (IndexError name)
       end
  else Raise (IndexError name).

(** [list.sort()] on integers. *)
Definition sorted (l : list Z) : list Z := merge_sort Z.le l.

(** [self.well.base_sizes[self.well.ladder_peak_indices[j]]] *)
Definition ladder_size (w : well) (j : Z) : result Q :=
  i ← py_index "ladder_peak_indices" (ladder_peak_indices w) j;
  py_index "base_sizes" (base_sizes w) i.

(** The first [while] loop: the value of [j] when it ends. *)
Fixpoint first_loop (fuel : nat) (w : well) (l : locus) (j : Z) : option (result Z) :=
  match fuel with
  | O => None
  | S fuel' =>
      match ladder_size w j with
      | Raise e => Some (Raise e)
      | Ok size =>
          if Qltb size (inject_Z (min_base_length l))
          then first_loop fuel' w l (j + 1)%Z
          else Some (Ok j)
      end
  end.

(** [self.data[i] > self.max_data_point]; Python 2 orders [None] below
    every number. *)
Definition above (d : Z) (current : option Z) : bool :=
  match current with
  | None => true
  | Some c => (c <? d)%Z
  end.

(** The second [while] loop: the value of [max_data_point] when it ends. *)
Fixpoint second_loop (fuel : nat) (w : well) (l : locus) (data : list Z)
         (i : Z) (current : option Z) : option (result (option Z)) :=
  match fuel with
  | O => None
  | S fuel' =>
      match py_index "base_sizes" (base_sizes w) i with
      | Raise e => Some (Raise e)
      | Ok size =>
          if Qltb size (inject_Z (max_base_length l))
          then
            let i := (i + 1)%Z in
            match py_index "base_sizes" (base_sizes w) i with
            | Raise e => Some (Raise e)
            | Ok size' =>
                if Qltb (inject_Z (min_base_length l)) size'
                then match py_index "data" data i with
                     | Raise e => Some (Raise e)
                     | Ok d =>
                         second_loop fuel' w l data i
                                     (if above d current then Some d else current)
                     end
                else second_loop fuel' w l data i current
            end
          else Some (Ok current)
      end
  end.

Definition set_max_data_point (c : channel) (w : well) (m : option Z) : channel :=
  {| channel_locus := channel_locus c; channel_well := w;
     data := data c; max_data_point := m |}.

(** [Channel.find_max_data_point]; [None]: a loop ran out of fuel. *)
Definition find_max_data_point (fuel : nat) (c : channel) : option (result channel) :=
  match channel_locus c, ladder_peak_indices (channel_well c) with
  | Some l, _ :: _ =>
      let w := {| base_sizes := base_sizes (channel_well c);
                  ladder_peak_indices := sorted (ladder_peak_indices (channel_well c)) |} in
      match first_loop fuel w l 0 with
      | None => None
      | Some (Raise e) => Some (Raise e)
      | Some (Ok j) =>
          match py_index "ladder_peak_indices" (ladder_peak_indices w) (j - 1)%Z with
          | Raise e => Some (Raise e)
          | Ok i =>
              match second_loop fuel w l (data c) i (max_data_point c) with
              | None => None
              | Some (Raise e) => Some (Raise e)
              | Some (Ok m) => Some (Ok (set_max_data_point c w m))
              end
          end
      end
  | _, _ => Some (Ok c)
  end.

(** [Channel.add_locus]: the locus is assigned, then [find_max_data_point]
    runs. *)
Definition add_locus (fuel : nat) (c : channel) (l : locus) : option (result channel) :=
  find_max_data_point fuel
    {| channel_locus := Some l; channel_well := channel_well c;
       data := data c; max_data_point := max_data_point c |}.

(** The run ends, and neither [base_sizes] nor [data] was indexed out of
    range. *)
Definition ends_in_range (c : channel) : Prop :=
  exists fuel r,
    find_max_data_point fuel c = Some r /\
    r <> Raise (IndexError "base_sizes") /\ r <> Raise (IndexError "data").

(** The sizing of the well covers the range of the locus: the ladder peaks
    are scan indices of [base_sizes], one of them has a size that is not
    below [min_base_length], from each of them on [base_sizes] reaches a
    size that is not below [max_base_length], and [data] has a point for
    each scan index. *)
Record covers (c : channel) (l : locus) : Prop := {
  covers_indices :
    forall k, In k (ladder_peak_indices (channel_well c)) ->
              (0 <= k < Z.of_nat (length (base_sizes (channel_well c))))%Z;
  covers_min :
    exists k size,
      In k (ladder_peak_indices (channel_well c)) /\
      base_sizes (channel_well c) !! Z.to_nat k = Some size /\
      (inject_Z (min_base_length l) <= size)%Q;
  covers_max :
    forall k, In k (ladder_peak_indices (channel_well c)) ->
              exists i size,
                (Z.to_nat k <= i)%nat /\
                base_sizes (channel_well c) !! i = Some size /\
                (inject_Z (max_base_length l) <= size)%Q;
  covers_data :
    (length (base_sizes (channel_well c)) <= length (data c))%nat
}.

(** A channel whose base sizes all lie under the maximum length of its
    locus. *)
Definition short_channel : channel :=
  {| channel_locus := Some {| min_base_length := 5; max_base_length := 100 |};
     channel_well := {| base_sizes := [10%Q]; ladder_peak_indices := [0%Z] |};
     data := [7%Z];
     max_data_point := Some 0%Z |}.

(** A channel whose sizing covers its locus. *)
Definition covered_channel : channel :=
  {| channel_locus := Some {| min_base_length := 20; max_base_length := 40 |};
     channel_well :=
       {| base_sizes := [5; 15; 25; 35; 45; 55]%Q;
          ladder_peak_indices := [5; 1; 3]%Z |};
     data := [1; 2; 30; 4; 50; 6]%Z;
     max_data_point := Some 0%Z |}.

(** A channel whose ladder peaks all lie under the minimum length of its
    locus. *)
Definition low_ladder_channel : channel :=
  {| channel_locus := Some {| min_base_length := 50; max_base_length := 100 |};
     channel_well :=
       {| base_sizes := [5; 15; 25; 35; 45; 55]%Q;
          ladder_peak_indices := [3; 1]%Z |};
     data := [1; 2; 30; 4; 50; 6]%Z;
     max_data_point := Some 0%Z |}.

(** A channel whose first ladder peak is already in the range of its
    locus, and whose last ladder peak is past it. *)
Definition wrapped_channel : channel :=
  {| channel_locus := Some {| min_base_length := 10; max_base_length := 40 |};
     channel_well :=
       {| base_sizes := [5; 15; 25; 35; 45; 55]%Q;
          ladder_peak_indices := [4; 1]%Z |};
     data := [1; 2; 30; 4; 50; 6]%Z;
     max_data_point := Some 0%Z |}.

End Channels.

(** *** Recalculation of a locus *)

Module Projects.
Import Staleness Genotyping.

Section Pipeline.

(** [recalculate_channels(channel_annotation_ids, rescan_peaks)]: the peak
    scanning and filtering of the channels, which the extractor package
    does; it is given the ids of the channel annotations and whether the
    peaks are to be scanned again. *)
Variable recalculate_channels : list Z -> bool -> database -> result database.

(** [Project.get_locus_channel_annotations] *)
Definition get_locus_channel_annotations (project : genotyping_project)
           (db : database) (locus_id : Z) : list project_channel_annotations :=
  List.filter (fun x => bool_decide (ca_project_id x = project_id project)
                        && bool_decide (channel_locus_id (ca_channel x) = Some locus_id))
              (channel_annotations_table db).

(** The two assignments that end [recalculate_locus]. *)
Definition clear_stale (locus_parameters : locus_params_row) : locus_params_row :=
  {| row_class := row_class locus_parameters;
     row_state :=
       assign_flag "filter_parameters_stale" false
         (assign_flag "scanning_parameters_stale" false (row_state locus_parameters));
     scanning_parameters_stale := false;
     filter_parameters_stale := false |}.

(** [Project.recalculate_locus], on the parameter row of the locus and the
    tables: the channels are scanned again when the scanning parameters
    are stale, filtered again when only the filter parameters are, and
    left alone otherwise; then both flags are cleared. *)
Definition recalculate_locus (project : genotyping_project) (locus_id : Z)
           (locus_parameters : locus_params_row) (db : database)
  : result (locus_params_row * database) :=
  let channel_annotations := get_locus_channel_annotations project db locus_id in
  db' ← (if scanning_parameters_stale locus_parameters
         then recalculate_channels (List.map ca_id channel_annotations) true db
         else if filter_parameters_stale locus_parameters
              then recalculate_channels (List.map ca_id channel_annotations) false db
              else Ok db);
  Ok (clear_stale locus_parameters, db').

End Pipeline.

(** A pipeline to run the definitions on: scanning empties the peaks of
    the channel annotations it is given, filtering leaves the tables
    alone. *)
Definition example_pipeline (ids : list Z) (rescan_peaks : bool) (db : database)
  : result database :=
  if rescan_peaks
  then Ok {| channel_annotations_table :=
               List.map (fun ca =>
                           if bool_decide (ca_id ca ∈ ids)
                           then {| ca_id := ca_id ca;
                                   ca_project_id := ca_project_id ca;
                                   ca_channel := ca_channel ca;
                                   ca_annotated_peaks := [] |}
                           else ca)
                        (channel_annotations_table db);
             sample_annotations_table := sample_annotations_table db;
             locus_annotations_table := locus_annotations_table db |}
  else Ok db.

End Projects.

(** * Properties *)

(** ** The gateway *)

Module GatewayFacts.
Import Gateway.

Lemma int_int_or_str v :
  int_or_str v ->
  (unparsable v /\ PyInt.int v = Raise ValueError) \/
  (~ unparsable v /\ exists n, PyInt.int v = Ok n).
Proof.
  destruct v as [| b | n | f | s | l | d]; simpl; try tauto; intros _.
  - right. split; [tauto | eauto].
  - right. split; [tauto | eauto].
  - destruct (PyInt.of_string s) as [n |] eqn:E.
    + right. split; [congruence | eauto].
    + left. split; reflexivity.
Qed.

Lemma map_int_int_or_str l :
  Forall int_or_str l ->
  (Exists unparsable l /\ map_int l = Raise ValueError) \/
  (~ Exists unparsable l /\
   exists ns, map_int l = Ok ns /\ Forall2 (fun v n => PyInt.int v = Ok n) l ns).
Proof.
  induction 1 as [| v l Hv Hl IH].
  - right. split.
    + intros H. inversion H.
    + exists []. split; [reflexivity | constructor].
  - simpl. destruct (int_int_or_str v Hv) as [[Hu Hi] | [Hu [n Hi]]].
    + left. split; [now constructor | now rewrite Hi].
    + rewrite Hi. simpl. destruct IH as [[He Hm] | [He [ns [Hm HF]]]].
      * left. split; [now apply Exists_cons_tl |].
        unfold mbind, result_bind. simpl. now rewrite Hm.
      * right. split.
        -- intros H. apply Exists_cons in H. tauto.
        -- exists (n :: ns). split.
           ++ unfold mbind, result_bind. simpl. now rewrite Hm.
           ++ now constructor.
Qed.

Lemma subset_loop_spec {A : Type} (l : list A) (k : nat) :
  (0 < k)%nat ->
  forall fuel i, (length l - i < fuel)%nat ->
  exists chunks,
    subset_loop fuel l k i = Some chunks /\
    concat chunks = drop i l /\
    Forall (fun c => (length c <= k)%nat) chunks /\
    length chunks = ((length l - i + (k - 1)) / k)%nat.
Proof.
  intros Hk. induction fuel as [| fuel IH]; intros i Hf; [lia |].
  simpl. destruct (decide (i < length l)%nat) as [Hi | Hi].
  - destruct (IH (i + k)%nat) as [chunks [Hs [Hc [Hl Hn]]]]; [lia |].
    rewrite Hs. simpl. eexists. split; [reflexivity |]. split; [| split].
    + simpl. rewrite Hc. rewrite <- drop_drop. apply take_drop.
    + constructor; [| exact Hl]. rewrite length_take. lia.
    + simpl. rewrite Hn.
      destruct (le_lt_dec (length l - i) k) as [Hle | Hgt].
      * replace (length l - (i + k))%nat with 0%nat by lia.
        rewrite (Nat.div_small (0 + (k - 1)) k) by lia.
        apply (Nat.div_unique _ k 1 (length l - i - 1)); lia.
      * replace (length l - i + (k - 1))%nat
          with ((length l - (i + k) + (k - 1)) + 1 * k)%nat by lia.
        rewrite Nat.div_add by lia. lia.
  - exists []. split; [reflexivity |]. split; [| split].
    + simpl. symmetry. apply drop_ge. lia.
    + constructor.
    + simpl. replace (length l - i)%nat with 0%nat by lia.
      symmetry. apply Nat.div_small. lia.
Qed.

(** With a subset size of zero the loop of [subset] never ends on a
    non-empty list: no amount of fuel is enough. *)
Lemma subset_loop_zero_diverges {A : Type} (l : list A) fuel :
  l <> [] -> subset_loop fuel l 0 0 = None.
Proof.
  intros Hl. induction fuel as [| fuel IH]; [reflexivity |].
  simpl. destruct (decide (0 < length l)%nat) as [H | H].
  - now rewrite IH.
  - destruct l; [congruence | simpl in H; lia].
Qed.

Lemma query_in_elem table c (r : row) :
  r ∈ query_in table c <-> r ∈ table /\ row_id r ∈ c.
Proof.
  unfold query_in. rewrite (list_elem_of_In (List.filter _ _) r), filter_In.
  rewrite bool_decide_eq_true, (list_elem_of_In table r). reflexivity.
Qed.

(** C6 fails on the code for a payload without an [id] field: the lookup
    [json['id']] is outside the [try] block, so [extract_ids] raises
    [KeyError] there, where every other invalid payload fails with
    [GetException("Field id not valid", payload)]. *)
Lemma extract_ids_missing_id_is_key_error :
  getitem (PyDict []) "id" = Raise (KeyError "id") /\
  extract_ids (PyDict []) = Raise (KeyError "id") /\
  extract_ids (PyDict []) <> Raise (field_id_not_valid (PyDict [])).
Proof.
  split; [reflexivity |]. split; [reflexivity |]. discriminate.
Qed.

(** An element of a list that is neither an integer nor a string escapes
    the [except ValueError] clause with a [TypeError]. *)
Example extract_ids_none_in_list :
  extract_ids (PyDict [("id", PyList [PyInt 1; PyNone])]) = Raise TypeError.
Proof. reflexivity. Qed.

(** A float in a list is truncated, not rejected. *)
Example extract_ids_float_in_list :
  extract_ids (PyDict [("id", PyList [PyFloat (FFinite (5 # 2))])]) = Ok [2%Z].
Proof. reflexivity. Qed.

(** For a payload that has an [id] field, holding a single value or a
    list of integers and strings, [extract_ids] fails with
    [GetException("Field id not valid", payload)] exactly when [id] is
    neither an integer, a string nor a list, or when [id] or one of the
    elements of the list is a string that [int()] rejects; otherwise it
    returns the parsed integers, in order, one for a single [id]. *)
Theorem extract_ids_present (json ids : pyval) :
  getitem json "id" = Ok ids ->
  (forall l, ids = PyList l -> Forall int_or_str l) ->
  (extract_ids json = Raise (field_id_not_valid json)
   <-> bad_shape ids \/ holds_unparsable ids) /\
  (~ (bad_shape ids \/ holds_unparsable ids) ->
   exists ns, extract_ids json = Ok ns /\
              Forall2 (fun v n => PyInt.int v = Ok n) (id_values ids) ns).
Proof.
  intros Hget Hl. unfold extract_ids. rewrite Hget.
  unfold mbind, result_bind, holds_unparsable. simpl.
  assert (Hsingle : forall v, int_or_str v -> id_values v = [v] ->
            extract_ids_try json v = (n ← PyInt.int v; Ok [n]) ->
            ((match extract_ids_try json v with
              | Raise ValueError => Raise (field_id_not_valid json)
              | r => r
              end = Raise (field_id_not_valid json))
             <-> bad_shape v \/ Exists unparsable (id_values v)) /\
            (~ (bad_shape v \/ Exists unparsable (id_values v)) ->
             exists ns,
               match extract_ids_try json v with
               | Raise ValueError => Raise (field_id_not_valid json)
               | r => r
               end = Ok ns /\
               Forall2 (fun v n => PyInt.int v = Ok n) (id_values v) ns)).
  { intros v Hv Hvals Htry. rewrite Htry, Hvals.
    assert (Hb : ~ bad_shape v) by (destruct v; simpl in *; tauto).
    unfold mbind, result_bind.
    destruct (int_int_or_str v Hv) as [[Hu Hi] | [Hu [n Hi]]]; rewrite Hi; simpl.
    - split; [split; [intros _; right; now constructor | reflexivity] |].
      intros H. exfalso. apply H. right. now constructor.
    - split.
      + split; [discriminate |]. intros [H | H]; [tauto |].
        apply Exists_cons in H. destruct H as [H | H]; [tauto | inversion H].
      + intros _. exists [n]. split; [reflexivity |]. now repeat constructor. }
  destruct ids as [| b | n | f | s | l | d];
    try (apply Hsingle; simpl; [tauto | reflexivity | reflexivity]).
  - simpl. split; [tauto | intros H; exfalso; apply H; now left].
  - simpl. split; [tauto | intros H; exfalso; apply H; now left].
  - simpl. specialize (Hl l eq_refl).
    destruct (map_int_int_or_str l Hl) as [[He Hm] | [He [ns [Hm HF]]]];
      rewrite Hm.
    + split; [tauto |]. intros H. exfalso. apply H. now right.
    + split.
      * split; [discriminate | tauto].
      * intros _. eauto.
  - simpl. split; [tauto | intros H; exfalso; apply H; now left].
Qed.

Lemma extract_ids_present_witness :
  exists ns, extract_ids example_request = Ok ns /\
             Forall2 (fun v n => PyInt.int v = Ok n)
                     [PyInt 7; PyStr " 1_000 "; PyStr "-12"] ns.
Proof.
  apply (extract_ids_present example_request
           (PyList [PyInt 7; PyStr " 1_000 "; PyStr "-12"])).
  - reflexivity.
  - intros l [= <-]. repeat constructor.
  - intros [H | H]; [exact H |].
    unfold holds_unparsable in H. simpl in H.
    repeat (apply Exists_cons in H; destruct H as [H | H];
            [simpl in H; try discriminate H; try exact H |]).
    inversion H.
Defined.

Example extract_ids_example :
  extract_ids example_request = Ok [7; 1000; -12]%Z.
Proof. reflexivity. Qed.

Example extract_ids_bad_string :
  extract_ids (PyDict [("id", PyStr "12a")])
  = Raise (field_id_not_valid (PyDict [("id", PyStr "12a")])).
Proof. reflexivity. Qed.

(** C7: a get request of [n] ids, with the default subset size 384,
    publishes exactly ceil(n/384) [get] events; the chunks [subset]
    produces have at most 384 ids each and concatenate to the requested
    list; the event of a chunk carries the rows whose id is in the chunk;
    the ids of all the rows returned are the requested ids that have a
    matching row. *)
Theorem base_get_chunks (table : list row) (namespace request_namespace : string)
        (json : pyval) (ids : list Z) (fuel : nat) :
  extract_ids json = Ok ids ->
  (length ids < fuel)%nat ->
  exists chunks events,
    subset fuel ids default_subset_size = Some chunks /\
    base_get table namespace request_namespace default_subset_size fuel json
      = Some (Ok events) /\
    concat chunks = ids /\
    length events = ((length ids + 383) / 384)%nat /\
    Forall2 (fun ev c => em_event ev = "get" /\
                         em_namespace ev = request_namespace /\
                         em_rows ev = query_in table c /\
                         (length c <= 384)%nat /\
                         forall r, r ∈ em_rows ev -> row_id r ∈ c)
            events chunks /\
    forall x, (exists ev r, ev ∈ events /\ r ∈ em_rows ev /\ row_id r = x)
              <-> (x ∈ ids /\ exists r, r ∈ table /\ row_id r = x).
Proof.
  intros Hids Hfuel.
  destruct (subset_loop_spec ids default_subset_size ltac:(unfold default_subset_size; lia)
              fuel 0%nat ltac:(lia)) as [chunks [Hs [Hc [Hl Hn]]]].
  unfold default_subset_size in *. change (drop 0 ids) with ids in Hc.
  exists chunks. eexists. split; [exact Hs |].
  unfold base_get. rewrite Hids. unfold subset. rewrite Hs. simpl.
  split; [reflexivity |]. split; [exact Hc |]. split; [| split].
  - rewrite length_map, Hn, Nat.sub_0_r. reflexivity.
  - clear Hs Hc Hn. induction Hl as [| c cs Hlen Hcs IH]; simpl; constructor.
    + repeat split; try assumption. intros r Hr.
      now apply query_in_elem in Hr.
    + exact IH.
  - intros x. rewrite <- Hc. split.
    + intros [ev [r [Hev [Hr Hx]]]].
      apply list_elem_of_In, in_map_iff in Hev.
      destruct Hev as [c [<- Hcin]]. simpl in Hr.
      apply query_in_elem in Hr. destruct Hr as [Ht Hrc]. split.
      * apply list_elem_of_In, in_concat. exists c.
        split; [exact Hcin | now apply list_elem_of_In; rewrite <- Hx].
      * eauto.
    + intros [Hx [r [Ht Hrx]]].
      apply list_elem_of_In, in_concat in Hx. destruct Hx as [c [Hcin Hxc]].
      eexists. exists r. split; [| split; [| exact Hrx]].
      * apply list_elem_of_In, in_map_iff. exists c.
        split; [reflexivity | exact Hcin].
      * simpl. apply query_in_elem.
        split; [exact Ht | rewrite Hrx; now apply list_elem_of_In].
Qed.

Lemma base_get_chunks_witness :
  exists chunks events,
    subset 4 [7; 1000; -12]%Z default_subset_size = Some chunks /\
    base_get example_table "well" "/well" default_subset_size 4 example_request
      = Some (Ok events) /\
    concat chunks = [7; 1000; -12]%Z /\
    length events = ((length [7; 1000; -12]%Z + 383) / 384)%nat /\
    Forall2 (fun ev c => em_event ev = "get" /\
                         em_namespace ev = "/well" /\
                         em_rows ev = query_in example_table c /\
                         (length c <= 384)%nat /\
                         forall r, r ∈ em_rows ev -> row_id r ∈ c)
            events chunks /\
    forall x, (exists ev r, ev ∈ events /\ r ∈ em_rows ev /\ row_id r = x)
              <-> (x ∈ [7; 1000; -12]%Z /\
                   exists r, r ∈ example_table /\ row_id r = x).
Proof.
  apply (base_get_chunks example_table "well" "/well" example_request
           [7; 1000; -12]%Z 4).
  - reflexivity.
  - simpl. lia.
Defined.

End GatewayFacts.

(** ** Rational comparisons *)

Lemma Qltb_lt (x y : Q) : Qltb x y = true <-> (x < y)%Q.
Proof.
  unfold Qltb. rewrite Qlt_alt. destruct (x ?= y)%Q; split; congruence.
Qed.

Lemma Qltb_ge (x y : Q) : Qltb x y = false <-> (y <= x)%Q.
Proof.
  split.
  - intros H. apply Qnot_lt_le. intros Hlt. apply Qltb_lt in Hlt. congruence.
  - intros H. destruct (Qltb x y) eqn:E; [| reflexivity].
    apply Qltb_lt in E. exfalso. exact (Qlt_not_le _ _ E H).
Qed.

Lemma Qleb_le (x y : Q) : Qleb x y = true <-> (x <= y)%Q.
Proof.
  unfold Qleb. rewrite Qle_alt. destruct (x ?= y)%Q; split; congruence.
Qed.

(** ** Genotyping projects *)

Module GenotypingFacts.
Import Genotyping.

Lemma keeps_qualifying locus_params y :
  keeps locus_params y = true <-> qualifying locus_params y.
Proof.
  unfold keeps, qualifying.
  rewrite andb_true_iff, Qltb_lt, bool_decide_eq_true. reflexivity.
Qed.

Lemma filter_peaks_total locus_params peaks :
  has_in_bin peaks ->
  filter_peaks locus_params peaks = Ok (List.filter (keeps locus_params) peaks).
Proof.
  induction peaks as [| y rest IH]; intros H; [reflexivity |].
  simpl. rewrite IH by (intros z Hz; apply H; now right).
  unfold below_offscale_in_bin, keeps.
  destruct (Qltb (peak_height y) (offscale_threshold locus_params)); simpl.
  - destruct (in_bin y) as [[|] |] eqn:E; simpl.
    + reflexivity.
    + reflexivity.
    + exfalso. apply (H y); [now left | exact E].
  - reflexivity.
Qed.

Lemma max_by_height_spec rest : forall best,
  In (max_by_height best rest) (best :: rest) /\
  forall z, In z (best :: rest) ->
            (peak_height z <= peak_height (max_by_height best rest))%Q.
Proof.
  induction rest as [| x rest IH]; intros best; simpl.
  - split; [now left |]. intros z [<- | []]. apply Qle_refl.
  - destruct (Qltb (peak_height best) (peak_height x)) eqn:E.
    + destruct (IH x) as [Hin Hmax]. split.
      * simpl in Hin. tauto.
      * intros z [<- | Hz].
        -- apply Qltb_lt in E. apply Qlt_le_weak.
           eapply Qlt_le_trans; [exact E |]. apply Hmax. now left.
        -- apply Hmax. exact Hz.
    + destruct (IH best) as [Hin Hmax]. split.
      * simpl in Hin. tauto.
      * intros z [<- | [<- | Hz]].
        -- apply Hmax. now left.
        -- apply Qltb_ge in E. eapply Qle_trans; [exact E |].
           apply Hmax. now left.
        -- apply Hmax. now right.
Qed.

Lemma best_height_total locus_params peaks :
  has_in_bin peaks ->
  best_height locus_params peaks = Ok (tallest locus_params peaks).
Proof.
  intros H. unfold best_height, tallest.
  rewrite (filter_peaks_total _ _ H). reflexivity.
Qed.

Lemma tallest_is_best_height locus_params peaks :
  is_best_height locus_params peaks (tallest locus_params peaks).
Proof.
  unfold is_best_height, tallest.
  destruct (List.filter (keeps locus_params) peaks) as [| x rest] eqn:E.
  - left. split; [| reflexivity]. intros y Hy Hq.
    apply keeps_qualifying in Hq.
    assert (Hin : In y (List.filter (keeps locus_params) peaks))
      by (apply filter_In; tauto).
    rewrite E in Hin. exact Hin.
  - right. destruct (max_by_height_spec rest x) as [Hin Hmax].
    exists (max_by_height x rest). rewrite <- E in Hin, Hmax.
    apply filter_In in Hin. destruct Hin as [Hin Hk].
    split; [exact Hin |]. split; [now apply keeps_qualifying |].
    split; [reflexivity |]. intros z Hz Hq. apply Hmax.
    apply filter_In. split; [exact Hz | now apply keeps_qualifying].
Qed.

Lemma is_best_height_unique locus_params peaks h1 h2 :
  is_best_height locus_params peaks h1 ->
  is_best_height locus_params peaks h2 ->
  (h1 == h2)%Q.
Proof.
  intros [[Hn1 ->] | [y1 [Hi1 [Hq1 [-> Hm1]]]]] [[Hn2 ->] | [y2 [Hi2 [Hq2 [-> Hm2]]]]].
  - reflexivity.
  - exfalso. exact (Hn1 y2 Hi2 Hq2).
  - exfalso. exact (Hn2 y1 Hi1 Hq1).
  - apply Qle_antisym; [apply Hm2 | apply Hm1]; assumption.
Qed.

Lemma get_best_run_loop_total locus_params rest : forall best,
  (forall x, In x (best :: rest) -> has_in_bin (ca_annotated_peaks x)) ->
  exists a,
    get_best_run_loop locus_params (Some best) rest = Ok (Some a) /\
    In a (best :: rest) /\
    forall x, In x (best :: rest) ->
              (tallest locus_params (ca_annotated_peaks x)
               <= tallest locus_params (ca_annotated_peaks a))%Q.
Proof.
  induction rest as [| annotation rest IH]; intros best H.
  - exists best. split; [reflexivity |]. split; [now left |].
    intros x [<- | []]. apply Qle_refl.
  - simpl. rewrite (best_height_total _ _ (H best ltac:(now left))).
    rewrite (best_height_total _ _ (H annotation ltac:(right; now left))).
    simpl.
    set (hb := tallest locus_params (ca_annotated_peaks best)).
    set (hc := tallest locus_params (ca_annotated_peaks annotation)).
    destruct (Qltb hb hc) eqn:E.
    + destruct (IH annotation) as [a [Hr [Hin Hmax]]].
      { intros x Hx. apply H. now right. }
      exists a. split; [exact Hr |]. split; [now right |].
      intros x [<- | Hx]; [| now apply Hmax].
      apply Qltb_lt in E. apply Qlt_le_weak.
      eapply Qlt_le_trans; [exact E |]. apply Hmax. now left.
    + destruct (IH best) as [a [Hr [Hin Hmax]]].
      { intros x [<- | Hx]; apply H; [now left | right; now right]. }
      exists a. split; [exact Hr |]. split.
      * destruct Hin as [<- | Hin]; [now left | right; now right].
      * intros x [<- | [<- | Hx]].
        -- apply Hmax. now left.
        -- apply Qltb_ge in E. eapply Qle_trans; [exact E |].
           apply Hmax. now left.
        -- apply Hmax. now right.
Qed.

Lemma get_best_run_loop_in locus_params rest : forall best a,
  get_best_run_loop locus_params best rest = Ok (Some a) ->
  best = Some a \/ In a rest.
Proof.
  induction rest as [| annotation rest IH]; intros best a H; simpl in H.
  - left. congruence.
  - destruct best as [b |].
    + destruct (best_height locus_params (ca_annotated_peaks b)) as [hb |];
        [| discriminate H].
      destruct (best_height locus_params (ca_annotated_peaks annotation)) as [hc |];
        [| discriminate H].
      simpl in H. apply IH in H. destruct H as [H | H]; [| right; now right].
      destruct (Qltb hb hc); injection H as <-; [right | left]; auto.
      now left.
    + apply IH in H. destruct H as [H | H]; [| right; now right].
      injection H as <-. right. now left.
Qed.

Lemma usable_not_unusable x : usable x = true -> ~ unusable x.
Proof.
  unfold usable, unusable, none_or_lt. intros H [q [Hq Hle]].
  rewrite Hq in H. apply Qltb_lt in H. exact (Qlt_not_le _ _ H Hle).
Qed.

Lemma candidate_filter project db sample_id locus_id x :
  candidate project db sample_id locus_id x <->
  In x (List.filter usable
          (List.filter (for_sample_locus project sample_id locus_id)
                       (channel_annotations_table db))).
Proof.
  unfold candidate. rewrite !filter_In. tauto.
Qed.

(** C3: [get_best_run] never returns a channel annotation whose well has a
    sizing quality at or above the unusable limit of its ladder. When the
    peaks of the candidate runs carry [in_bin], it returns [None] only when
    no annotation of the sample and locus is below the limit, and otherwise
    one of those annotations whose tallest in-bin peak under the offscale
    threshold is at least as tall as that of every other one, a run without
    such a peak counting as height 0. *)
Theorem get_best_run_tallest_usable
        (project : genotyping_project) (db : database) (sample_id locus_id : Z) :
  (forall a, get_best_run project db sample_id locus_id = Ok (Some a) ->
             candidate project db sample_id locus_id a /\ ~ unusable a) /\
  ((forall x, candidate project db sample_id locus_id x ->
              has_in_bin (ca_annotated_peaks x)) ->
   exists r,
     get_best_run project db sample_id locus_id = Ok r /\
     match r with
     | None => forall x, ~ candidate project db sample_id locus_id x
     | Some a =>
         candidate project db sample_id locus_id a /\
         ~ unusable a /\
         forall x ha hx,
           candidate project db sample_id locus_id x ->
           is_best_height (get_locus_parameters project locus_id)
                          (ca_annotated_peaks a) ha ->
           is_best_height (get_locus_parameters project locus_id)
                          (ca_annotated_peaks x) hx ->
           (hx <= ha)%Q
     end).
Proof.
  split.
  - intros a H. unfold get_best_run in H. apply get_best_run_loop_in in H.
    destruct H as [H | H]; [discriminate H |].
    apply candidate_filter in H. split; [exact H |].
    apply usable_not_unusable. apply H.
  - intros Hbin. unfold get_best_run.
    set (lp := get_locus_parameters project locus_id).
    assert (Hc := candidate_filter project db sample_id locus_id).
    destruct (List.filter usable
                (List.filter (for_sample_locus project sample_id locus_id)
                             (channel_annotations_table db)))
      as [| first rest] eqn:E.
    + exists None. split; [reflexivity |]. intros x Hx. apply Hc in Hx. exact Hx.
    + simpl.
      destruct (get_best_run_loop_total lp rest first) as [a [Hr [Hin Hmax]]].
      { intros x Hx. apply Hbin. now apply Hc. }
      exists (Some a). split; [exact Hr |].
      assert (Ha : candidate project db sample_id locus_id a) by now apply Hc.
      split; [exact Ha |]. split; [apply usable_not_unusable; apply Ha |].
      intros x ha hx Hx Hha Hhx.
      rewrite (is_best_height_unique _ _ _ _ Hha (tallest_is_best_height lp _)).
      rewrite (is_best_height_unique _ _ _ _ Hhx (tallest_is_best_height lp _)).
      apply Hmax. now apply Hc.
Qed.

Lemma get_best_run_tallest_usable_witness :
  exists r,
    get_best_run example_project example_database 10 5 = Ok r /\
    match r with
    | None => forall x, ~ candidate example_project example_database 10 5 x
    | Some a =>
        candidate example_project example_database 10 5 a /\
        ~ unusable a /\
        forall x ha hx,
          candidate example_project example_database 10 5 x ->
          is_best_height (get_locus_parameters example_project 5)
                         (ca_annotated_peaks a) ha ->
          is_best_height (get_locus_parameters example_project 5)
                         (ca_annotated_peaks x) hx ->
          (hx <= ha)%Q
    end.
Proof.
  apply (proj2 (get_best_run_tallest_usable example_project example_database 10 5)).
  intros x [Hin [_ Hu]] y Hy.
  simpl in Hin. destruct Hin as [<- | [<- | []]].
  - discriminate Hu.
  - simpl in Hy. destruct Hy as [<- | [<- | []]]; discriminate.
Defined.

(** The usable run is chosen although the unusable one has the taller peak. *)
Example get_best_run_example :
  match get_best_run example_project example_database 10 5 with
  | Ok (Some a) => ca_id a = 2%Z
  | _ => False
  end.
Proof. reflexivity. Qed.

Lemma Forall2_In_r {A B : Type} (R : A -> B -> Prop) l l' y :
  Forall2 R l l' -> In y l' -> exists x, In x l /\ R x y.
Proof.
  induction 1 as [| x y' l l' HR HF IH]; intros Hin; [destruct Hin |].
  destruct Hin as [<- | Hin].
  - exists x. split; [now left | exact HR].
  - destruct (IH Hin) as [x0 [Hx0 HR0]]. exists x0. split; [now right | exact HR0].
Qed.

Lemma for_rows_Forall2 {A S : Type} (selected : A -> bool)
      (body : S -> A -> result (S * A)) (table : list A) :
  forall s s' table',
    for_rows selected body s table = Ok (s', table') ->
    Forall2 (fun x x' => if selected x
                         then exists s1 s2, body s1 x = Ok (s2, x')
                         else x' = x) table table'.
Proof.
  induction table as [| x rest IH]; intros s s' table' H; simpl in H.
  - injection H as _ <-. constructor.
  - destruct (selected x) eqn:Hsel.
    + destruct (body s x) as [[s1 x'] |] eqn:Hb; [| discriminate H].
      simpl in H.
      destruct (for_rows selected body s1 rest) as [[s2 rest'] |] eqn:Hr;
        [| discriminate H].
      simpl in H. injection H as _ <-. constructor.
      * rewrite Hsel. eauto.
      * eapply IH. exact Hr.
    + simpl in H.
      destruct (for_rows selected body s rest) as [[s2 rest'] |] eqn:Hr;
        [| discriminate H].
      simpl in H. injection H as _ <-. constructor.
      * now rewrite Hsel.
      * eapply IH. exact Hr.
Qed.

Lemma sample_annotation_of_in_project project db la :
  in_project project db la = true ->
  exists sa, sample_annotation_of db la = Some sa.
Proof.
  unfold in_project. destruct (sample_annotation_of db la); [eauto | discriminate].
Qed.

(** What [analyze_sample] leaves in a locus annotation. *)
Lemma analyze_sample_inv project db locus_params sample_id la la' :
  analyze_sample project db locus_params sample_id la = Ok la' ->
  sample_annotations_id la' = sample_annotations_id la /\
  la_locus_id la' = la_locus_id la /\
  match reference_run la' with
  | Some id =>
      exists ca,
        get_best_run project db sample_id (la_locus_id la) = Ok (Some ca) /\
        ca_id ca = id /\
        la_annotated_peaks la'
        = List.map (stamp_flags locus_params) (ca_annotated_peaks ca) /\
        la_flags la' !! "manual_curation" = Some false /\
        la_flags la' !! "failure"
        = Some (negb (exceeds_failure_threshold locus_params (la_annotated_peaks la'))) /\
        (la_flags la' !! "failure" = Some true ->
         alleles la' = all_false (alleles la))
  | None =>
      get_best_run project db sample_id (la_locus_id la) = Ok None /\
      la_annotated_peaks la' = []
  end.
Proof.
  unfold analyze_sample. intros H.
  destruct (get_best_run project db sample_id (la_locus_id la)) as [[ca |] |];
    simpl in H; [| | discriminate H]; injection H as <-; simpl.
  - split; [reflexivity |]. split; [reflexivity |].
    exists ca. split; [reflexivity |]. split; [reflexivity |].
    split; [reflexivity |]. split; [apply lookup_insert_eq |].
    assert (Hf : forall b,
               (<["manual_curation" := false]>
                  (<["offscale" := b]>
                     (<["failure" :=
                          negb (exceeds_failure_threshold locus_params
                                  (List.map (stamp_flags locus_params)
                                            (ca_annotated_peaks ca)))]>
                        (la_flags la)))) !! "failure"
               = Some (negb (exceeds_failure_threshold locus_params
                               (List.map (stamp_flags locus_params)
                                         (ca_annotated_peaks ca))))).
    { intros b. rewrite lookup_insert_ne by done.
      rewrite lookup_insert_ne by done. apply lookup_insert_eq. }
    split; [apply Hf |].
    rewrite Hf. intros [= Hfail]. now rewrite Hfail.
  - tauto.
Qed.

Lemma analyze_samples_rows project db locus_id db' :
  analyze_samples project db locus_id = Ok db' ->
  channel_annotations_table db' = channel_annotations_table db /\
  sample_annotations_table db' = sample_annotations_table db /\
  Forall2 (fun la la' =>
             if in_project project db la && bool_decide (la_locus_id la = locus_id)
             then exists sa,
                 sample_annotation_of db la = Some sa /\
                 analyze_sample project db (get_locus_parameters project locus_id)
                                (sa_sample_id sa) la = Ok la'
             else la' = la)
          (locus_annotations_table db) (locus_annotations_table db').
Proof.
  unfold analyze_samples. intros H.
  match type of H with
  | context [for_rows ?sel ?body ?s ?t] =>
      destruct (for_rows sel body s t) as [[u rows] |] eqn:Hr;
        [| discriminate H];
      apply for_rows_Forall2 in Hr
  end.
  simpl in H. injection H as <-. simpl.
  split; [reflexivity |]. split; [reflexivity |].
  eapply Forall2_impl; [exact Hr |].
  intros la la' Hrel. simpl in Hrel.
  destruct (in_project project db la && bool_decide (la_locus_id la = locus_id)) eqn:Hsel;
    [| exact Hrel].
  destruct Hrel as [s1 [s2 Hb]].
  apply andb_true_iff in Hsel. destruct Hsel as [Hp _].
  destruct (sample_annotation_of_in_project _ _ _ Hp) as [sa Hsa].
  rewrite Hsa in Hb. exists sa. split; [exact Hsa |].
  unfold mbind, result_bind in Hb.
  destruct (analyze_sample project db (get_locus_parameters project locus_id)
                           (sa_sample_id sa) la) as [la1 |];
    simpl in Hb; [| discriminate Hb].
  now injection Hb as _ <-.
Qed.

(** The rows of the result that [analyze_samples] processed. *)
Lemma analyze_samples_processed project db locus_id db' la' :
  analyze_samples project db locus_id = Ok db' ->
  In la' (locus_annotations_table db') ->
  in_project project db la' = true ->
  la_locus_id la' = locus_id ->
  exists la sa,
    In la (locus_annotations_table db) /\
    sample_annotation_of db la = Some sa /\
    analyze_sample project db (get_locus_parameters project locus_id)
                   (sa_sample_id sa) la = Ok la'.
Proof.
  intros H Hin Hp Hl.
  destruct (analyze_samples_rows _ _ _ _ H) as [_ [_ HF]].
  destruct (Forall2_In_r _ _ _ _ HF Hin) as [la [Hla Hrel]].
  destruct (in_project project db la && bool_decide (la_locus_id la = locus_id)) eqn:Hsel.
  - destruct Hrel as [sa [Hsa Ha]]. eauto.
  - subst la'. rewrite Hp in Hsel. simpl in Hsel.
    apply bool_decide_eq_false in Hsel. contradiction.
Qed.


Lemma get_best_run_in_table project db sample_id locus_id ca :
  get_best_run project db sample_id locus_id = Ok (Some ca) ->
  In ca (channel_annotations_table db).
Proof.
  intros H. unfold get_best_run in H. apply get_best_run_loop_in in H.
  destruct H as [H | H]; [discriminate H |].
  apply filter_In in H. destruct H as [H _]. apply filter_In in H. tauto.
Qed.

(** C4: after [analyze_samples] has run for a locus, every locus annotation
    of the project and that locus that had a best run has a [failure] flag,
    which is true exactly when none of its annotated peaks is higher than
    the failure threshold of the locus; and when the flag is true every
    entry of its [alleles] map is false, whatever the bins of the peaks. *)
Theorem analyze_samples_failure
        (project : genotyping_project) (db db' : database) (locus_id : Z)
        (la' : sample_locus_annotation) :
  analyze_samples project db locus_id = Ok db' ->
  In la' (locus_annotations_table db') ->
  in_project project db la' = true ->
  la_locus_id la' = locus_id ->
  reference_run la' <> None ->
  (exists b, la_flags la' !! "failure" = Some b) /\
  (la_flags la' !! "failure" = Some true <->
   forall x, In x (la_annotated_peaks la') ->
             ~ (failure_threshold (get_locus_parameters project locus_id)
                < peak_height x)%Q) /\
  (la_flags la' !! "failure" = Some true ->
   forall k v, alleles la' !! k = Some v -> v = false).
Proof.
  intros H Hin Hp Hl Href.
  destruct (analyze_samples_processed _ _ _ _ _ H Hin Hp Hl) as [la [sa [_ [_ Ha]]]].
  apply analyze_sample_inv in Ha. destruct Ha as [_ [_ Ha]].
  destruct (reference_run la') as [id |]; [| congruence].
  destruct Ha as [ca [_ [_ [_ [_ [Hf Hal]]]]]].
  set (lp := get_locus_parameters project locus_id) in *.
  split; [eauto |]. split.
  - rewrite Hf. split.
    + intros [= Hn] x Hx Hlt. apply negb_true_iff in Hn.
      assert (He : exceeds_failure_threshold lp (la_annotated_peaks la') = true).
      { apply existsb_exists. exists x. split; [exact Hx | now apply Qltb_lt]. }
      congruence.
    + intros Hall. f_equal. apply negb_true_iff.
      destruct (exceeds_failure_threshold lp (la_annotated_peaks la')) eqn:He;
        [| reflexivity].
      apply existsb_exists in He. destruct He as [x [Hx Hlt]].
      apply Qltb_lt in Hlt. exfalso. exact (Hall x Hx Hlt).
  - intros Hfail k v Hk. rewrite (Hal Hfail) in Hk. unfold all_false in Hk.
    rewrite lookup_fmap in Hk. destruct (alleles la !! k); simpl in Hk; congruence.
Qed.

Lemma analyze_samples_failure_witness :
  (exists b, la_flags example_annotation !! "failure" = Some b) /\
  (la_flags example_annotation !! "failure" = Some true <->
   forall x, In x (la_annotated_peaks example_annotation) ->
             ~ (failure_threshold (get_locus_parameters example_project 5)
                < peak_height x)%Q) /\
  (la_flags example_annotation !! "failure" = Some true ->
   forall k v, alleles example_annotation !! k = Some v -> v = false).
Proof.
  apply (analyze_samples_failure example_project example_database
           example_analyzed 5 example_annotation).
  - reflexivity.
  - left. reflexivity.
  - reflexivity.
  - reflexivity.
  - discriminate.
Defined.




(** The mark was there before the analysis. *)
Example manual_curation_before :
  exists la, In la (locus_annotations_table example_database) /\
             la_flags la !! "manual_curation" = Some true.
Proof. eexists. split; [left; reflexivity | reflexivity]. Qed.

End GenotypingFacts.

(** ** Staleness of the locus parameters *)

Module StalenessFacts.
Import Staleness.

Lemma params_changed_loop_true attrs params a :
  In a attrs -> key a ∈ params -> changed_column a ->
  params_changed_loop attrs params = true.
Proof.
  intros Hin Hkey [Hh [Hc Hch]].
  induction attrs as [| attr rest IH]; [destruct Hin |].
  simpl. destruct Hin as [-> | Hin].
  - rewrite Hh, Hc. rewrite (bool_decide_eq_true_2 _ Hkey). simpl.
    destruct (get_history a) as [[added unchanged] deleted]. simpl in Hch.
    destruct added; [| reflexivity]. destruct deleted; [| reflexivity].
    exfalso. destruct Hch as [H | H]; now apply H.
  - rewrite (IH Hin).
    destruct (negb (has_get_history attr) || has_get_collection attr
              || negb (bool_decide (key attr ∈ params))); [reflexivity |].
    destruct (get_history attr) as [[added unchanged] deleted].
    now destruct (truthy added || truthy deleted).
Qed.

Lemma params_changed_true target params :
  update_changes target params ->
  params_changed (row_state target) params = true.
Proof.
  intros [Hm [a [Hin [Hkey Hch]]]]. unfold params_changed. rewrite Hm. simpl.
  apply list_elem_of_In in Hin. eapply params_changed_loop_true; eassumption.
Qed.

Lemma before_update_stale_parameters target :
  before_update target = stale_parameters target.
Proof. unfold before_update. now destruct (row_class target). Qed.

(** The assignment of a flag does not show in the check of a parameter set
    that does not hold the flag. *)
Lemma params_changed_loop_assign k b attrs params :
  k ∉ params ->
  params_changed_loop (List.map (assign_attribute k b) attrs) params
  = params_changed_loop attrs params.
Proof.
  intros Hk. induction attrs as [| attr rest IH]; [reflexivity |].
  cbn [List.map params_changed_loop]. rewrite IH. unfold assign_attribute.
  destruct (String.eqb (key attr) k) eqn:E; [| reflexivity].
  apply String.eqb_eq in E. cbn [key has_get_history has_get_collection].
  rewrite (bool_decide_eq_false_2 (key attr ∈ params)) by now rewrite E.
  now rewrite !orb_true_r.
Qed.

Lemma params_changed_assign k b state params :
  k ∉ params -> modified state = true ->
  params_changed (assign_flag k b state) params = params_changed state params.
Proof.
  intros Hk Hm. unfold params_changed. rewrite Hm. cbn [assign_flag modified attributes negb].
  now apply params_changed_loop_assign.
Qed.

Lemma params_changed_modified state params :
  params_changed state params = true -> modified state = true.
Proof. unfold params_changed. now destruct (modified state). Qed.

Lemma flag_not_parameter :
  ("filter_parameters_stale" ∉ scanning_parameters_keys) /\
  ("scanning_parameters_stale" ∉ scanning_parameters_keys) /\
  ("filter_parameters_stale" ∉ filter_parameters_keys) /\
  ("scanning_parameters_stale" ∉ filter_parameters_keys).
Proof.
  repeat split; intros H; apply list_elem_of_In in H; simpl in H;
    repeat (destruct H as [H | H]; [discriminate H |]); exact H.
Qed.

(** The flags [stale_parameters] leaves: each is raised when the check of
    its parameter set succeeds on the row as it was received. *)
Lemma stale_parameters_flags target :
  filter_parameters_stale (stale_parameters target)
  = filter_parameters_stale target
    || params_changed (row_state target) filter_parameters_keys /\
  scanning_parameters_stale (stale_parameters target)
  = scanning_parameters_stale target
    || params_changed (row_state target) scanning_parameters_keys.
Proof.
  unfold stale_parameters.
  destruct (params_changed (row_state target) filter_parameters_keys) eqn:Hf.
  - pose proof (params_changed_modified _ _ Hf) as Hm.
    cbn [set_filter_parameters_stale row_state].
    rewrite (params_changed_assign _ _ _ _ (proj1 flag_not_parameter) Hm).
    destruct (params_changed (row_state target) scanning_parameters_keys);
      cbn; rewrite ?orb_true_r, ?orb_false_r; split; reflexivity.
  - destruct (params_changed (row_state target) scanning_parameters_keys);
      cbn; rewrite ?orb_true_r, ?orb_false_r; split; reflexivity.
Qed.

(** C5: for a row of any of the four locus-parameter classes, an update
    that changes a field of the filter-parameter set leaves
    [filter_parameters_stale] true once the [before_update] listeners have
    run, and an update that changes a field of the scanning-parameter set
    leaves [scanning_parameters_stale] true. *)
Theorem stale_after_update (target : locus_params_row) :
  (update_changes target filter_parameters_keys ->
   filter_parameters_stale (before_update target) = true) /\
  (update_changes target scanning_parameters_keys ->
   scanning_parameters_stale (before_update target) = true).
Proof.
  rewrite before_update_stale_parameters.
  destruct (stale_parameters_flags target) as [Hf Hs]. rewrite Hf, Hs. split.
  - intros H. rewrite (params_changed_true _ _ H). apply orb_true_r.
  - intros H. rewrite (params_changed_true _ _ H). apply orb_true_r.
Qed.

Lemma stale_after_update_witness :
  filter_parameters_stale (before_update example_row) = true /\
  scanning_parameters_stale (before_update example_row) = true.
Proof.
  split.
  - apply (proj1 (stale_after_update example_row)).
    split; [reflexivity |]. eexists. split; [| split].
    + apply list_elem_of_In. right. left. reflexivity.
    + apply list_elem_of_In. simpl. tauto.
    + split; [reflexivity |]. split; [reflexivity |]. left. discriminate.
  - apply (proj2 (stale_after_update example_row)).
    split; [reflexivity |]. eexists. split; [| split].
    + apply list_elem_of_In. right. right. left. reflexivity.
    + apply list_elem_of_In. simpl. tauto.
    + split; [reflexivity |]. split; [reflexivity |]. left. discriminate.
Defined.

(** An update that leaves the parameters alone leaves the flags alone. *)
Example unchanged_row_not_stale :
  let target :=
    {| row_class := BinEstimatorLocusParams;
       row_state :=
         {| modified := true;
            attributes :=
              [ {| key := "min_peak_frequency"; has_get_history := true;
                   has_get_collection := false;
                   get_history := ([PyInt 12], [], [PyInt 10]) |} ] |};
       scanning_parameters_stale := false;
       filter_parameters_stale := false |} in
  filter_parameters_stale (before_update target) = false /\
  scanning_parameters_stale (before_update target) = false.
Proof. split; reflexivity. Qed.

End StalenessFacts.

(** ** Breakpoints of an artifact estimator *)

Module BreakpointsFacts.
Import Breakpoints.
Local Open Scope list_scope.

Section Fit.

Variable fit : list pyval -> parameter_set -> Q * Q * Q * Q.

Lemma segments_generate est parameter_sets :
  segments (generate_estimating_equations fit est parameter_sets)
  = List.map bounds parameter_sets.
Proof.
  unfold segments, generate_estimating_equations, AE_generate_estimating_equations.
  simpl. rewrite !List.map_map. apply List.map_ext. intros ps.
  now destruct (fit (peak_data est) ps) as [[[a b] c] d].
Qed.

Lemma length_generate est parameter_sets :
  length (artifact_equations (generate_estimating_equations fit est parameter_sets))
  = length parameter_sets.
Proof.
  unfold generate_estimating_equations, AE_generate_estimating_equations.
  simpl. now rewrite !length_map.
Qed.

Lemma split_param_sets_app l1 l2 b :
  split_param_sets (l1 ++ l2) b
  = (split_param_sets l1 b ++ split_param_sets l2 b)%list.
Proof.
  induction l1 as [| ps l1 IH]; [reflexivity |].
  simpl. rewrite IH. now rewrite app_assoc.
Qed.

Lemma split_param_sets_outside l b :
  (forall ps, In ps l -> ~ strictly_inside b (bounds ps)) ->
  split_param_sets l b = l.
Proof.
  induction l as [| ps l IH]; intros H; [reflexivity |].
  simpl. rewrite IH by (intros q Hq; apply H; now right).
  destruct (Qltb (ps_start_size ps) b && Qltb b (ps_end_size ps)) eqn:E;
    [| reflexivity].
  apply andb_true_iff in E. destruct E as [E1 E2].
  apply Qltb_lt in E1, E2. exfalso. apply (H ps); [now left | now split].
Qed.

(** C8: when the breakpoint lies strictly inside exactly one segment of an
    estimator, [add_breakpoint] replaces that segment by the two segments
    that meet at the breakpoint, keeps the bounds of all the others, and
    refits one equation for each segment; from one equation that spans
    [min_base_length, max_base_length] it gives exactly two equations that
    split the range at the breakpoint, and [clear_breakpoints] then gives
    exactly one equation that spans the range again. *)
Theorem add_breakpoint_splits :
  (forall est b l1 eq l2,
      artifact_equations est = l1 ++ eq :: l2 ->
      strictly_inside b (equation_bounds eq) ->
      (forall e, In e (l1 ++ l2) -> ~ strictly_inside b (equation_bounds e)) ->
      segments (add_breakpoint fit est b)
      = (List.map equation_bounds l1
         ++ [(start_size eq, b); (b, end_size eq)]
         ++ List.map equation_bounds l2)%list) /\
  (forall est b eq,
      artifact_equations est = [eq] ->
      start_size eq = inject_Z (min_base_length (estimator_locus est)) ->
      end_size eq = inject_Z (max_base_length (estimator_locus est)) ->
      strictly_inside b (equation_bounds eq) ->
      length (artifact_equations (add_breakpoint fit est b)) = 2%nat /\
      segments (add_breakpoint fit est b)
      = [ (inject_Z (min_base_length (estimator_locus est)), b);
          (b, inject_Z (max_base_length (estimator_locus est))) ] /\
      length (artifact_equations
                (clear_breakpoints fit (add_breakpoint fit est b))) = 1%nat /\
      segments (clear_breakpoints fit (add_breakpoint fit est b))
      = [ (inject_Z (min_base_length (estimator_locus est)),
           inject_Z (max_base_length (estimator_locus est))) ]).
Proof.
  assert (Hgen : forall est b l1 eq l2,
             artifact_equations est = l1 ++ eq :: l2 ->
             strictly_inside b (equation_bounds eq) ->
             (forall e, In e (l1 ++ l2) -> ~ strictly_inside b (equation_bounds e)) ->
             split_param_sets (old_param_sets est) b
             = (List.map (fun e => {| ps_start_size := start_size e;
                                      ps_end_size := end_size e;
                                      ps_method := "TSR" |}) l1
                ++ [ {| ps_start_size := start_size eq; ps_end_size := b;
                        ps_method := "TSR" |};
                     {| ps_start_size := b; ps_end_size := end_size eq;
                        ps_method := "TSR" |} ]
                ++ List.map (fun e => {| ps_start_size := start_size e;
                                         ps_end_size := end_size e;
                                         ps_method := "TSR" |}) l2)%list).
  { intros est b l1 eq l2 Heq [Hs He] Hout.
    unfold old_param_sets. rewrite Heq, List.map_app. simpl.
    rewrite split_param_sets_app. simpl.
    apply Qltb_lt in Hs, He. simpl in Hs, He. rewrite Hs, He. simpl.
    rewrite !split_param_sets_outside; [reflexivity | |].
    - intros ps Hps. apply in_map_iff in Hps. destruct Hps as [e [<- Hin]].
      apply Hout. apply in_or_app. now right.
    - intros ps Hps. apply in_map_iff in Hps. destruct Hps as [e [<- Hin]].
      apply Hout. apply in_or_app. now left. }
  split.
  - intros est b l1 eq l2 Heq Hin Hout.
    unfold add_breakpoint. rewrite segments_generate.
    rewrite (Hgen est b l1 eq l2 Heq Hin Hout).
    rewrite !List.map_app, !List.map_map. reflexivity.
  - intros est b eq Heq Hmin Hmax Hin.
    assert (Hsplit := Hgen est b [] eq [] Heq Hin ltac:(intros e [])).
    simpl in Hsplit. unfold add_breakpoint. rewrite Hsplit.
    split; [now rewrite length_generate |].
    split; [rewrite segments_generate; simpl; now rewrite <- Hmin, <- Hmax |].
    unfold clear_breakpoints.
    split; [now rewrite length_generate |].
    now rewrite segments_generate.
Qed.

End Fit.

Lemma add_breakpoint_splits_witness :
  length (artifact_equations (add_breakpoint example_fit example_estimator 150)) = 2%nat /\
  segments (add_breakpoint example_fit example_estimator 150)
  = [ (inject_Z 100, 150%Q); (150%Q, inject_Z 300) ] /\
  length (artifact_equations
            (clear_breakpoints example_fit
               (add_breakpoint example_fit example_estimator 150))) = 1%nat /\
  segments (clear_breakpoints example_fit
              (add_breakpoint example_fit example_estimator 150))
  = [ (inject_Z 100, inject_Z 300) ].
Proof.
  apply (proj2 (add_breakpoint_splits example_fit) example_estimator 150%Q
               {| sd := 1%Q; r_squared := 1%Q; slope := 0%Q; intercept := 0%Q;
                  start_size := 100%Q; end_size := 300%Q |}).
  - reflexivity.
  - reflexivity.
  - reflexivity.
  - split; reflexivity.
Defined.

End BreakpointsFacts.

(** ** The probabilistic annotation *)

Module ProbabilityFacts.
Import Genotyping.
Local Open Scope list_scope.

Section Arithmetic.

Context {fa : float_arithmetic}.

Lemma all_peaks_from_total threshold peaks : forall i,
  (forall x, In x peaks -> probability x <> None) ->
  all_peaks_from threshold i peaks = Ok (indexed_called threshold i peaks).
Proof.
  induction peaks as [| x rest IH]; intros i H; [reflexivity |].
  simpl. unfold get_probability, called.
  destruct (probability x) as [q |] eqn:E.
  - simpl. rewrite IH by (intros y Hy; apply H; now right). simpl.
    now destruct (Qltb threshold q).
  - exfalso. apply (H x); [now left | exact E].
Qed.

Lemma indexed_called_lookup threshold peaks : forall i j x,
  In (j, x) (indexed_called threshold i peaks) <->
  (i <= j)%nat /\ peaks !! (j - i)%nat = Some x /\ called threshold x = true.
Proof.
  induction peaks as [| y rest IH]; intros i j x; simpl.
  - split; [tauto |]. intros [_ [H _]]. discriminate H.
  - assert (Hrest : In (j, x) (indexed_called threshold (S i) rest) <->
                    (i < j)%nat /\ rest !! (j - S i)%nat = Some x
                    /\ called threshold x = true).
    { rewrite IH. split; intros [H1 H2]; split; auto; lia. }
    assert (Hhead : forall c, (i <= j)%nat ->
              ((y :: rest) !! (j - i)%nat = Some x /\ c <->
               (j = i /\ y = x /\ c) \/
               ((i < j)%nat /\ rest !! (j - S i)%nat = Some x /\ c))).
    { intros c Hle. destruct (decide (j = i)) as [-> | Hne].
      - replace (i - i)%nat with 0%nat by lia. simpl. split.
        + intros [[= ->] Hc]. left. auto.
        + intros [[_ [-> Hc]] | [Hlt _]]; [auto | lia].
      - replace (j - i)%nat with (S (j - S i)) by lia. simpl. split.
        + intros [Hl Hc]. right. split; [lia | auto].
        + intros [[Hj _] | [_ H]]; [contradiction | exact H]. }
    destruct (called threshold y) eqn:Hy; simpl; rewrite Hrest.
    + split.
      * intros [[= <- <-] | [Hlt H]].
        -- split; [lia |]. apply Hhead; [lia |]. left. auto.
        -- split; [lia |]. apply Hhead; [lia |]. right. auto.
      * intros [Hle H]. apply Hhead in H; [| exact Hle].
        destruct H as [[-> [-> _]] | H]; [now left | now right].
    + split.
      * intros [Hlt H]. split; [lia |]. apply Hhead; [lia |]. right. auto.
      * intros [Hle H]. apply Hhead in H; [| exact Hle].
        destruct H as [[_ [-> Hc]] | H]; [congruence | exact H].
Qed.

Lemma indexed_called_snd threshold peaks : forall i,
  List.map snd (indexed_called threshold i peaks) = List.filter (called threshold) peaks.
Proof.
  induction peaks as [| y rest IH]; intros i; [reflexivity |].
  simpl. destruct (called threshold y); simpl; now rewrite IH.
Qed.

Lemma indexed_called_NoDup threshold peaks : forall i,
  NoDup (List.map fst (indexed_called threshold i peaks)).
Proof.
  induction peaks as [| y rest IH]; intros i; simpl; [constructor |].
  destruct (called threshold y); [| apply IH].
  simpl. constructor; [| apply IH].
  intros Hin. apply list_elem_of_In, in_map_iff in Hin.
  destruct Hin as [[j x] [Hj Hin]]. simpl in Hj. subst j.
  apply indexed_called_lookup in Hin. lia.
Qed.

(** A locus has allele counts only once its total was incremented, so the
    division of [allele_frequencies] never has a zero denominator. *)
Lemma count_peaks_totals threshold locus peaks : forall t t',
  count_peaks threshold locus t peaks = Ok t' ->
  locus_totals t' = locus_totals t /\
  forall k, allele_counts t' !! k <> None -> k = locus \/ allele_counts t !! k <> None.
Proof.
  induction peaks as [| x rest IH]; intros t t' H; simpl in H.
  - injection H as <-. auto.
  - destruct (counted threshold x) as [c |]; [| discriminate H]. simpl in H.
    apply IH in H. destruct H as [Ht Hk]. destruct c; [| auto].
    split; [exact Ht |]. intros k Hne. destruct (Hk k Hne) as [-> | Hc]; [now left |].
    destruct (decide (k = locus)) as [-> | Hkl]; [now left |]. right.
    simpl in Hc. now rewrite lookup_insert_ne in Hc by congruence.
Qed.

Lemma count_alleles_totals threshold selected table : forall t t',
  count_alleles threshold selected t table = Ok t' ->
  (forall k, allele_counts t !! k <> None ->
             exists n, locus_totals t !! k = Some (S n)) ->
  forall k, allele_counts t' !! k <> None ->
            exists n, locus_totals t' !! k = Some (S n).
Proof.
  induction table as [| la rest IH]; intros t t' H Hinv; simpl in H.
  - now injection H as <-.
  - destruct (selected la); [| exact (IH _ _ H Hinv)].
    destruct (active la) as [[|] |]; simpl in H;
      [| exact (IH _ _ H Hinv) | discriminate H].
    unfold mbind, result_bind in H. simpl in H.
    destruct (count_peaks threshold (la_locus_id la)
                          (add_total t (la_locus_id la)) (la_annotated_peaks la))
      as [t1 |] eqn:E; simpl in H; [| discriminate H].
    apply (IH _ _ H). apply count_peaks_totals in E. destruct E as [Ht Hk].
    intros k Hne. rewrite Ht. simpl.
    destruct (decide (k = la_locus_id la)) as [-> | Hkl].
    + rewrite lookup_insert_eq. eauto.
    + rewrite lookup_insert_ne by congruence. apply Hinv.
      destruct (Hk k Hne) as [-> | Hc]; [congruence | exact Hc].
Qed.

Lemma allele_frequencies_denominator threshold selected table t locus of_locus :
  count_alleles threshold selected {| allele_counts := ∅; locus_totals := ∅ |} table
  = Ok t ->
  allele_counts t !! locus = Some of_locus ->
  default O (locus_totals t !! locus) <> O.
Proof.
  intros H Hl.
  destruct (count_alleles_totals _ _ _ _ _ H) with (k := locus) as [n Hn].
  - intros k Hk. simpl in Hk. now rewrite lookup_empty in Hk.
  - congruence.
  - now rewrite Hn.
Qed.

Lemma weighted_frequency_total frequencies locus x :
  probability x <> None ->
  default ∅ (frequencies !! locus) !! bin_id x <> None ->
  weighted_frequency frequencies locus x = Ok (weight frequencies locus x).
Proof.
  intros Hp Hf. unfold weighted_frequency, weight, frequency_of, get_probability.
  destruct (default ∅ (frequencies !! locus) !! bin_id x) as [f |]; [| congruence].
  destruct (probability x) as [q |]; [reflexivity | congruence].
Qed.

Lemma weighted_frequencies_total frequencies locus l :
  (forall j x, In (j, x) l ->
               probability x <> None /\
               default ∅ (frequencies !! locus) !! bin_id x <> None) ->
  weighted_frequencies frequencies locus l
  = Ok (List.map (weight frequencies locus) (List.map snd l)).
Proof.
  induction l as [| [j x] rest IH]; intros H; [reflexivity |].
  simpl. destruct (H j x ltac:(now left)) as [Hp Hf].
  rewrite (weighted_frequency_total _ _ _ Hp Hf). simpl.
  rewrite IH by (intros j' x' Hin; apply (H j' x'); now right).
  reflexivity.
Qed.

Lemma map_snd_filter {A B : Type} (P : B -> bool) (l : list (A * B)) :
  List.map snd (List.filter (fun y => P (snd y)) l) = List.filter P (List.map snd l).
Proof.
  induction l as [| y rest IH]; [reflexivity |].
  simpl. destruct (P (snd y)); simpl; now rewrite IH.
Qed.

Lemma NoDup_map_filter {A B : Type} (f : A -> B) (P : A -> bool) (l : list A) :
  NoDup (List.map f l) -> NoDup (List.map f (List.filter P l)).
Proof.
  induction l as [| x rest IH]; intros H; [constructor |].
  simpl in H. apply NoDup_cons in H. destruct H as [Hx Hrest].
  simpl. destruct (P x); [| now apply IH].
  simpl. apply NoDup_cons. split; [| now apply IH].
  intros Hin. apply Hx.
  apply list_elem_of_In, in_map_iff in Hin. destruct Hin as [y [Hy Hin]].
  apply filter_In in Hin. apply list_elem_of_In, in_map_iff. exists y. tauto.
Qed.

Lemma weighted_frequency_inv frequencies locus x w :
  weighted_frequency frequencies locus x = Ok w -> w = weight frequencies locus x.
Proof.
  unfold weighted_frequency, weight, frequency_of, get_probability.
  destruct (default ∅ (frequencies !! locus) !! bin_id x) as [f |]; [| discriminate].
  destruct (probability x) as [q |]; [| discriminate]. simpl. now intros [= <-].
Qed.

Lemma weighted_frequencies_inv frequencies locus l : forall ws,
  weighted_frequencies frequencies locus l = Ok ws ->
  ws = List.map (weight frequencies locus) (List.map snd l).
Proof.
  induction l as [| [j x] rest IH]; intros ws H; simpl in H.
  - now injection H as <-.
  - unfold mbind, result_bind in H.
    destruct (weighted_frequency frequencies locus x) as [w |] eqn:Hw; simpl in H;
      [| discriminate H].
    destruct (weighted_frequencies frequencies locus rest) as [ws' |] eqn:Hws;
      simpl in H; [| discriminate H].
    injection H as <-. simpl.
    now rewrite (weighted_frequency_inv _ _ _ _ Hw), (IH _ eq_refl).
Qed.

Lemma all_peaks_from_indexed threshold peaks : forall i l,
  all_peaks_from threshold i peaks = Ok l -> l = indexed_called threshold i peaks.
Proof.
  induction peaks as [| x rest IH]; intros i l H; simpl in H.
  - now injection H as <-.
  - unfold mbind, result_bind, get_probability in H. simpl. unfold called.
    destruct (probability x) as [q |]; simpl in H; [| discriminate H].
    destruct (all_peaks_from threshold (S i) rest) as [l' |] eqn:Hl; simpl in H;
      [| discriminate H].
    injection H as <-. rewrite (IH _ _ Hl). now destruct (Qltb threshold q).
Qed.

Section Annotation.

Variable project : genotyping_project.
Variable frequencies : gmap Z (gmap (option Z) Q).
Variable m : nat.
Variable la : sample_locus_annotation.

Let threshold := probability_threshold project.
Let locus := la_locus_id la.
Let peaks := la_annotated_peaks la.
Let locus_params := get_locus_parameters project locus.
Let all_peaks := indexed_called threshold 0 peaks.
Let possible := List.filter (fun y => possible_artifact locus_params (snd y)) all_peaks.
Let value := formula frequencies locus threshold m peaks.

Lemma all_peaks_in j x :
  In (j, x) all_peaks <-> peaks !! j = Some x /\ called threshold x = true.
Proof.
  unfold all_peaks. rewrite indexed_called_lookup, Nat.sub_0_r.
  split; [tauto |]. intros H. split; [lia | exact H].
Qed.

Lemma possible_in j x :
  In (j, x) possible <->
  peaks !! j = Some x /\ called threshold x = true
  /\ possible_artifact locus_params x = true.
Proof.
  unfold possible. rewrite filter_In, all_peaks_in. simpl. tauto.
Qed.

(** The value the code computes for a peak is that of the formula. *)
Lemma new_probability_value x q :
  new_probability frequencies locus m all_peaks x = Ok q -> value x = Ok q.
Proof.
  unfold new_probability, mbind, result_bind.
  destruct (weighted_frequency frequencies locus x) as [this |] eqn:Ht; simpl;
    [| discriminate].
  destruct (weighted_frequencies frequencies locus (other_peaks all_peaks x))
    as [ws |] eqn:Hws; simpl; [| discriminate].
  apply weighted_frequency_inv in Ht. apply weighted_frequencies_inv in Hws.
  subst this ws. unfold other_peaks.
  rewrite (map_snd_filter (fun q => negb (Z.eqb (peak_index q) (peak_index x)))).
  unfold all_peaks. rewrite indexed_called_snd.
  intros H. exact H.
Qed.

Lemma possible_NoDup_index :
  NoDup (List.map peak_index peaks) ->
  NoDup (List.map (fun y => peak_index (snd y)) possible).
Proof.
  intros Hindex. unfold possible.
  rewrite <- (List.map_map snd peak_index), map_snd_filter.
  unfold all_peaks. rewrite indexed_called_snd.
  now apply NoDup_map_filter, NoDup_map_filter.
Qed.

Lemma possible_NoDup_position : NoDup (List.map fst possible).
Proof.
  unfold possible.
  assert (H := indexed_called_NoDup threshold peaks 0). fold all_peaks in H.
  revert H. generalize all_peaks. intros l.
  induction l as [| y rest IH]; intros H; [constructor |].
  simpl in H. apply NoDup_cons in H. destruct H as [Hy Hrest]. simpl.
  destruct (possible_artifact locus_params (snd y)); [| now apply IH].
  simpl. apply NoDup_cons. split; [| now apply IH].
  intros Hin. apply Hy.
  apply list_elem_of_In, in_map_iff in Hin. destruct Hin as [z [Hz Hin]].
  apply filter_In in Hin. apply list_elem_of_In, in_map_iff. exists z. tauto.
Qed.

Lemma compute_new_probs_inv (l : list (nat * peak)) : forall acc new_probs,
  compute_new_probs frequencies locus m all_peaks l acc = Ok new_probs ->
  NoDup (List.map (fun y => peak_index (snd y)) l) ->
  (forall j x, In (j, x) l ->
               exists q, value x = Ok q /\ new_probs !! peak_index x = Some q) /\
  (forall k, ~ In k (List.map (fun y => peak_index (snd y)) l) ->
             new_probs !! k = acc !! k).
Proof.
  induction l as [| [j x] rest IH]; intros acc new_probs H Hnd; simpl in H.
  - injection H as <-. split; [intros j x [] | reflexivity].
  - unfold mbind, result_bind in H.
    destruct (new_probability frequencies locus m all_peaks x) as [q |] eqn:Hq;
      simpl in H; [| discriminate H].
    simpl in Hnd. apply NoDup_cons in Hnd. destruct Hnd as [Hx Hrest].
    destruct (IH _ _ H Hrest) as [Hin Hout]. split.
    + intros j' x' [[= <- <-] | H'].
      * exists q. split; [now apply new_probability_value |].
        rewrite Hout; [apply lookup_insert_eq |].
        intros Hc. apply Hx. now apply list_elem_of_In.
      * now apply (Hin j').
    + intros k Hk. simpl in Hk. rewrite Hout by tauto.
      apply lookup_insert_ne. intros Heq. apply Hk. left. exact Heq.
Qed.

Lemma assign_new_probs_inv (new_probs : gmap Z Q) (l : list (nat * peak)) :
  forall acc changed changed' peaks',
    assign_new_probs threshold new_probs l acc changed = Ok (changed', peaks') ->
    (forall j x, In (j, x) l -> (j < length acc)%nat) ->
    NoDup (List.map fst l) ->
    length peaks' = length acc /\
    (forall j x, In (j, x) l ->
                 exists q, new_probs !! peak_index x = Some q /\
                           peaks' !! j = Some (set_probability x q)) /\
    (forall j, ~ In j (List.map fst l) -> peaks' !! j = acc !! j).
Proof.
  induction l as [| [j x] rest IH]; intros acc changed changed' peaks' H Hlt Hnd;
    simpl in H.
  - injection H as _ <-. split; [reflexivity |]. split; [intros j x [] | reflexivity].
  - destruct (new_probs !! peak_index x) as [q |] eqn:Hq; [| discriminate H].
    simpl in Hnd. apply NoDup_cons in Hnd. destruct Hnd as [Hj Hrest].
    destruct (IH _ _ _ _ H) as [Hlen [Hin Hout]].
    { intros j' x' H'. rewrite length_insert. apply (Hlt j' x'). now right. }
    { exact Hrest. }
    split; [now rewrite Hlen, length_insert |]. split.
    + intros j' x' [[= <- <-] | H'].
      * exists q. split; [exact Hq |].
        rewrite Hout by (intros Hc; apply Hj; now apply list_elem_of_In).
        apply list_lookup_insert_eq. apply (Hlt j x). now left.
      * now apply (Hin j').
    + intros j' Hj'. simpl in Hj'. rewrite Hout by tauto.
      apply list_lookup_insert_ne. intros ->. apply Hj'. now left.
Qed.

(** The annotation of one locus annotation: when it returns, the peaks
    are those of the annotation, and when the peak indices are distinct
    every called possible-artifact peak has the probability of the
    formula and the other peaks are kept. *)
Lemma annotate_locus_reannotated changed changed' la' :
  annotate_locus project frequencies m changed la = Ok (changed', la') ->
  (exists peaks', la' = set_annotated_peaks la peaks') /\
  (NoDup (List.map peak_index peaks) -> reannotated project frequencies m la la').
Proof.
  unfold annotate_locus, mbind, result_bind. fold threshold peaks locus.
  destruct (all_peaks_from threshold 0 peaks) as [all |] eqn:Hall; simpl;
    [| discriminate].
  apply all_peaks_from_indexed in Hall. subst all. fold all_peaks locus_params possible.
  destruct (compute_new_probs frequencies locus m all_peaks possible ∅)
    as [np |] eqn:Hnp; simpl; [| discriminate].
  destruct (assign_new_probs threshold np possible peaks changed)
    as [[c1 peaks1] |] eqn:Ha; simpl; [| discriminate].
  intros [= <- <-]. split; [eauto |]. intros Hindex.
  destruct (compute_new_probs_inv _ _ _ Hnp (possible_NoDup_index Hindex))
    as [Hval _].
  destruct (assign_new_probs_inv _ _ _ _ _ _ Ha) as [Hlen [Hset Hkeep]].
  { intros j x Hjx. apply possible_in in Hjx. destruct Hjx as [Hj _].
    now apply lookup_lt_Some in Hj. }
  { exact possible_NoDup_position. }
  exists peaks1. split; [reflexivity |]. split; [exact Hlen |].
  intros j p Hj. fold threshold locus locus_params peaks.
  destruct (called threshold p && possible_artifact locus_params p) eqn:E.
  - apply andb_true_iff in E.
    assert (Hin : In (j, p) possible) by (apply possible_in; tauto).
    destruct (Hval j p Hin) as [q [Hq Hnq]].
    destruct (Hset j p Hin) as [q' [Hnq' Hp]].
    exists q. split; [exact Hq |]. congruence.
  - rewrite Hkeep; [exact Hj |]. intros Hc.
    apply in_map_iff in Hc. destruct Hc as [[j' x'] [Hj' Hc]]. simpl in Hj'.
    subst j'. apply possible_in in Hc. destruct Hc as [Hx' [Hc Hp]].
    fold peaks in Hj. rewrite Hj in Hx'. injection Hx' as <-.
    rewrite Hc, Hp in E. discriminate E.
Qed.

End Annotation.

Lemma for_rows_total {A S : Type} (selected : A -> bool)
      (body : S -> A -> result (S * A)) (R : A -> A -> Prop) (table : list A) :
  (forall s x, In x table -> selected x = true ->
               exists s' x', body s x = Ok (s', x') /\ R x x') ->
  forall s, exists s' table',
    for_rows selected body s table = Ok (s', table') /\
    Forall2 (fun x x' => if selected x then R x x' else x' = x) table table'.
Proof.
  induction table as [| x rest IH]; intros H s.
  - exists s, []. split; [reflexivity | constructor].
  - simpl. destruct (selected x) eqn:Hsel.
    + destruct (H s x ltac:(now left) Hsel) as [s1 [x' [Hb HR]]]. rewrite Hb.
      simpl.
      destruct (IH ltac:(intros s0 y Hy; apply H; now right) s1)
        as [s2 [rest' [Hr HF]]].
      rewrite Hr. simpl. exists s2, (x' :: rest'). split; [reflexivity |].
      constructor; [now rewrite Hsel | exact HF].
    + simpl.
      destruct (IH ltac:(intros s0 y Hy; apply H; now right) s)
        as [s2 [rest' [Hr HF]]].
      rewrite Hr. simpl. exists s2, (x :: rest'). split; [reflexivity |].
      constructor; [now rewrite Hsel | exact HF].
Qed.

(** What a run of [for_rows] that returns did to each row. *)
Lemma for_rows_rows {A S : Type} (selected : A -> bool)
      (body : S -> A -> result (S * A)) (R : A -> A -> Prop) (table : list A) :
  (forall s x s' x', In x table -> selected x = true ->
                     body s x = Ok (s', x') -> R x x') ->
  forall s s' table',
    for_rows selected body s table = Ok (s', table') ->
    Forall2 (fun x x' => if selected x then R x x' else x' = x) table table'.
Proof.
  induction table as [| x rest IH]; intros H s s' table' Hr; simpl in Hr.
  - injection Hr as _ <-. constructor.
  - unfold mbind, result_bind in Hr.
    destruct (if selected x then body s x else Ok (s, x)) as [[s1 x'] |] eqn:Hb;
      simpl in Hr; [| discriminate Hr].
    destruct (for_rows selected body s1 rest) as [[s2 rest'] |] eqn:Hrest;
      simpl in Hr; [| discriminate Hr].
    injection Hr as _ <-. constructor.
    + destruct (selected x) eqn:Hsel.
      * eapply H; [now left | exact Hsel | exact Hb].
      * now injection Hb as _ <-.
    + eapply IH; [| exact Hrest]. intros s0 y s0' y' Hy. apply H. now right.
Qed.

Lemma annotate_sample_rows project db frequencies changed table sa changed' table' sa' :
  annotate_sample project db frequencies (changed, table) sa
  = Ok (changed', table', sa') ->
  exists m,
    sample_moi (probability_threshold project) (of_sample project db sa) 0 table = Ok m /\
    sa' = set_moi sa m /\
    Forall2 (fun la la' => if of_sample project db sa la
                           then annotated_row project frequencies m la la'
                           else la' = la)
            table table'.
Proof.
  unfold annotate_sample, mbind, result_bind.
  destruct (sample_moi (probability_threshold project) (of_sample project db sa) 0 table)
    as [m |]; simpl; [| discriminate].
  match goal with
  | |- context [for_rows ?sel ?body changed table] =>
      destruct (for_rows sel body changed table) as [[c1 table1] |] eqn:Hr; simpl;
        [| discriminate];
      pose proof (for_rows_rows sel body (annotated_row project frequencies m) table)
        as Hrows
  end.
  intros [= <- <- <-]. exists m. split; [reflexivity |]. split; [reflexivity |].
  eapply Hrows; [| exact Hr].
  intros c la c' la' _ _ Hb. cbv beta in Hb. unfold mbind, result_bind in Hb.
  destruct (active la) as [[|] |] eqn:Ha; simpl in Hb; [| | discriminate Hb].
  - destruct (annotate_locus_reannotated _ _ _ _ _ _ _ Hb) as [H1 H2].
    split; [exact H1 | intros _; exact H2].
  - injection Hb as _ <-. split; [| intros Ht; congruence].
    exists (la_annotated_peaks la). now destruct la.
Qed.

Lemma of_sample_set_annotated_peaks project db sa la peaks' :
  of_sample project db sa (set_annotated_peaks la peaks') = of_sample project db sa la.
Proof. reflexivity. Qed.

(** A locus annotation belongs to one sample annotation. *)
Lemma of_sample_unique project db sa1 sa2 la :
  of_sample project db sa1 la = true -> sa_id sa1 <> sa_id sa2 ->
  of_sample project db sa2 la = false.
Proof.
  unfold of_sample. intros H Hne. apply andb_true_iff in H. destruct H as [_ H].
  apply bool_decide_eq_true in H. apply andb_false_iff. right.
  apply bool_decide_eq_false. congruence.
Qed.

Lemma sample_moi_agree threshold (selected : sample_locus_annotation -> bool)
      (table table' : list sample_locus_annotation) :
  Forall2 (fun la la' => if selected la then la' = la else selected la' = false)
          table table' ->
  forall m, sample_moi threshold selected m table' = sample_moi threshold selected m table.
Proof.
  induction 1 as [| la la' table table' Hla _ IH]; intros m; [reflexivity |].
  simpl. destruct (selected la) eqn:Hsel.
  - subst la'. rewrite Hsel. unfold mbind, result_bind.
    destruct (active la) as [[|] |]; simpl; [| apply IH | reflexivity].
    destruct (count_called threshold (la_annotated_peaks la)); simpl;
      [apply IH | reflexivity].
  - rewrite Hla. simpl. apply IH.
Qed.

Lemma Forall2_compose {A B C : Type} (R1 : A -> B -> Prop) (R2 : B -> C -> Prop)
      (R3 : A -> C -> Prop) l1 l2 l3 :
  (forall x y z, R1 x y -> R2 y z -> R3 x z) ->
  Forall2 R1 l1 l2 -> Forall2 R2 l2 l3 -> Forall2 R3 l1 l3.
Proof.
  intros H H12. revert l3.
  induction H12 as [| x y l1 l2 Hxy _ IH]; intros l3 H23; inversion H23; subst;
    constructor; eauto.
Qed.

(** The passes over the sample annotations, one after the other: a pass
    leaves the rows of the other samples alone, so each sample sees its rows
    as they were before the first pass. *)
Lemma samples_pass project initial frequencies
      (samples : list project_sample_annotations) :
  forall changed cur changed' cur' samples',
    for_rows (fun sa => bool_decide (sa_project_id sa = project_id project))
             (annotate_sample project initial frequencies)
             (changed, cur) samples = Ok ((changed', cur'), samples') ->
    NoDup (List.map sa_id samples) ->
    Forall2 (fun la la' =>
               (exists peaks', la' = set_annotated_peaks la peaks') /\
               ((forall sa, In sa samples -> sa_project_id sa = project_id project ->
                            of_sample project initial sa la = false) -> la' = la))
            cur cur' /\
    forall sa, In sa samples -> sa_project_id sa = project_id project ->
      exists m,
        sample_moi (probability_threshold project) (of_sample project initial sa) 0 cur
        = Ok m /\
        In (set_moi sa m) samples' /\
        forall i la, cur !! i = Some la -> of_sample project initial sa la = true ->
          exists la', cur' !! i = Some la' /\
                      annotated_row project frequencies m la la'.
Proof.
  induction samples as [| sa1 rest IH]; intros changed cur changed' cur' samples' H Hnd.
  - simpl in H. injection H as _ <- <-. split; [| intros sa []].
    induction cur as [| la cur IHc]; constructor; [| exact IHc].
    split; [| reflexivity]. exists (la_annotated_peaks la). now destruct la.
  - cbn [for_rows] in H. unfold mbind, result_bind in H.
    simpl in Hnd. apply NoDup_cons in Hnd. destruct Hnd as [Hfresh Hnd].
    assert (Hids : forall sa, In sa rest -> sa_id sa1 <> sa_id sa).
    { intros sa Hsa Heq. apply Hfresh. apply list_elem_of_In, in_map_iff.
      exists sa. split; [now symmetry | exact Hsa]. }
    destruct (bool_decide (sa_project_id sa1 = project_id project)) eqn:Hsel.
    + apply bool_decide_eq_true in Hsel.
      destruct (annotate_sample project initial frequencies (changed, cur) sa1)
        as [[[c1 cur1] sa1'] |] eqn:Hpass; simpl in H; [| discriminate H].
      destruct (for_rows _ _ (c1, cur1) rest) as [[[c2 cur2] rest'] |] eqn:Hrest;
        simpl in H; [| discriminate H].
      injection H as <- <- <-.
      destruct (annotate_sample_rows _ _ _ _ _ _ _ _ _ Hpass) as [m1 [Hm1 [-> F1]]].
      destruct (IH _ _ _ _ _ Hrest Hnd) as [F2 Hsamples].
      assert (Hkept : forall sa i la,
                 In sa rest -> cur !! i = Some la ->
                 of_sample project initial sa la = true -> cur1 !! i = Some la).
      { intros sa i la Hsa Hi Hof.
        destruct (Forall2_lookup_l _ _ _ _ _ F1 Hi) as [la1 [Hi1 Hrel]].
        rewrite (of_sample_unique _ _ sa sa1 la Hof) in Hrel
          by (intros Heq; now apply (Hids sa Hsa)).
        now subst la1. }
      split.
      * eapply Forall2_compose; [| exact F1 | exact F2].
        intros la la1 la2 Hla [[p2 Hp2] Hla2]. cbv beta in Hla. subst la2.
        assert (Hp1 : exists p1, la1 = set_annotated_peaks la p1).
        { destruct (of_sample project initial sa1 la); [apply Hla |].
          subst la1. exists (la_annotated_peaks la). now destruct la. }
        destruct Hp1 as [p1 ->]. split; [now exists p2 |].
        intros Hnone. rewrite Hla2.
        -- rewrite (Hnone sa1 (or_introl eq_refl) Hsel) in Hla. exact Hla.
        -- intros sa Hsa Hp. rewrite of_sample_set_annotated_peaks.
           apply Hnone; [now right | exact Hp].
      * intros sa [<- | Hsa] Hp.
        -- exists m1. split; [exact Hm1 |]. split; [now left |].
           intros i la Hi Hof.
           destruct (Forall2_lookup_l _ _ _ _ _ F1 Hi) as [la1 [Hi1 Hrel]].
           rewrite Hof in Hrel.
           destruct (Forall2_lookup_l _ _ _ _ _ F2 Hi1) as [la2 [Hi2 [_ Hsame]]].
           exists la1. split; [| exact Hrel]. rewrite Hi2. f_equal. apply Hsame.
           intros sa Hsa _. destruct Hrel as [[p1 ->] _].
           rewrite of_sample_set_annotated_peaks.
           apply (of_sample_unique _ _ sa1 sa la Hof). now apply Hids.
        -- destruct (Hsamples sa Hsa Hp) as [m [Hm [Hin Hrows]]].
           exists m. split; [| split; [now right |]].
           ++ rewrite <- Hm. symmetry. apply sample_moi_agree.
              eapply Forall2_impl; [exact F1 |]. intros la la1 Hrel. cbv beta in *.
              destruct (of_sample project initial sa la) eqn:Hof.
              ** rewrite (of_sample_unique _ _ sa sa1 la Hof) in Hrel
                   by (intros Heq; now apply (Hids sa Hsa)).
                 exact Hrel.
              ** destruct (of_sample project initial sa1 la);
                   [destruct Hrel as [[p1 ->] _]; now rewrite of_sample_set_annotated_peaks
                   | now subst la1].
           ++ intros i la Hi Hof. apply Hrows; [| exact Hof].
              now apply (Hkept sa).
    + apply bool_decide_eq_false in Hsel. simpl in H.
      destruct (for_rows _ _ (changed, cur) rest) as [[[c2 cur2] rest'] |] eqn:Hrest;
        simpl in H; [| discriminate H].
      injection H as <- <- <-.
      destruct (IH _ _ _ _ _ Hrest Hnd) as [F2 Hsamples]. split.
      * eapply Forall2_impl; [exact F2 |]. intros la la' [Hp Hsame].
        split; [exact Hp |]. intros Hnone. apply Hsame.
        intros sa Hsa. apply Hnone. now right.
      * intros sa [<- | Hsa] Hp; [contradiction |].
        destruct (Hsamples sa Hsa Hp) as [m [Hm [Hin Hrows]]].
        exists m. split; [exact Hm |]. split; [now right | exact Hrows].
Qed.

(** C1: in a cycle of [probabilistic_peak_annotation] that returns, with
    the allele frequencies the cycle starts from and, for each sample
    annotation of the project, the multiplicity of infection [m] that the
    cycle computes for it and stores in its [moi]: every locus annotation
    of the sample that has peaks and has not failed gets, for each called
    peak [p] that is a possible artifact, the probability
    [(total - others ^ m) / total], where [others] sums
    [allele_frequency(bin(q)) * probability(q)] over the called peaks [q]
    of the annotation other than [p] and
    [total = (others + allele_frequency(bin(p)) * probability(p)) ^ m], all
    in the arithmetic of the floats; its other peaks are left as they are.
    Sample annotations are told apart by their id, peaks by their
    [peak_index]. *)
Theorem probability_of_possible_artifact
        (project : genotyping_project) (initial db db' : database)
        (alleles_changed : bool) :
  cycle project initial db = Ok (db', alleles_changed) ->
  NoDup (List.map sa_id (sample_annotations_table db)) ->
  exists t,
    count_alleles (probability_threshold project) (in_project project initial)
                  {| allele_counts := ∅; locus_totals := ∅ |}
                  (locus_annotations_table db) = Ok t /\
    forall sa,
      In sa (sample_annotations_table db) ->
      sa_project_id sa = project_id project ->
      exists m,
        sample_moi (probability_threshold project) (of_sample project initial sa) 0
                   (locus_annotations_table db) = Ok m /\
        In (set_moi sa m) (sample_annotations_table db') /\
        forall i la,
          locus_annotations_table db !! i = Some la ->
          of_sample project initial sa la = true ->
          active la = Ok true ->
          NoDup (List.map peak_index (la_annotated_peaks la)) ->
          exists la',
            locus_annotations_table db' !! i = Some la' /\
            reannotated project (allele_frequencies t) m la la'.
Proof.
  unfold cycle, mbind, result_bind. intros H Hnd.
  destruct (count_alleles (probability_threshold project) (in_project project initial)
                          {| allele_counts := ∅; locus_totals := ∅ |}
                          (locus_annotations_table db)) as [t |]; simpl in H;
    [| discriminate H].
  exists t. split; [reflexivity |].
  destruct (for_rows _ _ (false, locus_annotations_table db)
                     (sample_annotations_table db))
    as [[[c cur] samples] |] eqn:Hr; simpl in H; [| discriminate H].
  injection H as <- <-. cbn [sample_annotations_table locus_annotations_table snd].
  destruct (samples_pass _ _ _ _ _ _ _ _ _ Hr Hnd) as [_ Hsamples].
  intros sa Hsa Hp. destruct (Hsamples sa Hsa Hp) as [m [Hm [Hin Hrows]]].
  exists m. split; [exact Hm |]. split; [exact Hin |].
  intros i la Hi Hof Ha Hidx. destruct (Hrows i la Hi Hof) as [la' [Hi' [_ Hre]]].
  exists la'. split; [exact Hi' | now apply Hre].
Qed.

Lemma for_rows_inv {A S : Type} (selected : A -> bool)
      (body : S -> A -> result (S * A)) (Inv : S -> Prop) (R : A -> A -> Prop)
      (table : list A) :
  (forall s x, Inv s -> In x table -> selected x = true ->
               exists s' x', body s x = Ok (s', x') /\ Inv s' /\ R x x') ->
  forall s, Inv s ->
    exists s' table',
      for_rows selected body s table = Ok (s', table') /\ Inv s' /\
      Forall2 (fun x x' => if selected x then R x x' else x' = x) table table'.
Proof.
  induction table as [| x rest IH]; intros H s Hs.
  - exists s, []. split; [reflexivity |]. split; [exact Hs | constructor].
  - simpl. destruct (selected x) eqn:Hsel.
    + destruct (H s x Hs ltac:(now left) Hsel) as [s1 [x' [Hb [Hs1 HR]]]].
      rewrite Hb. simpl.
      destruct (IH ltac:(intros s0 y Hs0 Hy; apply H; [exact Hs0 | now right]) s1 Hs1)
        as [s2 [rest' [Hr [Hs2 HF]]]].
      rewrite Hr. simpl. exists s2, (x' :: rest'). split; [reflexivity |].
      split; [exact Hs2 |]. constructor; [now rewrite Hsel | exact HF].
    + simpl.
      destruct (IH ltac:(intros s0 y Hs0 Hy; apply H; [exact Hs0 | now right]) s Hs)
        as [s2 [rest' [Hr [Hs2 HF]]]].
      rewrite Hr. simpl. exists s2, (x :: rest'). split; [reflexivity |].
      split; [exact Hs2 |]. constructor; [now rewrite Hsel | exact HF].
Qed.

Lemma Forall2_eq_if {A : Type} (selected : A -> bool) (l l' : list A) :
  Forall2 (fun x x' => if selected x then x' = x else x' = x) l l' -> l' = l.
Proof.
  induction 1 as [| x x' l l' Hx HF IH]; [reflexivity |].
  rewrite IH. f_equal. now destruct (selected x).
Qed.

Lemma set_annotated_peaks_same la :
  set_annotated_peaks la (la_annotated_peaks la) = la.
Proof. now destruct la. Qed.

Lemma same_but_alleles_refl la : same_but_alleles la la.
Proof. exists (alleles la). now destruct la. Qed.

Lemma same_but_alleles_trans la1 la2 la3 :
  same_but_alleles la1 la2 -> same_but_alleles la2 la3 -> same_but_alleles la1 la3.
Proof. intros [a ->] [b ->]. now exists b. Qed.

Lemma same_but_alleles_active la la' :
  same_but_alleles la la' -> active la' = active la.
Proof. now intros [al ->]. Qed.

Lemma same_but_alleles_settled project la la' :
  same_but_alleles la la' -> settled project la -> settled project la'.
Proof. now intros [al ->]. Qed.

Lemma same_but_alleles_in_project project db la la' :
  same_but_alleles la la' -> in_project project db la' = in_project project db la.
Proof. now intros [al ->]. Qed.

Lemma same_but_alleles_of_sample project db sa la la' :
  same_but_alleles la la' -> of_sample project db sa la' = of_sample project db sa la.
Proof. now intros [al ->]. Qed.

Lemma of_sample_in_project project db sa la :
  of_sample project db sa la = true -> in_project project db la = true.
Proof. unfold of_sample. intros H. apply andb_true_iff in H. tauto. Qed.

(** No possible artifact: the annotation of the locus changes nothing. *)
Lemma annotate_locus_unchanged project frequencies m changed la :
  active la = Ok true -> settled project la ->
  annotate_locus project frequencies m changed la = Ok (changed, la).
Proof.
  intros Ha [_ Hs]. specialize (Hs Ha). unfold annotate_locus.
  rewrite all_peaks_from_total by (intros x Hx; apply (Hs x Hx)).
  simpl.
  assert (Hnil : List.filter
                   (fun y => possible_artifact
                               (get_locus_parameters project (la_locus_id la)) (snd y))
                   (indexed_called (probability_threshold project) 0
                                   (la_annotated_peaks la)) = []).
  { assert (H : forall j x,
               In (j, x) (indexed_called (probability_threshold project) 0
                                         (la_annotated_peaks la)) ->
               possible_artifact (get_locus_parameters project (la_locus_id la)) x
               = false).
    { intros j x Hin. apply indexed_called_lookup in Hin.
      destruct Hin as [_ [Hj _]]. apply (Hs x).
      apply list_elem_of_In. eapply list_elem_of_lookup_2. exact Hj. }
    revert H. generalize (indexed_called (probability_threshold project) 0
                                         (la_annotated_peaks la)).
    intros l H. induction l as [| [j x] rest IH]; [reflexivity |].
    simpl. rewrite (H j x) by now left.
    apply IH. intros j' x' Hin. apply (H j'). now right. }
  rewrite Hnil. simpl. now rewrite set_annotated_peaks_same.
Qed.

Lemma count_called_total threshold peaks :
  (forall x, In x peaks -> probability x <> None) ->
  exists n, count_called threshold peaks = Ok n.
Proof.
  induction peaks as [| x rest IH]; intros H; [now exists 0%nat |].
  simpl. unfold get_probability.
  destruct (probability x) as [q |] eqn:E;
    [| exfalso; apply (H x); [now left | exact E]].
  destruct IH as [n Hn]; [intros y Hy; apply H; now right |].
  simpl. rewrite Hn. simpl. eauto.
Qed.

Lemma sample_moi_total project selected table :
  (forall la, In la table -> selected la = true -> settled project la) ->
  forall m, exists m', sample_moi (probability_threshold project) selected m table = Ok m'.
Proof.
  induction table as [| la rest IH]; intros H m; [now exists m |].
  simpl. specialize (IH ltac:(intros y Hy; apply H; now right)).
  destruct (selected la) eqn:Hsel; [| simpl; apply IH].
  destruct (H la ltac:(now left) Hsel) as [[b Hb] Hs]. rewrite Hb.
  unfold mbind at 2, result_bind. simpl. destruct b; [| simpl; apply IH].
  destruct (count_called_total (probability_threshold project) (la_annotated_peaks la))
    as [n Hn]; [intros x Hx; apply (Hs Hb x Hx) |].
  rewrite Hn. simpl. apply IH.
Qed.

Lemma count_peaks_total threshold locus peaks : forall t,
  (forall x, In x peaks -> probability x <> None /\ in_bin x <> None) ->
  exists t', count_peaks threshold locus t peaks = Ok t'.
Proof.
  induction peaks as [| x rest IH]; intros t H; [now exists t |].
  simpl. destruct (H x ltac:(now left)) as [Hp Hb].
  assert (Hc : exists c, counted threshold x = Ok c).
  { unfold counted, get_probability.
    destruct (in_bin x) as [[|] |]; [| eauto | congruence].
    destruct (any_flag (flags x)); [eauto |].
    destruct (probability x); [simpl; eauto | congruence]. }
  destruct Hc as [c Hc]. rewrite Hc. simpl.
  apply IH. intros y Hy. apply H. now right.
Qed.

Lemma count_alleles_total project selected table :
  (forall la, In la table -> selected la = true -> settled project la) ->
  forall t, exists t',
      count_alleles (probability_threshold project) selected t table = Ok t'.
Proof.
  induction table as [| la rest IH]; intros H t; [now exists t |].
  simpl. specialize (IH ltac:(intros y Hy; apply H; now right)).
  destruct (selected la) eqn:Hsel; [| simpl; apply IH].
  destruct (H la ltac:(now left) Hsel) as [[b Hb] Hs]. rewrite Hb.
  unfold mbind at 2, result_bind. simpl. destruct b; [| simpl; apply IH].
  destruct (count_peaks_total (probability_threshold project) (la_locus_id la)
              (la_annotated_peaks la) (add_total t (la_locus_id la)))
    as [t' Ht']; [intros x Hx; destruct (Hs Hb x Hx); tauto |].
  rewrite Ht'. simpl. apply IH.
Qed.

Lemma annotate_sample_unchanged project db frequencies changed table sa :
  (forall la, In la table -> in_project project db la = true -> settled project la) ->
  exists m,
    annotate_sample project db frequencies (changed, table) sa
    = Ok (changed, table, set_moi sa m).
Proof.
  intros H. unfold annotate_sample.
  destruct (sample_moi_total project (of_sample project db sa) table) with (m := 0%nat)
    as [m Hm].
  { intros la Hla Hsel. apply H; [exact Hla |]. eapply of_sample_in_project, Hsel. }
  rewrite Hm. simpl.
  match goal with
  | |- context [for_rows ?sel ?body changed table] =>
      destruct (for_rows_inv sel body (fun s => s = changed) (fun la la' => la' = la)
                             table) with (s := changed)
        as [c' [table' [Hr [-> HF]]]]
  end.
  - intros s la -> Hla Hsel.
    assert (Hs : settled project la)
      by (apply H; [exact Hla | eapply of_sample_in_project, Hsel]).
    destruct Hs as [[b Hb] Hs]. rewrite Hb. unfold mbind, result_bind. simpl.
    destruct b.
    + rewrite annotate_locus_unchanged; [eauto | exact Hb |].
      split; [eauto | exact Hs].
    + eauto.
  - reflexivity.
  - rewrite Hr. simpl. apply Forall2_eq_if in HF. subst table'. eauto.
Qed.

Lemma cycle_unchanged project initial db :
  (forall la, In la (locus_annotations_table db) ->
              in_project project initial la = true -> settled project la) ->
  exists samples,
    cycle project initial db
    = Ok ({| channel_annotations_table := channel_annotations_table db;
             sample_annotations_table := samples;
             locus_annotations_table := locus_annotations_table db |}, false).
Proof.
  intros H. unfold cycle.
  destruct (count_alleles_total project (in_project project initial)
              (locus_annotations_table db) H
              {| allele_counts := ∅; locus_totals := ∅ |}) as [t Ht].
  rewrite Ht. simpl.
  match goal with
  | |- context [for_rows ?sel ?body ?s0 ?tbl] =>
      destruct (for_rows_inv sel body (fun s => s = s0) (fun _ _ => True) tbl)
        with (s := s0) as [s' [samples [Hr [-> _]]]]
  end.
  - intros s sa -> _ _.
    destruct (annotate_sample_unchanged project initial (allele_frequencies t)
                false (locus_annotations_table db) sa H) as [m Hm].
    rewrite Hm. eauto.
  - reflexivity.
  - rewrite Hr. simpl. eauto.
Qed.

Lemma call_probable_alleles_total threshold peaks : forall al,
  (forall x, In x peaks -> probability x <> None) ->
  exists al', call_probable_alleles threshold al peaks = Ok al'.
Proof.
  induction peaks as [| x rest IH]; intros al H; [now exists al |].
  simpl. unfold get_probability.
  destruct (probability x) as [q |] eqn:E;
    [| exfalso; apply (H x); [now left | exact E]].
  simpl. apply IH. intros y Hy. apply H. now right.
Qed.

Lemma finalize_alleles_total project la :
  settled project la ->
  exists la', finalize_alleles (probability_threshold project) la = Ok la' /\
              same_but_alleles la la'.
Proof.
  intros [[b Hb] Hs]. unfold finalize_alleles. rewrite Hb.
  unfold mbind, result_bind. simpl. destruct b.
  - destruct (call_probable_alleles_total (probability_threshold project)
                (la_annotated_peaks la) (all_false (alleles la))) as [al Hal];
      [intros x Hx; apply (Hs Hb x Hx) |].
    rewrite Hal. simpl. eexists. split; [reflexivity |]. now exists al.
  - eexists. split; [reflexivity |]. now eexists.
Qed.

Lemma Forall2_same_but_alleles_trans l1 l2 l3 :
  Forall2 same_but_alleles l1 l2 -> Forall2 same_but_alleles l2 l3 ->
  Forall2 same_but_alleles l1 l3.
Proof.
  intros H. revert l3. induction H as [| x y l1 l2 Hxy HF IH]; intros l3 H23.
  - inversion H23. constructor.
  - inversion H23 as [| y' z l2' l3' Hyz HF' ]; subst. constructor.
    + eapply same_but_alleles_trans; eassumption.
    + now apply IH.
Qed.

Lemma Forall2_same_but_alleles_refl l : Forall2 same_but_alleles l l.
Proof. induction l; constructor; [apply same_but_alleles_refl | assumption]. Qed.

Lemma finalize_total project initial db :
  (forall la, In la (locus_annotations_table db) ->
              in_project project initial la = true -> settled project la) ->
  exists table,
    finalize project initial db
    = Ok {| channel_annotations_table := channel_annotations_table db;
            sample_annotations_table := sample_annotations_table db;
            locus_annotations_table := table |} /\
    Forall2 same_but_alleles (locus_annotations_table db) table.
Proof.
  intros H. unfold finalize.
  match goal with
  | |- context [for_rows ?sel ?body ?s0 ?tbl] =>
      destruct (for_rows_inv sel body
                  (fun cur => Forall2 same_but_alleles (locus_annotations_table db) cur)
                  (fun _ _ => True) tbl) with (s := s0)
        as [table [samples [Hr [HF _]]]]
  end.
  - intros cur sa Hcur _ _.
    match goal with
    | |- context [for_rows ?sel ?body tt cur] =>
        destruct (for_rows_inv sel body (fun _ => True) same_but_alleles cur)
          with (s := tt) as [u [cur' [Hr [_ HF]]]]
    end.
    + intros u la _ Hla Hsel.
      destruct (GenotypingFacts.Forall2_In_r _ _ _ _ Hcur Hla) as [la0 [Hla0 Hrel]].
      assert (Hs : settled project la).
      { eapply same_but_alleles_settled; [exact Hrel |]. apply H; [exact Hla0 |].
        rewrite <- (same_but_alleles_in_project project initial _ _ Hrel).
        eapply of_sample_in_project, Hsel. }
      destruct (finalize_alleles_total project la Hs) as [la' [Hf Hsame]].
      rewrite Hf. simpl. eauto.
    + exact I.
    + rewrite Hr. simpl. eexists _, _. split; [reflexivity |]. split; [| exact I].
      eapply Forall2_same_but_alleles_trans; [exact Hcur |].
      eapply Forall2_impl; [exact HF |]. intros la la'. simpl.
      destruct (of_sample project initial sa la); [tauto |].
      intros ->. apply same_but_alleles_refl.
  - apply Forall2_same_but_alleles_refl.
  - rewrite Hr. simpl. eauto.
Qed.

Lemma active_initialized_row la : active (initialized_row la) = active la.
Proof.
  unfold initialized_row. destruct (active la) as [[|] |] eqn:E; try exact E.
  unfold active in *. simpl. destruct (la_annotated_peaks la); [discriminate E | exact E].
Qed.

Lemma in_project_initialized_row project db la :
  in_project project db (initialized_row la) = in_project project db la.
Proof. unfold initialized_row. now destruct (active la) as [[|] |]. Qed.

Lemma initialize_total project db :
  no_possible_artifact project db ->
  exists table,
    for_rows (in_project project db)
             (fun (_ : unit) la => la' ← initialize_probabilities la; Ok (tt, la'))
             tt (locus_annotations_table db) = Ok (tt, table) /\
    Forall2 (fun la la' => if in_project project db la
                           then la' = initialized_row la else la' = la)
            (locus_annotations_table db) table.
Proof.
  intros H.
  match goal with
  | |- context [for_rows ?sel ?body tt ?tbl] =>
      destruct (for_rows_inv sel body (fun _ => True)
                             (fun la la' => la' = initialized_row la) tbl)
        with (s := tt) as [[] [table [Hr [_ HF]]]]
  end.
  - intros [] la _ Hla Hsel. destruct (H la Hla Hsel) as [Hfail _].
    unfold initialize_probabilities, initialized_row.
    assert (Ha : exists b, active la = Ok b).
    { unfold active. destruct (la_annotated_peaks la) as [| x rest]; [eauto |].
      destruct (la_flags la !! "failure") as [b |]; [eauto |].
      exfalso. now apply Hfail. }
    destruct Ha as [b Hb]. rewrite Hb. unfold mbind, result_bind. simpl.
    destruct b; eauto.
  - exact I.
  - eauto.
Qed.

Lemma initialized_settled project db la :
  no_possible_artifact project db ->
  In la (locus_annotations_table db) -> in_project project db la = true ->
  settled project (initialized_row la).
Proof.
  intros H Hla Hsel. destruct (H la Hla Hsel) as [Hfail Hpk]. split.
  - rewrite active_initialized_row. unfold active.
    destruct (la_annotated_peaks la) as [| x rest]; [eauto |].
    destruct (la_flags la !! "failure") as [b |]; [eauto |].
    exfalso. now apply Hfail.
  - rewrite active_initialized_row. intros Ha x Hx.
    unfold initialized_row in Hx. rewrite Ha in Hx. simpl in Hx.
    apply in_map_iff in Hx. destruct Hx as [y [<- Hy]].
    destruct (Hpk Ha y Hy) as [Hb Hp]. split; [discriminate |].
    split; [exact Hb |].
    replace (la_locus_id (initialized_row la)) with (la_locus_id la)
      by (unfold initialized_row; now destruct (active la) as [[|] |]).
    exact Hp.
Qed.

(** C2: when no peak of a locus annotation of the project that has not
    failed is a possible artifact, [probabilistic_peak_annotation] ends
    after exactly one cycle of its loop, on any positive fuel, and every
    peak of such an annotation that is in a bin and has no true flag is
    left with probability 1. *)
Theorem converges_in_one_cycle
        (project : genotyping_project) (db : database) (fuel : nat) :
  no_possible_artifact project db ->
  (0 < fuel)%nat ->
  exists db',
    probabilistic_peak_annotation fuel project db = Some (Ok (db', 1%nat)) /\
    forall la',
      In la' (locus_annotations_table db') ->
      in_project project db la' = true ->
      active la' = Ok true ->
      forall x, In x (la_annotated_peaks la') ->
                in_bin x = Some true -> any_flag (flags x) = false ->
                probability x = Some 1%Q.
Proof.
  intros H Hfuel.
  destruct (initialize_total project db H) as [table0 [Hinit HF0]].
  set (db0 := {| channel_annotations_table := channel_annotations_table db;
                 sample_annotations_table := sample_annotations_table db;
                 locus_annotations_table := table0 |}).
  assert (Hinv : forall la, In la (locus_annotations_table db0) ->
                            in_project project db la = true -> settled project la).
  { intros la0 Hla0 Hsel. simpl in Hla0.
    destruct (GenotypingFacts.Forall2_In_r _ _ _ _ HF0 Hla0) as [la [Hla Hrel]].
    destruct (in_project project db la) eqn:Hp.
    - subst la0. now apply (initialized_settled project db).
    - subst la0. congruence. }
  destruct (cycle_unchanged project db db0 Hinv) as [samples Hcycle].
  set (db1 := {| channel_annotations_table := channel_annotations_table db0;
                 sample_annotations_table := samples;
                 locus_annotations_table := locus_annotations_table db0 |}) in *.
  destruct (finalize_total project db db1 Hinv) as [table2 [Hfin HF2]].
  eexists. split.
  - unfold probabilistic_peak_annotation. rewrite Hinit. fold db0.
    destruct fuel as [| fuel']; [lia |]. simpl cycles_loop. rewrite Hcycle.
    fold db1. rewrite Hfin. reflexivity.
  - simpl. intros la' Hla' Hsel Hact x Hx Hbin Hflag.
    destruct (GenotypingFacts.Forall2_In_r _ _ _ _ HF2 Hla') as [la0 [Hla0 Hrel2]].
    simpl in Hla0.
    destruct (GenotypingFacts.Forall2_In_r _ _ _ _ HF0 Hla0) as [la [Hla Hrel0]].
    rewrite (same_but_alleles_in_project _ _ _ _ Hrel2) in Hsel.
    rewrite (same_but_alleles_active _ _ Hrel2) in Hact.
    destruct Hrel2 as [al ->]. simpl in Hx.
    destruct (in_project project db la) eqn:Hp; subst la0; [| congruence].
    rewrite active_initialized_row in Hact.
    unfold initialized_row in Hx. rewrite Hact in Hx. simpl in Hx.
    apply in_map_iff in Hx. destruct Hx as [y [<- Hy]]. simpl in *.
    unfold initial_probability, in_bin_unflagged. now rewrite Hbin, Hflag.
Qed.

End Arithmetic.

#[local] Existing Instance exact_arithmetic.

Lemma probability_of_possible_artifact_witness :
  exists t,
    count_alleles (probability_threshold example_project)
                  (in_project example_project example_called_database)
                  {| allele_counts := ∅; locus_totals := ∅ |}
                  (locus_annotations_table example_called_database) = Ok t /\
    forall sa,
      In sa (sample_annotations_table example_called_database) ->
      sa_project_id sa = project_id example_project ->
      exists m,
        sample_moi (probability_threshold example_project)
                   (of_sample example_project example_called_database sa) 0
                   (locus_annotations_table example_called_database) = Ok m /\
        In (set_moi sa m) (sample_annotations_table (fst example_cycle)) /\
        forall i la,
          locus_annotations_table example_called_database !! i = Some la ->
          of_sample example_project example_called_database sa la = true ->
          active la = Ok true ->
          NoDup (List.map peak_index (la_annotated_peaks la)) ->
          exists la',
            locus_annotations_table (fst example_cycle) !! i = Some la' /\
            reannotated example_project (allele_frequencies t) m la la'.
Proof.
  apply (probability_of_possible_artifact example_project example_called_database
           example_called_database (fst example_cycle) (snd example_cycle)).
  - vm_compute. reflexivity.
  - apply (bool_decide_unpack _). vm_compute. exact I.
Defined.

(** The cycle on the example, in exact arithmetic: both bins have the
    frequency 1 and the sample the multiplicity 2; the weak peak next to
    the stutter gets ((1 + 1) ^ 2 - 1 ^ 2) / (1 + 1) ^ 2 = 3/4, the strong
    peak keeps its probability. *)
Example cycle_example :
  snd example_cycle = false /\
  List.map moi (sample_annotations_table (fst example_cycle)) = [Some 2%nat] /\
  List.map (fun la => List.map probability (la_annotated_peaks la))
           (locus_annotations_table (fst example_cycle))
  = [[Some 1%Q; Some ((4 - 1) / 4)%Q]].
Proof. vm_compute. repeat split. Qed.

Lemma example_analyzed_no_possible_artifact :
  no_possible_artifact example_project example_analyzed.
Proof.
  intros la Hla _. vm_compute in Hla. destruct Hla as [<- | []]. split.
  - intros _. vm_compute. discriminate.
  - intros _ x [<- | [<- | []]]; split; vm_compute; (discriminate || reflexivity).
Qed.

Lemma converges_in_one_cycle_witness :
  exists db',
    probabilistic_peak_annotation 1 example_project example_analyzed
    = Some (Ok (db', 1%nat)) /\
    forall la',
      In la' (locus_annotations_table db') ->
      in_project example_project example_analyzed la' = true ->
      active la' = Ok true ->
      forall x, In x (la_annotated_peaks la') ->
                in_bin x = Some true -> any_flag (flags x) = false ->
                probability x = Some 1%Q.
Proof.
  apply (converges_in_one_cycle example_project example_analyzed 1).
  - exact example_analyzed_no_possible_artifact.
  - lia.
Defined.

(** The run on the example: one cycle, the peak in a bin at probability 1,
    the peak outside any bin at 0, the sample at multiplicity 1. *)
Example probabilistic_peak_annotation_example :
  match probabilistic_peak_annotation 5 example_project example_analyzed with
  | Some (Ok (db', cycles)) =>
      cycles = 1%nat /\
      List.map (fun la => List.map probability (la_annotated_peaks la))
               (locus_annotations_table db')
      = [[Some 1%Q; Some 0%Q]] /\
      List.map moi (sample_annotations_table db') = [Some 1%nat]
  | _ => False
  end.
Proof. vm_compute. repeat split. Qed.

End ProbabilityFacts.

(** ** Channels *)

Module ChannelsFacts.
Import Channels.

Lemma py_index_nat {A : Type} (name : string) (l : list A) (i : nat) (x : A) :
  l !! i = Some x -> py_index name l (Z.of_nat i) = Ok x.
Proof.
  intros H. unfold py_index.
  assert (Hlt := lookup_lt_Some _ _ _ H).
  replace (Z.of_nat i <? 0)%Z with false by (symmetry; apply Z.ltb_ge; lia).
  replace (0 <=? Z.of_nat i)%Z with true by (symmetry; apply Z.leb_le; lia).
  replace (Z.of_nat i <? Z.of_nat (length l))%Z with true
    by (symmetry; apply Z.ltb_lt; lia).
  simpl. now rewrite Nat2Z.id, H.
Qed.

Lemma py_index_last {A : Type} (name : string) (l : list A) :
  l <> [] -> exists x, py_index name l (-1) = Ok x /\ In x l.
Proof.
  intros Hl. unfold py_index. simpl.
  assert (Hlen : (0 < length l)%nat) by (destruct l; [congruence | simpl; lia]).
  replace (0 <=? Z.of_nat (length l) + -1)%Z with true
    by (symmetry; apply Z.leb_le; lia).
  replace (Z.of_nat (length l) + -1 <? Z.of_nat (length l))%Z with true
    by (symmetry; apply Z.ltb_lt; lia).
  simpl.
  destruct (lookup_lt_is_Some_2 l (Z.to_nat (Z.of_nat (length l) + -1)) ltac:(lia))
    as [x Hx].
  rewrite Hx. exists x. split; [reflexivity |].
  apply list_elem_of_In. eapply list_elem_of_lookup_2. exact Hx.
Qed.

Lemma sorted_In (l : list Z) (k : Z) : In k (sorted l) <-> In k l.
Proof.
  unfold sorted. split; apply Permutation_in.
  - apply merge_sort_Permutation.
  - symmetry. apply merge_sort_Permutation.
Qed.

Lemma sorted_nonempty (l : list Z) : l <> [] -> sorted l <> [].
Proof.
  intros Hl Hs. apply Hl.
  assert (H := Permutation_length (merge_sort_Permutation Z.le l)).
  unfold sorted in Hs. rewrite Hs in H. destruct l; [reflexivity | discriminate H].
Qed.

Lemma find_max_data_point_unfold (fuel : nat) (c : channel) (l : locus) :
  channel_locus c = Some l ->
  ladder_peak_indices (channel_well c) <> [] ->
  find_max_data_point fuel c
  = match first_loop fuel
            {| base_sizes := base_sizes (channel_well c);
               ladder_peak_indices := sorted (ladder_peak_indices (channel_well c)) |}
            l 0 with
    | None => None
    | Some (Raise e) => Some (Raise e)
    | Some (Ok j) =>
        match py_index "ladder_peak_indices"
                       (sorted (ladder_peak_indices (channel_well c))) (j - 1)%Z with
        | Raise e => Some (Raise e)
        | Ok i =>
            match second_loop fuel
                    {| base_sizes := base_sizes (channel_well c);
                       ladder_peak_indices :=
                         sorted (ladder_peak_indices (channel_well c)) |}
                    l (data c) i (max_data_point c) with
            | None => None
            | Some (Raise e) => Some (Raise e)
            | Some (Ok m) =>
                Some (Ok (set_max_data_point c
                            {| base_sizes := base_sizes (channel_well c);
                               ladder_peak_indices :=
                                 sorted (ladder_peak_indices (channel_well c)) |} m))
            end
        end
    end.
Proof.
  intros Hl Hne. unfold find_max_data_point. rewrite Hl.
  destruct (ladder_peak_indices (channel_well c)); [congruence | reflexivity].
Qed.

Section Covered.

Variable c : channel.
Variable l : locus.
Hypothesis Hcovers : covers c l.

Let w : well :=
  {| base_sizes := base_sizes (channel_well c);
     ladder_peak_indices := sorted (ladder_peak_indices (channel_well c)) |}.

Lemma ladder_size_defined (j : nat) (k : Z) :
  ladder_peak_indices w !! j = Some k ->
  exists size,
    base_sizes w !! Z.to_nat k = Some size /\
    ladder_size w (Z.of_nat j) = Ok size.
Proof.
  intros Hj. assert (Hk : In k (ladder_peak_indices (channel_well c))).
  { apply sorted_In. apply list_elem_of_In. eapply list_elem_of_lookup_2. exact Hj. }
  destruct (covers_indices _ _ Hcovers k Hk) as [H0 Hn].
  destruct (lookup_lt_is_Some_2 (base_sizes w) (Z.to_nat k) ltac:(simpl; lia))
    as [size Hsize].
  exists size. split; [exact Hsize |]. unfold ladder_size.
  rewrite (py_index_nat _ _ _ _ Hj). simpl.
  rewrite <- (Z2Nat.id k) by lia. now apply py_index_nat.
Qed.

Lemma first_loop_ends (jmax : nat) (k : Z) (size : Q) :
  ladder_peak_indices w !! jmax = Some k ->
  base_sizes w !! Z.to_nat k = Some size ->
  (inject_Z (min_base_length l) <= size)%Q ->
  forall d j fuel,
    (j + d = jmax)%nat -> (d < fuel)%nat ->
    exists j0, (j0 <= jmax)%nat /\
               first_loop fuel w l (Z.of_nat j) = Some (Ok (Z.of_nat j0)).
Proof.
  intros Hk Hsize Hmin. induction d as [| d IH]; intros j fuel Hj Hfuel;
    (destruct fuel as [| fuel]; [lia |]); simpl.
  - replace j with jmax by lia.
    destruct (ladder_size_defined jmax k Hk) as [size' [Hs' Hl]].
    rewrite Hl. rewrite Hs' in Hsize. injection Hsize as ->.
    apply Qltb_ge in Hmin. rewrite Hmin. exists jmax. split; [lia | reflexivity].
  - destruct (lookup_lt_is_Some_2 (ladder_peak_indices w) j) as [k' Hk'].
    { apply lookup_lt_Some in Hk. lia. }
    destruct (ladder_size_defined j k' Hk') as [size' [_ Hl]]. rewrite Hl.
    destruct (Qltb size' (inject_Z (min_base_length l))).
    + replace (Z.of_nat j + 1)%Z with (Z.of_nat (S j)) by lia.
      apply IH; lia.
    + exists j. split; [lia | reflexivity].
Qed.

Lemma second_loop_ends (imax : nat) (size : Q) :
  base_sizes w !! imax = Some size ->
  (inject_Z (max_base_length l) <= size)%Q ->
  forall d i fuel current,
    (i + d = imax)%nat -> (d < fuel)%nat ->
    exists m, second_loop fuel w l (data c) (Z.of_nat i) current = Some (Ok m).
Proof.
  intros Hsize Hmax. induction d as [| d IH]; intros i fuel current Hi Hfuel;
    (destruct fuel as [| fuel]; [lia |]); simpl.
  - replace i with imax by lia. rewrite (py_index_nat _ _ _ _ Hsize).
    apply Qltb_ge in Hmax. rewrite Hmax. eauto.
  - assert (Hlen := lookup_lt_Some _ _ _ Hsize).
    destruct (lookup_lt_is_Some_2 (base_sizes w) i ltac:(lia)) as [s Hs].
    rewrite (py_index_nat _ _ _ _ Hs).
    destruct (Qltb s (inject_Z (max_base_length l))); [| eauto].
    replace (Z.of_nat i + 1)%Z with (Z.of_nat (S i)) by lia.
    destruct (lookup_lt_is_Some_2 (base_sizes w) (S i) ltac:(lia)) as [s' Hs'].
    rewrite (py_index_nat _ _ _ _ Hs').
    destruct (Qltb (inject_Z (min_base_length l)) s').
    + destruct (lookup_lt_is_Some_2 (data c) (S i)) as [x Hx].
      { assert (H := covers_data _ _ Hcovers). simpl in Hlen. lia. }
      rewrite (py_index_nat _ _ _ _ Hx). apply IH; lia.
    + apply IH; lia.
Qed.

Lemma find_max_data_point_covered :
  channel_locus c = Some l ->
  ladder_peak_indices (channel_well c) <> [] ->
  exists fuel c', find_max_data_point fuel c = Some (Ok c').
Proof.
  intros Hl Hne.
  destruct (covers_min _ _ Hcovers) as [k [size [Hk [Hsize Hmin]]]].
  assert (Hks : In k (ladder_peak_indices w)) by (simpl; now apply sorted_In).
  apply list_elem_of_In, list_elem_of_lookup_1 in Hks. destruct Hks as [jmax Hjmax].
  assert (Hstart : forall j0, (j0 <= jmax)%nat ->
             exists i, py_index "ladder_peak_indices" (ladder_peak_indices w)
                                (Z.of_nat j0 - 1) = Ok i /\
                       In i (ladder_peak_indices (channel_well c))).
  { intros j0 Hj0. destruct j0 as [| j0].
    - destruct (py_index_last "ladder_peak_indices" (ladder_peak_indices w))
        as [i [Hi Hin]]; [simpl; now apply sorted_nonempty |].
      exists i. split; [exact Hi | now apply sorted_In].
    - destruct (lookup_lt_is_Some_2 (ladder_peak_indices w) j0) as [i Hi].
      { apply lookup_lt_Some in Hjmax. lia. }
      exists i. split.
      + replace (Z.of_nat (S j0) - 1)%Z with (Z.of_nat j0) by lia.
        now apply py_index_nat.
      + apply sorted_In. apply list_elem_of_In. eapply list_elem_of_lookup_2.
        exact Hi. }
  set (n := length (base_sizes (channel_well c))).
  exists (S (jmax + n)).
  destruct (first_loop_ends jmax k size Hjmax Hsize Hmin jmax 0%nat (S (jmax + n))
              ltac:(lia) ltac:(lia)) as [j0 [Hj0 Hfirst]].
  destruct (Hstart j0 Hj0) as [i [Hi Hin]].
  destruct (covers_indices _ _ Hcovers i Hin) as [Hi0 Hin'].
  destruct (covers_max _ _ Hcovers i Hin) as [imax [smax [Hle [Hsmax Hmax]]]].
  assert (Himax := lookup_lt_Some _ _ _ Hsmax).
  destruct (second_loop_ends imax smax Hsmax Hmax (imax - Z.to_nat i)%nat
              (Z.to_nat i) (S (jmax + n)) (max_data_point c)
              ltac:(lia) ltac:(unfold n; lia)) as [m Hsecond].
  rewrite Z2Nat.id in Hsecond by lia.
  rewrite (find_max_data_point_unfold _ c l Hl Hne).
  subst w. change (Z.of_nat 0) with 0%Z in Hfirst.
  cbn [ladder_peak_indices] in Hi.
  rewrite Hfirst, Hi, Hsecond. eauto.
Qed.

End Covered.

(** C10, as stated, fails: on a channel whose base sizes stay under the
    maximum length of the locus, with an assigned locus and a ladder peak,
    the second loop of [find_max_data_point] indexes [base_sizes] past its
    end, whatever the fuel. *)
Lemma find_max_data_point_runs_off :
  channel_locus short_channel <> None /\
  ladder_peak_indices (channel_well short_channel) <> [] /\
  (forall fuel, (0 < fuel)%nat ->
                find_max_data_point fuel short_channel
                = Some (Raise (IndexError "base_sizes"))) /\
  ~ ends_in_range short_channel.
Proof.
  assert (H : forall fuel, (0 < fuel)%nat ->
                find_max_data_point fuel short_channel
                = Some (Raise (IndexError "base_sizes"))).
  { intros [| fuel] Hf; [lia | reflexivity]. }
  split; [discriminate |]. split; [discriminate |]. split; [exact H |].
  intros [fuel [r [Hr [Hb _]]]]. destruct fuel as [| fuel].
  - discriminate Hr.
  - rewrite H in Hr by lia. injection Hr as <-. now apply Hb.
Qed.

(** C10 (amended): for a channel with an assigned locus and a well with
    ladder peaks whose sizing covers the locus -- the ladder peaks are
    scan indices of [base_sizes], one of them has a size not below
    [min_base_length], from each of them on [base_sizes] reaches a size not
    below [max_base_length], and [data] is as long as [base_sizes] --
    [find_max_data_point], and so [add_locus], ends without an exception:
    every index it uses is in range. *)
Theorem find_max_data_point_in_range (c : channel) (l : locus) :
  channel_locus c = Some l ->
  ladder_peak_indices (channel_well c) <> [] ->
  covers c l ->
  (exists fuel c', find_max_data_point fuel c = Some (Ok c')) /\
  ends_in_range c.
Proof.
  intros Hl Hne Hc.
  destruct (find_max_data_point_covered c l Hc Hl Hne) as [fuel [c' H]].
  split; [eauto |]. exists fuel, (Ok c'). split; [exact H |]. split; discriminate.
Qed.

Lemma find_max_data_point_in_range_witness :
  (exists fuel c', find_max_data_point fuel covered_channel = Some (Ok c')) /\
  ends_in_range covered_channel.
Proof.
  apply (find_max_data_point_in_range covered_channel
           {| min_base_length := 20; max_base_length := 40 |}).
  - reflexivity.
  - discriminate.
  - split.
    + simpl. intros k [<- | [<- | [<- | []]]]; lia.
    + exists 3%Z, 35%Q. simpl. split; [tauto |]. split; [reflexivity |].
      unfold Qle. simpl. lia.
    + simpl. intros k [<- | [<- | [<- | []]]];
        exists 5%nat, 55%Q; (split; [simpl; lia |]); (split; [reflexivity |]);
        unfold Qle; simpl; lia.
    + simpl. lia.
Defined.

(** On the covered channel the maximum is taken over the scan indices
    after the last ladder peak under the locus, up to the first size at or
    above the maximum length. *)
Example find_max_data_point_example :
  match find_max_data_point 10 covered_channel with
  | Some (Ok c') => max_data_point c' = Some 50%Z
  | _ => False
  end.
Proof. reflexivity. Qed.

End ChannelsFacts.

(** ** More on the gateway *)

Module GatewayMore.
Import Gateway.
Local Open Scope list_scope.

Lemma map_int_Forall2 l : forall ns,
  map_int l = Ok ns -> Forall2 (fun v n => PyInt.int v = Ok n) l ns.
Proof.
  induction l as [| v l IH]; intros ns H; simpl in H.
  - injection H as <-. constructor.
  - unfold mbind, result_bind in H.
    destruct (PyInt.int v) as [n |] eqn:Hv; simpl in H; [| discriminate H].
    destruct (map_int l) as [ns' |]; simpl in H; [| discriminate H].
    injection H as <-. constructor; [exact Hv | now apply IH].
Qed.

Lemma map_int_first_failure pre bad post e :
  Forall (fun v => exists n, PyInt.int v = Ok n) pre ->
  PyInt.int bad = Raise e ->
  map_int (pre ++ bad :: post) = Raise e.
Proof.
  induction 1 as [| v pre [n Hv] Hpre IH]; intros Hbad; simpl.
  - now rewrite Hbad.
  - rewrite Hv. unfold mbind, result_bind. simpl. now rewrite (IH Hbad).
Qed.

Lemma dict_get_not_value_error d key : dict_get d key <> Raise ValueError.
Proof.
  induction d as [| [k v] d IH]; simpl; [discriminate |].
  destruct (String.eqb k key); [discriminate | exact IH].
Qed.

(** [extract_ids] converts and neither drops nor adds an id: when it
    returns, the payload has an [id] field and the result holds, in order,
    the value of [int()] on each id of the field; and it never lets a
    [ValueError] out. *)
Theorem extract_ids_converts_each (json : pyval) :
  (forall ns, extract_ids json = Ok ns ->
              exists ids, getitem json "id" = Ok ids /\
                          Forall2 (fun v n => PyInt.int v = Ok n) (id_values ids) ns) /\
  extract_ids json <> Raise ValueError.
Proof.
  unfold extract_ids, mbind, result_bind.
  destruct (getitem json "id") as [ids | e0] eqn:Hg; simpl.
  - assert (Hsingle : forall v, id_values v = [v] ->
              extract_ids_try json v = (n ← PyInt.int v; Ok [n]) ->
              (forall ns,
                  match extract_ids_try json v with
                  | Raise ValueError => Raise (field_id_not_valid json)
                  | r => r
                  end = Ok ns ->
                  Forall2 (fun v n => PyInt.int v = Ok n) (id_values v) ns) /\
              match extract_ids_try json v with
              | Raise ValueError => Raise (field_id_not_valid json)
              | r => r
              end <> Raise ValueError).
    { intros v Hvals Htry. rewrite Htry, Hvals. unfold mbind, result_bind.
      destruct (PyInt.int v) as [n | e] eqn:Hv; simpl.
      - split; [| discriminate]. intros ns [= <-]. now repeat constructor.
      - split; destruct e; discriminate. }
    destruct ids as [| b | n | f | s | l | d].
    + split; [discriminate | discriminate].
    + destruct (Hsingle (PyBool b) eq_refl eq_refl) as [H1 H2]. split; [| exact H2].
      intros ns H. exists (PyBool b). split; [reflexivity | now apply H1].
    + destruct (Hsingle (PyInt n) eq_refl eq_refl) as [H1 H2]. split; [| exact H2].
      intros ns H. exists (PyInt n). split; [reflexivity | now apply H1].
    + split; [discriminate | discriminate].
    + destruct (Hsingle (PyStr s) eq_refl eq_refl) as [H1 H2]. split; [| exact H2].
      intros ns H. exists (PyStr s). split; [reflexivity | now apply H1].
    + simpl. split.
      * intros ns H. exists (PyList l). split; [reflexivity |]. simpl.
        apply map_int_Forall2.
        destruct (map_int l) as [ns' | e]; [exact H |]. destruct e; discriminate H.
      * destruct (map_int l) as [ns' | e]; [discriminate |]. destruct e; discriminate.
    + split; [discriminate | discriminate].
  - split; [discriminate |]. intros H. injection H as ->.
    destruct json as [| | | | | | d]; try discriminate Hg.
    simpl in Hg. exact (dict_get_not_value_error d "id" Hg).
Qed.

Lemma extract_ids_converts_each_witness :
  exists ids, getitem example_request "id" = Ok ids /\
              Forall2 (fun v n => PyInt.int v = Ok n) (id_values ids) [7; 1000; -12]%Z.
Proof.
  apply (proj1 (extract_ids_converts_each example_request)). reflexivity.
Defined.

(** In a list of ids, the first element that [int()] cannot convert
    decides the exception: a [ValueError] becomes "Field id not valid",
    any other exception ([TypeError] for [None], a list or a dictionary,
    [OverflowError] for an infinite float) leaves [extract_ids] as it is. *)
Theorem extract_ids_first_failure (json : pyval) (pre post : list pyval)
        (bad : pyval) (e : pyexc) :
  getitem json "id" = Ok (PyList (pre ++ bad :: post)) ->
  Forall (fun v => exists n, PyInt.int v = Ok n) pre ->
  PyInt.int bad = Raise e ->
  extract_ids json
  = Raise (match e with ValueError => field_id_not_valid json | _ => e end).
Proof.
  intros Hg Hpre Hbad. unfold extract_ids, mbind, result_bind. rewrite Hg.
  simpl. rewrite (map_int_first_failure pre bad post e Hpre Hbad).
  now destruct e.
Qed.

Lemma extract_ids_first_failure_witness :
  extract_ids (PyDict [("id", PyList [PyInt 4; PyStr "5"; PyNone; PyStr "x"])])
  = Raise TypeError.
Proof.
  apply (extract_ids_first_failure
           (PyDict [("id", PyList [PyInt 4; PyStr "5"; PyNone; PyStr "x"])])
           [PyInt 4; PyStr "5"] [PyStr "x"] PyNone TypeError).
  - reflexivity.
  - repeat constructor; eexists; reflexivity.
  - reflexivity.
Defined.

Lemma subset_loop_chunks {A : Type} (l : list A) (k : nat) :
  forall fuel start chunks,
    subset_loop fuel l k start = Some chunks ->
    forall i c, chunks !! i = Some c ->
                (start + i * k < length l)%nat /\
                c = take k (drop (start + i * k) l).
Proof.
  induction fuel as [| fuel IH]; intros start chunks H i c Hi; [discriminate H |].
  simpl in H. destruct (decide (start < length l)%nat) as [Hlt | Hge].
  - destruct (subset_loop fuel l k (start + k)) as [rest |] eqn:Hr;
      [| discriminate H].
    simpl in H. injection H as <-. destruct i as [| i]; simpl in Hi.
    + injection Hi as <-. rewrite Nat.add_0_r. auto.
    + destruct (IH _ _ Hr i c Hi) as [H1 H2].
      replace (start + S i * k)%nat with (start + k + i * k)%nat by lia. auto.
  - injection H as <-. discriminate Hi.
Qed.

(** The chunks of [subset]: chunk number [i] is the slice
    [l[i*size : i*size + size]]; no chunk is empty, and every chunk but the
    last has exactly [subset_size] elements. *)
Theorem subset_chunks {A : Type} (l : list A) (subset_size fuel : nat)
        (chunks : list (list A)) :
  subset fuel l subset_size = Some chunks ->
  forall i c,
    chunks !! i = Some c ->
    c = take subset_size (drop (i * subset_size) l) /\
    c <> [] /\
    ((S i < length chunks)%nat -> length c = subset_size).
Proof.
  intros H i c Hi. unfold subset in H.
  destruct (subset_loop_chunks l subset_size fuel 0 chunks H i c Hi) as [Hlt Hc].
  simpl in Hlt, Hc. split; [exact Hc |]. split.
  - intros Hnil. assert (Hlen : length c = 0%nat) by now rewrite Hnil.
    rewrite Hc, length_take, length_drop in Hlen.
    destruct subset_size as [| k]; [| lia].
    assert (Hl : l <> []) by (destruct l; [simpl in Hlt; lia | discriminate]).
    rewrite (GatewayFacts.subset_loop_zero_diverges l fuel Hl) in H. discriminate H.
  - intros Hnext.
    destruct (lookup_lt_is_Some_2 chunks (S i) Hnext) as [c' Hc'].
    destruct (subset_loop_chunks l subset_size fuel 0 chunks H (S i) c' Hc')
      as [Hlt' _].
    simpl in Hlt'. rewrite Hc, length_take, length_drop. lia.
Qed.

Lemma subset_chunks_witness :
  [4; 5]%Z = take 2 (drop (1 * 2) [0; 1; 4; 5; 8]%Z) /\
  [4; 5]%Z <> [] /\
  ((2 < length [[0; 1]; [4; 5]; [8]]%Z)%nat -> length [4; 5]%Z = 2%nat).
Proof.
  apply (subset_chunks [0; 1; 4; 5; 8]%Z 2 6 [[0; 1]; [4; 5]; [8]]%Z eq_refl 1%nat
                       [4; 5]%Z eq_refl).
Defined.

(** With a subset size of zero, a get request that names at least one id
    never completes: the loop of [subset] does not advance. *)
Theorem base_get_zero_subset_size_diverges
        (table : list row) (namespace request_namespace : string)
        (json : pyval) (ids : list Z) (fuel : nat) :
  extract_ids json = Ok ids ->
  ids <> [] ->
  base_get table namespace request_namespace 0 fuel json = None.
Proof.
  intros Hids Hne. unfold base_get, subset. rewrite Hids.
  now rewrite (GatewayFacts.subset_loop_zero_diverges ids fuel Hne).
Qed.

Lemma base_get_zero_subset_size_diverges_witness :
  base_get example_table "well" "/well" 0 1000 example_request = None.
Proof.
  apply (base_get_zero_subset_size_diverges example_table "well" "/well"
           example_request [7; 1000; -12]%Z 1000).
  - reflexivity.
  - discriminate.
Defined.

Lemma of_string_plain (s : string) :
  plain s = true -> PyInt.of_string s = PyInt.from_ascii s.
Proof.
  intros Hs. unfold PyInt.of_string, PyInt.utf8_decode.
  assert (H : PyInt.utf8_decode_from s 0 0 0
              = Some (List.map N_of_ascii (list_ascii_of_string s)) /\
              string_of_list_ascii
                (List.map PyInt.to_ascii (List.map N_of_ascii (list_ascii_of_string s)))
              = s).
  { induction s as [| c r IH]; [split; reflexivity |].
    cbn [plain] in Hs. apply andb_true_iff in Hs. destruct Hs as [Hc Hr].
    destruct (IH Hr) as [IH1 IH2]. split.
    - cbn [PyInt.utf8_decode_from].
      assert (H128 : (N_of_ascii c <? 128)%N = true)
        by (apply N.ltb_lt; apply N.ltb_lt in Hc; lia).
      rewrite H128, IH1. reflexivity.
    - cbn [list_ascii_of_string List.map string_of_list_ascii].
      rewrite IH2. unfold PyInt.to_ascii. rewrite Hc.
      now rewrite ascii_N_embedding. }
  destruct H as [H1 H2]. now rewrite H1, H2.
Qed.

Lemma pretty_N_char_digit (d : N) :
  (d < 10)%N ->
  PyInt.is_digit (pretty_N_char d) = true /\
  PyInt.digit_value (pretty_N_char d) = Z.of_N d /\
  PyInt.is_space (pretty_N_char d) = false /\
  (N_of_ascii (pretty_N_char d) <? 127)%N = true /\
  forall r, match String (pretty_N_char d) r with
            | String "-"%char r' => option_map Z.opp (PyInt.digits r' 0%Z false 0%N)
            | String "+"%char r' => PyInt.digits r' 0%Z false 0%N
            | r' => PyInt.digits r' 0%Z false 0%N
            end = PyInt.digits (String (pretty_N_char d) r) 0%Z false 0%N.
Proof.
  intros Hd.
  assert (H : (d = 0 \/ d = 1 \/ d = 2 \/ d = 3 \/ d = 4 \/ d = 5 \/ d = 6 \/ d = 7
               \/ d = 8 \/ d = 9)%N) by lia.
  repeat (destruct H as [-> | H]); try subst d; repeat split; reflexivity.
Qed.

(** The digits of [x], read back: the value is [x] and the count is the
    number [S k] of its digits. *)
Lemma digits_pretty_N_go (x : N) : forall s after count,
  (0 < x)%N ->
  exists k : N,
    (10 ^ k <= x < 10 ^ N.succ k)%N /\
    PyInt.digits (pretty_N_go x s) 0%Z after count
    = PyInt.digits s (Z.of_N x) true (count + N.succ k)%N.
Proof.
  induction (N.lt_wf_0 x) as [x _ IH]. intros s after count Hx.
  rewrite pretty_N_go_step by exact Hx.
  destruct (pretty_N_char_digit (x `mod` 10)%N) as [Hd [Hv _]];
    [apply N.mod_lt; lia |].
  assert (Hdm := N.div_mod x 10 ltac:(lia)).
  assert (Hmod := N.mod_lt x 10 ltac:(lia)).
  destruct (decide (x `div` 10 = 0)%N) as [H0 | Hpos].
  - rewrite H0, pretty_N_go_0. exists 0%N. split.
    + change (10 ^ 0)%N with 1%N. change (10 ^ N.succ 0)%N with 10%N. lia.
    + cbn [PyInt.digits]. rewrite Hd, Hv. f_equal; lia.
  - destruct (IH (x `div` 10)%N) with (s := String (pretty_N_char (x `mod` 10)) s)
                                      (after := after) (count := count)
      as [k [[Hlo Hhi] Hk]];
      [apply N.div_lt; lia | now apply N.neq_0_lt_0 |].
    exists (N.succ k). split.
    + rewrite !N.pow_succ_r' in *. clear IH Hk.
      clear Hd Hv Hpos. generalize dependent (10 ^ k)%N.
      generalize dependent (x `div` 10)%N. generalize dependent (x `mod` 10)%N.
      intros. lia.
    + rewrite Hk. cbn [PyInt.digits]. rewrite Hd, Hv. f_equal; lia.
Qed.

Lemma rstrip_cons (c : ascii) (r : string) :
  PyInt.is_space c = false -> PyInt.rstrip r = r ->
  PyInt.rstrip (String c r) = String c r.
Proof. intros Hc Hr. simpl. rewrite Hr, Hc. now destruct r. Qed.

Lemma rstrip_pretty_N_go (x : N) : forall s,
  PyInt.rstrip s = s -> PyInt.rstrip (pretty_N_go x s) = pretty_N_go x s.
Proof.
  induction (N.lt_wf_0 x) as [x _ IH]. intros s Hs.
  destruct (decide (0 < x)%N) as [Hx | Hx].
  - rewrite pretty_N_go_step by exact Hx. apply IH; [apply N.div_lt; lia |].
    apply rstrip_cons; [| exact Hs].
    apply (pretty_N_char_digit (x `mod` 10)%N). apply N.mod_lt. lia.
  - replace x with 0%N by lia. now rewrite pretty_N_go_0.
Qed.

Lemma plain_pretty_N_go (x : N) : forall s,
  plain s = true -> plain (pretty_N_go x s) = true.
Proof.
  induction (N.lt_wf_0 x) as [x _ IH]. intros s Hs.
  destruct (decide (0 < x)%N) as [Hx | Hx].
  - rewrite pretty_N_go_step by exact Hx. apply IH; [apply N.div_lt; lia |].
    cbn [plain]. rewrite Hs, andb_true_r.
    apply (pretty_N_char_digit (x `mod` 10)%N). apply N.mod_lt. lia.
  - replace x with 0%N by lia. now rewrite pretty_N_go_0.
Qed.

Lemma pretty_N_go_head (x : N) : forall s,
  (0 < x)%N ->
  exists d r, (d < 10)%N /\ pretty_N_go x s = String (pretty_N_char d) r.
Proof.
  induction (N.lt_wf_0 x) as [x _ IH]. intros s Hx.
  rewrite pretty_N_go_step by exact Hx.
  destruct (decide (x `div` 10 = 0)%N) as [H0 | Hpos].
  - rewrite H0, pretty_N_go_0. exists (x `mod` 10)%N, s.
    split; [apply N.mod_lt; lia | reflexivity].
  - apply IH; first [apply N.div_lt; lia | now apply N.neq_0_lt_0].
Qed.

(** The test of the digit limit on a number of [S k] digits. *)
Lemma digit_limit_test (x k limit : N) :
  (10 ^ k <= x < 10 ^ N.succ k)%N ->
  (0 + N.succ k <=? limit)%N = bool_decide (x < 10 ^ limit)%N.
Proof.
  intros [Hlo Hhi]. rewrite N.add_0_l.
  destruct (N.leb_spec (N.succ k) limit) as [Hle | Hgt]; symmetry.
  - apply bool_decide_eq_true_2.
    eapply N.lt_le_trans; [exact Hhi |]. apply N.pow_le_mono_r; lia.
  - apply bool_decide_eq_false_2. intros Hx.
    assert (H : (10 ^ limit <= 10 ^ k)%N) by (apply N.pow_le_mono_r; lia). lia.
Qed.

Lemma of_string_pretty_positive (p : positive) :
  PyInt.of_string (pretty_N_go (N.pos p) "")
  = (if bool_decide (N.pos p < 10 ^ PyInt.max_str_digits)%N
     then Some (Z.pos p) else None) /\
  PyInt.of_string (String "-" (pretty_N_go (N.pos p) ""))
  = (if bool_decide (N.pos p < 10 ^ PyInt.max_str_digits)%N
     then Some (Z.neg p) else None).
Proof.
  destruct (pretty_N_go_head (N.pos p) "" ltac:(lia)) as [d [rest [Hd Hr]]].
  destruct (pretty_N_char_digit d Hd) as [_ [_ [Hsp [_ Hmatch]]]].
  pose proof (rstrip_pretty_N_go (N.pos p) "" eq_refl) as Hrs.
  pose proof (plain_pretty_N_go (N.pos p) "" eq_refl) as Hpl.
  destruct (digits_pretty_N_go (N.pos p) "" false 0%N ltac:(lia)) as [k [Hk Hdig]].
  cbn [PyInt.digits] in Hdig. rewrite andb_true_l in Hdig.
  rewrite (digit_limit_test _ _ _ Hk) in Hdig.
  split.
  - rewrite of_string_plain by exact Hpl. unfold PyInt.from_ascii.
    assert (Hl : PyInt.lstrip (pretty_N_go (N.pos p) "") = pretty_N_go (N.pos p) "")
      by (rewrite Hr; simpl; now rewrite Hsp).
    rewrite Hl, Hrs, Hr, Hmatch, <- Hr. exact Hdig.
  - rewrite of_string_plain by (cbn [plain]; now rewrite Hpl).
    unfold PyInt.from_ascii.
    change (PyInt.lstrip (String "-" (pretty_N_go (N.pos p) "")))
      with (String "-" (pretty_N_go (N.pos p) "")).
    rewrite rstrip_cons by (reflexivity || exact Hrs).
    rewrite Hdig. now destruct (bool_decide _).
Qed.

Lemma within_digit_limit_pos (p : positive) :
  (N.pos p < 10 ^ PyInt.max_str_digits)%N <->
  (Z.pos p < 10 ^ Z.of_N PyInt.max_str_digits)%Z.
Proof.
  change (Z.pos p) with (Z.of_N (N.pos p)). change 10%Z with (Z.of_N 10).
  rewrite <- N2Z.inj_pow. split; [apply N2Z.inj_lt | apply N2Z.inj_lt].
Qed.

Lemma classic_digit_limit (n : Z) : within_digit_limit n \/ ~ within_digit_limit n.
Proof. unfold within_digit_limit. lia. Qed.

(** [int()] reads back the decimal representation of an integer, up to the
    digit limit. *)
Lemma int_pretty (n : Z) :
  (within_digit_limit n -> PyInt.int (PyStr (pretty n)) = Ok n) /\
  (~ within_digit_limit n -> PyInt.int (PyStr (pretty n)) = Raise ValueError).
Proof.
  unfold within_digit_limit, PyInt.int. destruct n as [| p | p].
  - split; [reflexivity |]. intros H. exfalso. apply H. reflexivity.
  - change (pretty (Z.pos p)) with (pretty_N_go (N.pos p) "").
    rewrite (proj1 (of_string_pretty_positive p)).
    change (Z.abs (Z.pos p)) with (Z.pos p). split; intros H.
    + rewrite bool_decide_eq_true_2; [reflexivity |].
      exact (proj2 (within_digit_limit_pos p) H).
    + rewrite bool_decide_eq_false_2; [reflexivity |].
      intros H'. exact (H (proj1 (within_digit_limit_pos p) H')).
  - change (pretty (Z.neg p)) with (String "-" (pretty_N_go (N.pos p) "")).
    rewrite (proj2 (of_string_pretty_positive p)).
    change (Z.abs (Z.neg p)) with (Z.pos p). split; intros H.
    + rewrite bool_decide_eq_true_2; [reflexivity |].
      exact (proj2 (within_digit_limit_pos p) H).
    + rewrite bool_decide_eq_false_2; [reflexivity |].
      intros H'. exact (H (proj1 (within_digit_limit_pos p) H')).
Qed.

Lemma map_int_pretty (ns : list Z) :
  (Forall within_digit_limit ns ->
   map_int (List.map (fun n => PyStr (pretty n)) ns) = Ok ns) /\
  (Exists (fun n => ~ within_digit_limit n) ns ->
   map_int (List.map (fun n => PyStr (pretty n)) ns) = Raise ValueError).
Proof.
  induction ns as [| n ns [IH1 IH2]].
  - split; [reflexivity |]. intros H. inversion H.
  - cbn [List.map map_int]. destruct (int_pretty n) as [Hin Hout]. split.
    + intros H. apply Forall_cons in H. destruct H as [Hn Hns].
      rewrite (Hin Hn). unfold mbind, result_bind. cbn [rbind].
      now rewrite (IH1 Hns).
    + intros H. destruct (classic_digit_limit n) as [Hn | Hn].
      * rewrite (Hin Hn). unfold mbind, result_bind. cbn [rbind].
        rewrite IH2; [reflexivity |].
        apply Exists_cons in H. destruct H as [H | H]; [contradiction | exact H].
      * now rewrite (Hout Hn).
Qed.

(** Ids sent as decimal strings come back as the integers they print, up
    to the digit limit of [int()]: for a payload whose [id] field is the
    list of the decimal representations of [ns], [extract_ids] returns [ns]
    when each of them has at most 4300 digits, and fails with "Field id not
    valid" when one of them has more. *)
Theorem extract_ids_decimal_strings (json : pyval) (ns : list Z) :
  getitem json "id" = Ok (PyList (List.map (fun n => PyStr (pretty n)) ns)) ->
  (Forall within_digit_limit ns -> extract_ids json = Ok ns) /\
  (Exists (fun n => ~ within_digit_limit n) ns ->
   extract_ids json = Raise (field_id_not_valid json)).
Proof.
  intros Hg. unfold extract_ids, mbind, result_bind. rewrite Hg. simpl.
  destruct (map_int_pretty ns) as [Hin Hout].
  split; intros H; [now rewrite (Hin H) | now rewrite (Hout H)].
Qed.

Lemma extract_ids_decimal_strings_witness :
  extract_ids (PyDict [("id", PyList [PyStr "42"; PyStr "-7"; PyStr "0"])])
  = Ok [42; -7; 0]%Z.
Proof.
  apply (extract_ids_decimal_strings
           (PyDict [("id", PyList [PyStr "42"; PyStr "-7"; PyStr "0"])])
           [42; -7; 0]%Z).
  - reflexivity.
  - repeat constructor; vm_compute; reflexivity.
Defined.

End GatewayMore.

(** ** More on the staleness of the locus parameters *)

Module StalenessMore.
Import Staleness.

Lemma params_changed_loop_changed attrs params :
  params_changed_loop attrs params = true ->
  exists a, a ∈ attrs /\ key a ∈ params /\ changed_column a.
Proof.
  induction attrs as [| attr rest IH]; simpl; [discriminate |]. intros H.
  assert (Hrest : params_changed_loop rest params = true ->
                  exists a, a ∈ attr :: rest /\ key a ∈ params /\ changed_column a).
  { intros Hr. destruct (IH Hr) as [a [Hin Ha]]. exists a.
    split; [now constructor | exact Ha]. }
  destruct (has_get_history attr) eqn:Hh; simpl in H; [| now apply Hrest].
  destruct (has_get_collection attr) eqn:Hc; simpl in H; [now apply Hrest |].
  destruct (bool_decide (key attr ∈ params)) eqn:Hk; simpl in H; [| now apply Hrest].
  apply bool_decide_eq_true_1 in Hk.
  destruct (get_history attr) as [[added unchanged] deleted] eqn:Hhist.
  destruct (truthy added || truthy deleted) eqn:Ht; [| now apply Hrest].
  exists attr. split; [constructor |]. split; [exact Hk |].
  split; [exact Hh |]. split; [exact Hc |]. rewrite Hhist. simpl.
  destruct added; [| left; discriminate]. destruct deleted; [| right; discriminate].
  discriminate Ht.
Qed.

Lemma params_changed_iff target params :
  params_changed (row_state target) params = true <-> update_changes target params.
Proof.
  split; [| apply StalenessFacts.params_changed_true].
  unfold params_changed, update_changes.
  destruct (modified (row_state target)); simpl; [| discriminate].
  intros H. split; [reflexivity |]. now apply params_changed_loop_changed.
Qed.

Lemma history_after_set_again history b :
  history_after_set (history_after_set history b) b = history_after_set history b.
Proof.
  assert (Hb : Bool.eqb b b = true) by now destruct b.
  destruct history as [[added unchanged] deleted]. unfold history_after_set.
  destruct deleted as [| o deleted].
  - destruct added as [| a added].
    + destruct unchanged as [| u unchanged]; cbn [head].
      * reflexivity.
      * destruct (equals_bool u b) eqn:E; cbn [head equals_bool].
        -- now rewrite Hb.
        -- now rewrite E.
    + reflexivity.
  - destruct (equals_bool o b) eqn:E; cbn [head equals_bool].
    + now rewrite Hb.
    + now rewrite E.
Qed.

Lemma assign_attribute_key k b a : key (assign_attribute k b a) = key a.
Proof. unfold assign_attribute. now destruct (String.eqb (key a) k). Qed.

Lemma assign_attribute_again k b a :
  assign_attribute k b (assign_attribute k b a) = assign_attribute k b a.
Proof.
  unfold assign_attribute. destruct (String.eqb (key a) k) eqn:E.
  - cbn [key]. rewrite E. cbn [has_get_history has_get_collection get_history].
    now rewrite history_after_set_again.
  - now rewrite E.
Qed.

Lemma assign_attribute_comm k1 b1 k2 b2 a :
  k1 <> k2 ->
  assign_attribute k1 b1 (assign_attribute k2 b2 a)
  = assign_attribute k2 b2 (assign_attribute k1 b1 a).
Proof.
  intros Hk. unfold assign_attribute.
  destruct (String.eqb (key a) k1) eqn:E1, (String.eqb (key a) k2) eqn:E2;
    cbn [key]; rewrite ?E1, ?E2; try reflexivity.
  apply String.eqb_eq in E1, E2. congruence.
Qed.

Lemma assign_flag_again k b state :
  assign_flag k b (assign_flag k b state) = assign_flag k b state.
Proof.
  unfold assign_flag. cbn [attributes]. f_equal. rewrite List.map_map.
  apply List.map_ext. intros a. apply assign_attribute_again.
Qed.

Lemma assign_flag_comm k1 b1 k2 b2 state :
  k1 <> k2 ->
  assign_flag k1 b1 (assign_flag k2 b2 state)
  = assign_flag k2 b2 (assign_flag k1 b1 state).
Proof.
  intros Hk. unfold assign_flag. cbn [attributes]. f_equal. rewrite !List.map_map.
  apply List.map_ext. intros a. now apply assign_attribute_comm.
Qed.

(** What an assignment of a flag leaves of the state: the instance is
    modified, and every attribute but that of the flag is as before. *)
Lemma assign_flag_frame k b state :
  modified (assign_flag k b state) = true /\
  Forall2 (fun a a' => key a' = key a /\ (key a <> k -> a' = a))
          (attributes state) (attributes (assign_flag k b state)).
Proof.
  split; [reflexivity |]. cbn [assign_flag attributes].
  induction (attributes state) as [| a rest IH]; constructor; [| exact IH].
  split; [apply assign_attribute_key |].
  intros Hk. unfold assign_attribute.
  destruct (String.eqb (key a) k) eqn:E; [| reflexivity].
  apply String.eqb_eq in E. contradiction.
Qed.

(** The state [stale_parameters] leaves: the two assignments, each made
    when the check of its parameter set succeeds on the row as it was
    received. *)
Lemma stale_parameters_state target :
  row_class (stale_parameters target) = row_class target /\
  row_state (stale_parameters target)
  = (if params_changed (row_state target) scanning_parameters_keys
     then assign_flag "scanning_parameters_stale" true else id)
      ((if params_changed (row_state target) filter_parameters_keys
        then assign_flag "filter_parameters_stale" true else id)
         (row_state target)).
Proof.
  unfold stale_parameters.
  destruct (params_changed (row_state target) filter_parameters_keys) eqn:Hf.
  - pose proof (StalenessFacts.params_changed_modified _ _ Hf) as Hm.
    cbn [set_filter_parameters_stale row_state].
    rewrite (StalenessFacts.params_changed_assign _ _ _ _
               (proj1 StalenessFacts.flag_not_parameter) Hm).
    destruct (params_changed (row_state target) scanning_parameters_keys);
      split; reflexivity.
  - destruct (params_changed (row_state target) scanning_parameters_keys);
      split; reflexivity.
Qed.

(** The checks see the row that [stale_parameters] leaves as they saw the
    row it received. *)
Lemma stale_parameters_checks target params :
  "filter_parameters_stale" ∉ params -> "scanning_parameters_stale" ∉ params ->
  params_changed (row_state (stale_parameters target)) params
  = params_changed (row_state target) params.
Proof.
  intros Hf Hs. rewrite (proj2 (stale_parameters_state target)).
  destruct (params_changed (row_state target) scanning_parameters_keys) eqn:Es;
    destruct (params_changed (row_state target) filter_parameters_keys) eqn:Ef;
    unfold id.
  - pose proof (StalenessFacts.params_changed_modified _ _ Ef) as Hm.
    rewrite StalenessFacts.params_changed_assign by (exact Hs || reflexivity).
    now rewrite StalenessFacts.params_changed_assign by (exact Hf || exact Hm).
  - pose proof (StalenessFacts.params_changed_modified _ _ Es) as Hm.
    now rewrite StalenessFacts.params_changed_assign by (exact Hs || exact Hm).
  - pose proof (StalenessFacts.params_changed_modified _ _ Ef) as Hm.
    now rewrite StalenessFacts.params_changed_assign by (exact Hf || exact Hm).
  - reflexivity.
Qed.

(** [stale_parameters] never clears a flag, and its two checks do not
    disturb each other: after the [before_update] listeners, each flag is
    its old value or the result of the check of its own parameter set on
    the row as the listeners received it. The assignment of
    [filter_parameters_stale], which marks the instance modified and
    enters the history of that attribute before the scanning parameters
    are checked, is not taken for a change of a scanning parameter. *)
Theorem stale_parameters_checks_independent (target : locus_params_row) :
  filter_parameters_stale (before_update target)
  = filter_parameters_stale target
    || params_changed (row_state target) filter_parameters_keys /\
  scanning_parameters_stale (before_update target)
  = scanning_parameters_stale target
    || params_changed (row_state target) scanning_parameters_keys /\
  (filter_parameters_stale target = true ->
   filter_parameters_stale (before_update target) = true) /\
  (scanning_parameters_stale target = true ->
   scanning_parameters_stale (before_update target) = true).
Proof.
  rewrite StalenessFacts.before_update_stale_parameters.
  destruct (StalenessFacts.stale_parameters_flags target) as [Hf Hs].
  split; [exact Hf |]. split; [exact Hs |].
  rewrite Hf, Hs. split; intros ->; reflexivity.
Qed.

(** The listeners change nothing of a row but its two flags and the
    history of the attributes of these two flags: the class, the modified
    mark and every other attribute, each parameter among them, are as
    before; and running the listeners a second time on the same pending
    update changes nothing more. *)
Theorem before_update_idempotent (target : locus_params_row) :
  row_class (before_update target) = row_class target /\
  modified (row_state (before_update target)) = modified (row_state target) /\
  Forall2 (fun a a' => key a' = key a /\ (key a ∉ flag_keys -> a' = a))
          (attributes (row_state target))
          (attributes (row_state (before_update target))) /\
  before_update (before_update target) = before_update target.
Proof.
  rewrite !StalenessFacts.before_update_stale_parameters.
  destruct (stale_parameters_state target) as [Hc Hst].
  destruct (StalenessFacts.stale_parameters_flags target) as [Hf Hs].
  split; [exact Hc |]. split; [| split].
  - rewrite Hst.
    destruct (params_changed (row_state target) scanning_parameters_keys) eqn:Es;
      destruct (params_changed (row_state target) filter_parameters_keys) eqn:Ef;
      unfold id; try reflexivity; cbn [assign_flag modified]; symmetry;
      eauto using StalenessFacts.params_changed_modified.
  - rewrite Hst.
    assert (Hstep : forall k b st,
               k ∈ flag_keys ->
               Forall2 (fun a a' => key a' = key a /\ (key a ∉ flag_keys -> a' = a))
                       (attributes st) (attributes (assign_flag k b st))).
    { intros k b st Hk. eapply Forall2_impl; [apply assign_flag_frame |].
      intros a a' [H1 H2]. split; [exact H1 |]. intros Hn. apply H2.
      intros Heq. apply Hn. now rewrite Heq. }
    assert (Hrefl : forall st,
               Forall2 (fun a a' => key a' = key a /\ (key a ∉ flag_keys -> a' = a))
                       (attributes st) (attributes st)).
    { intros st. induction (attributes st); constructor; auto. }
    assert (Htrans : forall l1 l2 l3,
               Forall2 (fun a a' => key a' = key a /\ (key a ∉ flag_keys -> a' = a)) l1 l2 ->
               Forall2 (fun a a' => key a' = key a /\ (key a ∉ flag_keys -> a' = a)) l2 l3 ->
               Forall2 (fun a a' => key a' = key a /\ (key a ∉ flag_keys -> a' = a)) l1 l3).
    { intros l1 l2 l3 H12. revert l3.
      induction H12 as [| a b l1 l2 [Hk Hab] _ IH]; intros l3 H23;
        inversion H23 as [| b' c l2' l3' [Hk' Hbc] H23']; subst; constructor.
      - split; [congruence |]. intros Hn. rewrite Hbc by now rewrite Hk.
        now apply Hab.
      - now apply IH. }
    assert (Hsk : "scanning_parameters_stale" ∈ flag_keys) by (constructor).
    assert (Hfk : "filter_parameters_stale" ∈ flag_keys)
      by (apply list_elem_of_In; simpl; tauto).
    destruct (params_changed (row_state target) scanning_parameters_keys);
      destruct (params_changed (row_state target) filter_parameters_keys);
      unfold id; eauto.
  - assert (Hcf : params_changed (row_state (stale_parameters target))
                                 filter_parameters_keys
                  = params_changed (row_state target) filter_parameters_keys)
      by (apply stale_parameters_checks; apply StalenessFacts.flag_not_parameter).
    assert (Hcs : params_changed (row_state (stale_parameters target))
                                 scanning_parameters_keys
                  = params_changed (row_state target) scanning_parameters_keys)
      by (apply stale_parameters_checks; apply StalenessFacts.flag_not_parameter).
    destruct (stale_parameters_state (stale_parameters target)) as [Hc2 Hst2].
    destruct (StalenessFacts.stale_parameters_flags (stale_parameters target))
      as [Hf2 Hs2].
    rewrite Hcf in Hf2, Hst2. rewrite Hcs in Hs2, Hst2.
    rewrite Hf in Hf2. rewrite Hs in Hs2. rewrite Hst in Hst2.
    rewrite <- orb_assoc, orb_diag in Hf2. rewrite <- orb_assoc, orb_diag in Hs2.
    rewrite <- Hf in Hf2. rewrite <- Hs in Hs2.
    assert (Hst3 : row_state (stale_parameters (stale_parameters target))
                   = row_state (stale_parameters target)).
    { rewrite Hst2, Hst.
      destruct (params_changed (row_state target) scanning_parameters_keys);
        destruct (params_changed (row_state target) filter_parameters_keys);
        unfold id; try reflexivity.
      - rewrite (assign_flag_comm "filter_parameters_stale" true
                                  "scanning_parameters_stale" true) by discriminate.
        now rewrite !assign_flag_again.
      - apply assign_flag_again.
      - apply assign_flag_again. }
    destruct (stale_parameters (stale_parameters target)) as [c2 st2 sc2 f2].
    destruct (stale_parameters target) as [c1 st1 sc1 f1].
    cbn in Hc2, Hf2, Hs2, Hst3. now subst.
Qed.

End StalenessMore.

(** ** More on the breakpoints *)

Module BreakpointsMore.
Import Breakpoints.
Local Open Scope list_scope.

Lemma split_param_sets_cons ps rest b :
  split_param_sets (ps :: rest) b
  = (if contains b ps
     then [ {| ps_start_size := ps_start_size ps; ps_end_size := b;
               ps_method := "TSR" |};
            {| ps_start_size := b; ps_end_size := ps_end_size ps;
               ps_method := "TSR" |} ]
     else [ps]) ++ split_param_sets rest b.
Proof. reflexivity. Qed.

Lemma Qltb_irrefl q : Qltb q q = false.
Proof.
  destruct (Qltb q q) eqn:E; [| reflexivity].
  apply Qltb_lt in E. now apply Qlt_irrefl in E.
Qed.

Lemma split_param_sets_none l b :
  List.filter (contains b) l = [] -> split_param_sets l b = l.
Proof.
  induction l as [| ps l IH]; [reflexivity |].
  rewrite split_param_sets_cons. simpl List.filter.
  destruct (contains b ps); [discriminate |]. intros H. simpl. now rewrite (IH H).
Qed.

(** The parameter sets that [add_breakpoint] fits: one more than before for
    each old segment that strictly contains the breakpoint; and when no
    segment does (the breakpoint is outside them all, or on a bound), they
    are the old parameter sets themselves. *)
Theorem split_param_sets_length (l : list parameter_set) (b : Q) :
  length (split_param_sets l b) = (length l + length (List.filter (contains b) l))%nat /\
  (List.filter (contains b) l = [] -> split_param_sets l b = l).
Proof.
  split; [| apply split_param_sets_none].
  induction l as [| ps l IH]; [reflexivity |].
  rewrite split_param_sets_cons. simpl List.filter.
  destruct (contains b ps); simpl; rewrite IH; lia.
Qed.

Lemma split_param_sets_head ps rest b :
  exists ps' rest', split_param_sets (ps :: rest) b = ps' :: rest' /\
                    ps_start_size ps' = ps_start_size ps.
Proof.
  rewrite split_param_sets_cons. destruct (contains b ps); simpl; eauto.
Qed.

Lemma last_split_param_sets l b : forall d d',
  l <> [] ->
  ps_end_size (List.last (split_param_sets l b) d') = ps_end_size (List.last l d).
Proof.
  induction l as [| ps l IH]; intros d d' Hne; [contradiction |].
  destruct l as [| next l].
  - simpl. destruct (Qltb (ps_start_size ps) b && Qltb b (ps_end_size ps)); reflexivity.
  - rewrite split_param_sets_cons.
    destruct (split_param_sets_head next l b) as [ps' [rest' [E _]]].
    assert (Hl : forall pre, List.last (pre ++ split_param_sets (next :: l) b) d'
                             = List.last (split_param_sets (next :: l) b) d').
    { intros pre. rewrite E. induction pre as [| x pre IHp]; [reflexivity |].
      simpl app. change (List.last (x :: pre ++ ps' :: rest') d')
        with (match pre ++ ps' :: rest' with
              | [] => x
              | _ :: _ => List.last (pre ++ ps' :: rest') d'
              end).
      destruct (pre ++ ps' :: rest') eqn:Ep; [now destruct pre | exact IHp]. }
    rewrite Hl. rewrite (IH d d') by discriminate. reflexivity.
Qed.

(** [add_breakpoint] keeps a partition a partition: when the old segments
    follow one another and each starts below its end, so do the parameter
    sets it fits, and they span the same range. *)
Theorem split_param_sets_partition (l : list parameter_set) (b : Q) :
  contiguous l -> increasing l ->
  contiguous (split_param_sets l b) /\
  increasing (split_param_sets l b) /\
  span (split_param_sets l b) = span l.
Proof.
  intros Hc Hi. split; [| split].
  - induction l as [| ps l IH]; [exact I |].
    destruct Hc as [Hnext Hc]. apply Forall_cons_1 in Hi. destruct Hi as [_ Hi].
    specialize (IH Hc Hi). rewrite split_param_sets_cons.
    assert (Hhead : match split_param_sets l b with
                    | [] => True
                    | next :: _ => ps_end_size ps = ps_start_size next
                    end).
    { destruct l as [| next l]; [exact I |].
      destruct (split_param_sets_head next l b) as [ps' [rest' [E Hs]]].
      rewrite E. now rewrite Hs. }
    destruct (contains b ps); simpl; auto.
  - induction l as [| ps l IH]; [constructor |].
    destruct Hc as [_ Hc]. apply Forall_cons_1 in Hi. destruct Hi as [Hps Hi].
    specialize (IH Hc Hi). rewrite split_param_sets_cons.
    unfold increasing. apply Forall_app. split; [| exact IH].
    destruct (contains b ps) eqn:E.
    + apply andb_true_iff in E. destruct E as [E1 E2]. apply Qltb_lt in E1, E2.
      repeat constructor; assumption.
    + repeat constructor; assumption.
  - destruct l as [| ps l]; [reflexivity |].
    destruct (split_param_sets_head ps l b) as [ps' [rest' [E Hs]]].
    unfold span at 1. rewrite E, <- E.
    rewrite (last_split_param_sets (ps :: l) b ps ps') by discriminate.
    simpl. now rewrite Hs.
Qed.

Lemma split_param_sets_partition_witness :
  contiguous (split_param_sets example_param_sets 150) /\
  increasing (split_param_sets example_param_sets 150) /\
  span (split_param_sets example_param_sets 150) = span example_param_sets.
Proof.
  apply (split_param_sets_partition example_param_sets 150%Q).
  - simpl. auto.
  - repeat constructor.
Defined.

Lemma split_param_sets_contains_none l b :
  List.filter (contains b) (split_param_sets l b) = [].
Proof.
  induction l as [| ps l IH]; [reflexivity |].
  rewrite split_param_sets_cons, List.filter_app, IH, app_nil_r.
  destruct (contains b ps) eqn:E; simpl.
  - unfold contains. simpl. rewrite Qltb_irrefl, andb_false_r. reflexivity.
  - now rewrite E.
Qed.

(** Once a breakpoint is added, no segment strictly contains it any more,
    so adding it a second time splits nothing: the parameter sets of the
    second call are those of the first. *)
Theorem split_param_sets_idempotent (l : list parameter_set) (b : Q) :
  Forall (fun ps => contains b ps = false) (split_param_sets l b) /\
  split_param_sets (split_param_sets l b) b = split_param_sets l b.
Proof.
  pose proof (split_param_sets_contains_none l b) as H. split.
  - apply Forall_forall. intros ps Hin.
    destruct (contains b ps) eqn:E; [| reflexivity].
    assert (Hf : In ps (List.filter (contains b) (split_param_sets l b)))
      by (apply List.filter_In; split; [now apply list_elem_of_In | exact E]).
    rewrite H in Hf. destruct Hf.
  - now apply split_param_sets_none.
Qed.

End BreakpointsMore.

(** ** More on the genotyping analysis *)

Module GenotypingMore.
Import Genotyping.
Local Open Scope list_scope.

Lemma get_best_run_candidates project db sample_id locus_id :
  get_best_run project db sample_id locus_id
  = get_best_run_loop (get_locus_parameters project locus_id) None
      (candidates project db sample_id locus_id).
Proof. reflexivity. Qed.

Lemma candidates_candidate project db sample_id locus_id x :
  In x (candidates project db sample_id locus_id) <->
  candidate project db sample_id locus_id x.
Proof. symmetry. apply GenotypingFacts.candidate_filter. Qed.

Lemma filter_peaks_raise lp peaks e :
  filter_peaks lp peaks = Raise e ->
  e = KeyError "in_bin" /\
  exists y, In y peaks /\ in_bin y = None /\
            (peak_height y < offscale_threshold lp)%Q.
Proof.
  induction peaks as [| y rest IH]; simpl; [discriminate |].
  unfold mbind, result_bind.
  destruct (below_offscale_in_bin lp y) as [b | e0] eqn:Hb; simpl.
  - destruct (filter_peaks lp rest) as [kept | e1]; simpl; [discriminate |].
    intros [= <-]. destruct (IH eq_refl) as [He [y0 [Hin H]]].
    split; [exact He |]. exists y0. split; [now right | exact H].
  - intros [= <-]. unfold below_offscale_in_bin in Hb.
    destruct (Qltb (peak_height y) (offscale_threshold lp)) eqn:Hlt;
      [| discriminate Hb].
    destruct (in_bin y) eqn:Hin; [discriminate Hb |]. injection Hb as <-.
    split; [reflexivity |]. exists y. split; [now left |].
    split; [exact Hin | now apply Qltb_lt].
Qed.

Lemma best_height_raise lp peaks e :
  best_height lp peaks = Raise e ->
  e = KeyError "in_bin" /\
  exists y, In y peaks /\ in_bin y = None /\
            (peak_height y < offscale_threshold lp)%Q.
Proof.
  unfold best_height, mbind, result_bind.
  destruct (filter_peaks lp peaks) as [kept | e0] eqn:Hf; simpl; [discriminate |].
  intros [= <-]. now apply filter_peaks_raise.
Qed.

Lemma get_best_run_loop_raise lp rest : forall best e,
  get_best_run_loop lp best rest = Raise e ->
  e = KeyError "in_bin" /\
  (2 <= length (option_list best ++ rest))%nat /\
  exists x y, In x (option_list best ++ rest) /\
              In y (ca_annotated_peaks x) /\ in_bin y = None /\
              (peak_height y < offscale_threshold lp)%Q.
Proof.
  induction rest as [| annotation rest IH]; intros best e H; simpl in H;
    [discriminate H |].
  destruct best as [b |].
  - unfold mbind, result_bind in H.
    destruct (best_height lp (ca_annotated_peaks b)) as [hb | e0] eqn:Hb; simpl in H.
    + destruct (best_height lp (ca_annotated_peaks annotation)) as [hc | e1] eqn:Hc;
        simpl in H.
      * destruct (IH _ _ H) as [He [Hlen [x [y [Hx Hy]]]]].
        split; [exact He |]. split; [simpl; lia |].
        exists x, y. split; [| exact Hy]. simpl in Hx |- *.
        destruct (Qltb hb hc); destruct Hx as [<- | Hx]; auto.
      * injection H as <-. destruct (best_height_raise _ _ _ Hc) as [He [y Hy]].
        split; [exact He |]. split; [simpl; lia |].
        exists annotation, y. split; [simpl; auto | exact Hy].
    + injection H as <-. destruct (best_height_raise _ _ _ Hb) as [He [y Hy]].
      split; [exact He |]. split; [simpl; lia |].
      exists b, y. split; [simpl; auto | exact Hy].
  - destruct (IH _ _ H) as [He [Hlen Hx]]. auto.
Qed.

(** A peak under the offscale threshold that carries no [in_bin]. *)
Lemma filter_peaks_unbinned lp peaks y :
  In y peaks -> in_bin y = None ->
  (peak_height y < offscale_threshold lp)%Q ->
  filter_peaks lp peaks = Raise (KeyError "in_bin").
Proof.
  intros Hin Hy Hlt.
  destruct (filter_peaks lp peaks) as [kept | e] eqn:E.
  - exfalso. revert kept E. induction peaks as [| z rest IH]; [destruct Hin |].
    intros kept E. simpl in E. unfold mbind, result_bind in E.
    destruct (below_offscale_in_bin lp z) as [b |] eqn:Hb; simpl in E;
      [| discriminate E].
    destruct (filter_peaks lp rest) as [kept' |] eqn:Hr; simpl in E;
      [| discriminate E].
    destruct Hin as [-> | Hin]; [| now apply (IH Hin kept')].
    unfold below_offscale_in_bin in Hb.
    rewrite (proj2 (Qltb_lt _ _) Hlt), Hy in Hb. discriminate Hb.
  - now destruct (filter_peaks_raise _ _ _ E) as [-> _].
Qed.

Lemma best_height_unbinned lp peaks y :
  In y peaks -> in_bin y = None ->
  (peak_height y < offscale_threshold lp)%Q ->
  best_height lp peaks = Raise (KeyError "in_bin").
Proof.
  intros Hin Hy Hlt. unfold best_height.
  now rewrite (filter_peaks_unbinned lp peaks y Hin Hy Hlt).
Qed.

Lemma best_height_cases lp peaks :
  (exists h, best_height lp peaks = Ok h) \/
  best_height lp peaks = Raise (KeyError "in_bin").
Proof.
  destruct (best_height lp peaks) as [h | e] eqn:E; [left; eauto |].
  right. now destruct (best_height_raise _ _ _ E) as [-> _].
Qed.

Lemma get_best_run_loop_unbinned lp rest : forall best x y,
  rest <> [] -> In x (best :: rest) ->
  In y (ca_annotated_peaks x) -> in_bin y = None ->
  (peak_height y < offscale_threshold lp)%Q ->
  get_best_run_loop lp (Some best) rest = Raise (KeyError "in_bin").
Proof.
  induction rest as [| annotation rest IH]; intros best x y Hne Hx Hin Hy Hlt;
    [congruence |].
  cbn [get_best_run_loop]. unfold mbind, result_bind.
  destruct (best_height_cases lp (ca_annotated_peaks best)) as [[hb Hb] | Hb];
    rewrite Hb; [| reflexivity].
  cbn [rbind].
  destruct (best_height_cases lp (ca_annotated_peaks annotation)) as [[hc Hc] | Hc];
    rewrite Hc; [| reflexivity].
  cbn [rbind].
  destruct Hx as [<- | [<- | Hx]].
  - rewrite (best_height_unbinned _ _ _ Hin Hy Hlt) in Hb. discriminate Hb.
  - rewrite (best_height_unbinned _ _ _ Hin Hy Hlt) in Hc. discriminate Hc.
  - apply (IH _ x y); [| now right | exact Hin | exact Hy | exact Hlt].
    intros ->. destruct Hx.
Qed.

(** With a single candidate run no peak is read: that run is returned,
    also when its peaks carry no [in_bin]. *)
Lemma get_best_run_single
      (project : genotyping_project) (db : database) (sample_id locus_id : Z)
      (x : project_channel_annotations) :
  candidates project db sample_id locus_id = [x] ->
  get_best_run project db sample_id locus_id = Ok (Some x).
Proof. rewrite get_best_run_candidates. intros ->. reflexivity. Qed.

(** A run that was never binned stops the choice of the best run: when the
    sample has at least two candidate runs at the locus and a peak of one
    of them lies under the offscale threshold of the locus parameters and
    carries no [in_bin], [get_best_run] raises [KeyError] on [in_bin],
    wherever that run stands among the candidates: the peaks of every
    candidate are filtered once there are two. *)
Theorem get_best_run_unbinned
        (project : genotyping_project) (db : database) (sample_id locus_id : Z)
        (x : project_channel_annotations) (y : peak) :
  (2 <= length (candidates project db sample_id locus_id))%nat ->
  candidate project db sample_id locus_id x ->
  In y (ca_annotated_peaks x) -> in_bin y = None ->
  (peak_height y < offscale_threshold (get_locus_parameters project locus_id))%Q ->
  get_best_run project db sample_id locus_id = Raise (KeyError "in_bin").
Proof.
  rewrite get_best_run_candidates.
  intros Hlen Hx Hin Hy Hlt. apply candidates_candidate in Hx.
  destruct (candidates project db sample_id locus_id) as [| best rest];
    [destruct Hx |].
  cbn [get_best_run_loop].
  apply (get_best_run_loop_unbinned _ _ _ x y); try assumption.
  intros ->. simpl in Hlen. lia.
Qed.

Lemma get_best_run_unbinned_witness :
  get_best_run example_project example_unbinned_database 10 5
  = Raise (KeyError "in_bin").
Proof.
  apply (get_best_run_unbinned example_project example_unbinned_database 10 5
           example_unbinned_run example_unbinned_peak).
  - vm_compute. lia.
  - split; [right; left; reflexivity | split; reflexivity].
  - left. reflexivity.
  - reflexivity.
  - vm_compute. reflexivity.
Defined.

Lemma get_best_run_loop_first lp rest : forall best p1 p2 a,
  (forall x, In x (best :: rest) -> has_in_bin (ca_annotated_peaks x)) ->
  (forall x, In x p1 ->
             (tallest lp (ca_annotated_peaks x)
              < tallest lp (ca_annotated_peaks best))%Q) ->
  (forall x, In x p2 ->
             (tallest lp (ca_annotated_peaks x)
              <= tallest lp (ca_annotated_peaks best))%Q) ->
  get_best_run_loop lp (Some best) rest = Ok (Some a) ->
  exists l1 l2,
    p1 ++ best :: p2 ++ rest = l1 ++ a :: l2 /\
    (forall x, In x l1 ->
               (tallest lp (ca_annotated_peaks x)
                < tallest lp (ca_annotated_peaks a))%Q) /\
    (forall x, In x l2 ->
               (tallest lp (ca_annotated_peaks x)
                <= tallest lp (ca_annotated_peaks a))%Q).
Proof.
  induction rest as [| annotation rest IH]; intros best p1 p2 a Hbin H1 H2 H;
    simpl in H.
  - injection H as <-. exists p1, p2. rewrite app_nil_r. auto.
  - rewrite (GenotypingFacts.best_height_total _ _ (Hbin best ltac:(now left))) in H.
    rewrite (GenotypingFacts.best_height_total _ _
               (Hbin annotation ltac:(right; now left))) in H.
    simpl in H.
    destruct (Qltb (tallest lp (ca_annotated_peaks best))
                   (tallest lp (ca_annotated_peaks annotation))) eqn:E.
    + apply Qltb_lt in E.
      destruct (IH annotation (p1 ++ best :: p2) [] a) as [l1 [l2 [Heq Hl]]].
      * intros x Hx. apply Hbin. now right.
      * intros x Hx. apply in_app_or in Hx. destruct Hx as [Hx | [<- | Hx]].
        -- eapply Qlt_trans; [now apply H1 | exact E].
        -- exact E.
        -- eapply Qle_lt_trans; [now apply H2 | exact E].
      * intros x [].
      * exact H.
      * exists l1, l2. split; [| exact Hl]. rewrite <- Heq.
        rewrite <- app_assoc. reflexivity.
    + apply Qltb_ge in E.
      destruct (IH best p1 (p2 ++ [annotation]) a) as [l1 [l2 [Heq Hl]]].
      * intros x [<- | Hx]; apply Hbin; [now left | right; now right].
      * exact H1.
      * intros x Hx. apply in_app_or in Hx. destruct Hx as [Hx | [<- | []]].
        -- now apply H2.
        -- exact E.
      * exact H.
      * exists l1, l2. split; [| exact Hl]. rewrite <- Heq.
        rewrite <- app_assoc. reflexivity.
Qed.

(** Ties go to the earlier run: when the peaks of the candidate runs carry
    [in_bin], the run [get_best_run] returns is the first candidate, in the
    order of the query, whose tallest in-bin peak under the offscale
    threshold is the tallest of all; every candidate before it is strictly
    lower, every candidate after it at most as tall. *)
Theorem get_best_run_first_tallest
        (project : genotyping_project) (db : database) (sample_id locus_id : Z)
        (a : project_channel_annotations) :
  (forall x, candidate project db sample_id locus_id x ->
             has_in_bin (ca_annotated_peaks x)) ->
  get_best_run project db sample_id locus_id = Ok (Some a) ->
  exists l1 l2,
    candidates project db sample_id locus_id = l1 ++ a :: l2 /\
    (forall x, In x l1 ->
               (tallest (get_locus_parameters project locus_id) (ca_annotated_peaks x)
                < tallest (get_locus_parameters project locus_id)
                          (ca_annotated_peaks a))%Q) /\
    (forall x, In x l2 ->
               (tallest (get_locus_parameters project locus_id) (ca_annotated_peaks x)
                <= tallest (get_locus_parameters project locus_id)
                           (ca_annotated_peaks a))%Q).
Proof.
  intros Hbin. rewrite get_best_run_candidates.
  assert (Hc := candidates_candidate project db sample_id locus_id).
  destruct (candidates project db sample_id locus_id) as [| first rest];
    [discriminate |].
  simpl. intros H.
  apply (get_best_run_loop_first _ rest first [] [] a); auto.
  - intros x Hx. apply Hbin. now apply Hc.
  - intros x [].
  - intros x [].
Qed.

Lemma get_best_run_first_tallest_witness :
  exists l1 l2,
    candidates example_project example_tie_database 10 5
    = l1 ++ {| ca_id := 1; ca_project_id := 1; ca_channel := example_channel 2;
               ca_annotated_peaks := [example_peak 100 4000 (Some 7%Z)] |} :: l2 /\
    (forall x, In x l1 ->
               (tallest (get_locus_parameters example_project 5) (ca_annotated_peaks x)
                < tallest (get_locus_parameters example_project 5)
                          [example_peak 100 4000 (Some 7%Z)])%Q) /\
    (forall x, In x l2 ->
               (tallest (get_locus_parameters example_project 5) (ca_annotated_peaks x)
                <= tallest (get_locus_parameters example_project 5)
                           [example_peak 100 4000 (Some 7%Z)])%Q).
Proof.
  apply (get_best_run_first_tallest example_project example_tie_database 10 5
           {| ca_id := 1; ca_project_id := 1; ca_channel := example_channel 2;
              ca_annotated_peaks := [example_peak 100 4000 (Some 7%Z)] |}).
  - intros x [Hin _] y Hy. simpl in Hin.
    destruct Hin as [<- | [<- | []]]; simpl in Hy;
      destruct Hy as [<- | []]; discriminate.
  - reflexivity.
Defined.

Lemma call_alleles_lookup peaks : forall al k,
  call_alleles al peaks !! k = if calls peaks k then Some true else al !! k.
Proof.
  unfold call_alleles, calls.
  induction peaks as [| x rest IH]; intros al k; simpl; [reflexivity |].
  rewrite IH. destruct (in_bin_unflagged x); simpl; [| reflexivity].
  case_bool_decide as Hk; simpl.
  - destruct (existsb _ rest); [reflexivity |]. subst k. apply lookup_insert_eq.
  - destruct (existsb _ rest); [reflexivity |]. now apply lookup_insert_ne.
Qed.

Lemma get_best_run_loop_some lp rest : forall b r,
  get_best_run_loop lp (Some b) rest = Ok r -> r <> None.
Proof.
  induction rest as [| annotation rest IH]; intros b r H; simpl in H.
  - injection H as <-. discriminate.
  - unfold mbind, result_bind in H.
    destruct (best_height lp (ca_annotated_peaks b)); simpl in H; [| discriminate H].
    destruct (best_height lp (ca_annotated_peaks annotation)); simpl in H;
      [| discriminate H].
    eapply IH. exact H.
Qed.

Lemma get_best_run_none project db sample_id locus_id :
  get_best_run project db sample_id locus_id = Ok None <->
  candidates project db sample_id locus_id = [].
Proof.
  rewrite get_best_run_candidates.
  destruct (candidates project db sample_id locus_id) as [| first rest]; simpl.
  - tauto.
  - split; [| discriminate]. intros H.
    now destruct (get_best_run_loop_some _ _ _ _ H).
Qed.

(** What [analyze_sample] writes when there is a best run. *)
Lemma analyze_sample_some project db lp sid la la' :
  analyze_sample project db lp sid la = Ok la' ->
  reference_run la' <> None ->
  exists ca,
    get_best_run project db sid (la_locus_id la) = Ok (Some ca) /\
    la' = {| la_id := la_id la;
             sample_annotations_id := sample_annotations_id la;
             la_locus_id := la_locus_id la;
             la_annotated_peaks := List.map (stamp_flags lp) (ca_annotated_peaks ca);
             reference_run := Some (ca_id ca);
             alleles :=
               if exceeds_failure_threshold lp
                    (List.map (stamp_flags lp) (ca_annotated_peaks ca))
               then call_alleles (all_false (alleles la))
                                 (List.map (stamp_flags lp) (ca_annotated_peaks ca))
               else all_false (alleles la);
             la_flags :=
               <["manual_curation" := false]>
                 (<["offscale" :=
                      is_offscale lp (List.map (stamp_flags lp) (ca_annotated_peaks ca))]>
                    (<["failure" :=
                         negb (exceeds_failure_threshold lp
                                 (List.map (stamp_flags lp) (ca_annotated_peaks ca)))]>
                       (la_flags la))) |}.
Proof.
  unfold analyze_sample. intros H Href.
  destruct (get_best_run project db sid (la_locus_id la)) as [[ca |] |];
    simpl in H; [| | discriminate H]; injection H as <-.
  - exists ca. split; [reflexivity |]. now rewrite negb_involutive.
  - now contradiction Href.
Qed.

(** What it writes when there is none. *)
Lemma analyze_sample_none project db lp sid la la' :
  analyze_sample project db lp sid la = Ok la' ->
  reference_run la' = None ->
  get_best_run project db sid (la_locus_id la) = Ok None /\
  la' = {| la_id := la_id la;
           sample_annotations_id := sample_annotations_id la;
           la_locus_id := la_locus_id la;
           la_annotated_peaks := [];
           reference_run := None;
           alleles := alleles la;
           la_flags := la_flags la |}.
Proof.
  unfold analyze_sample. intros H Href.
  destruct (get_best_run project db sid (la_locus_id la)) as [[ca |] |];
    simpl in H; [| | discriminate H]; injection H as <-.
  - discriminate Href.
  - split; reflexivity.
Qed.

Lemma analyze_sample_ids project db lp sid la la' :
  analyze_sample project db lp sid la = Ok la' ->
  la_id la' = la_id la /\
  sample_annotations_id la' = sample_annotations_id la /\
  la_locus_id la' = la_locus_id la.
Proof.
  unfold analyze_sample. intros H.
  destruct (get_best_run project db sid (la_locus_id la)) as [[ca |] |];
    simpl in H; [| | discriminate H]; injection H as <-; auto.
Qed.

(** [analyze_samples] touches the locus annotations of its project and
    locus only: the table of sample annotations is as before, the locus
    annotations keep their number, their order and their ids, and every
    annotation of another locus or of another project is left as it was. *)
Theorem analyze_samples_frame
        (project : genotyping_project) (db db' : database) (locus_id : Z) :
  analyze_samples project db locus_id = Ok db' ->
  sample_annotations_table db' = sample_annotations_table db /\
  Forall2 (fun la la' =>
             la_id la' = la_id la /\
             sample_annotations_id la' = sample_annotations_id la /\
             la_locus_id la' = la_locus_id la /\
             (in_project project db la = false \/ la_locus_id la <> locus_id ->
              la' = la))
          (locus_annotations_table db) (locus_annotations_table db').
Proof.
  intros H. destruct (GenotypingFacts.analyze_samples_rows _ _ _ _ H) as [_ [Hs HF]].
  split; [exact Hs |]. eapply Forall2_impl; [exact HF |].
  intros la la' Hrel. simpl in Hrel.
  destruct (in_project project db la) eqn:Hp; simpl in Hrel.
  - case_bool_decide as Hl.
    + destruct Hrel as [sa [_ Ha]].
      destruct (analyze_sample_ids _ _ _ _ _ _ Ha) as [H1 [H2 H3]].
      split; [exact H1 |]. split; [exact H2 |]. split; [exact H3 |].
      intros [Hc | Hc]; [discriminate Hc | contradiction].
    + subst la'. auto.
  - subst la'. auto.
Qed.

Lemma analyze_samples_frame_witness :
  sample_annotations_table example_analyzed = sample_annotations_table example_database /\
  Forall2 (fun la la' =>
             la_id la' = la_id la /\
             sample_annotations_id la' = sample_annotations_id la /\
             la_locus_id la' = la_locus_id la /\
             (in_project example_project example_database la = false
              \/ la_locus_id la <> 5%Z ->
              la' = la))
          (locus_annotations_table example_database)
          (locus_annotations_table example_analyzed).
Proof.
  apply (analyze_samples_frame example_project example_database example_analyzed 5).
  reflexivity.
Defined.

Lemma sample_annotation_of_same db la la' :
  sample_annotations_id la' = sample_annotations_id la ->
  sample_annotation_of db la' = sample_annotation_of db la.
Proof. unfold sample_annotation_of. now intros ->. Qed.

(** A locus annotation that [analyze_samples] processes ends without a
    reference run exactly when its sample has no usable run at the locus;
    it then has no peaks, and keeps the alleles and the flags it had. *)
Theorem analyze_samples_without_run
        (project : genotyping_project) (db db' : database) (locus_id : Z)
        (la' : sample_locus_annotation) :
  analyze_samples project db locus_id = Ok db' ->
  In la' (locus_annotations_table db') ->
  in_project project db la' = true ->
  la_locus_id la' = locus_id ->
  exists la sa,
    In la (locus_annotations_table db) /\ la_id la = la_id la' /\
    sample_annotation_of db la' = Some sa /\
    (reference_run la' = None <->
     candidates project db (sa_sample_id sa) locus_id = []) /\
    (reference_run la' = None ->
     la_annotated_peaks la' = [] /\ alleles la' = alleles la /\
     la_flags la' = la_flags la).
Proof.
  intros H Hin Hp Hl.
  destruct (GenotypingFacts.analyze_samples_processed _ _ _ _ _ H Hin Hp Hl)
    as [la [sa [Hla [Hsa Ha]]]].
  destruct (analyze_sample_ids _ _ _ _ _ _ Ha) as [H1 [H2 H3]].
  exists la, sa. split; [exact Hla |]. split; [now symmetry |].
  split; [now rewrite (sample_annotation_of_same db la la' H2) |].
  assert (Hloc : la_locus_id la = locus_id) by congruence.
  split; [split |].
  - intros Href. destruct (analyze_sample_none _ _ _ _ _ _ Ha Href) as [Hb _].
    rewrite Hloc in Hb. now apply get_best_run_none.
  - intros Hc. apply get_best_run_none in Hc.
    unfold analyze_sample in Ha. rewrite Hloc, Hc in Ha. simpl in Ha.
    now injection Ha as <-.
  - intros Href. destruct (analyze_sample_none _ _ _ _ _ _ Ha Href) as [_ ->].
    auto.
Qed.

Lemma analyze_samples_without_run_witness :
  exists la sa,
    In la (locus_annotations_table example_database) /\
    la_id la = la_id example_annotation /\
    sample_annotation_of example_database example_annotation = Some sa /\
    (reference_run example_annotation = None <->
     candidates example_project example_database (sa_sample_id sa) 5 = []) /\
    (reference_run example_annotation = None ->
     la_annotated_peaks example_annotation = [] /\
     alleles example_annotation = alleles la /\
     la_flags example_annotation = la_flags la).
Proof.
  apply (analyze_samples_without_run example_project example_database
           example_analyzed 5 example_annotation).
  - reflexivity.
  - left. reflexivity.
  - reflexivity.
  - reflexivity.
Defined.

(** The alleles [analyze_samples] calls: in an annotation that it processed,
    that has a reference run and is not flagged as failed, an allele is true
    exactly when one of the peaks of the annotation is in a bin, has none of
    its flags set and has that bin id; every other allele the annotation
    had is false, and no other key appears. *)
Theorem analyze_samples_calls_alleles
        (project : genotyping_project) (db db' : database) (locus_id : Z)
        (la' : sample_locus_annotation) :
  analyze_samples project db locus_id = Ok db' ->
  In la' (locus_annotations_table db') ->
  in_project project db la' = true ->
  la_locus_id la' = locus_id ->
  reference_run la' <> None ->
  la_flags la' !! "failure" = Some false ->
  exists la,
    In la (locus_annotations_table db) /\ la_id la = la_id la' /\
    forall k,
      alleles la' !! k
      = if calls (la_annotated_peaks la') k then Some true
        else (fun _ => false) <$> (alleles la !! k).
Proof.
  intros H Hin Hp Hl Href Hfail.
  destruct (GenotypingFacts.analyze_samples_processed _ _ _ _ _ H Hin Hp Hl)
    as [la [sa [Hla [_ Ha]]]].
  destruct (analyze_sample_some _ _ _ _ _ _ Ha Href) as [ca [_ ->]].
  exists la. split; [exact Hla |]. split; [reflexivity |]. simpl in *.
  rewrite lookup_insert_ne in Hfail by done.
  rewrite lookup_insert_ne in Hfail by done.
  rewrite lookup_insert_eq in Hfail. injection Hfail as Hfail.
  apply negb_false_iff in Hfail. rewrite Hfail. intros k.
  rewrite call_alleles_lookup. unfold all_false. now rewrite lookup_fmap.
Qed.

Lemma analyze_samples_calls_alleles_witness :
  exists la,
    In la (locus_annotations_table example_database) /\
    la_id la = la_id example_annotation /\
    forall k,
      alleles example_annotation !! k
      = if calls (la_annotated_peaks example_annotation) k then Some true
        else (fun _ => false) <$> (alleles la !! k).
Proof.
  apply (analyze_samples_calls_alleles example_project example_database
           example_analyzed 5 example_annotation).
  - reflexivity.
  - left. reflexivity.
  - reflexivity.
  - reflexivity.
  - discriminate.
  - reflexivity.
Defined.



Lemma for_rows_fixed {A : Type} (selected : A -> bool)
      (body : unit -> A -> result (unit * A)) (table : list A) :
  (forall x, In x table -> selected x = true -> body tt x = Ok (tt, x)) ->
  for_rows selected body tt table = Ok (tt, table).
Proof.
  induction table as [| x rest IH]; intros H; simpl; [reflexivity |].
  destruct (selected x) eqn:Hsel.
  - rewrite (H x (or_introl eq_refl) Hsel). simpl.
    now rewrite IH by (intros y Hy; apply H; now right).
  - simpl. now rewrite IH by (intros y Hy; apply H; now right).
Qed.

Lemma all_false_all_false al : all_false (all_false al) = all_false al.
Proof.
  apply map_eq. intros k. unfold all_false. rewrite !lookup_fmap.
  now destruct (al !! k).
Qed.

Lemma call_alleles_again al peaks :
  call_alleles (all_false (call_alleles (all_false al) peaks)) peaks
  = call_alleles (all_false al) peaks.
Proof.
  apply map_eq. intros k. rewrite !call_alleles_lookup.
  destruct (calls peaks k) eqn:Hk; [reflexivity |].
  unfold all_false. rewrite !lookup_fmap, call_alleles_lookup, Hk.
  rewrite lookup_fmap. now destruct (al !! k).
Qed.

Lemma insert_flags_again (f : gmap string bool) a b c :
  <["manual_curation" := a]>
    (<["offscale" := b]>
       (<["failure" := c]>
          (<["manual_curation" := a]>
             (<["offscale" := b]> (<["failure" := c]> f)))))
  = <["manual_curation" := a]> (<["offscale" := b]> (<["failure" := c]> f)).
Proof.
  apply map_eq. intros k.
  destruct (decide (k = "manual_curation")) as [-> | H1];
    [now rewrite !lookup_insert_eq |].
  rewrite !(lookup_insert_ne _ "manual_curation") by done.
  destruct (decide (k = "offscale")) as [-> | H2];
    [now rewrite !lookup_insert_eq |].
  rewrite !(lookup_insert_ne _ "offscale") by done.
  destruct (decide (k = "failure")) as [-> | H3];
    [now rewrite !lookup_insert_eq |].
  repeat (rewrite lookup_insert_ne by done). reflexivity.
Qed.

Lemma analyze_sample_idempotent project db lp sid la la' :
  analyze_sample project db lp sid la = Ok la' ->
  analyze_sample project db lp sid la' = Ok la'.
Proof.
  unfold analyze_sample. intros H.
  destruct (get_best_run project db sid (la_locus_id la)) as [[ca |] |] eqn:Hb;
    simpl in H; [| | discriminate H]; injection H as <-; simpl; rewrite Hb; simpl.
  - f_equal. f_equal.
    + destruct (exceeds_failure_threshold lp
                  (List.map (stamp_flags lp) (ca_annotated_peaks ca))); simpl.
      * apply call_alleles_again.
      * apply all_false_all_false.
    + apply insert_flags_again.
  - reflexivity.
Qed.

(** Running [analyze_samples] a second time for the same locus changes
    nothing: the tables it returns are those the first run returned. *)
Theorem analyze_samples_idempotent
        (project : genotyping_project) (db db' : database) (locus_id : Z) :
  analyze_samples project db locus_id = Ok db' ->
  analyze_samples project db' locus_id = Ok db'.
Proof.
  intros H.
  destruct (GenotypingFacts.analyze_samples_rows _ _ _ _ H) as [Hc [Hs HF]].
  assert (Hsa : forall la, sample_annotation_of db' la = sample_annotation_of db la)
    by (intros la; unfold sample_annotation_of; now rewrite Hs).
  assert (Hip : forall la, in_project project db' la = in_project project db la)
    by (intros la; unfold in_project; now rewrite Hsa).
  assert (Has : forall lp sid la,
             analyze_sample project db' lp sid la = analyze_sample project db lp sid la).
  { intros lp sid la. unfold analyze_sample, get_best_run. now rewrite Hc. }
  unfold analyze_samples.
  match goal with
  | |- context [for_rows ?sel ?body tt ?t] => rewrite (for_rows_fixed sel body t)
  end.
  - simpl. now destruct db'.
  - intros la' Hin Hsel. rewrite Hip in Hsel. rewrite Hsa.
    apply andb_true_iff in Hsel. destruct Hsel as [Hp Hl].
    apply bool_decide_eq_true in Hl.
    destruct (GenotypingFacts.analyze_samples_processed _ _ _ _ _ H Hin Hp Hl)
      as [la [sa [_ [Hla Ha]]]].
    destruct (analyze_sample_ids _ _ _ _ _ _ Ha) as [_ [H2 _]].
    rewrite (sample_annotation_of_same db la la' H2), Hla, Has.
    now rewrite (analyze_sample_idempotent _ _ _ _ _ _ Ha).
Qed.

Lemma analyze_samples_idempotent_witness :
  analyze_samples example_project example_analyzed 5 = Ok example_analyzed.
Proof.
  apply (analyze_samples_idempotent example_project example_database
           example_analyzed 5).
  reflexivity.
Defined.

End GenotypingMore.

(** ** More on the probabilistic annotation *)

Module ProbabilityMore.
Import Genotyping.
Local Open Scope list_scope.

Section Arithmetic.

Context {fa : float_arithmetic}.

Lemma Forall2_refl_gen {A : Type} (R : A -> A -> Prop) :
  (forall x, R x x) -> forall l, Forall2 R l l.
Proof. intros H l. induction l; constructor; auto. Qed.

Lemma Forall2_trans_gen {A : Type} (R : A -> A -> Prop) :
  (forall x y z, R x y -> R y z -> R x z) ->
  forall l1 l2 l3, Forall2 R l1 l2 -> Forall2 R l2 l3 -> Forall2 R l1 l3.
Proof.
  intros H l1 l2 l3 H12. revert l3.
  induction H12 as [| x y l1 l2 Hxy _ IH]; intros l3 H23; inversion H23; subst;
    constructor; eauto.
Qed.

Lemma Forall2_insert_r {A : Type} (R : A -> A -> Prop) (l : list A) :
  (forall z, R z z) ->
  forall j x y, l !! j = Some x -> R x y -> Forall2 R l (<[j := y]> l).
Proof.
  intros Hrefl. induction l as [| a l IH]; intros j x y Hj Hxy; [discriminate Hj |].
  destruct j as [| j]; simpl in Hj.
  - injection Hj as ->. simpl. constructor; [exact Hxy |].
    now apply Forall2_refl_gen.
  - simpl. constructor; [apply Hrefl | eapply IH; eassumption].
Qed.

Lemma same_but_probability_refl x : same_but_probability x x.
Proof. now left. Qed.

Lemma same_but_probability_trans x y z :
  same_but_probability x y -> same_but_probability y z -> same_but_probability x z.
Proof.
  intros [-> | [q ->]] [-> | [q' ->]].
  - now left.
  - right. eauto.
  - right. eauto.
  - right. exists q'. reflexivity.
Qed.

Lemma in_project_same_id project db la la' :
  sample_annotations_id la' = sample_annotations_id la ->
  in_project project db la' = in_project project db la.
Proof. unfold in_project, sample_annotation_of. now intros ->. Qed.

Lemma touched_refl project db la : touched project db la la.
Proof.
  unfold touched. repeat split; try reflexivity.
  apply Forall2_refl_gen. apply same_but_probability_refl.
Qed.

Lemma touched_trans project db la1 la2 la3 :
  touched project db la1 la2 -> touched project db la2 la3 ->
  touched project db la1 la3.
Proof.
  intros [A1 [A2 [A3 [A4 [A5 [A6 A7]]]]]] [B1 [B2 [B3 [B4 [B5 [B6 B7]]]]]].
  unfold touched. repeat split; try congruence.
  - eapply Forall2_trans_gen; [apply same_but_probability_trans | exact A6 | exact B6].
  - intros Hp. rewrite <- (A7 Hp). apply B7.
    now rewrite (in_project_same_id project db la1 la2 A2).
Qed.

Lemma touched_peaks_length project db la la' :
  touched project db la la' ->
  length (la_annotated_peaks la') = length (la_annotated_peaks la).
Proof.
  intros [_ [_ [_ [_ [_ [H _]]]]]]. symmetry. eapply Forall2_length. exact H.
Qed.

Lemma length_filter_insert {A : Type} (P : A -> bool) (l : list A) : forall j x y,
  l !! j = Some x -> P x = true ->
  (length (List.filter P (<[j := y]> l)) + 1
   = length (List.filter P l) + (if P y then 1 else 0))%nat.
Proof.
  induction l as [| a l IH]; intros j x y Hj Hx; [discriminate Hj |].
  destruct j as [| j]; simpl in Hj.
  - injection Hj as ->. simpl. rewrite Hx. destruct (P y); simpl; lia.
  - simpl. specialize (IH j x y Hj Hx). destruct (P a); simpl; lia.
Qed.

Lemma all_peaks_from_inv threshold peaks : forall i l,
  all_peaks_from threshold i peaks = Ok l ->
  l = indexed_called threshold i peaks.
Proof.
  induction peaks as [| x rest IH]; intros i l H; simpl in H.
  - now injection H as <-.
  - unfold mbind, result_bind, get_probability in H.
    destruct (probability x) as [q |] eqn:Hq; simpl in H; [| discriminate H].
    destruct (all_peaks_from threshold (S i) rest) as [l' |] eqn:Hr; simpl in H;
      [| discriminate H].
    injection H as <-. rewrite (IH _ _ Hr). simpl. unfold called. now rewrite Hq.
Qed.

Lemma Qltb_asym a b : Qltb a b = true -> Qltb b a = false.
Proof.
  intros H. apply Qltb_lt in H. destruct (Qltb b a) eqn:E; [| reflexivity].
  apply Qltb_lt in E. exfalso. exact (Qlt_irrefl _ (Qlt_trans _ _ _ H E)).
Qed.

(** The second loop over the possible artifacts never adds a called peak,
    and removes one when it sets [alleles_changed]. *)
Lemma assign_new_probs_measure threshold new_probs possible :
  forall acc changed changed' peaks',
    NoDup (List.map fst possible) ->
    (forall j x, In (j, x) possible ->
                 acc !! j = Some x /\ called threshold x = true) ->
    assign_new_probs threshold new_probs possible acc changed = Ok (changed', peaks') ->
    Forall2 same_but_probability acc peaks' /\
    (length (List.filter (called threshold) peaks')
     <= length (List.filter (called threshold) acc))%nat /\
    (changed = true -> changed' = true) /\
    (changed = false -> changed' = true ->
     (length (List.filter (called threshold) peaks')
      < length (List.filter (called threshold) acc))%nat).
Proof.
  induction possible as [| [i x] rest IH]; intros acc changed changed' peaks' Hnd Hin H;
    simpl in H.
  - injection H as <- <-. split; [apply Forall2_refl_gen, same_but_probability_refl |].
    split; [lia |]. split; [auto |]. intros ->. discriminate.
  - destruct (new_probs !! peak_index x) as [q |]; [| discriminate H].
    simpl in Hnd. inversion Hnd as [| ? ? Hni Hnd']; subst.
    destruct (Hin i x (or_introl eq_refl)) as [Hi Hc].
    pose proof (length_filter_insert (called threshold) acc i x (set_probability x q)
                  Hi Hc) as Hlen.
    assert (Hcq : called threshold (set_probability x q) = Qltb threshold q)
      by reflexivity.
    rewrite Hcq in Hlen.
    assert (Hsb : Forall2 same_but_probability acc (<[i := set_probability x q]> acc)).
    { eapply Forall2_insert_r; [apply same_but_probability_refl | exact Hi |].
      right. eauto. }
    apply IH in H; [| exact Hnd' |].
    + destruct H as [HF [Hle [Ht Hf]]].
      split; [eapply Forall2_trans_gen;
              [apply same_but_probability_trans | exact Hsb | exact HF] |].
      destruct (Qltb q threshold) eqn:E.
      * rewrite (Qltb_asym _ _ E) in Hlen.
        split; [lia |]. split; [intros _; now apply Ht |]. intros _ _. lia.
      * assert (Hle' : (length (List.filter (called threshold)
                                  (<[i := set_probability x q]> acc))
                        <= length (List.filter (called threshold) acc))%nat)
          by (destruct (Qltb threshold q); lia).
        split; [lia |]. split; [exact Ht |]. intros H1 H2.
        specialize (Hf H1 H2). lia.
    + intros j y Hjy.
      assert (Hne : i <> j).
      { intros Heq. subst j. apply Hni. apply list_elem_of_In.
        apply in_map_iff. exists (i, y). now split. }
      rewrite list_lookup_insert_ne by exact Hne.
      apply Hin. now right.
Qed.

(** [annotate_locus] on a row of the project. *)
Lemma annotate_locus_measure project db frequencies m changed la changed' la' :
  in_project project db la = true ->
  annotate_locus project frequencies m changed la = Ok (changed', la') ->
  touched project db la la' /\
  (called_peaks (probability_threshold project) la'
   <= called_peaks (probability_threshold project) la)%nat /\
  (changed = true -> changed' = true) /\
  (changed = false -> changed' = true ->
   (called_peaks (probability_threshold project) la'
    < called_peaks (probability_threshold project) la)%nat).
Proof.
  intros Hp H. unfold annotate_locus, mbind, result_bind in H.
  destruct (all_peaks_from (probability_threshold project) 0 (la_annotated_peaks la))
    as [all |] eqn:Hall; simpl in H; [| discriminate H].
  apply all_peaks_from_inv in Hall. subst all.
  match type of H with
  | context [compute_new_probs ?f ?l ?mm ?a ?p ?n] =>
      destruct (compute_new_probs f l mm a p n) as [new_probs |]; simpl in H;
        [| discriminate H]
  end.
  match type of H with
  | context [assign_new_probs ?t ?n ?p ?a ?c] =>
      destruct (assign_new_probs t n p a c) as [[c1 peaks1] |] eqn:Ha; simpl in H;
        [| discriminate H]
  end.
  injection H as <- <-.
  apply assign_new_probs_measure in Ha.
  - destruct Ha as [HF Hm]. split; [| exact Hm].
    unfold touched. simpl. repeat split; try reflexivity; [exact HF |].
    intros Hf. rewrite Hp in Hf. discriminate Hf.
  - apply ProbabilityFacts.NoDup_map_filter. apply ProbabilityFacts.indexed_called_NoDup.
  - intros j x Hjx. apply filter_In in Hjx. destruct Hjx as [Hjx _].
    apply ProbabilityFacts.indexed_called_lookup in Hjx.
    destruct Hjx as [_ [Hj Hc]]. rewrite Nat.sub_0_r in Hj. auto.
Qed.

Lemma for_rows_measure {A : Type} (mu : A -> nat) (R : A -> A -> Prop)
      (selected : A -> bool) (body : bool -> A -> result (bool * A)) :
  (forall x, R x x) ->
  (forall c x c' x',
      selected x = true -> body c x = Ok (c', x') ->
      R x x' /\ (mu x' <= mu x)%nat /\ (c = true -> c' = true) /\
      (c = false -> c' = true -> (mu x' < mu x)%nat)) ->
  forall table c c' table',
    for_rows selected body c table = Ok (c', table') ->
    Forall2 R table table' /\
    (list_sum (List.map mu table') <= list_sum (List.map mu table))%nat /\
    (c = true -> c' = true) /\
    (c = false -> c' = true ->
     (list_sum (List.map mu table') < list_sum (List.map mu table))%nat).
Proof.
  intros Hrefl Hbody. induction table as [| x rest IH]; intros c c' table' H;
    simpl in H.
  - injection H as <- <-. split; [constructor |]. split; [lia |].
    split; [auto |]. intros ->. discriminate.
  - assert (Hstep : exists c1 x',
               (if selected x then body c x else Ok (c, x)) = Ok (c1, x') /\
               exists rest', for_rows selected body c1 rest = Ok (c', rest') /\
                             table' = x' :: rest').
    { unfold mbind, result_bind in H.
      destruct (if selected x then body c x else Ok (c, x)) as [[c1 x'] |];
        simpl in H; [| discriminate H].
      destruct (for_rows selected body c1 rest) as [[c2 rest'] |] eqn:Hr;
        simpl in H; [| discriminate H].
      injection H as <- <-. exists c1, x'. split; [reflexivity |].
      exists rest'. split; [exact Hr | reflexivity]. }
    destruct Hstep as [c1 [x' [Hx [rest' [Hr ->]]]]].
    destruct (IH _ _ _ Hr) as [HF [Hle [Ht Hf]]].
    assert (Hx' : R x x' /\ (mu x' <= mu x)%nat /\ (c = true -> c1 = true) /\
                  (c = false -> c1 = true -> (mu x' < mu x)%nat)).
    { destruct (selected x) eqn:Hsel; [now apply Hbody |].
      injection Hx as <- <-. split; [apply Hrefl |]. split; [lia |].
      split; [auto |]. intros ->. discriminate. }
    destruct Hx' as [HR [Hle' [Ht' Hf']]].
    split; [now constructor |]. simpl.
    split; [lia |]. split; [auto |]. intros Hc Hc'.
    destruct c1.
    + specialize (Hf' Hc eq_refl). lia.
    + specialize (Hf eq_refl Hc'). lia.
Qed.

Lemma for_rows_state {A S : Type} (P : S -> S -> Prop)
      (selected : A -> bool) (body : S -> A -> result (S * A)) :
  (forall s, P s s) ->
  (forall s1 s2 s3, P s1 s2 -> P s2 s3 -> P s1 s3) ->
  (forall s x s' x', selected x = true -> body s x = Ok (s', x') -> P s s') ->
  forall table s s' table',
    for_rows selected body s table = Ok (s', table') -> P s s'.
Proof.
  intros Hrefl Htrans Hbody. induction table as [| x rest IH]; intros s s' table' H;
    simpl in H.
  - injection H as <- _. apply Hrefl.
  - unfold mbind, result_bind in H.
    destruct (selected x) eqn:Hsel.
    + destruct (body s x) as [[s1 x'] |] eqn:Hb; simpl in H; [| discriminate H].
      destruct (for_rows selected body s1 rest) as [[s2 rest'] |] eqn:Hr; simpl in H;
        [| discriminate H].
      injection H as <- _. eapply Htrans; [eapply Hbody; eassumption |].
      eapply IH. exact Hr.
    + simpl in H.
      destruct (for_rows selected body s rest) as [[s2 rest'] |] eqn:Hr; simpl in H;
        [| discriminate H].
      injection H as <- _. eapply IH. exact Hr.
Qed.

Lemma pass_keeps_refl project db s : pass_keeps project db s s.
Proof.
  unfold pass_keeps. split; [apply Forall2_refl_gen, touched_refl |].
  split; [lia |]. split; [auto |]. intros H1 H2. congruence.
Qed.

Lemma pass_keeps_trans project db s1 s2 s3 :
  pass_keeps project db s1 s2 -> pass_keeps project db s2 s3 ->
  pass_keeps project db s1 s3.
Proof.
  intros [A1 [A2 [A3 A4]]] [B1 [B2 [B3 B4]]]. unfold pass_keeps.
  split; [eapply Forall2_trans_gen; [apply touched_trans | exact A1 | exact B1] |].
  split; [lia |]. split; [auto |]. intros H1 H3.
  destruct (fst s2) eqn:E2.
  - specialize (A4 H1 eq_refl). lia.
  - specialize (B4 eq_refl H3). lia.
Qed.

Lemma annotate_sample_keeps project db frequencies s sa s' sa' :
  annotate_sample project db frequencies s sa = Ok (s', sa') ->
  pass_keeps project db s s' /\ same_but_moi sa sa'.
Proof.
  destruct s as [changed table]. unfold annotate_sample, mbind, result_bind.
  destruct (sample_moi (probability_threshold project) (of_sample project db sa) 0 table)
    as [m |]; simpl; [| discriminate].
  match goal with
  | |- context [for_rows ?sel ?body ?c ?t] =>
      destruct (for_rows sel body c t) as [[c1 table1] |] eqn:Hr; simpl;
        [| discriminate]
  end.
  intros [= <- <-]. split; [| right; eauto].
  apply (for_rows_measure (called_peaks (probability_threshold project))
                          (touched project db)) in Hr.
  - exact Hr.
  - apply touched_refl.
  - intros c x c' x' Hsel Hb.
    apply ProbabilityFacts.of_sample_in_project in Hsel.
    destruct (active x) as [[|] |]; simpl in Hb; [| | discriminate Hb].
    + eapply annotate_locus_measure; eassumption.
    + injection Hb as <- <-. split; [apply touched_refl |]. split; [lia |].
      split; [auto |]. intros H1 H2. congruence.
Qed.

Lemma same_but_moi_refl sa : same_but_moi sa sa.
Proof. now left. Qed.

Lemma same_but_moi_trans sa1 sa2 sa3 :
  same_but_moi sa1 sa2 -> same_but_moi sa2 sa3 -> same_but_moi sa1 sa3.
Proof.
  intros [-> | [m ->]] [-> | [m' ->]].
  - now left.
  - right. eauto.
  - right. eauto.
  - right. exists m'. reflexivity.
Qed.

(** One cycle of the [while] loop. *)
Lemma cycle_keeps project initial db db' changed :
  cycle project initial db = Ok (db', changed) ->
  channel_annotations_table db' = channel_annotations_table db /\
  Forall2 same_but_moi (sample_annotations_table db) (sample_annotations_table db') /\
  pass_keeps project initial (false, locus_annotations_table db)
             (changed, locus_annotations_table db').
Proof.
  unfold cycle, mbind, result_bind.
  match goal with
  | |- context [count_alleles ?t ?s ?a ?l] =>
      destruct (count_alleles t s a l) as [tl |]; simpl; [| discriminate]
  end.
  match goal with
  | |- context [for_rows ?sel ?body ?s ?t] =>
      destruct (for_rows sel body s t) as [[[c1 table1] samples] |] eqn:Hr; simpl;
        [| discriminate]
  end.
  intros [= <- <-]. simpl. split; [reflexivity |]. split.
  - apply GenotypingFacts.for_rows_Forall2 in Hr.
    eapply Forall2_impl; [exact Hr |]. intros sa sa' Hrel. simpl in Hrel.
    destruct (bool_decide (sa_project_id sa = project_id project)).
    + destruct Hrel as [s1 [s2 Hb]]. now apply annotate_sample_keeps in Hb.
    + subst sa'. apply same_but_moi_refl.
  - apply (for_rows_state (pass_keeps project initial)) in Hr.
    + exact Hr.
    + apply pass_keeps_refl.
    + apply pass_keeps_trans.
    + intros s x s' x' _ Hb. now apply annotate_sample_keeps in Hb.
Qed.

(** The [while] loop ends: each cycle that sets [alleles_changed] has one
    called peak less to work on. *)
Lemma cycles_loop_terminates project initial : forall fuel db cycles,
  (called_in_table (probability_threshold project) (locus_annotations_table db)
   < fuel)%nat ->
  exists r,
    cycles_loop fuel project initial db cycles = Some r /\
    forall db' n,
      r = Ok (db', n) ->
      (cycles < n
       <= cycles + S (called_in_table (probability_threshold project)
                                      (locus_annotations_table db)))%nat.
Proof.
  induction fuel as [| fuel IH]; intros db cycles Hlt; [lia |].
  simpl. destruct (cycle project initial db) as [[db1 changed] | e] eqn:Hc.
  - apply cycle_keeps in Hc. destruct Hc as [_ [_ [_ [Hle [_ Hdec]]]]].
    simpl in Hle, Hdec. destruct changed.
    + specialize (Hdec eq_refl eq_refl).
      destruct (IH db1 (S cycles)) as [r [Hr Hn]]; [lia |].
      exists r. split; [exact Hr |]. intros db' n Hrn.
      specialize (Hn db' n Hrn). lia.
    + eexists. split; [reflexivity |]. intros db' n [= <- <-]. lia.
  - eexists. split; [reflexivity |]. intros db' n Hr. discriminate Hr.
Qed.

Lemma cycles_loop_keeps project initial : forall fuel db cycles db' n,
  cycles_loop fuel project initial db cycles = Some (Ok (db', n)) ->
  channel_annotations_table db' = channel_annotations_table db /\
  Forall2 same_but_moi (sample_annotations_table db) (sample_annotations_table db') /\
  Forall2 (touched project initial)
          (locus_annotations_table db) (locus_annotations_table db').
Proof.
  induction fuel as [| fuel IH]; intros db cycles db' n H; [discriminate H |].
  simpl in H. destruct (cycle project initial db) as [[db1 changed] | e] eqn:Hc;
    [| discriminate H].
  apply cycle_keeps in Hc. destruct Hc as [Hch [Hsa [Hla _]]]. simpl in Hla.
  destruct changed.
  - destruct (IH _ _ _ _ H) as [Hch' [Hsa' Hla']].
    split; [congruence |].
    split; [eapply Forall2_trans_gen; [apply same_but_moi_trans | exact Hsa | exact Hsa'] |].
    eapply Forall2_trans_gen; [apply touched_trans | exact Hla | exact Hla'].
  - injection H as <- _. auto.
Qed.

Lemma Forall2_map_same_but_probability (f : peak -> Q) peaks :
  Forall2 same_but_probability peaks
          (List.map (fun x => set_probability x (f x)) peaks).
Proof.
  induction peaks as [| x rest IH]; simpl; constructor; [| exact IH].
  right. eauto.
Qed.

Lemma initialize_probabilities_touched project db la la' :
  in_project project db la = true ->
  initialize_probabilities la = Ok la' ->
  touched project db la la'.
Proof.
  intros Hp. unfold initialize_probabilities, mbind, result_bind.
  destruct (active la) as [[|] |]; simpl; [| | discriminate]; intros [= <-].
  - unfold touched. simpl. repeat split; try reflexivity.
    + apply Forall2_map_same_but_probability.
    + intros Hf. rewrite Hp in Hf. discriminate Hf.
  - apply touched_refl.
Qed.

Lemma initialize_touched project db (u : unit) table0 :
  for_rows (in_project project db)
           (fun (_ : unit) la => la' ← initialize_probabilities la; Ok (tt, la'))
           tt (locus_annotations_table db) = Ok (u, table0) ->
  Forall2 (touched project db) (locus_annotations_table db) table0.
Proof.
  intros H. apply GenotypingFacts.for_rows_Forall2 in H.
  eapply Forall2_impl; [exact H |]. intros la la' Hrel. simpl in Hrel.
  destruct (in_project project db la) eqn:Hp.
  - destruct Hrel as [s1 [s2 Hb]]. unfold mbind, result_bind in Hb.
    destruct (initialize_probabilities la) as [la1 |] eqn:Hi; simpl in Hb;
      [| discriminate Hb].
    injection Hb as _ <-. eapply initialize_probabilities_touched; eassumption.
  - subst la'. apply touched_refl.
Qed.

Lemma touched_peaks_in_table project db table table' :
  Forall2 (touched project db) table table' ->
  peaks_in_table table' = peaks_in_table table.
Proof.
  unfold peaks_in_table. induction 1 as [| la la' l l' Ht _ IH]; [reflexivity |].
  simpl. rewrite IH. now rewrite (touched_peaks_length _ _ _ _ Ht).
Qed.

Lemma called_in_table_le threshold table :
  (called_in_table threshold table <= peaks_in_table table)%nat.
Proof.
  unfold called_in_table, peaks_in_table, called_peaks.
  induction table as [| la table IH]; simpl; [lia |].
  pose proof (List.filter_length_le (called threshold) (la_annotated_peaks la)). lia.
Qed.

(** [probabilistic_peak_annotation] returns: its [while] loop ends after at
    most one cycle more than there are peaks in the locus annotations, so
    with that much fuel the model gives a result, an exception or the new
    tables, and the number of cycles it reports is within that bound. *)
Theorem probabilistic_peak_annotation_terminates
        (project : genotyping_project) (db : database) (fuel : nat) :
  (peaks_in_table (locus_annotations_table db) < fuel)%nat ->
  exists r,
    probabilistic_peak_annotation fuel project db = Some r /\
    forall db' cycles,
      r = Ok (db', cycles) ->
      (1 <= cycles <= S (peaks_in_table (locus_annotations_table db)))%nat.
Proof.
  intros Hfuel. unfold probabilistic_peak_annotation.
  match goal with
  | |- context [for_rows ?sel ?body tt ?t] =>
      destruct (for_rows sel body tt t) as [[u table0] |] eqn:Hi
  end.
  - apply initialize_touched in Hi.
    pose proof (touched_peaks_in_table _ _ _ _ Hi) as Hpk.
    pose proof (called_in_table_le (probability_threshold project) table0) as Hle.
    match goal with
    | |- context [cycles_loop fuel project db ?db0 0] =>
        destruct (cycles_loop_terminates project db fuel db0 0) as [r [Hr Hn]];
          [simpl; lia |]; rewrite Hr
    end.
    destruct r as [[db1 n] | e].
    + specialize (Hn db1 n eq_refl). simpl in Hn.
      destruct (finalize project db db1) as [db2 | e].
      * eexists. split; [reflexivity |]. intros db' cycles [= <- <-]. lia.
      * eexists. split; [reflexivity |]. intros db' cycles Hd. discriminate Hd.
    + eexists. split; [reflexivity |]. intros db' cycles Hd. discriminate Hd.
  - eexists. split; [reflexivity |]. intros db' cycles Hd. discriminate Hd.
Qed.

Lemma call_probable_alleles_lookup threshold peaks : forall al al',
  call_probable_alleles threshold al peaks = Ok al' ->
  forall k, al' !! k = if probable threshold peaks k then Some true else al !! k.
Proof.
  induction peaks as [| x rest IH]; intros al al' H k; simpl in H.
  - now injection H as <-.
  - unfold mbind, result_bind, get_probability in H.
    destruct (probability x) as [q |] eqn:Hq; simpl in H; [| discriminate H].
    rewrite (IH _ _ H k). unfold probable. simpl. rewrite Hq.
    destruct (Qleb threshold q); simpl; [| reflexivity].
    case_bool_decide as Hk; simpl.
    + destruct (existsb _ rest); [reflexivity |]. subst k. apply lookup_insert_eq.
    + destruct (existsb _ rest); [reflexivity |]. now apply lookup_insert_ne.
Qed.

Lemma all_false_not_true al k : all_false al !! k <> Some true.
Proof. unfold all_false. rewrite lookup_fmap. now destruct (al !! k). Qed.

Lemma finalize_alleles_finalized threshold la la' :
  finalize_alleles threshold la = Ok la' ->
  (exists al, la' = set_alleles la al) /\ finalized threshold la'.
Proof.
  unfold finalize_alleles, mbind, result_bind.
  destruct (active la) as [[|] |] eqn:Ha; simpl; [| | discriminate].
  - destruct (call_probable_alleles threshold (all_false (alleles la))
                                    (la_annotated_peaks la)) as [al |] eqn:Hc;
      simpl; [| discriminate].
    intros [= <-]. split; [eauto |]. intros k. simpl.
    change (active (set_alleles la al)) with (active la). rewrite Ha.
    rewrite (call_probable_alleles_lookup _ _ _ _ Hc k).
    destruct (probable threshold (la_annotated_peaks la) k).
    + tauto.
    + split; [intros H; now apply all_false_not_true in H | intros [_ H]; discriminate H].
  - intros [= <-]. split; [eauto |]. intros k. simpl.
    change (active (set_alleles la (all_false (alleles la)))) with (active la).
    rewrite Ha. split; [intros H; now apply all_false_not_true in H |].
    intros [H _]. discriminate H.
Qed.

Lemma set_alleles_touched project db la al :
  in_project project db la = true -> touched project db la (set_alleles la al).
Proof.
  intros Hp. unfold touched. simpl. repeat split; try reflexivity.
  - apply Forall2_refl_gen, same_but_probability_refl.
  - intros Hf. rewrite Hp in Hf. discriminate Hf.
Qed.

Lemma for_rows_prefix {A S : Type} (selected : A -> bool)
      (body : S -> A -> result (S * A)) (Inv : list A -> S -> Prop) :
  (forall pre x s, Inv pre s -> selected x = false -> Inv (pre ++ [x]) s) ->
  (forall pre x s s' x',
      Inv pre s -> selected x = true -> body s x = Ok (s', x') ->
      Inv (pre ++ [x]) s') ->
  forall table pre s s' table',
    Inv pre s -> for_rows selected body s table = Ok (s', table') ->
    Inv (pre ++ table) s'.
Proof.
  intros Hskip Hbody. induction table as [| x rest IH]; intros pre s s' table' Hi H;
    simpl in H.
  - injection H as <- _. now rewrite app_nil_r.
  - unfold mbind, result_bind in H.
    replace (pre ++ x :: rest) with ((pre ++ [x]) ++ rest)
      by (rewrite <- app_assoc; reflexivity).
    destruct (selected x) eqn:Hsel.
    + destruct (body s x) as [[s1 x'] |] eqn:Hb; simpl in H; [| discriminate H].
      destruct (for_rows selected body s1 rest) as [[s2 rest'] |] eqn:Hr; simpl in H;
        [| discriminate H].
      injection H as <- _. eapply IH; [| exact Hr]. eapply Hbody; eassumption.
    + simpl in H.
      destruct (for_rows selected body s rest) as [[s2 rest'] |] eqn:Hr; simpl in H;
        [| discriminate H].
      injection H as <- _. eapply IH; [| exact Hr]. now apply Hskip.
Qed.

Lemma Forall2_In_l {A B : Type} (R : A -> B -> Prop) l l' x :
  Forall2 R l l' -> In x l -> exists y, In y l' /\ R x y.
Proof.
  induction 1 as [| x0 y l l' HR HF IH]; intros Hin; [destruct Hin |].
  destruct Hin as [<- | Hin].
  - exists y. split; [now left | exact HR].
  - destruct (IH Hin) as [y0 [Hy0 HR0]]. exists y0. split; [now right | exact HR0].
Qed.

(** The rows of a sample, finalized. *)
Lemma finalize_sample project initial sa table (u : unit) table' :
  for_rows (of_sample project initial sa)
           (fun (_ : unit) la =>
              la' ← finalize_alleles (probability_threshold project) la; Ok (tt, la'))
           tt table = Ok (u, table') ->
  Forall2 (fun la la' =>
             if of_sample project initial sa la
             then touched project initial la la' /\
                  finalized (probability_threshold project) la'
             else la' = la) table table'.
Proof.
  intros H. apply GenotypingFacts.for_rows_Forall2 in H.
  eapply Forall2_impl; [exact H |]. intros la la' Hrel. simpl in Hrel.
  destruct (of_sample project initial sa la) eqn:Hsel; [| exact Hrel].
  destruct Hrel as [s1 [s2 Hb]]. unfold mbind, result_bind in Hb.
  destruct (finalize_alleles (probability_threshold project) la) as [la1 |] eqn:Hf;
    simpl in Hb; [| discriminate Hb].
  injection Hb as _ <-. apply finalize_alleles_finalized in Hf.
  destruct Hf as [[al ->] Hfin]. split; [| exact Hfin].
  apply set_alleles_touched. now apply ProbabilityFacts.of_sample_in_project in Hsel.
Qed.

(** The last loop: the rows are touched only, and every row of the project
    whose sample annotation the loop visits ends finalized. *)
Lemma finalize_keeps project initial db db' :
  finalize project initial db = Ok db' ->
  channel_annotations_table db' = channel_annotations_table db /\
  sample_annotations_table db' = sample_annotations_table db /\
  Forall2 (touched project initial)
          (locus_annotations_table db) (locus_annotations_table db') /\
  forall la',
    In la' (locus_annotations_table db') ->
    in_project project initial la' = true ->
    (exists sa, In sa (sample_annotations_table db) /\
                sa_project_id sa = project_id project /\
                sa_id sa = sample_annotations_id la') ->
    finalized (probability_threshold project) la'.
Proof.
  unfold finalize, mbind, result_bind.
  match goal with
  | |- context [for_rows ?sel ?body ?s0 ?t0] =>
      destruct (for_rows sel body s0 t0) as [[table samples] |] eqn:Hr; simpl;
        [| discriminate];
      pose proof (for_rows_prefix sel body
        (fun pre cur =>
           Forall2 (touched project initial) (locus_annotations_table db) cur /\
           forall la',
             In la' cur -> in_project project initial la' = true ->
             (exists sa, In sa pre /\ sa_project_id sa = project_id project /\
                         sa_id sa = sample_annotations_id la') ->
             finalized (probability_threshold project) la')) as Hpre
  end.
  intros [= <-]. simpl. split; [reflexivity |]. split; [reflexivity |].
  apply (Hpre) with (pre := []) in Hr.
  - exact Hr.
  - intros pre x t [HF Hfin] Hsel. split; [exact HF |].
    intros la' Hin Hp [sa [Hsa [Hpr Hid]]]. apply (Hfin la' Hin Hp).
    apply in_app_or in Hsa. destruct Hsa as [Hsa | [<- | []]]; [eauto |].
    apply bool_decide_eq_false in Hsel. contradiction.
  - intros pre sa t t' sa' [HF Hfin] Hsel Hb. unfold mbind, result_bind in Hb.
    match type of Hb with
    | context [for_rows ?sel ?body tt ?t0] =>
        destruct (for_rows sel body tt t0) as [[u t1] |] eqn:Hin; simpl in Hb;
          [| discriminate Hb]
    end.
    injection Hb as <- _. apply finalize_sample in Hin. split.
    + eapply Forall2_trans_gen; [apply touched_trans | exact HF |].
      eapply Forall2_impl; [exact Hin |]. intros la la' Hrel. simpl in Hrel.
      destruct (of_sample project initial sa la); [apply Hrel |].
      subst la'. apply touched_refl.
    + intros la' Hla' Hp [sa0 [Hsa0 [Hpr Hid]]].
      destruct (GenotypingFacts.Forall2_In_r _ _ _ _ Hin Hla') as [la [Hla Hrel]].
      destruct (of_sample project initial sa la) eqn:Hof; [apply Hrel |].
      subst la'. apply (Hfin la Hla Hp).
      apply in_app_or in Hsa0. destruct Hsa0 as [Hsa0 | [<- | []]]; [eauto |].
      exfalso. unfold of_sample in Hof. rewrite Hp in Hof. simpl in Hof.
      apply bool_decide_eq_false in Hof. congruence.
  - split; [apply Forall2_refl_gen, touched_refl |].
    intros la' _ _ [sa [[] _]].
Qed.

(** The tables after [probabilistic_peak_annotation], against the tables
    before. *)
Lemma probabilistic_peak_annotation_inv project db fuel db' cycles :
  probabilistic_peak_annotation fuel project db = Some (Ok (db', cycles)) ->
  channel_annotations_table db' = channel_annotations_table db /\
  Forall2 same_but_moi (sample_annotations_table db) (sample_annotations_table db') /\
  Forall2 (touched project db)
          (locus_annotations_table db) (locus_annotations_table db') /\
  forall la',
    In la' (locus_annotations_table db') ->
    in_project project db la' = true ->
    finalized (probability_threshold project) la'.
Proof.
  unfold probabilistic_peak_annotation.
  match goal with
  | |- context [for_rows ?sel ?body tt ?t] =>
      destruct (for_rows sel body tt t) as [[u table0] |] eqn:Hi; [| discriminate]
  end.
  apply initialize_touched in Hi.
  match goal with
  | |- context [cycles_loop fuel project db ?db0 0] =>
      destruct (cycles_loop fuel project db db0 0) as [[[db1 n] |] |] eqn:Hc;
        [| discriminate | discriminate]
  end.
  destruct (finalize project db db1) as [db2 |] eqn:Hf; [| discriminate].
  intros [= <- <-].
  apply cycles_loop_keeps in Hc. simpl in Hc. destruct Hc as [Hch [Hsa Hla]].
  apply finalize_keeps in Hf. destruct Hf as [Hch' [Hsa' [Hla' Hfin]]].
  split; [congruence |]. split; [now rewrite Hsa' |]. split.
  - eapply Forall2_trans_gen; [apply touched_trans | exact Hi |].
    eapply Forall2_trans_gen; [apply touched_trans | exact Hla | exact Hla'].
  - intros la' Hin Hp. apply (Hfin la' Hin Hp).
    unfold in_project in Hp.
    destruct (sample_annotation_of db la') as [sa |] eqn:Hsa0; [| discriminate Hp].
    apply bool_decide_eq_true in Hp. unfold sample_annotation_of in Hsa0.
    apply find_some in Hsa0. destruct Hsa0 as [Hsain Hid].
    apply bool_decide_eq_true in Hid.
    destruct (Forall2_In_l _ _ _ _ Hsa Hsain) as [sa1 [Hsa1 Hrel]].
    exists sa1. split; [exact Hsa1 |].
    destruct Hrel as [-> | [m ->]]; simpl; auto.
Qed.

(** [probabilistic_peak_annotation] changes nothing but the probabilities
    of the peaks and the alleles of the locus annotations of its project,
    and the [moi] of sample annotations: the channel annotations are as
    before, every locus annotation keeps its ids, its flags, its reference
    run and its peaks in their order, and the locus annotations of other
    projects are untouched. *)
Theorem probabilistic_peak_annotation_frame
        (project : genotyping_project) (db db' : database) (fuel cycles : nat) :
  probabilistic_peak_annotation fuel project db = Some (Ok (db', cycles)) ->
  channel_annotations_table db' = channel_annotations_table db /\
  Forall2 same_but_moi (sample_annotations_table db) (sample_annotations_table db') /\
  Forall2 (touched project db)
          (locus_annotations_table db) (locus_annotations_table db').
Proof.
  intros H. apply probabilistic_peak_annotation_inv in H. tauto.
Qed.

(** The alleles [probabilistic_peak_annotation] ends with: in every locus
    annotation of the project, an allele is true exactly when the
    annotation has peaks, has not failed, and one of its peaks of that bin
    id has a probability at or above the threshold of the project. *)
Theorem probabilistic_peak_annotation_alleles
        (project : genotyping_project) (db db' : database) (fuel cycles : nat)
        (la' : sample_locus_annotation) :
  probabilistic_peak_annotation fuel project db = Some (Ok (db', cycles)) ->
  In la' (locus_annotations_table db') ->
  in_project project db la' = true ->
  finalized (probability_threshold project) la'.
Proof.
  intros H. apply probabilistic_peak_annotation_inv in H. apply H.
Qed.

Section Rounding.

Context {rounding : monotone_rounding fa}.

(** [**] is monotone on bases that are not negative. *)
Lemma float_pow_nonneg_eq (x : Q) (n : nat) :
  (0 <= x)%Q ->
  float_pow x (S n) =
  if Qeq_bool x 0 then Ok 0%Q
  else if Qeq_bool x 1 then Ok 1%Q
       else match libm_pow x (S n) with
            | Some ix => Ok ix
            | None => Raise OverflowError
            end.
Proof.
  intros Hx. unfold float_pow.
  assert (Habs : Qabs x = x).
  { destruct x as [zn zd]. unfold Qle in Hx. simpl in Hx. unfold Qabs.
    f_equal. apply Z.abs_eq. lia. }
  assert (Hneg : Qltb x 0 = false).
  { destruct (Qltb x 0) eqn:E; [| reflexivity].
    apply Qltb_lt in E. exfalso. exact (Qlt_not_le _ _ E Hx). }
  rewrite Habs, Hneg. cbn [andb].
  destruct (Qeq_bool x 0); [reflexivity |].
  destruct (Qeq_bool x 1); [reflexivity |].
  now destruct (libm_pow x (S n)).
Qed.

Lemma float_pow_monotone (x y : Q) (n : nat) (a b : Q) :
  (0 <= x)%Q -> (x <= y)%Q ->
  float_pow x n = Ok a -> float_pow y n = Ok b ->
  (0 <= a)%Q /\ (a <= b)%Q.
Proof.
  intros Hx Hxy. destruct n as [| n'].
  - intros [= <-] [= <-]. split; [discriminate | apply Qle_refl].
  - assert (Hy : (0 <= y)%Q) by (eapply Qle_trans; eassumption).
    rewrite (float_pow_nonneg_eq x n' Hx), (float_pow_nonneg_eq y n' Hy).
    assert (Hpos : forall z, (0 <= z)%Q -> Qeq_bool z 0 = false -> (0 < z)%Q).
    { intros z Hz E. apply Qeq_bool_neq in E. apply Qlt_leneq.
      split; [exact Hz |]. intros H. apply E. now symmetry. }
    intros Ha Hb.
    destruct (Qeq_bool x 0) eqn:Ex0.
    + injection Ha as <-. split; [apply Qle_refl |].
      destruct (Qeq_bool y 0) eqn:Ey0; [injection Hb as <-; apply Qle_refl |].
      destruct (Qeq_bool y 1) eqn:Ey1; [injection Hb as <-; discriminate |].
      destruct (libm_pow y (S n')) as [iy |] eqn:Hpy; [| discriminate].
      injection Hb as <-. eapply libm_pow_nonneg; [| exact Hpy]. now apply Hpos.
    + pose proof (Hpos x Hx Ex0) as Hx0.
      assert (Hy0 : (0 < y)%Q) by (eapply Qlt_le_trans; eassumption).
      destruct (Qeq_bool y 0) eqn:Ey0.
      { apply Qeq_bool_iff in Ey0. exfalso. rewrite Ey0 in Hy0.
        exact (Qlt_irrefl _ Hy0). }
      destruct (Qeq_bool x 1) eqn:Ex1.
      * apply Qeq_bool_iff in Ex1. injection Ha as <-. split; [discriminate |].
        destruct (Qeq_bool y 1) eqn:Ey1; [injection Hb as <-; apply Qle_refl |].
        destruct (libm_pow y (S n')) as [iy |] eqn:Hpy; [| discriminate].
        injection Hb as <-. eapply libm_pow_above_one; [| exact Hpy].
        now rewrite <- Ex1.
      * destruct (libm_pow x (S n')) as [ix |] eqn:Hpx; [| discriminate].
        injection Ha as <-. split; [exact (libm_pow_nonneg _ _ _ Hx0 Hpx) |].
        destruct (Qeq_bool y 1) eqn:Ey1.
        -- apply Qeq_bool_iff in Ey1. injection Hb as <-.
           eapply libm_pow_below_one; [exact Hx0 | | exact Hpx]. now rewrite <- Ey1.
        -- destruct (libm_pow y (S n')) as [iy |] eqn:Hpy; [| discriminate].
           injection Hb as <-. exact (libm_pow_monotone _ _ _ _ _ Hx0 Hxy Hpx Hpy).
Qed.

(** The formula gives a number between 0 and 1 on non-negative weights. *)
Lemma probability_formula_bound (this others : Q) (m : nat) (q : Q) :
  (0 <= this)%Q -> (0 <= others)%Q ->
  probability_formula this others m = Ok q ->
  (0 <= q <= 1)%Q.
Proof.
  intros Ht Ho. unfold probability_formula, mbind, result_bind.
  destruct (float_pow (float_add others this) m) as [T |] eqn:HT; simpl;
    [| discriminate].
  destruct (float_pow others m) as [O |] eqn:HO; simpl; [| discriminate].
  unfold true_div. destruct (Qeq_bool T 0) eqn:E; [discriminate |].
  intros [= <-].
  destruct (float_pow_monotone others (float_add others this) m O T Ho
              (float_add_increasing _ _ Ho Ht) HO HT) as [HO0 HOT].
  assert (HT0 : (0 < T)%Q).
  { apply Qeq_bool_neq in E. apply Qlt_leneq. split.
    - eapply Qle_trans; eassumption.
    - intros H. apply E. now symmetry. }
  destruct (float_sub_range T O HO0 HOT) as [Hs0 HsT]. split.
  - apply float_div_nonneg; [exact Hs0 | now apply Qlt_le_weak].
  - now apply float_div_unit.
Qed.

Lemma py_sum_nonneg (l : list Q) :
  Forall (fun q => (0 <= q)%Q) l -> (0 <= py_sum l)%Q.
Proof.
  unfold py_sum. assert (H : forall acc, (0 <= acc)%Q ->
                                         Forall (fun q => (0 <= q)%Q) l ->
                                         (0 <= fold_left float_add l acc)%Q).
  { induction l as [| q l IH]; intros acc Hacc Hl; [exact Hacc |].
    apply Forall_cons_1 in Hl. destruct Hl as [Hq Hl]. simpl. apply IH; [| exact Hl].
    now apply float_add_nonneg. }
  apply H. apply Qle_refl.
Qed.

Lemma inject_nat_nonneg (n : nat) : (0 <= inject_Z (Z.of_nat n))%Q.
Proof. unfold Qle. simpl. lia. Qed.

Lemma allele_frequencies_nonneg t locus bin f :
  default ∅ (allele_frequencies t !! locus) !! bin = Some f -> (0 <= f)%Q.
Proof.
  unfold allele_frequencies. rewrite map_lookup_imap.
  destruct (allele_counts t !! locus) as [of_locus |]; simpl;
    [| rewrite lookup_empty; discriminate].
  rewrite lookup_fmap. destruct (of_locus !! bin) as [c |]; simpl; [| discriminate].
  intros [= <-]. apply float_div_nonneg; apply inject_nat_nonneg.
Qed.

Section Bounds.

Variable frequencies : gmap Z (gmap (option Z) Q).
Variable locus : Z.
Hypothesis Hfreq :
  forall bin f, default ∅ (frequencies !! locus) !! bin = Some f -> (0 <= f)%Q.

Lemma weighted_frequency_nonneg x w :
  unit_probability x ->
  weighted_frequency frequencies locus x = Ok w -> (0 <= w)%Q.
Proof.
  intros [q [Hq [Hq0 _]]]. unfold weighted_frequency, get_probability.
  destruct (default ∅ (frequencies !! locus) !! bin_id x) as [f |] eqn:Hf;
    [| discriminate].
  rewrite Hq. simpl. intros [= <-]. apply float_mul_nonneg; [| exact Hq0].
  eapply Hfreq. exact Hf.
Qed.

Lemma weighted_frequencies_nonneg l : forall ws,
  (forall j x, In (j, x) l -> unit_probability x) ->
  weighted_frequencies frequencies locus l = Ok ws ->
  Forall (fun w => (0 <= w)%Q) ws.
Proof.
  induction l as [| [j x] l IH]; intros ws Hl H; simpl in H.
  - injection H as <-. constructor.
  - unfold mbind, result_bind in H.
    destruct (weighted_frequency frequencies locus x) as [w |] eqn:Hw; simpl in H;
      [| discriminate H].
    destruct (weighted_frequencies frequencies locus l) as [ws' |] eqn:Hws; simpl in H;
      [| discriminate H].
    injection H as <-. constructor.
    + eapply weighted_frequency_nonneg; [| exact Hw]. apply (Hl j). now left.
    + apply IH; [| reflexivity]. intros j' y Hy. apply (Hl j'). now right.
Qed.

Lemma new_probability_bound m all_peaks x q :
  unit_probability x ->
  (forall j y, In (j, y) all_peaks -> unit_probability y) ->
  new_probability frequencies locus m all_peaks x = Ok q ->
  (0 <= q <= 1)%Q.
Proof.
  intros Hx Hall. unfold new_probability, mbind, result_bind.
  destruct (weighted_frequency frequencies locus x) as [this |] eqn:Ht; simpl;
    [| discriminate].
  destruct (weighted_frequencies frequencies locus (other_peaks all_peaks x))
    as [ws |] eqn:Hws; simpl; [| discriminate].
  apply probability_formula_bound.
  - eapply weighted_frequency_nonneg; eassumption.
  - apply py_sum_nonneg. eapply weighted_frequencies_nonneg; [| exact Hws].
    intros j y Hy. apply filter_In in Hy. apply (Hall j). apply Hy.
Qed.

Lemma compute_new_probs_bound m all_peaks possible : forall acc new_probs,
  (forall j y, In (j, y) all_peaks -> unit_probability y) ->
  (forall j y, In (j, y) possible -> In (j, y) all_peaks) ->
  (forall k q, acc !! k = Some q -> (0 <= q <= 1)%Q) ->
  compute_new_probs frequencies locus m all_peaks possible acc = Ok new_probs ->
  forall k q, new_probs !! k = Some q -> (0 <= q <= 1)%Q.
Proof.
  induction possible as [| [j x] possible IH]; intros acc new_probs Hall Hsub Hacc H;
    simpl in H.
  - now injection H as <-.
  - unfold mbind, result_bind in H.
    destruct (new_probability frequencies locus m all_peaks x) as [q0 |] eqn:Hq;
      simpl in H; [| discriminate H].
    eapply IH; [exact Hall | | | exact H].
    + intros j' y Hy. apply Hsub. now right.
    + intros k q Hk. destruct (decide (k = peak_index x)) as [-> | Hne].
      * rewrite lookup_insert_eq in Hk. injection Hk as <-.
        eapply new_probability_bound; [| exact Hall | exact Hq].
        apply (Hall j). apply Hsub. now left.
      * rewrite lookup_insert_ne in Hk by congruence. eapply Hacc. exact Hk.
Qed.

End Bounds.

Lemma assign_new_probs_bound threshold new_probs possible :
  forall acc changed changed' peaks',
    (forall k q, new_probs !! k = Some q -> (0 <= q <= 1)%Q) ->
    Forall unit_probability acc ->
    assign_new_probs threshold new_probs possible acc changed = Ok (changed', peaks') ->
    Forall unit_probability peaks'.
Proof.
  induction possible as [| [i x] possible IH];
    intros acc changed changed' peaks' Hnp Hacc H; simpl in H.
  - now injection H as _ <-.
  - destruct (new_probs !! peak_index x) as [q |] eqn:Hq; [| discriminate H].
    eapply IH; [exact Hnp | | exact H].
    apply Forall_insert; [exact Hacc |]. exists q. split; [reflexivity |].
    eapply Hnp. exact Hq.
Qed.

Lemma touched_active project db la la' :
  touched project db la la' -> active la' = active la.
Proof.
  intros [_ [_ [_ [_ [Hf [Hp _]]]]]]. unfold active. rewrite Hf.
  apply Forall2_length in Hp.
  destruct (la_annotated_peaks la), (la_annotated_peaks la'); try discriminate Hp;
    reflexivity.
Qed.

Lemma annotate_locus_bound project frequencies m changed la changed' la' :
  (forall bin f, default ∅ (frequencies !! la_locus_id la) !! bin = Some f ->
                 (0 <= f)%Q) ->
  Forall unit_probability (la_annotated_peaks la) ->
  annotate_locus project frequencies m changed la = Ok (changed', la') ->
  Forall unit_probability (la_annotated_peaks la').
Proof.
  intros Hfreq Hunit H. unfold annotate_locus, mbind, result_bind in H.
  destruct (all_peaks_from (probability_threshold project) 0 (la_annotated_peaks la))
    as [all |] eqn:Hall; simpl in H; [| discriminate H].
  apply all_peaks_from_inv in Hall. subst all.
  match type of H with
  | context [compute_new_probs ?f ?l ?mm ?a ?p ?n] =>
      destruct (compute_new_probs f l mm a p n) as [new_probs |] eqn:Hc; simpl in H;
        [| discriminate H]
  end.
  match type of H with
  | context [assign_new_probs ?t ?n ?p ?a ?c] =>
      destruct (assign_new_probs t n p a c) as [[c1 peaks1] |] eqn:Ha; simpl in H;
        [| discriminate H]
  end.
  injection H as _ <-. simpl.
  eapply assign_new_probs_bound; [| exact Hunit | exact Ha].
  eapply (compute_new_probs_bound frequencies (la_locus_id la) Hfreq); [| | | exact Hc].
  - intros j y Hy. apply ProbabilityFacts.indexed_called_lookup in Hy.
    destruct Hy as [_ [Hy _]]. rewrite Forall_forall in Hunit. apply Hunit.
    eapply list_elem_of_lookup_2. exact Hy.
  - intros j y Hy. apply filter_In in Hy. apply Hy.
  - intros k q Hk. rewrite lookup_empty in Hk. discriminate Hk.
Qed.

Lemma for_rows_pred {A S : Type} (P : A -> Prop) (selected : A -> bool)
      (body : S -> A -> result (S * A)) :
  (forall s x s' x', selected x = true -> body s x = Ok (s', x') -> P x -> P x') ->
  forall table s s' table',
    for_rows selected body s table = Ok (s', table') ->
    Forall P table -> Forall P table'.
Proof.
  intros Hbody table s s' table' H. apply GenotypingFacts.for_rows_Forall2 in H.
  induction H as [| x x' l l' Hx _ IH]; intros HP; [constructor |].
  apply Forall_cons_1 in HP. destruct HP as [HPx HPl].
  constructor; [| now apply IH].
  destruct (selected x) eqn:Hsel; [| now subst x'].
  destruct Hx as [s1 [s2 Hb]]. eapply Hbody; eassumption.
Qed.

Lemma annotate_sample_bound project db frequencies s sa s' sa' :
  (forall locus bin f, default ∅ (frequencies !! locus) !! bin = Some f -> (0 <= f)%Q) ->
  annotate_sample project db frequencies s sa = Ok (s', sa') ->
  Forall (unit_probabilities project db) (snd s) ->
  Forall (unit_probabilities project db) (snd s').
Proof.
  intros Hfreq. destruct s as [changed table].
  unfold annotate_sample, mbind, result_bind.
  destruct (sample_moi (probability_threshold project) (of_sample project db sa) 0 table)
    as [m |]; simpl; [| discriminate].
  match goal with
  | |- context [for_rows ?sel ?body ?c ?t0] =>
      destruct (for_rows sel body c t0) as [[c1 table1] |] eqn:Hr; simpl;
        [| discriminate]
  end.
  intros [= <- <-]. simpl. eapply for_rows_pred; [| exact Hr].
  intros c x c' x' Hsel Hb HP.
  apply ProbabilityFacts.of_sample_in_project in Hsel.
  cbv beta in Hb.
  destruct (active x) as [[|] |] eqn:Hact; simpl in Hb; [| | discriminate Hb].
  - intros _ _. eapply annotate_locus_bound; [apply Hfreq | | exact Hb].
    now apply HP.
  - now injection Hb as _ <-.
Qed.

Lemma cycle_bound project initial db db' changed :
  cycle project initial db = Ok (db', changed) ->
  Forall (unit_probabilities project initial) (locus_annotations_table db) ->
  Forall (unit_probabilities project initial) (locus_annotations_table db').
Proof.
  unfold cycle, mbind, result_bind.
  match goal with
  | |- context [count_alleles ?t ?s ?a ?l] =>
      destruct (count_alleles t s a l) as [tl |]; simpl; [| discriminate]
  end.
  match goal with
  | |- context [for_rows ?sel ?body ?s0 ?t0] =>
      destruct (for_rows sel body s0 t0) as [[[c1 table1] samples] |] eqn:Hr; simpl;
        [| discriminate]
  end.
  intros [= <- <-]. simpl.
  refine (for_rows_state
            (fun s s' : bool * list sample_locus_annotation =>
               Forall (unit_probabilities project initial) (snd s) ->
               Forall (unit_probabilities project initial) (snd s'))
            _ _ _ _ _ _ _ _ _ Hr).
  - auto.
  - auto.
  - intros s x s' x' _ Hb. eapply annotate_sample_bound; [| exact Hb].
    intros locus bin f. apply allele_frequencies_nonneg.
Qed.

Lemma cycles_loop_bound project initial : forall fuel db cycles db' n,
  cycles_loop fuel project initial db cycles = Some (Ok (db', n)) ->
  Forall (unit_probabilities project initial) (locus_annotations_table db) ->
  Forall (unit_probabilities project initial) (locus_annotations_table db').
Proof.
  induction fuel as [| fuel IH]; intros db cycles db' n H HP; [discriminate H |].
  simpl in H. destruct (cycle project initial db) as [[db1 changed] | e] eqn:Hc;
    [| discriminate H].
  pose proof (cycle_bound _ _ _ _ _ Hc HP) as HP1. destruct changed.
  - eapply IH; eassumption.
  - now injection H as <- _.
Qed.

Lemma initial_probability_unit x :
  unit_probability (set_probability x (initial_probability x)).
Proof.
  exists (initial_probability x). split; [reflexivity |]. unfold initial_probability.
  destruct (in_bin_unflagged x); split; discriminate.
Qed.

Lemma initialize_bound project db (u : unit) table0 :
  for_rows (in_project project db)
           (fun (_ : unit) la => la' ← initialize_probabilities la; Ok (tt, la'))
           tt (locus_annotations_table db) = Ok (u, table0) ->
  Forall (unit_probabilities project db) table0.
Proof.
  intros H. apply GenotypingFacts.for_rows_Forall2 in H.
  induction H as [| la la' l l' Hrel _ IH]; constructor; [| exact IH].
  destruct (in_project project db la) eqn:Hp.
  - destruct Hrel as [s1 [s2 Hb]]. unfold mbind, result_bind in Hb.
    destruct (initialize_probabilities la) as [la1 |] eqn:Hi; simpl in Hb;
      [| discriminate Hb].
    injection Hb as _ <-. unfold initialize_probabilities, mbind, result_bind in Hi.
    destruct (active la) as [[|] |] eqn:Ha; simpl in Hi; [| | discriminate Hi];
      injection Hi as <-.
    + intros _ _. simpl. apply Forall_forall. intros x Hx.
      apply list_elem_of_In, in_map_iff in Hx. destruct Hx as [y [<- _]].
      apply initial_probability_unit.
    + intros _ Hact. rewrite Ha in Hact. discriminate Hact.
  - subst la'. intros Hp'. rewrite Hp in Hp'. discriminate Hp'.
Qed.

Lemma finalize_bound project initial db db' :
  finalize project initial db = Ok db' ->
  Forall (unit_probabilities project initial) (locus_annotations_table db) ->
  Forall (unit_probabilities project initial) (locus_annotations_table db').
Proof.
  unfold finalize, mbind, result_bind.
  match goal with
  | |- context [for_rows ?sel ?body ?s0 ?t0] =>
      destruct (for_rows sel body s0 t0) as [[table samples] |] eqn:Hr; simpl;
        [| discriminate]
  end.
  intros [= <-]. simpl.
  refine (for_rows_state
            (fun s s' : list sample_locus_annotation =>
               Forall (unit_probabilities project initial) s ->
               Forall (unit_probabilities project initial) s')
            _ _ _ _ _ _ _ _ _ Hr).
  - auto.
  - auto.
  - intros t0 sa t1 sa' _ Hb. unfold mbind, result_bind in Hb.
    match type of Hb with
    | context [for_rows ?sel ?body tt ?tb] =>
        destruct (for_rows sel body tt tb) as [[u t2] |] eqn:Hin; simpl in Hb;
          [| discriminate Hb]
    end.
    injection Hb as <- _. eapply for_rows_pred; [| exact Hin].
    intros s x s' x' _ Hx HP. unfold mbind, result_bind in Hx.
    destruct (finalize_alleles (probability_threshold project) x) as [x1 |] eqn:Hf;
      simpl in Hx; [| discriminate Hx].
    injection Hx as _ <-. apply finalize_alleles_finalized in Hf.
    destruct Hf as [[al ->] _]. exact HP.
Qed.

(** Every probability that [probabilistic_peak_annotation] leaves is a
    probability, whatever the rounding of the floats, as long as it is
    monotone: when the call returns, each peak of each live locus
    annotation of the project (one with peaks and not failed) has a
    probability between 0 and 1. *)
Theorem probabilistic_peak_annotation_unit
        (project : genotyping_project) (db db' : database) (fuel cycles : nat)
        (la' : sample_locus_annotation) (x : peak) :
  probabilistic_peak_annotation fuel project db = Some (Ok (db', cycles)) ->
  In la' (locus_annotations_table db') ->
  in_project project db la' = true ->
  active la' = Ok true ->
  In x (la_annotated_peaks la') ->
  exists q, probability x = Some q /\ (0 <= q <= 1)%Q.
Proof.
  unfold probabilistic_peak_annotation.
  match goal with
  | |- context [for_rows ?sel ?body tt ?t0] =>
      destruct (for_rows sel body tt t0) as [[u table0] |] eqn:Hi; [| discriminate]
  end.
  apply initialize_bound in Hi.
  match goal with
  | |- context [cycles_loop fuel project db ?db0 0] =>
      destruct (cycles_loop fuel project db db0 0) as [[[db1 n] |] |] eqn:Hc;
        [| discriminate | discriminate]
  end.
  destruct (finalize project db db1) as [db2 |] eqn:Hf; [| discriminate].
  intros [= <- <-] Hin Hp Hact Hx.
  pose proof (cycles_loop_bound _ _ _ _ _ _ _ Hc Hi) as H1.
  pose proof (finalize_bound _ _ _ _ Hf H1) as H2.
  rewrite Forall_forall in H2. apply list_elem_of_In in Hin.
  specialize (H2 la' Hin Hp Hact). rewrite Forall_forall in H2.
  apply H2. now apply list_elem_of_In.
Qed.

End Rounding.

Lemma sample_moi_max threshold selected table : forall m0 m,
  sample_moi threshold selected m0 table = Ok m ->
  (m0 <= m)%nat /\
  (forall la n, In la table -> selected la = true -> active la = Ok true ->
                count_called threshold (la_annotated_peaks la) = Ok n -> (n <= m)%nat) /\
  (m = m0 \/
   exists la, In la table /\ selected la = true /\ active la = Ok true /\
              count_called threshold (la_annotated_peaks la) = Ok m).
Proof.
  induction table as [| la table IH]; intros m0 m H; simpl in H.
  - injection H as <-. split; [lia |]. split; [intros la n [] | now left].
  - unfold mbind, result_bind in H.
    destruct (selected la) eqn:Hsel.
    + destruct (active la) as [[|] |] eqn:Ha; simpl in H; [| | discriminate H].
      * destruct (count_called threshold (la_annotated_peaks la)) as [n0 |] eqn:Hn;
          simpl in H; [| discriminate H].
        destruct (IH _ _ H) as [Hle [Hall Hex]].
        split; [lia |]. split.
        -- intros la' n [<- | Hin] Hs Hact Hc.
           ++ rewrite Hn in Hc. injection Hc as <-. lia.
           ++ eapply Hall; eassumption.
        -- destruct Hex as [-> | [la' [Hin Hla']]].
           ++ destruct (Nat.max_spec m0 n0) as [[_ ->] | [_ ->]].
              ** right. exists la. split; [now left |]. auto.
              ** now left.
           ++ right. exists la'. split; [now right | exact Hla'].
      * destruct (IH _ _ H) as [Hle [Hall Hex]].
        split; [exact Hle |]. split.
        -- intros la' n [<- | Hin] Hs Hact Hc; [congruence |].
           eapply Hall; eassumption.
        -- destruct Hex as [-> | [la' [Hin Hla']]]; [now left |].
           right. exists la'. split; [now right | exact Hla'].
    + simpl in H. destruct (IH _ _ H) as [Hle [Hall Hex]].
      split; [exact Hle |]. split.
      * intros la' n [<- | Hin] Hs Hact Hc; [congruence |].
        eapply Hall; eassumption.
      * destruct Hex as [-> | [la' [Hin Hla']]]; [now left |].
        right. exists la'. split; [now right | exact Hla'].
Qed.

(** The [moi] a cycle gives a sample annotation is the largest number of
    peaks at or above the threshold in one of its live locus annotations
    (those with peaks and not failed), counted before the sample is
    re-annotated; it is 0 when the sample has no such annotation. *)
Theorem annotate_sample_moi
        (project : genotyping_project) (db : database)
        (frequencies : gmap Z (gmap (option Z) Q))
        (changed : bool) (table : list sample_locus_annotation)
        (sa sa' : project_sample_annotations)
        (s' : bool * list sample_locus_annotation) :
  annotate_sample project db frequencies (changed, table) sa = Ok (s', sa') ->
  exists m,
    sa' = set_moi sa m /\
    (forall la n,
        In la table -> of_sample project db sa la = true -> active la = Ok true ->
        count_called (probability_threshold project) (la_annotated_peaks la) = Ok n ->
        (n <= m)%nat) /\
    (m = 0%nat \/
     exists la,
       In la table /\ of_sample project db sa la = true /\ active la = Ok true /\
       count_called (probability_threshold project) (la_annotated_peaks la) = Ok m).
Proof.
  unfold annotate_sample, mbind, result_bind.
  destruct (sample_moi (probability_threshold project) (of_sample project db sa) 0 table)
    as [m |] eqn:Hm; simpl; [| discriminate].
  match goal with
  | |- context [for_rows ?sel ?body ?c ?t0] =>
      destruct (for_rows sel body c t0) as [[c1 table1] |]; simpl; [| discriminate]
  end.
  intros [= <- <-]. exists m. split; [reflexivity |].
  apply sample_moi_max in Hm. tauto.
Qed.

End Arithmetic.

#[local] Existing Instance exact_arithmetic.

Lemma Qpower_nat_succ (a : Q) (m : nat) :
  (a ^ Z.of_nat (S m) == a * a ^ Z.of_nat m)%Q.
Proof.
  replace (Z.of_nat (S m)) with (1 + Z.of_nat m)%Z by lia.
  rewrite Qpower_plus' by lia. now rewrite Qpower_1_r.
Qed.

Lemma Qpower_nat_le (a b : Q) (m : nat) :
  (0 <= a)%Q -> (a <= b)%Q -> (a ^ Z.of_nat m <= b ^ Z.of_nat m)%Q.
Proof.
  intros H0 Hab. induction m as [| m IH]; [apply Qle_refl |].
  rewrite !Qpower_nat_succ. apply Qmult_le_compat_nonneg.
  - split; assumption.
  - split; [now apply Qpower_0_le | exact IH].
Qed.

Lemma Qpower_nat_one (m : nat) : (1 ^ Z.of_nat m == 1)%Q.
Proof. apply Qpower_1. Qed.

(** Arithmetic without rounding is monotone. *)
Lemma exact_rounding : monotone_rounding exact_arithmetic.
Proof.
  split; cbn [float_add float_sub float_mul float_div libm_pow exact_arithmetic].
  - intros x y Hx Hy. rewrite <- (Qplus_0_l 0). now apply Qplus_le_compat.
  - intros x y Hx Hy. rewrite <- (Qplus_0_r x) at 1.
    apply Qplus_le_compat; [apply Qle_refl | exact Hy].
  - intros x y Hx Hy. now apply Qmult_le_0_compat.
  - intros x y Hx Hy. unfold Qdiv. apply Qmult_le_0_compat; [exact Hx |].
    now apply Qinv_le_0_compat.
  - intros x y Hy Hyx. split.
    + apply (proj1 (Qle_minus_iff _ _)) in Hyx. exact Hyx.
    + apply Qle_minus_iff. unfold Qminus.
      setoid_replace (x + - (x + - y))%Q with y using relation Qeq by ring.
      exact Hy.
  - intros x y Hx Hxy Hy. apply Qle_shift_div_r; [exact Hy |].
    now rewrite Qmult_1_l.
  - intros x n a Hx [= <-]. apply Qpower_0_le. now apply Qlt_le_weak.
  - intros x y n a b Hx Hxy [= <-] [= <-]. apply Qpower_nat_le; [| exact Hxy].
    now apply Qlt_le_weak.
  - intros x n a Hx Hx1 [= <-]. rewrite <- (Qpower_nat_one n).
    apply Qpower_nat_le; [now apply Qlt_le_weak | exact Hx1].
  - intros x n a Hx [= <-]. rewrite <- (Qpower_nat_one n) at 1.
    apply Qpower_nat_le; [discriminate | exact Hx].
Qed.

#[local] Existing Instance exact_rounding.

Lemma probabilistic_peak_annotation_terminates_witness :
  exists r,
    probabilistic_peak_annotation 6 example_project example_stutter_database = Some r /\
    forall db' cycles,
      r = Ok (db', cycles) ->
      (1 <= cycles
       <= S (peaks_in_table (locus_annotations_table example_stutter_database)))%nat.
Proof.
  apply (probabilistic_peak_annotation_terminates example_project
           example_stutter_database 6).
  vm_compute. lia.
Defined.

Lemma probabilistic_peak_annotation_frame_witness :
  channel_annotations_table (fst example_annotated)
  = channel_annotations_table example_called_database /\
  Forall2 same_but_moi (sample_annotations_table example_called_database)
          (sample_annotations_table (fst example_annotated)) /\
  Forall2 (touched example_project example_called_database)
          (locus_annotations_table example_called_database)
          (locus_annotations_table (fst example_annotated)).
Proof.
  apply (probabilistic_peak_annotation_frame example_project example_called_database
           (fst example_annotated) 3 (snd example_annotated)).
  reflexivity.
Defined.

Lemma probabilistic_peak_annotation_alleles_witness :
  finalized (probability_threshold example_project)
            (List.hd example_called_annotation
                     (locus_annotations_table (fst example_annotated))).
Proof.
  apply (probabilistic_peak_annotation_alleles example_project example_called_database
           (fst example_annotated) 3 (snd example_annotated)).
  - reflexivity.
  - set (table := locus_annotations_table (fst example_annotated)).
    vm_compute in table. left. reflexivity.
  - vm_compute. reflexivity.
Defined.

Lemma probabilistic_peak_annotation_unit_witness :
  exists q, probability
              (set_probability (example_called_peak 110 200 180 8) (3 # 4)) = Some q /\
            (0 <= q <= 1)%Q.
Proof.
  apply (probabilistic_peak_annotation_unit example_project example_called_database
           (fst example_annotated) 3 (snd example_annotated)
           (List.hd example_called_annotation
                    (locus_annotations_table (fst example_annotated)))).
  - reflexivity.
  - set (table := locus_annotations_table (fst example_annotated)).
    vm_compute in table. left. reflexivity.
  - vm_compute. reflexivity.
  - vm_compute. reflexivity.
  - set (table := locus_annotations_table (fst example_annotated)).
    vm_compute in table. right. left. reflexivity.
Defined.

Lemma annotate_sample_moi_witness :
  exists m,
    set_moi example_sample 2 = set_moi example_sample m /\
    (forall la n,
        In la [example_called_annotation] ->
        of_sample example_project example_called_database example_sample la = true ->
        active la = Ok true ->
        count_called (probability_threshold example_project) (la_annotated_peaks la)
        = Ok n ->
        (n <= m)%nat) /\
    (m = 0%nat \/
     exists la,
       In la [example_called_annotation] /\
       of_sample example_project example_called_database example_sample la = true /\
       active la = Ok true /\
       count_called (probability_threshold example_project) (la_annotated_peaks la)
       = Ok m).
Proof.
  eapply (annotate_sample_moi example_project example_called_database
            example_frequencies false [example_called_annotation] example_sample
           (set_moi example_sample 2)).
  vm_compute. reflexivity.
Defined.

End ProbabilityMore.

(** ** More on the channels *)

Module ChannelsMore.
Import Channels.
Local Open Scope list_scope.

Lemma py_index_In {A : Type} (name : string) (l : list A) (k : Z) (x : A) :
  py_index name l k = Ok x -> In x l.
Proof.
  unfold py_index.
  destruct ((0 <=? (if (k <? 0)%Z then (Z.of_nat (length l) + k)%Z else k))%Z
            && ((if (k <? 0)%Z then (Z.of_nat (length l) + k)%Z else k)
                <? Z.of_nat (length l))%Z); [| discriminate].
  destruct (l !! Z.to_nat (if (k <? 0)%Z then (Z.of_nat (length l) + k)%Z else k))
    as [y |] eqn:E; [| discriminate].
  intros [= <-]. apply list_elem_of_In. eapply list_elem_of_lookup_2. exact E.
Qed.

Lemma py_index_Z {A : Type} (name : string) (l : list A) (k : Z) (x : A) :
  (0 <= k)%Z -> l !! Z.to_nat k = Some x -> py_index name l k = Ok x.
Proof.
  intros Hk H. rewrite <- (Z2Nat.id k) by exact Hk.
  now apply ChannelsFacts.py_index_nat.
Qed.

Lemma py_index_minus_one {A : Type} (name : string) (l : list A) (x : A) :
  last l = Some x -> py_index name l (-1) = Ok x.
Proof.
  intros H. rewrite last_lookup in H. assert (Hlt := lookup_lt_Some _ _ _ H).
  unfold py_index. simpl.
  replace (0 <=? Z.of_nat (length l) + -1)%Z with true
    by (symmetry; apply Z.leb_le; lia).
  replace (Z.of_nat (length l) + -1 <? Z.of_nat (length l))%Z with true
    by (symmetry; apply Z.ltb_lt; lia).
  simpl. replace (Z.to_nat (Z.of_nat (length l) + -1)) with (pred (length l)) by lia.
  now rewrite H.
Qed.

Lemma py_index_past_end {A : Type} (name : string) (l : list A) :
  py_index name l (Z.of_nat (length l)) = Raise (IndexError name).
Proof.
  unfold py_index.
  replace (Z.of_nat (length l) <? 0)%Z with false by (symmetry; apply Z.ltb_ge; lia).
  replace (Z.of_nat (length l) <? Z.of_nat (length l))%Z with false
    by (symmetry; apply Z.ltb_ge; lia).
  now rewrite andb_false_r.
Qed.

Lemma second_loop_keeps (w : well) (l : locus) (data : list Z) :
  forall fuel i current m,
    second_loop fuel w l data i current = Some (Ok m) ->
    (m = current \/ exists d, In d data /\ m = Some d) /\
    forall m0, current = Some m0 -> exists m1, m = Some m1 /\ (m0 <= m1)%Z.
Proof.
  induction fuel as [| fuel IH]; intros i current m H; [discriminate H |].
  simpl in H.
  destruct (py_index "base_sizes" (base_sizes w) i) as [size |]; [| discriminate H].
  destruct (Qltb size (inject_Z (max_base_length l))).
  - destruct (py_index "base_sizes" (base_sizes w) (i + 1)) as [size' |];
      [| discriminate H].
    destruct (Qltb (inject_Z (min_base_length l)) size'); [| now apply IH in H].
    destruct (py_index "data" data (i + 1)) as [d |] eqn:Hd; [| discriminate H].
    apply py_index_In in Hd. apply IH in H. destruct H as [Hm Hmono].
    destruct (above d current) eqn:Ha.
    + split; [right; destruct Hm as [-> | Hm]; eauto |].
      intros m0 ->. simpl in Ha. apply Z.ltb_lt in Ha.
      destruct (Hmono d eq_refl) as [m1 [-> Hle]]. exists m1. split; [reflexivity | lia].
    + split; assumption.
  - injection H as <-. split; [now left |]. intros m0 ->. exists m0. split; [reflexivity | lia].
Qed.

(** What [find_max_data_point] never does: when it returns, the locus, the
    data and the base sizes of the channel are as before, the ladder peaks
    are the same indices (sorted, when the channel has a locus), and
    [max_data_point] has not decreased; when it changed, it is one of the
    data points. *)
Theorem find_max_data_point_keeps (fuel : nat) (c c' : channel) :
  find_max_data_point fuel c = Some (Ok c') ->
  channel_locus c' = channel_locus c /\
  data c' = data c /\
  base_sizes (channel_well c') = base_sizes (channel_well c) /\
  Permutation (ladder_peak_indices (channel_well c'))
              (ladder_peak_indices (channel_well c)) /\
  (channel_locus c <> None -> Sorted Z.le (ladder_peak_indices (channel_well c'))) /\
  (max_data_point c' = max_data_point c \/
   exists d, In d (data c) /\ max_data_point c' = Some d) /\
  forall m0, max_data_point c = Some m0 ->
             exists m1, max_data_point c' = Some m1 /\ (m0 <= m1)%Z.
Proof.
  intros H.
  assert (Hsame : c' = c ->
                  channel_locus c = None \/ ladder_peak_indices (channel_well c) = [] ->
                  channel_locus c' = channel_locus c /\
                  data c' = data c /\
                  base_sizes (channel_well c') = base_sizes (channel_well c) /\
                  Permutation (ladder_peak_indices (channel_well c'))
                              (ladder_peak_indices (channel_well c)) /\
                  (channel_locus c <> None ->
                   Sorted Z.le (ladder_peak_indices (channel_well c'))) /\
                  (max_data_point c' = max_data_point c \/
                   exists d, In d (data c) /\ max_data_point c' = Some d) /\
                  forall m0, max_data_point c = Some m0 ->
                             exists m1, max_data_point c' = Some m1 /\ (m0 <= m1)%Z).
  { intros -> Hcase. repeat split; try reflexivity.
    - intros Hl. destruct Hcase as [Hc | Hc]; [contradiction |]. rewrite Hc. constructor.
    - now left.
    - intros m0 ->. exists m0. split; [reflexivity | lia]. }
  destruct (channel_locus c) as [l |] eqn:Hl.
  - destruct (ladder_peak_indices (channel_well c)) as [| k ks] eqn:Hk.
    + unfold find_max_data_point in H. rewrite Hl, Hk in H. injection H as <-.
      apply Hsame; [reflexivity | now right].
    + rewrite (ChannelsFacts.find_max_data_point_unfold fuel c l Hl) in H
        by (rewrite Hk; discriminate).
      rewrite Hk in H.
      destruct (first_loop fuel _ l 0) as [[j |] |]; try discriminate H.
      destruct (py_index "ladder_peak_indices" (sorted (k :: ks)) (j - 1)) as [i |];
        [| discriminate H].
      destruct (second_loop fuel _ l (data c) i (max_data_point c)) as [[m |] |] eqn:Hs;
        try discriminate H.
      injection H as <-. simpl. apply second_loop_keeps in Hs.
      split; [exact Hl |]. split; [reflexivity |]. split; [reflexivity |].
      split; [apply merge_sort_Permutation |].
      split; [intros _; apply Sorted_merge_sort; apply _ |]. exact Hs.
  - unfold find_max_data_point in H. rewrite Hl in H. injection H as <-.
    apply Hsame; [reflexivity | now left].
Qed.

Lemma find_max_data_point_keeps_witness :
  exists c',
    find_max_data_point 10 covered_channel = Some (Ok c') /\
    channel_locus c' = channel_locus covered_channel /\
    data c' = data covered_channel /\
    base_sizes (channel_well c') = base_sizes (channel_well covered_channel) /\
    Permutation (ladder_peak_indices (channel_well c'))
                (ladder_peak_indices (channel_well covered_channel)) /\
    (channel_locus covered_channel <> None ->
     Sorted Z.le (ladder_peak_indices (channel_well c'))) /\
    (max_data_point c' = max_data_point covered_channel \/
     exists d, In d (data covered_channel) /\ max_data_point c' = Some d) /\
    forall m0, max_data_point covered_channel = Some m0 ->
               exists m1, max_data_point c' = Some m1 /\ (m0 <= m1)%Z.
Proof.
  eexists. split; [reflexivity |].
  apply (find_max_data_point_keeps 10 covered_channel). reflexivity.
Defined.

(** The scan starts from the last ladder peak when the first is already in
    range: if the smallest ladder peak has a size that is not below
    [min_base_length], the first loop stops at [j = 0] and
    [ladder_peak_indices[j - 1]] is the largest ladder peak, so
    [find_max_data_point] is the second loop run from there; and when the
    size at that peak is not below [max_base_length] it leaves
    [max_data_point] as it was, whatever the data. *)
Theorem find_max_data_point_wraps
        (fuel : nat) (c : channel) (l : locus) (first last_peak : Z) (size : Q) :
  channel_locus c = Some l ->
  sorted (ladder_peak_indices (channel_well c)) !! 0%nat = Some first ->
  last (sorted (ladder_peak_indices (channel_well c))) = Some last_peak ->
  (0 <= first)%Z ->
  base_sizes (channel_well c) !! Z.to_nat first = Some size ->
  (inject_Z (min_base_length l) <= size)%Q ->
  let w := {| base_sizes := base_sizes (channel_well c);
              ladder_peak_indices := sorted (ladder_peak_indices (channel_well c)) |} in
  find_max_data_point (S fuel) c
  = match second_loop (S fuel) w l (data c) last_peak (max_data_point c) with
    | None => None
    | Some (Raise e) => Some (Raise e)
    | Some (Ok m) => Some (Ok (set_max_data_point c w m))
    end /\
  forall size', (0 <= last_peak)%Z ->
                base_sizes (channel_well c) !! Z.to_nat last_peak = Some size' ->
                (inject_Z (max_base_length l) <= size')%Q ->
                find_max_data_point (S fuel) c
                = Some (Ok (set_max_data_point c w (max_data_point c))).
Proof.
  intros Hl Hfirst Hlast H0 Hsize Hmin w.
  assert (Hne : ladder_peak_indices (channel_well c) <> []).
  { intros He. rewrite He in Hfirst. discriminate Hfirst. }
  assert (Hrun : find_max_data_point (S fuel) c
                 = match second_loop (S fuel) w l (data c) last_peak (max_data_point c) with
                   | None => None
                   | Some (Raise e) => Some (Raise e)
                   | Some (Ok m) => Some (Ok (set_max_data_point c w m))
                   end).
  { rewrite (ChannelsFacts.find_max_data_point_unfold (S fuel) c l Hl Hne).
    fold w. cbn [first_loop]. unfold ladder_size. cbn [ladder_peak_indices base_sizes w].
    rewrite (ChannelsFacts.py_index_nat _ _ 0%nat _ Hfirst).
    unfold mbind, result_bind. simpl rbind.
    rewrite (py_index_Z _ _ _ _ H0 Hsize).
    apply Qltb_ge in Hmin. rewrite Hmin.
    change (0 - 1)%Z with (-1)%Z.
    now rewrite (py_index_minus_one _ _ _ Hlast). }
  split; [exact Hrun |].
  intros size' H0' Hsize' Hmax. rewrite Hrun. cbn [second_loop]. cbn [base_sizes w].
  rewrite (py_index_Z _ _ _ _ H0' Hsize').
  apply Qltb_ge in Hmax. now rewrite Hmax.
Qed.

Lemma find_max_data_point_wraps_witness :
  find_max_data_point 1 wrapped_channel
  = Some (Ok (set_max_data_point wrapped_channel
                {| base_sizes := base_sizes (channel_well wrapped_channel);
                   ladder_peak_indices :=
                     sorted (ladder_peak_indices (channel_well wrapped_channel)) |}
                (max_data_point wrapped_channel))).
Proof.
  apply (proj2 (find_max_data_point_wraps 0 wrapped_channel
                  {| min_base_length := 10; max_base_length := 40 |}
                  1 4 15 eq_refl eq_refl eq_refl ltac:(lia) eq_refl ltac:(discriminate))
               45%Q).
  - lia.
  - reflexivity.
  - discriminate.
Defined.

Lemma first_loop_runs_off (w : well) (l : locus) :
  (forall k, In k (ladder_peak_indices w) ->
             (0 <= k)%Z /\
             exists size, base_sizes w !! Z.to_nat k = Some size /\
                          (size < inject_Z (min_base_length l))%Q) ->
  forall d j fuel,
    (j + d = length (ladder_peak_indices w))%nat -> (d < fuel)%nat ->
    first_loop fuel w l (Z.of_nat j) = Some (Raise (IndexError "ladder_peak_indices")).
Proof.
  intros Hlow. induction d as [| d IH]; intros j fuel Hj Hfuel;
    (destruct fuel as [| fuel]; [lia |]); simpl; unfold ladder_size.
  - replace j with (length (ladder_peak_indices w)) by lia.
    now rewrite py_index_past_end.
  - destruct (lookup_lt_is_Some_2 (ladder_peak_indices w) j ltac:(lia)) as [k Hk].
    rewrite (ChannelsFacts.py_index_nat _ _ _ _ Hk).
    unfold mbind, result_bind. simpl rbind.
    destruct (Hlow k) as [H0 [size [Hsize Hlt]]].
    { apply list_elem_of_In. eapply list_elem_of_lookup_2. exact Hk. }
    rewrite (py_index_Z _ _ _ _ H0 Hsize).
    apply Qltb_lt in Hlt. rewrite Hlt.
    replace (Z.of_nat j + 1)%Z with (Z.of_nat (S j)) by lia.
    apply IH; lia.
Qed.

(** When every ladder peak of the well has a size below [min_base_length],
    the first loop runs past the end of the ladder peaks:
    [find_max_data_point] raises [IndexError]. *)
Theorem find_max_data_point_low_ladder (fuel : nat) (c : channel) (l : locus) :
  channel_locus c = Some l ->
  ladder_peak_indices (channel_well c) <> [] ->
  (forall k, In k (ladder_peak_indices (channel_well c)) ->
             (0 <= k)%Z /\
             exists size, base_sizes (channel_well c) !! Z.to_nat k = Some size /\
                          (size < inject_Z (min_base_length l))%Q) ->
  (length (ladder_peak_indices (channel_well c)) < fuel)%nat ->
  find_max_data_point fuel c = Some (Raise (IndexError "ladder_peak_indices")).
Proof.
  intros Hl Hne Hlow Hfuel.
  rewrite (ChannelsFacts.find_max_data_point_unfold fuel c l Hl Hne).
  assert (Hlen : length (sorted (ladder_peak_indices (channel_well c)))
                 = length (ladder_peak_indices (channel_well c)))
    by (apply Permutation_length, merge_sort_Permutation).
  rewrite (first_loop_runs_off _ l) with (d := length (ladder_peak_indices (channel_well c)))
                                         (j := 0%nat); [reflexivity | | simpl; lia | lia].
  intros k Hk. simpl in Hk |- *. apply Hlow. now apply ChannelsFacts.sorted_In.
Qed.

Lemma find_max_data_point_low_ladder_witness :
  find_max_data_point 3 low_ladder_channel
  = Some (Raise (IndexError "ladder_peak_indices")).
Proof.
  apply (find_max_data_point_low_ladder 3 low_ladder_channel
           {| min_base_length := 50; max_base_length := 100 |}).
  - reflexivity.
  - discriminate.
  - intros k [<- | [<- | []]]; (split; [lia |]); eexists; split;
      reflexivity.
  - simpl. lia.
Defined.

End ChannelsMore.

(** ** The probabilistic annotation raises nothing on analysed tables *)

Module ProbabilityTotal.
Import Genotyping.
Local Open Scope list_scope.

Section Arithmetic.

Context {fa : float_arithmetic}.

Lemma counts_add_total t locus l b : counts (add_total t locus) l b = counts t l b.
Proof. reflexivity. Qed.

Lemma counts_add_count t locus bin l b :
  counts (add_count t locus bin) l b
  = if decide (l = locus /\ b = bin)
    then Some (S (default O (counts t locus bin)))
    else counts t l b.
Proof.
  unfold counts, add_count. simpl.
  destruct (decide (l = locus)) as [-> | Hl].
  - rewrite lookup_insert_eq. simpl.
    destruct (decide (b = bin)) as [-> | Hb].
    + rewrite lookup_insert_eq. now rewrite decide_True by auto.
    + rewrite lookup_insert_ne by congruence.
      now rewrite decide_False by (intros [_ H]; contradiction).
  - rewrite lookup_insert_ne by congruence.
    now rewrite decide_False by (intros [H _]; contradiction).
Qed.

Lemma count_peaks_positive threshold locus peaks : forall t t',
  count_peaks threshold locus t peaks = Ok t' ->
  (forall l b n, counts t l b = Some (S n) -> exists n', counts t' l b = Some (S n')) /\
  (forall x, In x peaks -> counted threshold x = Ok true ->
             exists n, counts t' locus (bin_id x) = Some (S n)).
Proof.
  induction peaks as [| x rest IH]; intros t t' H; simpl in H.
  - injection H as <-. split; [eauto | intros x []].
  - unfold mbind, result_bind in H.
    destruct (counted threshold x) as [c |] eqn:Hc; simpl in H; [| discriminate H].
    destruct (IH _ _ H) as [Hmono Hnew]. split.
    + intros l b n Hn. destruct c; [| eauto].
      assert (Hn' : exists n', counts (add_count t locus (bin_id x)) l b = Some (S n')).
      { rewrite counts_add_count. destruct (decide (l = locus /\ b = bin_id x)); eauto. }
      destruct Hn' as [n' Hn']. eauto.
    + intros y [<- | Hy] Hcy; [| now apply Hnew].
      rewrite Hcy in Hc. injection Hc as <-.
      apply (Hmono locus (bin_id x) (default O (counts t locus (bin_id x)))).
      rewrite counts_add_count. now rewrite decide_True by auto.
Qed.

Lemma workable_probability x : workable x -> probability x <> None.
Proof. intros [H _]. exact H. Qed.

Lemma count_alleles_positive threshold selected table : forall t,
  (forall la, In la table -> selected la = true ->
              (exists b, active la = Ok b) /\
              (active la = Ok true -> Forall workable (la_annotated_peaks la))) ->
  exists t',
    count_alleles threshold selected t table = Ok t' /\
    (forall l b n, counts t l b = Some (S n) -> exists n', counts t' l b = Some (S n')) /\
    (forall la x, In la table -> selected la = true -> active la = Ok true ->
                  In x (la_annotated_peaks la) -> counted threshold x = Ok true ->
                  exists n, counts t' (la_locus_id la) (bin_id x) = Some (S n)).
Proof.
  induction table as [| la table IH]; intros t H.
  - exists t. split; [reflexivity |]. split; [eauto | intros la x []].
  - simpl. unfold mbind, result_bind.
    assert (Hrest : forall la', In la' table -> selected la' = true ->
                                (exists b, active la' = Ok b) /\
                                (active la' = Ok true ->
                                 Forall workable (la_annotated_peaks la')))
      by (intros la' Hin; apply H; now right).
    destruct (selected la) eqn:Hsel.
    + destruct (H la (or_introl eq_refl) Hsel) as [[b Hb] Hw]. rewrite Hb. simpl.
      destruct b.
      * specialize (Hw Hb). rewrite Forall_forall in Hw.
        destruct (ProbabilityFacts.count_peaks_total threshold (la_locus_id la)
                    (la_annotated_peaks la) (add_total t (la_locus_id la)))
          as [t1 Ht1].
        { intros x Hx. apply list_elem_of_In in Hx. specialize (Hw x Hx).
          split; [now apply workable_probability | apply Hw]. }
        rewrite Ht1. simpl.
        destruct (count_peaks_positive _ _ _ _ _ Ht1) as [Hmono1 Hnew1].
        destruct (IH t1 Hrest) as [t' [Ht' [Hmono Hnew]]].
        exists t'. split; [exact Ht' |]. split.
        -- intros l b n Hn. destruct (Hmono1 l b n) as [n1 Hn1]; [exact Hn |]. eauto.
        -- intros la' x [<- | Hin] Hs Ha Hx Hc; [| eapply Hnew; eassumption].
           destruct (Hnew1 x Hx Hc) as [n1 Hn1]. eauto.
      * destruct (IH t Hrest) as [t' [Ht' [Hmono Hnew]]].
        exists t'. split; [exact Ht' |]. split; [exact Hmono |].
        intros la' x [<- | Hin] Hs Ha Hx Hc; [congruence |].
        eapply Hnew; eassumption.
    + simpl. destruct (IH t Hrest) as [t' [Ht' [Hmono Hnew]]].
      exists t'. split; [exact Ht' |]. split; [exact Hmono |].
      intros la' x [<- | Hin] Hs Ha Hx Hc; [congruence |].
      eapply Hnew; eassumption.
Qed.

(** A bin that was counted at a locus has a frequency there. *)
Lemma allele_frequencies_key t l b n :
  counts t l b = Some n ->
  default ∅ (allele_frequencies t !! l) !! b <> None.
Proof.
  intros Hn. unfold counts in Hn.
  destruct (allele_counts t !! l) as [of_locus |] eqn:Hl;
    [| simpl in Hn; rewrite lookup_empty in Hn; discriminate Hn].
  simpl in Hn.
  unfold allele_frequencies. rewrite map_lookup_imap, Hl. simpl.
  rewrite lookup_fmap, Hn. simpl. discriminate.
Qed.

Lemma lowered_refl threshold x : lowered threshold x x.
Proof. now left. Qed.

Lemma lowered_trans threshold x y z :
  lowered threshold x y -> lowered threshold y z -> lowered threshold x z.
Proof.
  intros [-> | [q [-> Hc]]] [-> | [q' [-> Hc']]].
  - now left.
  - right. eauto.
  - right. eauto.
  - right. exists q'. split; [reflexivity | exact Hc].
Qed.

Lemma lowered_called threshold x x' :
  lowered threshold x x' -> called threshold x' = true -> called threshold x = true.
Proof. intros [-> | [q [_ Hc]]]; auto. Qed.

Lemma lowered_bin_id threshold x x' : lowered threshold x x' -> bin_id x' = bin_id x.
Proof. intros [-> | [q [-> _]]]; reflexivity. Qed.

Lemma called_positive threshold x :
  (0 <= threshold)%Q -> called threshold x = true ->
  exists q, probability x = Some q /\ (threshold < q)%Q /\ (0 < q)%Q.
Proof.
  intros H0 Hc. unfold called in Hc. destruct (probability x) as [q |]; [| discriminate Hc].
  apply Qltb_lt in Hc. exists q. split; [reflexivity |]. split; [exact Hc |].
  eapply Qle_lt_trans; eassumption.
Qed.

(** Whatever the new probability of a called peak is, the peak stays
    workable: it was an unflagged peak in a bin. *)
Lemma lowered_workable threshold x x' :
  (0 <= threshold)%Q -> workable x -> lowered threshold x x' -> workable x'.
Proof.
  intros H0 Hw [-> | [q [-> Hc]]]; [exact Hw |].
  destruct Hw as [_ [Hbin Hpos]]. split; [| split].
  - simpl. discriminate.
  - exact Hbin.
  - intros q' _ _. destruct (called_positive _ _ H0 Hc) as [q0 [Hq0 [_ Hlt]]].
    change (in_bin_unflagged x = true). eapply Hpos; eassumption.
Qed.

Lemma Forall_lowered_workable threshold peaks peaks' :
  (0 <= threshold)%Q -> Forall workable peaks ->
  Forall2 (lowered threshold) peaks peaks' -> Forall workable peaks'.
Proof.
  intros H0 Hw HF. induction HF as [| x x' l l' Hx _ IH]; [constructor |].
  apply Forall_cons_1 in Hw. destruct Hw as [Hwx Hwl].
  constructor; [eapply lowered_workable; eassumption | now apply IH].
Qed.

Lemma arithmetic_only_bind {A B : Type} (P : A -> Prop) (R : B -> Prop)
      (r : result A) (k : A -> result B) :
  arithmetic_only P r -> (forall a, P a -> arithmetic_only R (k a)) ->
  arithmetic_only R (r ≫= k).
Proof. unfold mbind, result_bind. destruct r as [a | e]; simpl; auto. Qed.

Lemma arithmetic_only_weaken {A : Type} (P R : A -> Prop) (r : result A) :
  (forall a, P a -> R a) -> arithmetic_only P r -> arithmetic_only R r.
Proof. destruct r as [a | e]; simpl; auto. Qed.

(** A power raises nothing but [OverflowError]. *)
Lemma float_pow_arithmetic (x : Q) (n : nat) :
  arithmetic_only (fun _ => True) (float_pow x n).
Proof.
  unfold float_pow. destruct n as [| n']; [exact I |].
  destruct (Qeq_bool x 0); [exact I |].
  unfold mbind, result_bind.
  destruct (Qeq_bool (Qabs x) 1); [exact I |].
  destruct (libm_pow (Qabs x) (S n')); [exact I | now left].
Qed.

Lemma true_div_arithmetic (x y : Q) : arithmetic_only (fun _ => True) (true_div x y).
Proof. unfold true_div. destruct (Qeq_bool y 0); [now right | exact I]. Qed.

(** The formula raises nothing but [OverflowError] and
    [ZeroDivisionError]. *)
Lemma probability_formula_arithmetic (this others : Q) (m : nat) :
  arithmetic_only (fun _ => True) (probability_formula this others m).
Proof.
  unfold probability_formula.
  eapply arithmetic_only_bind; [apply float_pow_arithmetic |]. intros total _.
  eapply arithmetic_only_bind; [apply float_pow_arithmetic |]. intros power _.
  apply true_div_arithmetic.
Qed.

Lemma for_rows_arithmetic {A S : Type} (selected : A -> bool)
      (body : S -> A -> result (S * A)) (Inv : S -> Prop) (R : A -> A -> Prop)
      (table : list A) :
  (forall s x, Inv s -> In x table -> selected x = true ->
               arithmetic_only (fun r => Inv (fst r) /\ R x (snd r)) (body s x)) ->
  forall s, Inv s ->
    arithmetic_only
      (fun r => Inv (fst r) /\
                Forall2 (fun x x' => if selected x then R x x' else x' = x) table (snd r))
      (for_rows selected body s table).
Proof.
  induction table as [| x rest IH]; intros H s Hs.
  - simpl. split; [exact Hs | constructor].
  - assert (Hrest : forall s0 y, Inv s0 -> In y rest -> selected y = true ->
                      arithmetic_only (fun r => Inv (fst r) /\ R y (snd r)) (body s0 y))
      by (intros s0 y Hs0 Hy; apply H; [exact Hs0 | now right]).
    simpl. unfold mbind, result_bind. destruct (selected x) eqn:Hsel.
    + pose proof (H s x Hs (or_introl eq_refl) Hsel) as Hb.
      destruct (body s x) as [[s1 x'] | e]; simpl in Hb |- *; [| exact Hb].
      destruct Hb as [Hs1 HR]. pose proof (IH Hrest s1 Hs1) as Hr.
      destruct (for_rows selected body s1 rest) as [[s2 rest'] | e];
        simpl in Hr |- *; [| exact Hr].
      destruct Hr as [Hs2 HF]. split; [exact Hs2 |].
      constructor; [now rewrite Hsel | exact HF].
    + simpl. pose proof (IH Hrest s Hs) as Hr.
      destruct (for_rows selected body s rest) as [[s2 rest'] | e];
        simpl in Hr |- *; [| exact Hr].
      destruct Hr as [Hs2 HF]. split; [exact Hs2 |].
      constructor; [now rewrite Hsel | exact HF].
Qed.

Section Locus.

Variable project : genotyping_project.
Variable frequencies : gmap Z (gmap (option Z) Q).
Variable m : nat.
Variable la : sample_locus_annotation.

Let threshold := probability_threshold project.
Let locus := la_locus_id la.
Let peaks := la_annotated_peaks la.
Let all_peaks := indexed_called threshold 0 peaks.

Hypothesis Hworkable : Forall workable peaks.
Hypothesis Hfed : fed frequencies threshold la.

Lemma all_peaks_workable j y :
  In (j, y) all_peaks ->
  peaks !! j = Some y /\ called threshold y = true /\ workable y /\
  default ∅ (frequencies !! locus) !! bin_id y <> None.
Proof.
  intros H. apply ProbabilityFacts.indexed_called_lookup in H.
  destruct H as [_ [Hj Hc]]. rewrite Nat.sub_0_r in Hj.
  assert (Hin : In y peaks)
    by (apply list_elem_of_In; eapply list_elem_of_lookup_2; exact Hj).
  split; [exact Hj |]. split; [exact Hc |]. split.
  - rewrite Forall_forall in Hworkable. apply Hworkable. now apply list_elem_of_In.
  - now apply Hfed.
Qed.

Lemma weighted_frequency_called j y :
  In (j, y) all_peaks ->
  weighted_frequency frequencies locus y = Ok (weight frequencies locus y).
Proof.
  intros H. destruct (all_peaks_workable j y H) as [_ [_ [Hw Hf]]].
  apply ProbabilityFacts.weighted_frequency_total;
    [now apply workable_probability | exact Hf].
Qed.

(** The frequencies and the probabilities are there: a new probability
    fails in the arithmetic of the formula only. *)
Lemma new_probability_returns j x :
  In (j, x) all_peaks ->
  arithmetic_only (fun _ => True) (new_probability frequencies locus m all_peaks x).
Proof.
  intros Hx. unfold new_probability, mbind, result_bind.
  rewrite (weighted_frequency_called j x Hx). simpl.
  rewrite ProbabilityFacts.weighted_frequencies_total.
  - simpl. apply probability_formula_arithmetic.
  - intros j' y Hy. apply filter_In in Hy. destruct Hy as [Hy _].
    destruct (all_peaks_workable j' y Hy) as [_ [_ [Hwk Hf]]].
    split; [now apply workable_probability | exact Hf].
Qed.

Lemma compute_new_probs_returns possible : forall acc,
  (forall j y, In (j, y) possible -> In (j, y) all_peaks) ->
  arithmetic_only
    (fun new_probs =>
       (forall j x, In (j, x) possible -> new_probs !! peak_index x <> None) /\
       (forall k, acc !! k <> None -> new_probs !! k <> None))
    (compute_new_probs frequencies locus m all_peaks possible acc).
Proof.
  induction possible as [| [j x] possible IH]; intros acc Hsub.
  - simpl. split; [intros j x [] | auto].
  - simpl. unfold mbind, result_bind.
    pose proof (new_probability_returns j x (Hsub j x (or_introl eq_refl))) as Hq.
    destruct (new_probability frequencies locus m all_peaks x) as [q | e];
      simpl in Hq |- *; [| exact Hq].
    eapply arithmetic_only_weaken;
      [| apply (IH (<[peak_index x := q]> acc));
         intros j' y Hy; apply Hsub; now right].
    intros np [Hkeys Hacc]. split.
    + intros j' y [[= <- <-] | Hy]; [| eapply Hkeys; exact Hy].
      apply Hacc. now rewrite lookup_insert_eq.
    + intros k Hk. apply Hacc. destruct (decide (k = peak_index x)) as [-> | Hne].
      * now rewrite lookup_insert_eq.
      * now rewrite lookup_insert_ne by congruence.
Qed.

Lemma assign_new_probs_returns (new_probs : gmap Z Q) possible :
  forall acc changed,
    NoDup (List.map fst possible) ->
    (forall j x, In (j, x) possible ->
                 acc !! j = Some x /\ called threshold x = true /\
                 new_probs !! peak_index x <> None) ->
    exists changed' peaks',
      assign_new_probs threshold new_probs possible acc changed = Ok (changed', peaks') /\
      Forall2 (lowered threshold) acc peaks'.
Proof.
  induction possible as [| [i x] possible IH]; intros acc changed Hnd Hin.
  - exists changed, acc. split; [reflexivity |].
    apply ProbabilityMore.Forall2_refl_gen. apply lowered_refl.
  - simpl. destruct (Hin i x (or_introl eq_refl)) as [Hi [Hc Hq]].
    destruct (new_probs !! peak_index x) as [q |]; [| now contradiction Hq].
    simpl in Hnd. inversion Hnd as [| ? ? Hni Hnd']; subst.
    destruct (IH (<[i := set_probability x q]> acc)
                 (if Qltb q threshold then true else changed) Hnd')
      as [c' [peaks' [Ha HF]]].
    { intros j y Hjy.
      assert (Hne : i <> j).
      { intros Heq. subst j. apply Hni. apply list_elem_of_In.
        apply in_map_iff. exists (i, y). now split. }
      rewrite list_lookup_insert_ne by exact Hne. apply Hin. now right. }
    exists c', peaks'. split; [exact Ha |].
    eapply ProbabilityMore.Forall2_trans_gen; [apply lowered_trans | | exact HF].
    eapply ProbabilityMore.Forall2_insert_r; [apply lowered_refl | exact Hi |].
    right. exists q. auto.
Qed.

(** On a live row whose peaks are workable and fed, [annotate_locus]
    fails in the arithmetic of the formula only. *)
Lemma annotate_locus_returns changed :
  arithmetic_only
    (fun r => exists peaks', snd r = set_annotated_peaks la peaks' /\
                             Forall2 (lowered threshold) peaks peaks')
    (annotate_locus project frequencies m changed la).
Proof.
  unfold annotate_locus.
  rewrite ProbabilityFacts.all_peaks_from_total.
  2:{ intros x Hx. apply workable_probability. rewrite Forall_forall in Hworkable.
      apply Hworkable. now apply list_elem_of_In. }
  unfold mbind, result_bind. simpl. fold threshold locus peaks all_peaks.
  set (possible := List.filter
                     (fun y => possible_artifact (get_locus_parameters project locus)
                                                 (snd y)) all_peaks).
  assert (Hsub : forall j y, In (j, y) possible -> In (j, y) all_peaks)
    by (intros j y Hy; apply filter_In in Hy; apply Hy).
  pose proof (compute_new_probs_returns possible ∅ Hsub) as Hnp.
  destruct (compute_new_probs frequencies locus m all_peaks possible ∅) as [np | e];
    simpl in Hnp |- *; [| exact Hnp].
  destruct Hnp as [Hkeys _].
  destruct (assign_new_probs_returns np possible peaks changed) as [c' [peaks' [Ha HF]]].
  - apply ProbabilityFacts.NoDup_map_filter. apply ProbabilityFacts.indexed_called_NoDup.
  - intros j x Hx. destruct (all_peaks_workable j x (Hsub j x Hx)) as [Hj [Hc _]].
    split; [exact Hj |]. split; [exact Hc |]. exact (Hkeys j x Hx).
  - rewrite Ha. simpl. eauto.
Qed.

End Locus.

Lemma sample_moi_returns threshold selected table :
  (forall la, In la table -> selected la = true ->
              (exists b, active la = Ok b) /\
              (active la = Ok true -> Forall workable (la_annotated_peaks la))) ->
  forall m0, exists m, sample_moi threshold selected m0 table = Ok m.
Proof.
  induction table as [| la table IH]; intros H m0; [now exists m0 |].
  simpl. unfold mbind, result_bind.
  assert (Hrest : forall la', In la' table -> selected la' = true ->
                              (exists b, active la' = Ok b) /\
                              (active la' = Ok true ->
                               Forall workable (la_annotated_peaks la')))
    by (intros la' Hin; apply H; now right).
  destruct (selected la) eqn:Hsel; [| simpl; now apply IH].
  destruct (H la (or_introl eq_refl) Hsel) as [[b Hb] Hw]. rewrite Hb. simpl.
  destruct b; [| simpl; now apply IH].
  specialize (Hw Hb). rewrite Forall_forall in Hw.
  destruct (ProbabilityFacts.count_called_total threshold (la_annotated_peaks la))
    as [n Hn].
  { intros x Hx. apply workable_probability. apply Hw. now apply list_elem_of_In. }
  rewrite Hn. simpl. now apply IH.
Qed.

Lemma good_ready project db frequencies la :
  good project db frequencies la -> ready project db la.
Proof.
  intros H Hp. destruct (H Hp) as [Hb Hw]. split; [exact Hb |].
  intros Ha. now apply Hw.
Qed.

Lemma Forall_good_ready project db frequencies table :
  Forall (good project db frequencies) table -> Forall (ready project db) table.
Proof.
  rewrite !Forall_forall. intros H la Hin. eapply good_ready. now apply H.
Qed.

Lemma Forall2_if_unselected {A : Type} (P : A -> Prop) (selected : A -> bool) l l' :
  (forall x, In x l -> selected x = false -> P x) ->
  Forall2 (fun x x' => if selected x then P x' else x' = x) l l' ->
  Forall P l'.
Proof.
  intros HP HF. induction HF as [| x x' l l' Hx _ IH]; [constructor |].
  constructor; [| apply IH; intros y Hy; apply HP; now right].
  destruct (selected x) eqn:Hsel; [exact Hx |]. subst x'. apply HP; [now left | exact Hsel].
Qed.

Lemma Forall2_if_Forall {A : Type} (P : A -> Prop) (selected : A -> bool) l l' :
  Forall P l ->
  Forall2 (fun x x' => if selected x then P x' else x' = x) l l' ->
  Forall P l'.
Proof.
  intros HP. apply Forall2_if_unselected. intros x Hx _.
  rewrite Forall_forall in HP. apply HP. now apply list_elem_of_In.
Qed.

(** A row of the project, annotated: still good, unless the arithmetic of
    the formula failed. *)
Lemma annotate_row_good project db frequencies m changed la :
  (0 <= probability_threshold project)%Q ->
  in_project project db la = true ->
  good project db frequencies la ->
  arithmetic_only
    (fun r => True /\ good project db frequencies (snd r))
    (a ← active la;
     if (a : bool) then annotate_locus project frequencies m changed la
     else Ok (changed, la)).
Proof.
  intros H0 Hp Hgood. destruct (Hgood Hp) as [[b Hb] Hw].
  unfold mbind, result_bind. rewrite Hb. simpl. destruct b.
  - destruct (Hw Hb) as [Hwk Hfed].
    pose proof (annotate_locus_returns project frequencies m la Hwk Hfed changed)
      as Ha.
    destruct (annotate_locus project frequencies m changed la) as [[c' la'] | e];
      simpl in Ha |- *; [| exact Ha].
    destruct Ha as [peaks' [-> HF]]. split; [exact I |]. intros _.
    assert (Hact : active (set_annotated_peaks la peaks') = Ok true).
    { unfold active in Hb |- *. simpl. apply Forall2_length in HF.
      destruct (la_annotated_peaks la), peaks'; try discriminate HF;
        [discriminate Hb | exact Hb]. }
    split; [eauto |]. intros _. split.
    + eapply Forall_lowered_workable; [exact H0 | exact Hwk | exact HF].
    + intros x' Hx' Hc. simpl in Hx'.
      destruct (GenotypingFacts.Forall2_In_r _ _ _ _ HF Hx') as [x [Hx Hlow]].
      rewrite (lowered_bin_id _ _ _ Hlow). simpl. apply Hfed; [exact Hx |].
      eapply lowered_called; eassumption.
  - simpl. split; [exact I | exact Hgood].
Qed.

Lemma annotate_sample_returns project db frequencies changed table sa :
  (0 <= probability_threshold project)%Q ->
  Forall (good project db frequencies) table ->
  arithmetic_only
    (fun r => Forall (good project db frequencies) (snd (fst r)) /\ True)
    (annotate_sample project db frequencies (changed, table) sa).
Proof.
  intros H0 Hgood. unfold annotate_sample.
  destruct (sample_moi_returns (probability_threshold project)
                               (of_sample project db sa) table) with (m0 := 0%nat)
    as [m Hm].
  { intros la Hin Hsel. apply ProbabilityFacts.of_sample_in_project in Hsel.
    rewrite Forall_forall in Hgood. apply list_elem_of_In in Hin.
    destruct (Hgood la Hin Hsel) as [Hb Hw]. split; [exact Hb |].
    intros Ha. now apply Hw. }
  rewrite Hm. unfold mbind, result_bind. simpl.
  match goal with
  | |- context [for_rows ?sel ?body changed table] =>
      pose proof (for_rows_arithmetic sel body (fun _ => True)
                    (fun _ la' => good project db frequencies la') table) as Hr;
        specialize (fun H => Hr H changed I);
        destruct (for_rows sel body changed table) as [[c' table'] | e];
        simpl in Hr |- *
  end.
  - split; [| exact I]. eapply Forall2_if_Forall; [exact Hgood |]. apply Hr.
    intros c la _ Hin Hsel. apply ProbabilityFacts.of_sample_in_project in Hsel.
    rewrite Forall_forall in Hgood. apply list_elem_of_In in Hin.
    exact (annotate_row_good project db frequencies m c la H0 Hsel (Hgood la Hin)).
  - apply Hr.
    intros c la _ Hin Hsel. apply ProbabilityFacts.of_sample_in_project in Hsel.
    rewrite Forall_forall in Hgood. apply list_elem_of_In in Hin.
    exact (annotate_row_good project db frequencies m c la H0 Hsel (Hgood la Hin)).
Qed.

Lemma called_counted threshold x :
  (0 <= threshold)%Q -> workable x -> called threshold x = true ->
  counted threshold x = Ok true.
Proof.
  intros H0 [_ [_ Hpos]] Hc.
  destruct (called_positive _ _ H0 Hc) as [q [Hq [Hlt Hq0]]].
  specialize (Hpos q Hq Hq0). unfold in_bin_unflagged in Hpos.
  apply andb_true_iff in Hpos. destruct Hpos as [Hbin Hflag].
  apply negb_true_iff in Hflag. unfold counted, get_probability.
  destruct (in_bin x) as [[|] |]; try discriminate Hbin.
  rewrite Hflag, Hq. simpl. f_equal. apply Qleb_le. now apply Qlt_le_weak.
Qed.

(** One cycle on ready rows leaves ready rows, unless the arithmetic of
    the formula failed. *)
Lemma cycle_returns project initial db :
  (0 <= probability_threshold project)%Q ->
  Forall (ready project initial) (locus_annotations_table db) ->
  arithmetic_only
    (fun r => Forall (ready project initial) (locus_annotations_table (fst r)))
    (cycle project initial db).
Proof.
  intros H0 Hready. unfold cycle.
  destruct (count_alleles_positive (probability_threshold project)
              (in_project project initial) (locus_annotations_table db)
              {| allele_counts := ∅; locus_totals := ∅ |})
    as [t [Ht [_ Hcover]]].
  { intros la Hin Hp. rewrite Forall_forall in Hready. apply list_elem_of_In in Hin.
    exact (Hready la Hin Hp). }
  rewrite Ht. unfold mbind, result_bind. simpl.
  assert (Hgood : Forall (good project initial (allele_frequencies t))
                         (locus_annotations_table db)).
  { apply Forall_forall. intros la Hin Hp. rewrite Forall_forall in Hready.
    destruct (Hready la Hin Hp) as [Hb Hw]. split; [exact Hb |].
    intros Ha. specialize (Hw Ha). split; [exact Hw |].
    intros x Hx Hc. rewrite Forall_forall in Hw.
    assert (Hwx : workable x) by (apply Hw; now apply list_elem_of_In).
    destruct (Hcover la x) as [n Hn]; auto.
    - now apply list_elem_of_In.
    - now apply called_counted.
    - eapply allele_frequencies_key; eassumption. }
  match goal with
  | |- context [for_rows ?sel ?body ?s0 ?t0] =>
      pose proof (for_rows_arithmetic sel body
                    (fun s : bool * list sample_locus_annotation =>
                       Forall (good project initial (allele_frequencies t)) (snd s))
                    (fun _ _ => True) t0) as Hr;
        specialize (fun H => Hr H s0 Hgood);
        destruct (for_rows sel body s0 t0) as [[[c' table'] samples] | e];
        simpl in Hr |- *
  end.
  - eapply Forall_good_ready. apply Hr.
    intros [c tbl] sa Hinv _ _. simpl in Hinv.
    exact (annotate_sample_returns project initial (allele_frequencies t) c tbl sa
                                   H0 Hinv).
  - apply Hr.
    intros [c tbl] sa Hinv _ _. simpl in Hinv.
    exact (annotate_sample_returns project initial (allele_frequencies t) c tbl sa
                                   H0 Hinv).
Qed.

Lemma cycles_loop_returns project initial :
  (0 <= probability_threshold project)%Q ->
  forall fuel db cycles,
    (called_in_table (probability_threshold project) (locus_annotations_table db)
     < fuel)%nat ->
    Forall (ready project initial) (locus_annotations_table db) ->
    exists r,
      cycles_loop fuel project initial db cycles = Some r /\
      arithmetic_only
        (fun r => Forall (ready project initial) (locus_annotations_table (fst r))) r.
Proof.
  intros H0. induction fuel as [| fuel IH]; intros db cycles Hlt Hready; [lia |].
  simpl. pose proof (cycle_returns project initial db H0 Hready) as Hc.
  destruct (cycle project initial db) as [[db1 changed] | e] eqn:Hcy;
    simpl in Hc; [| eexists; split; [reflexivity | exact Hc]].
  apply ProbabilityMore.cycle_keeps in Hcy.
  destruct Hcy as [_ [_ [_ [Hle [_ Hdec]]]]]. simpl in Hle, Hdec.
  destruct changed.
  - specialize (Hdec eq_refl eq_refl). apply IH; [lia | exact Hc].
  - eexists. split; [reflexivity | exact Hc].
Qed.

Lemma finalize_returns project initial db :
  Forall (ready project initial) (locus_annotations_table db) ->
  exists db', finalize project initial db = Ok db'.
Proof.
  intros Hready. unfold finalize.
  match goal with
  | |- context [for_rows ?sel ?body ?s0 ?t0] =>
      destruct (ProbabilityFacts.for_rows_inv sel body
                  (fun s : list sample_locus_annotation =>
                     Forall (ready project initial) s)
                  (fun _ _ => True) t0)
        with (s := s0) as [table' [samples [Hr _]]]
  end.
  - intros tbl sa Hinv _ _. cbv beta.
    match goal with
    | |- context [for_rows ?sel ?body tt tbl] =>
        destruct (ProbabilityFacts.for_rows_inv sel body (fun _ => True)
                    (fun _ la' => ready project initial la') tbl)
          with (s := tt) as [u [tbl' [Hr [_ HF]]]]
    end.
    + intros u la _ Hin Hsel. apply ProbabilityFacts.of_sample_in_project in Hsel.
      rewrite Forall_forall in Hinv. apply list_elem_of_In in Hin.
      pose proof (Hinv la Hin) as Hla. destruct (Hla Hsel) as [[b Hb] Hw].
      unfold finalize_alleles, mbind, result_bind. rewrite Hb. simpl. destruct b.
      * specialize (Hw Hb). rewrite Forall_forall in Hw.
        destruct (ProbabilityFacts.call_probable_alleles_total
                    (probability_threshold project) (la_annotated_peaks la)
                    (all_false (alleles la))) as [al Hal].
        { intros x Hx. apply workable_probability. apply Hw.
          now apply list_elem_of_In. }
        rewrite Hal. simpl. eexists _, _. split; [reflexivity |].
        split; [exact I | exact Hla].
      * eexists _, _. split; [reflexivity |]. split; [exact I | exact Hla].
    + exact I.
    + rewrite Hr. unfold mbind, result_bind. simpl.
      eexists _, _. split; [reflexivity |]. split; [| exact I].
      eapply Forall2_if_Forall; eassumption.
  - exact Hready.
  - rewrite Hr. unfold mbind, result_bind. simpl. eauto.
Qed.

Lemma initialize_returns project db :
  analysed project db ->
  exists table0,
    for_rows (in_project project db)
             (fun (_ : unit) la => la' ← initialize_probabilities la; Ok (tt, la'))
             tt (locus_annotations_table db) = Ok (tt, table0) /\
    Forall (ready project db) table0.
Proof.
  intros Han.
  match goal with
  | |- context [for_rows ?sel ?body tt ?t0] =>
      destruct (ProbabilityFacts.for_rows_inv sel body (fun _ => True)
                  (fun _ la' => ready project db la') t0)
        with (s := tt) as [[] [table0 [Hr [_ HF]]]]
  end.
  - intros [] la _ Hin Hp. destruct (Han la Hin Hp) as [Hflag Hbin].
    assert (Hb : exists b, active la = Ok b).
    { unfold active. destruct (la_annotated_peaks la) as [| x rest]; [eauto |].
      destruct (la_flags la !! "failure") as [b |] eqn:Hf; [eauto |].
      exfalso. now apply Hflag. }
    destruct Hb as [b Hb]. unfold initialize_probabilities, mbind, result_bind.
    rewrite Hb. simpl. eexists tt, _. split; [reflexivity |]. split; [exact I |].
    intros _. destruct b.
    + assert (Hact : active (set_annotated_peaks la
                               (List.map (fun x => set_probability x (initial_probability x))
                                         (la_annotated_peaks la))) = Ok true).
      { unfold active in Hb |- *. simpl.
        destruct (la_annotated_peaks la); [discriminate Hb | exact Hb]. }
      split; [eauto |]. intros _. simpl. apply Forall_forall. intros x' Hx'.
      apply list_elem_of_In, in_map_iff in Hx'. destruct Hx' as [x [<- Hx]].
      split; [simpl; discriminate |].
      split; [exact (Hbin Hb x Hx) |].
      intros q [= <-] Hq. change (in_bin_unflagged x = true).
      unfold initial_probability in Hq.
      destruct (in_bin_unflagged x); [reflexivity | discriminate Hq].
    + split; [eauto |]. intros Ha. congruence.
  - exact I.
  - exists table0. split; [exact Hr |].
    eapply Forall2_if_unselected; [| exact HF].
    intros la _ Hp Hp'. congruence.
Qed.

(** Once the probabilities are initialized on ready rows, the call ends:
    it returns, or the arithmetic of the formula failed. *)
Lemma cycles_then_finalize project db fuel table0 :
  (0 <= probability_threshold project)%Q ->
  for_rows (in_project project db)
           (fun (_ : unit) la => la' ← initialize_probabilities la; Ok (tt, la'))
           tt (locus_annotations_table db) = Ok (tt, table0) ->
  Forall (ready project db) table0 ->
  (peaks_in_table (locus_annotations_table db) < fuel)%nat ->
  (exists db' cycles,
      probabilistic_peak_annotation fuel project db = Some (Ok (db', cycles))) \/
  probabilistic_peak_annotation fuel project db = Some (Raise OverflowError) \/
  probabilistic_peak_annotation fuel project db = Some (Raise ZeroDivisionError).
Proof.
  intros H0 Hi Hready Hfuel. unfold probabilistic_peak_annotation.
  rewrite Hi.
  pose proof (ProbabilityMore.initialize_touched _ _ _ _ Hi) as Ht.
  pose proof (ProbabilityMore.touched_peaks_in_table _ _ _ _ Ht) as Hpk.
  pose proof (ProbabilityMore.called_in_table_le (probability_threshold project) table0)
    as Hle.
  match goal with
  | |- context [cycles_loop fuel project db ?db0 0] =>
      destruct (cycles_loop_returns project db H0 fuel db0 0) as [r [Hc Hr]];
        [simpl; lia | exact Hready |]; rewrite Hc
  end.
  destruct r as [[db1 n] | e]; simpl in Hr.
  - destruct (finalize_returns project db db1 Hr) as [db2 Hf].
    rewrite Hf. left. eauto.
  - right. destruct Hr as [-> | ->]; [now left | now right].
Qed.

(** On analysed tables, with a threshold that is not negative and fuel
    for one cycle more than there are peaks,
    [probabilistic_peak_annotation] ends and finds every key it reads,
    whatever the floats do: it raises no [KeyError], on a flag, on
    [in_bin] or [probability] of a peak, on an allele frequency or on a
    new probability. The arithmetic of the formula can still fail, with
    [OverflowError] for a power out of range and [ZeroDivisionError] for
    a total of 0. *)
Theorem probabilistic_peak_annotation_no_key_error
        (project : genotyping_project) (db : database) (fuel : nat) :
  (0 <= probability_threshold project)%Q ->
  analysed project db ->
  (peaks_in_table (locus_annotations_table db) < fuel)%nat ->
  exists r,
    probabilistic_peak_annotation fuel project db = Some r /\
    forall key, r <> Raise (KeyError key).
Proof.
  intros H0 Han Hfuel.
  destruct (initialize_returns project db Han) as [table0 [Hi Hready]].
  destruct (cycles_then_finalize project db fuel table0 H0 Hi Hready Hfuel)
    as [[db' [cycles ->]] | [-> | ->]];
    eexists; (split; [reflexivity | discriminate]).
Qed.

Lemma in_project_same_tables project db db' la :
  sample_annotations_table db' = sample_annotations_table db ->
  in_project project db' la = in_project project db la.
Proof. intros H. unfold in_project, sample_annotation_of. now rewrite H. Qed.

(** [analyze_samples] leaves the rows of its locus analysed when the peaks
    of the runs carry [in_bin]. *)
Lemma analyze_samples_analysed project db db' locus_id :
  analyze_samples project db locus_id = Ok db' ->
  (forall ca x, In ca (channel_annotations_table db) ->
                In x (ca_annotated_peaks ca) -> in_bin x <> None) ->
  (forall la, In la (locus_annotations_table db) ->
              in_project project db la = true -> la_locus_id la <> locus_id ->
              (la_annotated_peaks la <> [] -> la_flags la !! "failure" <> None) /\
              (active la = Ok true ->
               forall x, In x (la_annotated_peaks la) -> in_bin x <> None)) ->
  analysed project db'.
Proof.
  intros H Hbin Hother la' Hin Hp.
  destruct (GenotypingFacts.analyze_samples_rows _ _ _ _ H) as [_ [Hs HF]].
  rewrite (in_project_same_tables project db db' la' Hs) in Hp.
  destruct (GenotypingFacts.Forall2_In_r _ _ _ _ HF Hin) as [la [Hla Hrel]].
  destruct (in_project project db la && bool_decide (la_locus_id la = locus_id))
    eqn:Hsel.
  - destruct Hrel as [sa [_ Ha]].
    destruct (reference_run la') as [id |] eqn:Href.
    + destruct (GenotypingMore.analyze_sample_some _ _ _ _ _ _ Ha) as [ca [Hb ->]];
        [congruence |].
      apply GenotypingFacts.get_best_run_in_table in Hb. simpl. split.
      * intros _. rewrite lookup_insert_ne by done. rewrite lookup_insert_ne by done.
        now rewrite lookup_insert_eq.
      * intros _ x Hx. apply in_map_iff in Hx. destruct Hx as [y [<- Hy]].
        simpl. eapply Hbin; eassumption.
    + destruct (GenotypingMore.analyze_sample_none _ _ _ _ _ _ Ha Href) as [_ ->].
      simpl. split; [congruence |]. intros Hact. discriminate Hact.
  - subst la'. apply Hother; [exact Hla | exact Hp |].
    rewrite Hp in Hsel. simpl in Hsel. now apply bool_decide_eq_false in Hsel.
Qed.

(** The two steps compose: after [analyze_samples] has run for a locus,
    [probabilistic_peak_annotation] ends and raises no [KeyError],
    whatever the floats do, provided the peaks of the runs carry
    [in_bin], the annotations of the other loci of the project have a
    [failure] flag and binned peaks, and the probability threshold is not
    negative. *)
Theorem analysis_then_annotation_no_key_error
        (project : genotyping_project) (db db1 : database) (locus_id : Z)
        (fuel : nat) :
  analyze_samples project db locus_id = Ok db1 ->
  (0 <= probability_threshold project)%Q ->
  (forall ca x, In ca (channel_annotations_table db) ->
                In x (ca_annotated_peaks ca) -> in_bin x <> None) ->
  (forall la, In la (locus_annotations_table db) ->
              in_project project db la = true -> la_locus_id la <> locus_id ->
              (la_annotated_peaks la <> [] -> la_flags la !! "failure" <> None) /\
              (active la = Ok true ->
               forall x, In x (la_annotated_peaks la) -> in_bin x <> None)) ->
  (peaks_in_table (locus_annotations_table db1) < fuel)%nat ->
  exists r,
    probabilistic_peak_annotation fuel project db1 = Some r /\
    forall key, r <> Raise (KeyError key).
Proof.
  intros H H0 Hbin Hother Hfuel.
  pose proof (analyze_samples_analysed _ _ _ _ H Hbin Hother) as Han.
  destruct (initialize_returns project db1 Han) as [table0 [Hi Hready]].
  destruct (cycles_then_finalize project db1 fuel table0 H0 Hi Hready Hfuel)
    as [[db' [cycles ->]] | [-> | ->]];
    eexists; (split; [reflexivity | discriminate]).
Qed.

End Arithmetic.

Lemma example_stutter_analysed : analysed example_project example_stutter_database.
Proof.
  intros la [<- | [<- | []]] _; (split; [discriminate |]).
  - intros _ x [<- | [<- | [<- | []]]]; discriminate.
  - intros _ x [<- | [<- | []]]; discriminate.
Qed.

Lemma probabilistic_peak_annotation_no_key_error_witness :
  exists r,
    probabilistic_peak_annotation (fa := exact_arithmetic) 6 example_project
                                  example_stutter_database = Some r /\
    forall key, r <> Raise (KeyError key).
Proof.
  apply (probabilistic_peak_annotation_no_key_error example_project
           example_stutter_database 6).
  - discriminate.
  - exact example_stutter_analysed.
  - vm_compute. lia.
Defined.

(** The three outcomes, on the same tables: without rounding the call
    returns after two cycles; when the powers are out of range it raises
    [OverflowError]; when they underflow to 0 it raises
    [ZeroDivisionError]. *)
Example probabilistic_peak_annotation_outcomes :
  (exists db',
      probabilistic_peak_annotation (fa := exact_arithmetic) 6 example_project
                                    example_stutter_database
      = Some (Ok (db', 2%nat))) /\
  probabilistic_peak_annotation (fa := overflowing_arithmetic) 6 example_project
                                example_stutter_database
  = Some (Raise OverflowError) /\
  probabilistic_peak_annotation (fa := underflowing_arithmetic) 6 example_project
                                example_stutter_database
  = Some (Raise ZeroDivisionError).
Proof.
  split; [eexists; vm_compute; reflexivity |].
  split; vm_compute; reflexivity.
Qed.

Lemma analysis_then_annotation_no_key_error_witness :
  exists r,
    probabilistic_peak_annotation (fa := exact_arithmetic) 3 example_project
                                  example_analyzed = Some r /\
    forall key, r <> Raise (KeyError key).
Proof.
  apply (analysis_then_annotation_no_key_error example_project example_database
           example_analyzed 5 3).
  - reflexivity.
  - discriminate.
  - intros ca x [<- | [<- | []]] Hx; simpl in Hx.
    + destruct Hx as [<- | []]. discriminate.
    + destruct Hx as [<- | [<- | []]]; discriminate.
  - intros la [<- | []] _ Hl. now contradiction Hl.
  - vm_compute. lia.
Defined.

End ProbabilityTotal.

(** ** Recalculation of a locus *)

Module ProjectsFacts.
Import Staleness Genotyping Projects.
Local Open Scope list_scope.

Section Pipeline.

Variable recalculate_channels : list Z -> bool -> database -> result database.

Lemma recalculate_locus_flags project locus_id locus_parameters db row db' :
  recalculate_locus recalculate_channels project locus_id locus_parameters db
  = Ok (row, db') ->
  row = clear_stale locus_parameters.
Proof.
  unfold recalculate_locus, mbind, result_bind.
  destruct (if scanning_parameters_stale locus_parameters
            then _ else _) as [db1 |]; simpl; [| discriminate].
  now intros [= <- _].
Qed.

(** Recalculation is done once: after [recalculate_locus] has returned,
    both staleness flags of the locus are false, and a second
    [recalculate_locus] returns the same tables without running the
    pipeline on any channel. *)
Theorem recalculate_locus_once
        (project : genotyping_project) (locus_id : Z)
        (locus_parameters row : locus_params_row) (db db' : database) :
  recalculate_locus recalculate_channels project locus_id locus_parameters db
  = Ok (row, db') ->
  scanning_parameters_stale row = false /\
  filter_parameters_stale row = false /\
  forall pipeline,
    recalculate_locus pipeline project locus_id row db' = Ok (row, db').
Proof.
  intros H. apply recalculate_locus_flags in H. subst row.
  split; [reflexivity |]. split; [reflexivity |].
  intros pipeline. unfold recalculate_locus. simpl. unfold clear_stale. simpl.
  rewrite (StalenessMore.assign_flag_comm "scanning_parameters_stale" false
                                          "filter_parameters_stale" false)
    by discriminate.
  now rewrite !StalenessMore.assign_flag_again.
Qed.

(** An edit of the parameters reaches the channels: once the
    [before_update] listeners have seen an update that changes a scanning
    parameter of the locus, [recalculate_locus] scans the peaks of every
    channel annotation of the project at the locus again; after an update
    that changes a filter parameter only, on a row whose scanning
    parameters were not stale, it filters them again without scanning. *)
Theorem recalculate_locus_after_update
        (project : genotyping_project) (locus_id : Z)
        (target : locus_params_row) (db : database) :
  let ids := List.map ca_id (get_locus_channel_annotations project db locus_id) in
  (update_changes target scanning_parameters_keys ->
   recalculate_locus recalculate_channels project locus_id (before_update target) db
   = (db' ← recalculate_channels ids true db;
      Ok (clear_stale (before_update target), db'))) /\
  (update_changes target filter_parameters_keys ->
   scanning_parameters_stale target = false ->
   ~ update_changes target scanning_parameters_keys ->
   recalculate_locus recalculate_channels project locus_id (before_update target) db
   = (db' ← recalculate_channels ids false db;
      Ok (clear_stale (before_update target), db'))).
Proof.
  intros ids. unfold recalculate_locus. fold ids.
  rewrite StalenessFacts.before_update_stale_parameters.
  destruct (StalenessFacts.stale_parameters_flags target) as [Hfl Hsc].
  rewrite Hfl, Hsc. split.
  - intros H. apply StalenessMore.params_changed_iff in H. rewrite H.
    now rewrite orb_true_r.
  - intros Hf Hs Hn. apply StalenessMore.params_changed_iff in Hf. rewrite Hf, Hs.
    destruct (params_changed (row_state target) scanning_parameters_keys) eqn:E.
    + exfalso. apply Hn. now apply StalenessMore.params_changed_iff.
    + simpl. now rewrite orb_true_r.
Qed.

End Pipeline.

Lemma recalculate_locus_once_witness :
  scanning_parameters_stale (clear_stale (before_update example_row)) = false /\
  filter_parameters_stale (clear_stale (before_update example_row)) = false /\
  forall pipeline,
    recalculate_locus pipeline example_project 5
                      (clear_stale (before_update example_row)) example_database
    = Ok (clear_stale (before_update example_row), example_database).
Proof.
  apply (recalculate_locus_once (fun _ _ db => Ok db) example_project 5
           (before_update example_row) (clear_stale (before_update example_row))
           example_database example_database).
  reflexivity.
Defined.

Lemma recalculate_locus_after_update_witness :
  recalculate_locus example_pipeline example_project 5 (before_update example_row)
                    example_database
  = (db' ← example_pipeline
             (List.map ca_id
                       (get_locus_channel_annotations example_project example_database 5))
             true example_database;
     Ok (clear_stale (before_update example_row), db')).
Proof.
  apply (proj1 (recalculate_locus_after_update example_pipeline example_project 5
                  example_row example_database)).
  split; [reflexivity |]. eexists. split; [| split].
  - apply list_elem_of_In. right. right. left. reflexivity.
  - apply list_elem_of_In. simpl. tauto.
  - split; [reflexivity |]. split; [reflexivity |]. left. discriminate.
Defined.

End ProjectsFacts.
